(** * Rummikub-game: the rule and placement engine of [rummikub_game.py]

    A shallow embedding of the engine functions of [src/rummikub_game.py]
    (cluster scan, meld validation with commit and rollback, the opponent's
    turn, the draws and the game-over test) and the properties of them.

    Conventions of the embedding:
    - a Python [dict] is an insertion-ordered association list with unique
      keys ([dict_set] overwrites in place or appends, as Python does);
    - a [pygame.Rect] is a mutable object: rectangles live in a store
      ([heap]) and the dictionaries hold their addresses, so that the
      aliasing between [game_object_database], [PLAYER_1], [PLAYER_2] and
      [image_database] is the one of the program;
    - a Python exception is the [Raise] branch of [result];
    - [random.randint] reads an explicit entropy list;
    - the constants of the modules [surface_info] and [draw_grids], which
      the program imports with [import *], are the fields of [config]. *)

From Stdlib Require Import ZArith List String Ascii Bool Lia Permutation Sorted.
From Stdlib Require Import DecimalString.
From Stdlib Require DecimalFacts DecimalNat.
From stdpp Require Import base list strings.
Import ListNotations.
Local Open Scope string_scope.
Local Open Scope list_scope.
Local Open Scope Z_scope.

(** ** Exceptions *)

Inductive exn : Type :=
| KeyError
| IndexError
| ValueError
| StopIteration
| OutOfEntropy.   (* not a Python exception: the entropy list ran out *)

Inductive result (A : Type) : Type :=
| Ok (a : A)
| Raise (e : exn).
Arguments Ok {A} a.
Arguments Raise {A} e.

Definition rbind {A B : Type} (m : result A) (k : A -> result B) : result B :=
  match m with
  | Ok a => k a
  | Raise e => Raise e
  end.

Notation "'do' x <- m ; k" := (rbind m (fun x => k))
  (at level 10, x pattern, m at level 100, k at level 200).

Definition of_option {A : Type} (e : exn) (o : option A) : result A :=
  match o with
  | Some a => Ok a
  | None => Raise e
  end.

(** ** Python strings *)

(** [s[-a:-b]] for [0 < b <= a]: Python clamps both ends at [0]. *)
Definition slice_neg (a b : nat) (s : string) : string :=
  let n := String.length s in
  let start := (n - a)%nat in
  let stop := (n - b)%nat in
  substring start (stop - start) s.

Definition is_digit_ascii (c : ascii) : bool :=
  let n := nat_of_ascii c in (48 <=? n)%nat && (n <=? 57)%nat.

Fixpoint all_digits (s : string) : bool :=
  match s with
  | EmptyString => true
  | String c s' => is_digit_ascii c && all_digits s'
  end.

(** [str.isdigit()] on an ASCII string: not empty, digits only. *)
Definition isdigit (s : string) : bool :=
  match s with
  | EmptyString => false
  | _ => all_digits s
  end.

Fixpoint digits_value (acc : Z) (s : string) : Z :=
  match s with
  | EmptyString => acc
  | String c s' => digits_value (10 * acc + (Z.of_nat (nat_of_ascii c) - 48)) s'
  end.

(** [int(s)], on the strings the program passes to it: the one or two last
    characters of a key before its extension. A string of ASCII digits is
    its decimal value; on anything else of that shape [int] raises
    [ValueError]. *)
Definition py_int (s : string) : result Z :=
  if isdigit s then Ok (digits_value 0 s) else Raise ValueError.

(** [sub in s] *)
Definition str_in (sub s : string) : bool :=
  match index 0 sub s with
  | Some _ => true
  | None => match sub with EmptyString => true | _ => false end
  end.

(** [str(n)] for a non-negative integer. *)
Definition str_of_nat (n : nat) : string :=
  NilZero.string_of_uint (Nat.to_uint n).

(** ** Python dictionaries: insertion-ordered, unique keys *)

Definition dict (V : Type) : Type := list (string * V).

Fixpoint dict_get {V : Type} (k : string) (d : dict V) : option V :=
  match d with
  | [] => None
  | (k', v) :: d' => if String.eqb k k' then Some v else dict_get k d'
  end.

Definition dict_mem {V : Type} (k : string) (d : dict V) : bool :=
  match dict_get k d with
  | Some _ => true
  | None => false
  end.

(** [d[k] = v]: an existing key keeps its place. *)
Fixpoint dict_set {V : Type} (k : string) (v : V) (d : dict V) : dict V :=
  match d with
  | [] => [(k, v)]
  | (k', v') :: d' =>
      if String.eqb k k' then (k', v) :: d' else (k', v') :: dict_set k v d'
  end.

(** [del d[k]] when [k] is known to be a key. *)
Fixpoint dict_del {V : Type} (k : string) (d : dict V) : dict V :=
  match d with
  | [] => []
  | (k', v') :: d' =>
      if String.eqb k k' then d' else (k', v') :: dict_del k d'
  end.

Definition dict_keys {V : Type} (d : dict V) : list string := map fst d.

(** ** Sorting: [sorted] is stable *)

Fixpoint insert_sorted {A : Type} (leb : A -> A -> bool) (x : A) (l : list A) : list A :=
  match l with
  | [] => [x]
  | y :: l' => if leb y x then y :: insert_sorted leb x l' else x :: l
  end.

(** Stable: an element goes after the elements that are not greater. *)
Definition py_sorted {A : Type} (leb : A -> A -> bool) (l : list A) : list A :=
  fold_left (fun acc x => insert_sorted leb x acc) l [].

(** [list.remove(x)]: the first occurrence, [ValueError] when there is none. *)
Fixpoint list_remove {A : Type} (eqb : A -> A -> bool) (x : A) (l : list A) : result (list A) :=
  match l with
  | [] => Raise ValueError
  | y :: l' => if eqb x y then Ok l' else do r <- list_remove eqb x l'; Ok (y :: r)
  end.

Definition list_mem {A : Type} (eqb : A -> A -> bool) (x : A) (l : list A) : bool :=
  existsb (eqb x) l.

(** [range(a, b, step)] for a positive step. *)
Fixpoint range_from (fuel : nat) (a step : Z) : list Z :=
  match fuel with
  | O => []
  | S f => a :: range_from f (a + step) step
  end.

Definition py_range_step (a b step : Z) : list Z :=
  if (a <? b) && (0 <? step)
  then range_from (Z.to_nat ((b - a + step - 1) / step)) a step
  else [].

(** [x in range(a, b)] *)
Definition in_range (x a b : Z) : bool := (a <=? x) && (x <? b).

(** ** Rectangles and the object store *)

(** A [pygame.Rect]: index 0 is [x], 1 is [y], 2 the width, 3 the height. *)
Record rect : Type := mkRect { rx : Z; ry : Z; rw : Z; rh : Z }.

(** The address of a rectangle in the store. *)
Abbreviation addr := nat.

Definition zero_rect : rect := mkRect 0 0 0 0.

(** The rectangle an address denotes. Python has no dangling reference; an
    address outside the store reads as the zero rectangle and a write to it
    does nothing. *)
Definition rect_at (a : addr) (h : list rect) : rect :=
  match h !! a with
  | Some r => r
  | None => zero_rect
  end.

(** [r[0], r[1] = x, y] (or [r.x = x; r.y = y]) on the rectangle at [a]. *)
Definition set_xy (a : addr) (x y : Z) (h : list rect) : list rect :=
  match h !! a with
  | Some r => <[a := mkRect x y (rw r) (rh r)]> h
  | None => h
  end.

(** A new rectangle object. *)
Definition alloc (r : rect) (h : list rect) : addr * list rect :=
  (List.length h, h ++ [r]).

Definition rect_left (r : rect) : Z := rx r.
Definition rect_top (r : rect) : Z := ry r.
Definition rect_right (r : rect) : Z := rx r + rw r.
Definition rect_bottom (r : rect) : Z := ry r + rh r.

(** An entry of [image_database]: [(image, [x, y], size, image_rect)].
    Field 1, a list of its own (a deep copy), is the last committed position
    of the tile; field 3 is a rectangle object. The image and the size take
    no part in the rules. *)
Record image_entry : Type := mkImage { img_pos : Z * Z; img_rect : addr }.

(** The mutable state of the program: the attributes of [RummikubGame] and
    the module-level dictionaries. A value [(surface, rect)] of
    [game_object_database], [PLAYER_1] or [PLAYER_2] is the address of its
    rectangle; surfaces take no part in the rules. *)
Record game : Type := mkGame {
  heap : list rect;
  game_object_database : dict addr;
  image_database : dict image_entry;
  PLAYER_1 : dict addr;
  PLAYER_2 : dict addr;
  IMG_PATHS : list string
}.

(** The constants the program takes from [surface_info] and [draw_grids]
    (not part of the sources at hand), and the sizes of the image files. *)
Record config : Type := mkConfig {
  WINDOW_WIDTH : Z;
  WINDOW_HEIGHT : Z;
  BIG_BOX : rect;
  BIG_BOX_POSITION : Z * Z;
  BIG_BOX_WIDTH : Z;
  BIG_BOX_HEIGHT : Z;
  TILES_IMAGES_PATHS : list (list string);
  image_size : string -> Z * Z
}.

Definition with_heap (h : list rect) (g : game) : game :=
  mkGame h (game_object_database g) (image_database g) (PLAYER_1 g) (PLAYER_2 g)
         (IMG_PATHS g).

Definition with_image_database (d : dict image_entry) (g : game) : game :=
  mkGame (heap g) (game_object_database g) d (PLAYER_1 g) (PLAYER_2 g) (IMG_PATHS g).

Definition with_game_object_database (d : dict addr) (g : game) : game :=
  mkGame (heap g) d (image_database g) (PLAYER_1 g) (PLAYER_2 g) (IMG_PATHS g).

Definition with_PLAYER_1 (d : dict addr) (g : game) : game :=
  mkGame (heap g) (game_object_database g) (image_database g) d (PLAYER_2 g) (IMG_PATHS g).

Definition with_PLAYER_2 (d : dict addr) (g : game) : game :=
  mkGame (heap g) (game_object_database g) (image_database g) (PLAYER_1 g) d (IMG_PATHS g).

(** The position of the rectangle of a key of [game_object_database]. *)
Definition position_of (key : string) (g : game) : option (Z * Z) :=
  match dict_get key (game_object_database g) with
  | Some a => Some (rx (rect_at a (heap g)), ry (rect_at a (heap g)))
  | None => None
  end.

(** The committed position of a key: field 1 of its [image_database] entry. *)
Definition snapshot_of (key : string) (g : game) : option (Z * Z) :=
  match dict_get key (image_database g) with
  | Some e => Some (img_pos e)
  | None => None
  end.

(** ** [update_score] *)

(** Tiles of [PLAYER_1] whose rectangle is outside the rack area leave the
    dictionary. Every value of [PLAYER_1] is a list in this program, so
    the [isinstance] test holds. *)
Definition outside_rack (cfg : config) (rack_size : Z * Z) (rack_coordinates : rect)
    (h : list rect) (entry : string * addr) : bool :=
  let '(key, a) := entry in
  let x := rx (rect_at a h) in
  let y := ry (rect_at a h) in
  let rack_x := WINDOW_WIDTH cfg / 2 - fst rack_size / 2 in
  let rack_y := WINDOW_HEIGHT cfg - snd rack_size * 2 + snd rack_size in
  str_in "1-15" key &&
  (negb (in_range x (rx rack_coordinates) (rack_x + fst rack_size)) ||
   negb (in_range y (ry rack_coordinates - snd rack_size) (rack_y + snd rack_size))).

Definition update_score (cfg : config) (rack_size : Z * Z) (rack_coordinates : rect)
    (g : game) : game :=
  let key_deletion :=
    map fst (List.filter (outside_rack cfg rack_size rack_coordinates (heap g)) (PLAYER_1 g)) in
  with_PLAYER_1 (fold_left (fun d key => dict_del key d) key_deletion (PLAYER_1 g)) g.

(** ** Cards: number and colour of a key *)

(** The slices of [check_logic] and [play_ai_turn]: the number is the last
    one or two characters before the extension, the colour the character two
    places before the number. *)
Definition card_and_color (key : string) : string * string :=
  if isdigit (slice_neg 6 4 key)
  then (slice_neg 6 4 key, slice_neg 8 7 key)
  else (slice_neg 5 4 key, slice_neg 7 6 key).

(** A value of [card_number] in [check_logic]: [(card, color, value)] with
    [value] the scanned position [(x, y)]. *)
Record card_entry : Type := mkCard {
  card : string;
  color : string;
  place : Z * Z
}.

(** ** [update_values]: the test *)

Definition all_same_numbers_satisfied (prev_item_value : string)
    (values : list card_entry) : bool :=
  forallb (fun item_value => String.eqb (card item_value) prev_item_value) values.

(** The two colour tests skip index 0. *)
Definition all_different_color_satisfied (prev_item_color : string)
    (values : list card_entry) : bool :=
  forallb (fun item_value => negb (String.eqb (color item_value) prev_item_color))
          (tl values).

Definition all_same_color_satisfied (prev_item_color : string)
    (values : list card_entry) : bool :=
  forallb (fun item_value => String.eqb (color item_value) prev_item_color)
          (tl values).

(** The loop over [range(len(even_values) - 1)]; it stops at the first pair
    that fails, so [int] is applied to the cards visited only. *)
Fixpoint even_loop (values : list card_entry) : result bool :=
  match values with
  | v :: ((w :: _) as rest) =>
      do current_value <- py_int (card v);
      do next_value <- py_int (card w);
      if negb (current_value mod 2 =? 0) ||
         ((current_value >=? next_value) && negb (current_value + 2 =? next_value))
      then Ok false
      else even_loop rest
  | _ => Ok true
  end.

Definition all_even_numbers_satisfied (values : list card_entry) : result bool :=
  do b <- even_loop values;
  do final <- py_int (card (List.last values (mkCard "" "" (0, 0))));
  Ok (if negb (final mod 2 =? 0) then false else b).

Fixpoint odd_loop (values : list card_entry) : result bool :=
  match values with
  | v :: ((w :: _) as rest) =>
      do current_value <- py_int (card v);
      do next_value <- py_int (card w);
      if (current_value mod 2 =? 0) ||
         ((current_value >=? next_value) && negb (current_value + 2 =? next_value))
      then Ok false
      else odd_loop rest
  | _ => Ok true
  end.

Definition all_odd_numbers_satisfied (values : list card_entry) : result bool :=
  do b <- odd_loop values;
  do final <- py_int (card (List.last values (mkCard "" "" (0, 0))));
  Ok (if final mod 2 =? 0 then false else b).

(** The condition of the [if] of [update_values]. [and] binds tighter than
    [or]: [(A and B) or ((C and E) or O)]. *)
Definition meld_accepted (item_sum : dict card_entry) : result bool :=
  match item_sum with
  | [] => Raise StopIteration
  | (_, first) :: _ =>
      let values := map snd item_sum in
      let prev_item_value := card first in
      let prev_item_color := color first in
      do all_even <- all_even_numbers_satisfied values;
      do all_odd <- all_odd_numbers_satisfied values;
      Ok ((all_same_numbers_satisfied prev_item_value values &&
           all_different_color_satisfied prev_item_color values) ||
          ((all_same_color_satisfied prev_item_color values && all_even) || all_odd))
  end.

(** ** Rollback *)

(** The loop that [update_values] and [check_logic] run to undo a move: the
    rectangle of every tile key of [game_object_database] goes back to the
    position in field 1 of its [image_database] entry. The two tests
    [key in PLAYER_1.items()] and [key in PLAYER_2.items()] compare a string
    with pairs and never hold, so their bodies never run. *)
Fixpoint rollback_loop (images : dict image_entry) (items : dict addr)
    (h : list rect) : result (list rect) :=
  match items with
  | [] => Ok h
  | (key, a) :: items' =>
      if str_in "images/tiles/1-15" key
      then
        do e <- of_option KeyError (dict_get key images);
        rollback_loop images items' (set_xy a (fst (img_pos e)) (snd (img_pos e)) h)
      else rollback_loop images items' h
  end.

Definition rollback (g : game) : result game :=
  do h <- rollback_loop (image_database g) (game_object_database g) (heap g);
  Ok (with_heap h g).

(** ** [update_values]: commit or rollback *)

Definition write_if_member (key : string) (d : dict addr) (x y : Z)
    (h : list rect) : list rect :=
  match dict_get key d with
  | Some a => set_xy a x y h
  | None => h
  end.

(** One round of the loop of the accepting branch. *)
Definition commit_item (cfg : config) (item_key : string) (item_value : card_entry)
    (g : game) : result game :=
  match dict_get item_key (game_object_database g) with
  | None => Ok g
  | Some a =>
      let x := fst (place item_value) in
      let y := snd (place item_value) in
      let h1 := write_if_member item_key (PLAYER_1 g) x y (heap g) in
      let h2 := write_if_member item_key (PLAYER_2 g) x y h1 in
      let h3 := set_xy a x y h2 in
      do e <- of_option KeyError (dict_get item_key (image_database g));
      let h4 := set_xy (img_rect e) x y h3 in
      let images := dict_set item_key (mkImage (x, y) (img_rect e)) (image_database g) in
      let g1 := with_image_database images (with_heap h4 g) in
      do rack <- of_option KeyError
                   (dict_get "brown_rack_image_tile2" (game_object_database g1));
      let r := rect_at rack (heap g1) in
      Ok (update_score cfg (rw r, rh r) r g1)
  end.

Fixpoint commit_loop (cfg : config) (item_sum : dict card_entry) (g : game)
    : result game :=
  match item_sum with
  | [] => Ok g
  | (item_key, item_value) :: rest =>
      do g1 <- commit_item cfg item_key item_value g;
      commit_loop cfg rest g1
  end.

Definition update_values (cfg : config) (item_sum : dict card_entry) (g : game)
    : result (bool * game) :=
  do accepted <- meld_accepted item_sum;
  if accepted
  then do g1 <- commit_loop cfg item_sum g; Ok (true, g1)
  else do g1 <- rollback g; Ok (false, g1).

(** ** [update_blit]: the game-over test *)

(** The text [update_blit] shows when the game is over, [None] while the
    game goes on. *)
Definition update_blit (g : game) : option string :=
  if (List.length (PLAYER_2 g) =? 0)%nat || (List.length (PLAYER_1 g) =? 0)%nat
  then if (List.length (PLAYER_1 g) =? 0)%nat
       then Some "PLAYER 1 WINS"
       else Some "PLAYER 2 WINS"
  else None.

(** ** [get_tile_by_position]: the clusters of the play area *)

(** An element of [data_list.items()]: a key and the position [(x, y)] of
    its rectangle at the time of the scan. *)
Definition item : Type := string * (Z * Z).

Definition item_eqb (a b : item) : bool :=
  String.eqb (fst a) (fst b) &&
  ((fst (snd a) =? fst (snd b)) && (snd (snd a) =? snd (snd b))).

(** The centre of the rectangle lies in [big_box], borders included. *)
Definition center_in (big_box r : rect) : bool :=
  let tile_center_x := rx r + rw r / 2 in
  let tile_center_y := ry r + rh r / 2 in
  ((rect_left big_box <=? tile_center_x) && (tile_center_x <=? rect_right big_box)) &&
  ((rect_top big_box <=? tile_center_y) && (tile_center_y <=? rect_bottom big_box)).

Fixpoint collect_data_list (big_box : rect) (h : list rect) (items : dict addr)
    (data_list : dict (Z * Z)) : dict (Z * Z) :=
  match items with
  | [] => data_list
  | (key, a) :: items' =>
      let tile_position := rect_at a h in
      if str_in "1-15" key && center_in big_box tile_position
      then collect_data_list big_box h items'
             (dict_set key (rx tile_position, ry tile_position) data_list)
      else collect_data_list big_box h items' data_list
  end.

(** [sort_by_dimensions] returns [(y, x)]; tuples compare lexicographically. *)
Definition dimensions_leb (a b : item) : bool :=
  (snd (snd a) <? snd (snd b)) ||
  ((snd (snd a) =? snd (snd b)) && (fst (snd a) <=? fst (snd b))).

(** [dimensions_dict.setdefault(dimensions, []).append(data_item)] *)
Fixpoint setdefault_append (dimensions : Z) (data_item : item)
    (dimensions_dict : list (Z * list item)) : list (Z * list item) :=
  match dimensions_dict with
  | [] => [(dimensions, [data_item])]
  | (d, items) :: rest =>
      if dimensions =? d
      then (d, items ++ [data_item]) :: rest
      else (d, items) :: setdefault_append dimensions data_item rest
  end.

Definition adjacent (first_item next_item : Z * Z) : bool :=
  (snd first_item =? snd next_item) &&
  ((fst first_item + 52 =? fst next_item) ||
   (fst first_item - 52 =? fst next_item) ||
   (fst first_item =? fst next_item + 52) ||
   (fst first_item =? fst next_item - 52)).

Definition append_new (x : item) (l : list item) : list item :=
  if list_mem item_eqb x l then l else l ++ [x].

(** The [while j != len(combination_items)] loop with [i = j - 1]: one round
    per pair of neighbours of the row. [n] is [len(combination_items)], at
    least 2 for every row the program passes. *)
Fixpoint pair_loop (n : nat) (combination_items : list item)
    (temp_combination : list item) (final_combinations : list (list item))
    (filtering_list : list item)
    : list item * list (list item) * list item :=
  match combination_items with
  | first :: ((next :: _) as rest) =>
      if adjacent (snd first) (snd next)
      then pair_loop n rest (append_new next (append_new first temp_combination))
                     final_combinations filtering_list
      else pair_loop n rest []
                     (if (2 <=? n)%nat
                      then final_combinations ++ [temp_combination]
                      else final_combinations)
                     (filtering_list ++ [first; next])
  | _ => (temp_combination, final_combinations, filtering_list)
  end.

(** The body of [for combination_items in shuffled_combinations]. After the
    inner loop [i] is [len(combination_items) - 1], so the closing [break]
    is never taken. *)
Definition row_step (acc : list (list item) * list item)
    (combination_items : list item) : list (list item) * list item :=
  let '(final_combinations, filtering_list) := acc in
  let n := List.length combination_items in
  let '(temp, final1, filt1) :=
    pair_loop n combination_items [] final_combinations filtering_list in
  (if (2 <=? n)%nat then final1 ++ [temp] else final1, filt1).

(** The inner loop of [is_filtered] for one value. *)
Fixpoint drop_if_grouped (filer_values : item) (sub_lists : list (list item))
    (filtering_list : list item) : result (list item) :=
  match sub_lists with
  | [] => Ok filtering_list
  | sub_list :: rest =>
      if list_mem item_eqb filer_values sub_list
      then do l <- list_remove item_eqb filer_values filtering_list;
           drop_if_grouped filer_values rest l
      else drop_if_grouped filer_values rest filtering_list
  end.

(** [for filer_values in filtering_list] while the body removes elements of
    that list: the iterator is an index into the list as it is now. The
    list never grows, so [fuel] one above its length is never used up. *)
Fixpoint is_filtered_from (fuel : nat) (idx : nat) (sub_lists : list (list item))
    (filtering_list : list item) : result (list item) :=
  match fuel with
  | O => Ok filtering_list
  | S fuel' =>
      match nth_error filtering_list idx with
      | None => Ok filtering_list
      | Some filer_values =>
          do l <- drop_if_grouped filer_values sub_lists filtering_list;
          is_filtered_from fuel' (S idx) sub_lists l
      end
  end.

Definition is_filtered (sub_lists : list (list item)) (filtering_list : list item)
    : result (list item) :=
  is_filtered_from (S (List.length filtering_list)) 0 sub_lists filtering_list.

Fixpoint repeat_filtered (times : nat) (sub_lists : list (list item))
    (filtering_list : list item) : result (list item) :=
  match times with
  | O => Ok filtering_list
  | S t =>
      do l <- is_filtered sub_lists filtering_list;
      repeat_filtered t sub_lists l
  end.

Definition occurrences (x : item) (l : list item) : nat :=
  List.length (List.filter (item_eqb x) l).

Definition get_tile_by_position (big_box : rect) (g : game) : result (list (list item)) :=
  let data_list := collect_data_list big_box (heap g) (game_object_database g) [] in
  let sorted_data := py_sorted dimensions_leb data_list in
  let dimensions_dict :=
    fold_left (fun d data_item => setdefault_append (snd (snd data_item)) data_item d)
              sorted_data [] in
  let shuffled_combinations :=
    map snd (List.filter (fun e => (1 <? List.length (snd e))%nat) dimensions_dict) in
  let remaining_items :=
    concat (map snd (List.filter (fun e => negb (1 <? List.length (snd e))%nat) dimensions_dict)) in
  let shuffled_combinations := map (py_sorted dimensions_leb) shuffled_combinations in
  let remaining_items := py_sorted dimensions_leb remaining_items in
  let '(final_combinations, filtering_list) :=
    fold_left row_step shuffled_combinations ([], []) in
  let final_combinations_remove_empty_set :=
    List.filter (fun sublist => match sublist with [] => false | _ => true end)
           final_combinations in
  do filtering_list <- repeat_filtered 15 final_combinations_remove_empty_set filtering_list;
  let final1 :=
    final_combinations_remove_empty_set ++ map (fun filer_val => [filer_val]) filtering_list in
  (* items that occur once in [remaining_items] *)
  let remaining_items :=
    List.filter (fun it => (occurrences it remaining_items =? 1)%nat) remaining_items in
  (* [while value in remaining_items: remaining_items.remove(value)] *)
  let remaining_items :=
    List.filter (fun it => negb (existsb (list_mem item_eqb it) final1)) remaining_items in
  Ok (match remaining_items with
      | [] => final1
      | _ => final1 ++ [remaining_items]
      end).

(** ** [check_logic]: the validation pass *)

Definition card_entry_eqb (a b : card_entry) : bool :=
  String.eqb (card a) (card b) && String.eqb (color a) (color b) &&
  ((fst (place a) =? fst (place b)) && (snd (place a) =? snd (place b))).

(** [d1 == d2] on dictionaries: same keys with equal values, in any order. *)
Definition card_dict_eqb (d1 d2 : dict card_entry) : bool :=
  (List.length d1 =? List.length d2)%nat &&
  forallb (fun kv => match dict_get (fst kv) d2 with
                     | Some v => card_entry_eqb (snd kv) v
                     | None => false
                     end) d1.

(** [card_number] after [clear()] and the loop over one cluster. *)
Definition card_number_of (perm_values : list item) : dict card_entry :=
  fold_left (fun d kv =>
               let '(key, value) := kv in
               let '(card, color) := card_and_color key in
               dict_set key (mkCard card color value) d)
            perm_values [].

Definition sizes_in_range (permutation_values : list (list item)) : bool :=
  forallb (fun perm_value => in_range (Z.of_nat (List.length perm_value)) 3 6)
          permutation_values.

(** The first loop of [check_logic]: [todo] is what is left of
    [permutation_values]. *)
Fixpoint gather_loop (permutation_values todo : list (list item))
    (check_sum : list (dict card_entry)) (g : game)
    : result (list (dict card_entry) * game) :=
  match todo with
  | [] => Ok (check_sum, g)
  | perm_values :: todo' =>
      if sizes_in_range permutation_values
      then
        let card_number := card_number_of perm_values in
        gather_loop permutation_values todo'
          (if list_mem card_dict_eqb card_number check_sum
           then check_sum else check_sum ++ [card_number]) g
      else
        do g1 <- rollback g;
        gather_loop permutation_values todo' check_sum g1
  end.

(** [for check in check_sum: status.append(self.update_values(check))] *)
Fixpoint status_loop (cfg : config) (check_sum : list (dict card_entry)) (g : game)
    : result (list bool * game) :=
  match check_sum with
  | [] => Ok ([], g)
  | check :: rest =>
      do r <- update_values cfg check g;
      do r' <- status_loop cfg rest (snd r);
      Ok (fst r :: fst r', snd r')
  end.

(** [check_logic] on the clusters [permutation_values], up to the test
    [all(status)]: the flag tells whether [play_ai_turn] is called. *)
Definition validate (cfg : config) (permutation_values : list (list item)) (g : game)
    : result (bool * game) :=
  match permutation_values with
  | [] => do g1 <- rollback g; Ok (false, g1)
  | _ =>
      do r <- gather_loop permutation_values permutation_values [] g;
      do s <- status_loop cfg (fst r) (snd r);
      Ok (forallb (fun b => b) (fst s), snd s)
  end.

Definition check_logic_validation (cfg : config) (g : game) : result (bool * game) :=
  do permutation_values <- get_tile_by_position (BIG_BOX cfg) g;
  validate cfg permutation_values g.

(** ** Random numbers *)

(** [random.randint(a, b)]: [ValueError] on an empty range, else a number
    of [[a, b]] chosen by the next entry of the entropy list. Every outcome
    of [randint] is the outcome for some entropy. *)
Definition randint (a b : Z) (entropy : list nat) : result (Z * list nat) :=
  if b <? a then Raise ValueError
  else match entropy with
       | [] => Raise OutOfEntropy
       | v :: rest => Ok (a + Z.of_nat v mod (b - a + 1), rest)
       end.

(** ** [add_tile_to_ai] *)

Definition color_names : list string := ["BLACK"; "BLUE"; "GREEN"; "RED"; "YELLOW"].

(** ["images/tiles/1-15 {}/{}_{}_{}.png".format(c, c, r0, r1)] *)
Definition tile_image_path (c : string) (r0 r1 : Z) : string :=
  ("images/tiles/1-15 " ++ c ++ "/" ++ c ++ "_" ++ str_of_nat (Z.to_nat r0) ++ "_" ++
   str_of_nat (Z.to_nat r1) ++ ".png")%string.

(** One round of the [while True] loops of [add_tile_to_ai] and
    [add_tile_to_rack], up to the path. [tile_image_list[0]] is read after
    the first [randint]. *)
Definition random_tile_path (cfg : config) (entropy : list nat)
    : result (Z * Z * string * list nat) :=
  let tile_image_list := TILES_IMAGES_PATHS cfg in
  do d0 <- randint 1 (Z.of_nat (List.length tile_image_list) - 1) entropy;
  do row0 <- of_option IndexError (head tile_image_list);
  do d1 <- randint 1 (Z.of_nat (List.length row0)) (snd d0);
  do c <- of_option IndexError (nth_error color_names (Z.to_nat (fst d0 - 1)));
  Ok (fst d0, fst d1, tile_image_path c (fst d0) (fst d1), snd d1).

(** The loop of [add_tile_to_ai]. A round reads two entries of the entropy
    list, so [fuel] above its length is never what ends the loop. *)
Fixpoint ai_draw_loop (fuel : nat) (cfg : config) (g : game) (entropy : list nat)
    : result (string * list nat) :=
  match fuel with
  | O => Raise OutOfEntropy
  | S fuel' =>
      do t <- random_tile_path cfg entropy;
      let '(_, _, tile_image_path, entropy') := t in
      if dict_mem tile_image_path (game_object_database g) ||
         dict_mem tile_image_path (PLAYER_2 g) ||
         dict_mem tile_image_path (PLAYER_1 g)
      then ai_draw_loop fuel' cfg g entropy'
      else Ok (tile_image_path, entropy')
  end.

(** [load_image(path, coordinates, size)]: the entry of [image_database]
    gets a rectangle of its own at [coordinates]; the rectangle returned
    with the image is another new one, at the origin. *)
Definition load_image_at (cfg : config) (path : string) (coordinates : Z * Z) (g : game)
    : addr * game :=
  let '(w, h) := image_size cfg path in
  let '(image_rect, h1) := alloc (mkRect (fst coordinates) (snd coordinates) w h) (heap g) in
  let '(returned, h2) := alloc (mkRect 0 0 w h) h1 in
  (returned,
   with_image_database (dict_set path (mkImage coordinates image_rect) (image_database g))
     (with_heap h2 g)).

(** After the loop the path is in none of the three dictionaries, so the
    final test holds. *)
Definition add_tile_to_ai (cfg : config) (g : game) (entropy : list nat)
    : result (game * list nat) :=
  do t <- ai_draw_loop (S (List.length entropy)) cfg g entropy;
  let '(tile_image_path, entropy') := t in
  if negb (dict_mem tile_image_path (PLAYER_2 g)) &&
     negb (dict_mem tile_image_path (PLAYER_1 g)) &&
     negb (dict_mem tile_image_path (game_object_database g))
  then
    let '(r, g1) := load_image_at cfg tile_image_path (0, 0) g in
    Ok (with_PLAYER_2 (dict_set tile_image_path r (PLAYER_2 g1)) g1, entropy')
  else Ok (g, entropy').

(** ** [play_ai_turn] *)

(** A value of [card_number] in [play_ai_turn]: [(card, color, value)] with
    [value] the entry of [PLAYER_2], here the address of its rectangle. *)
Record ai_card : Type := mkAiCard {
  ai_number : string;
  ai_color : string;
  ai_value : addr
}.

Definition ai_item : Type := string * ai_card.

Definition ai_card_number (player_2 : dict addr) : list ai_item :=
  map (fun kv => let '(card, color) := card_and_color (fst kv) in
                 (fst kv, mkAiCard card color (snd kv))) player_2.

(** The loop that fills [even_sequence] and [odd_sequence]. *)
Fixpoint split_parity (card_number : list ai_item)
    : result (list ai_item * list ai_item) :=
  match card_number with
  | [] => Ok ([], [])
  | it :: rest =>
      do n <- py_int (ai_number (snd it));
      do r <- split_parity rest;
      if n mod 2 =? 0 then Ok (it :: fst r, snd r) else Ok (fst r, it :: snd r)
  end.

(** [int(item[1][0])] in a sort key, after [split_parity] has applied [int]
    to the same strings without an exception. *)
Definition ai_int (it : ai_item) : Z :=
  match py_int (ai_number (snd it)) with
  | Ok n => n
  | Raise _ => 0
  end.

(** The key [(item[1][1], int(item[1][0]))]: colour, then number. *)
Definition color_number_leb (a b : ai_item) : bool :=
  match String.compare (ai_color (snd a)) (ai_color (snd b)) with
  | Lt => true
  | Eq => ai_int a <=? ai_int b
  | Gt => false
  end.

Definition number_leb (a b : ai_item) : bool := ai_int a <=? ai_int b.

Fixpoint group_append (k : string) (tile : ai_item) (grouped_tiles : dict (list ai_item))
    : dict (list ai_item) :=
  match grouped_tiles with
  | [] => [(k, [tile])]
  | (k', l) :: rest =>
      if String.eqb k k' then (k', l ++ [tile]) :: rest
      else (k', l) :: group_append k tile rest
  end.

Definition group_tiles_by_integer (tile_list : list ai_item) : dict (list ai_item) :=
  let grouped_tiles :=
    fold_left (fun d tile => group_append (ai_color (snd tile)) tile d) tile_list [] in
  map (fun kv => (fst kv, py_sorted number_leb (snd kv))) grouped_tiles.

(** The cells [[y, x]] of the play area, row by row. *)
Definition grid_cells (cfg : config) : list (Z * Z) :=
  let bx := fst (BIG_BOX_POSITION cfg) in
  let by_ := snd (BIG_BOX_POSITION cfg) in
  flat_map (fun coordinate_x =>
              map (fun coordinate_y => (coordinate_x, coordinate_y))
                  (py_range_step bx (bx + BIG_BOX_WIDTH cfg) 52))
           (py_range_step by_ (by_ + BIG_BOX_HEIGHT cfg) 73).

Definition cell_eqb (a b : Z * Z) : bool := (fst a =? fst b) && (snd a =? snd b).

Fixpoint remove_occupied (cfg : config) (images : dict image_entry)
    (empty_spaces : list (Z * Z)) : result (list (Z * Z)) :=
  match images with
  | [] => Ok empty_spaces
  | (o_k, o_v) :: rest =>
      let bx := fst (BIG_BOX_POSITION cfg) in
      let by_ := snd (BIG_BOX_POSITION cfg) in
      if str_in "1-15" o_k &&
         in_range (fst (img_pos o_v)) bx (bx + BIG_BOX_WIDTH cfg) &&
         in_range (snd (img_pos o_v)) by_ (by_ + BIG_BOX_HEIGHT cfg)
      then
        do l <- list_remove cell_eqb (snd (img_pos o_v), fst (img_pos o_v)) empty_spaces;
        remove_occupied cfg rest l
      else remove_occupied cfg rest empty_spaces
  end.

Definition calculate_empty_spaces (cfg : config) (g : game) : result (list (Z * Z)) :=
  remove_occupied cfg (image_database g) (grid_cells cfg).

(** The loop over [range(len(empty_space) - 1)]; [count] is never reset. *)
Fixpoint start_loop (empty_space : list (Z * Z)) (count : Z)
    (start_position : list (Z * Z)) : list (Z * Z) :=
  match empty_space with
  | e :: ((e' :: _) as rest) =>
      if (fst e =? fst e') && (snd e + 52 =? snd e')
      then if count + 1 =? 5
           then start_position ++ [e]
           else start_loop rest (count + 1) (start_position ++ [e])
      else start_loop rest count []
  | _ => start_position
  end.

(** The body of [for i, v in enumerate(value)]: the tile goes to
    [(c_x, c_y)], enters [game_object_database] with the rectangle it has in
    [PLAYER_2], and its [image_database] entry holds that same rectangle. *)
Definition place_tile (v : ai_item) (c_x c_y : Z) (g : game) : game :=
  let a := ai_value (snd v) in
  let g1 := with_heap (set_xy a c_x c_y (heap g)) g in
  let g2 := with_game_object_database (dict_set (fst v) a (game_object_database g1)) g1 in
  with_image_database (dict_set (fst v) (mkImage (c_x, c_y) a) (image_database g2)) g2.

Fixpoint place_group (value : list ai_item) (c_x c_y : Z) (g : game)
    (keys_to_delete : list string) : Z * game * list string :=
  match value with
  | [] => (c_x, g, keys_to_delete)
  | v :: rest =>
      place_group rest (c_x + 52) c_y (place_tile v c_x c_y g) (keys_to_delete ++ [fst v])
  end.

Definition playable (value : list ai_item) : bool :=
  in_range (Z.of_nat (List.length value)) 3 6.

(** One of the two loops over the groups of a parity; the flag is
    [is_not_playable_even] or [is_not_playable_odd]. *)
Fixpoint place_groups (groups : dict (list ai_item)) (c_x c_y : Z) (g : game)
    (keys_to_delete : list string) (is_not_playable : bool)
    : Z * game * list string * bool :=
  match groups with
  | [] => (c_x, g, keys_to_delete, is_not_playable)
  | (_, value) :: rest =>
      if playable value
      then
        let '(c_x1, g1, keys1) := place_group value c_x c_y g keys_to_delete in
        place_groups rest (c_x1 + 52) c_y g1 keys1 false
      else place_groups rest c_x c_y g keys_to_delete is_not_playable
  end.

(** The groups of the two parities, as [play_ai_turn] computes them. *)
Definition ai_groups (player_2 : dict addr)
    : result (dict (list ai_item) * dict (list ai_item)) :=
  do parts <- split_parity (ai_card_number player_2);
  let even_sequence_sorted := py_sorted color_number_leb (fst parts) in
  let odd_sequence_sorted := py_sorted color_number_leb (snd parts) in
  Ok (group_tiles_by_integer even_sequence_sorted,
      group_tiles_by_integer odd_sequence_sorted).

(** The melds a turn of the opponent puts on the board: the groups for which
    the body of one of the two loops of [play_ai_turn] runs, in that order. *)
Definition ai_melds (player_2 : dict addr) : result (list (list ai_item)) :=
  do gs <- ai_groups player_2;
  Ok (List.filter playable (map snd (fst gs)) ++ List.filter playable (map snd (snd gs))).

Definition delete_keys (keys_to_delete : list string) (d : dict addr) : dict addr :=
  fold_left (fun d key_to_delete =>
               if dict_mem key_to_delete d then dict_del key_to_delete d else d)
            keys_to_delete d.

Definition play_ai_turn (cfg : config) (is_delete : bool) (g : game) (entropy : list nat)
    : result (game * list nat) :=
  do gs <- ai_groups (PLAYER_2 g);
  do empty_space <- calculate_empty_spaces cfg g;
  let start_position := start_loop empty_space 0 [] in
  do s0 <- of_option IndexError (head start_position);
  let c_x := if negb (snd s0 =? fst (BIG_BOX_POSITION cfg)) then snd s0 + 52 else snd s0 in
  let c_y := fst s0 in
  let '(c_x1, g1, keys1, is_not_playable_even) :=
    place_groups (fst gs) c_x c_y g [] true in
  let '(_, g2, keys_to_delete, is_not_playable_odd) :=
    place_groups (snd gs) c_x1 c_y g1 keys1 true in
  let g3 := if is_delete
            then with_PLAYER_2 (delete_keys keys_to_delete (PLAYER_2 g2)) g2
            else g2 in
  if is_not_playable_even && is_not_playable_odd
  then add_tile_to_ai cfg g3 entropy
  else Ok (g3, entropy).

(** ** [check_logic] *)

Definition check_logic (cfg : config) (g : game) (entropy : list nat)
    : result (game * list nat) :=
  do r <- check_logic_validation cfg g;
  if fst r then play_ai_turn cfg true (snd r) entropy else Ok (snd r, entropy).

(** ** [add_tile_to_rack] *)

(** The [while True] loop: the position is corrected in every round, the
    path is drawn until it is in none of [IMG_PATHS], [PLAYER_2] and
    [game_object_database]; the second [if] then always breaks. *)
Fixpoint rack_draw_loop (fuel : nat) (cfg : config) (rack_size : Z * Z)
    (last_y : Z) (new_tile_position : Z * Z) (g : game) (entropy : list nat)
    : result (string * (Z * Z) * list nat) :=
  match fuel with
  | O => Raise OutOfEntropy
  | S fuel' =>
      do t <- random_tile_path cfg entropy;
      let '(_, _, tile_image_path, entropy') := t in
      do new_tile_position <-
        (if fst new_tile_position >? fst rack_size + 273
         then do rack <- of_option KeyError
                           (dict_get "brown_rack_image_tile1" (game_object_database g));
              Ok (rx (rect_at rack (heap g)) + 10, last_y + snd rack_size)
         else Ok new_tile_position);
      if list_mem String.eqb tile_image_path (IMG_PATHS g) ||
         dict_mem tile_image_path (PLAYER_2 g) ||
         dict_mem tile_image_path (game_object_database g)
      then rack_draw_loop fuel' cfg rack_size last_y new_tile_position g entropy'
      else Ok (tile_image_path, new_tile_position, entropy')
  end.

Definition add_tile_to_rack (cfg : config) (rack_size : Z * Z) (g : game)
    (entropy : list nat) : result (game * list nat) :=
  do last <- of_option IndexError (List.last (map Some (PLAYER_1 g)) None);
  let last_value := rect_at (snd last) (heap g) in
  let new_tile_position := (rx last_value + 52 + 10, ry last_value) in
  do t <- rack_draw_loop (S (List.length entropy)) cfg rack_size (ry last_value)
            new_tile_position g entropy;
  let '(tile_image_path, new_tile_position, entropy') := t in
  let is_satisfied :=
    (fst new_tile_position <? fst rack_size + 273) &&
    negb (dict_mem tile_image_path (PLAYER_2 g)) &&
    negb (list_mem String.eqb tile_image_path (IMG_PATHS g)) &&
    negb (dict_mem tile_image_path (game_object_database g)) &&
    (snd new_tile_position <? snd new_tile_position + snd rack_size * 2) in
  if is_satisfied
  then
    let '(r, g1) := load_image_at cfg tile_image_path new_tile_position g in
    (* [resize_image] moves the rectangle returned by [load_image] *)
    let g2 := with_heap (set_xy r (fst new_tile_position) (snd new_tile_position) (heap g1)) g1 in
    let g3 := mkGame (heap g2)
                     (dict_set tile_image_path r (game_object_database g2))
                     (image_database g2)
                     (dict_set tile_image_path r (PLAYER_1 g2))
                     (PLAYER_2 g2)
                     (IMG_PATHS g2 ++ [tile_image_path]) in
    play_ai_turn cfg true g3 entropy'
  else Ok (g, entropy').

(** ** [draw_initial_tiles] *)

(** What the deal carries from one player to the next: the store, the list
    [random_tile_temp], and, for the statements only, the index pairs that
    were accepted. *)
Record deal : Type := mkDeal {
  deal_heap : list rect;
  random_tile_temp : list string;
  dealt_indices : list (Z * Z)
}.

(** The [while len(players) != 15] loop for one player. *)
Fixpoint deal_player (fuel : nat) (cfg : config) (tile_image_list : list (list string))
    (players : dict addr) (d : deal) (entropy : list nat)
    : result (dict addr * deal * list nat) :=
  if (List.length players =? 15)%nat then Ok (players, d, entropy)
  else
    match fuel with
    | O => Raise OutOfEntropy
    | S fuel' =>
        do d0 <- randint 0 (Z.of_nat (List.length tile_image_list) - 1) entropy;
        do row0 <- of_option IndexError (head tile_image_list);
        do d1 <- randint 1 (Z.of_nat (List.length row0)) (snd d0);
        let random_tile := (fst d0, fst d1) in
        let is_present :=
          (str_of_nat (Z.to_nat (fst random_tile)) ++
           str_of_nat (Z.to_nat (snd random_tile)))%string in
        if list_mem String.eqb is_present (random_tile_temp d)
        then deal_player fuel' cfg tile_image_list players d (snd d1)
        else
          do row <- of_option IndexError
                      (nth_error tile_image_list (Z.to_nat (fst random_tile)));
          do tile_image_path <- of_option IndexError
                                  (nth_error row (Z.to_nat (snd random_tile)));
          let '(w, h) := image_size cfg tile_image_path in
          let '(r, heap1) := alloc (mkRect 0 0 w h) (deal_heap d) in
          deal_player fuel' cfg tile_image_list
            (dict_set tile_image_path r players)
            (mkDeal heap1 (random_tile_temp d ++ [is_present])
                    (dealt_indices d ++ [random_tile]))
            (snd d1)
    end.

(** [for players in players_database]; the dictionaries of the list are
    distinct objects. *)
Fixpoint deal_players (cfg : config) (tile_image_list : list (list string))
    (players_database : list (dict addr)) (d : deal) (entropy : list nat)
    : result (list (dict addr) * deal * list nat) :=
  match players_database with
  | [] => Ok ([], d, entropy)
  | players :: rest =>
      do r <- deal_player (S (List.length entropy)) cfg tile_image_list players d entropy;
      let '(players', d', entropy') := r in
      do r' <- deal_players cfg tile_image_list rest d' entropy';
      let '(rest', d'', entropy'') := r' in
      Ok (players' :: rest', d'', entropy'')
  end.

Definition draw_initial_tiles (cfg : config) (tile_image_list : list (list string))
    (players_database : list (dict addr)) (h : list rect) (entropy : list nat)
    : result (list (dict addr) * deal * list nat) :=
  deal_players cfg tile_image_list players_database (mkDeal h [] []) entropy.

(** * Notions used in the statements *)

(** ** Melds *)

(** The number a card stands for. *)
Definition number_of (v : card_entry) : Z := digits_value 0 (card v).

Definition numeric (v : card_entry) : Prop := isdigit (card v) = true.

(** A legal Group in the words of the specification: all tiles share the
    number, the colours are pairwise distinct. *)
Definition legal_group (values : list card_entry) : Prop :=
  (forall v w, In v values -> In w values -> number_of v = number_of w) /\
  NoDup (map color values).

(** A legal Run in the words of the specification: all tiles share the
    colour, each number is the one before plus 1. *)
Definition step_by (d : Z) (a b : Z) : Prop := b = a + d.

Definition legal_run (values : list card_entry) : Prop :=
  (forall v w, In v values -> In w values -> color v = color w) /\
  Sorted (step_by 1) (map number_of values).

(** What the loops of [update_values] compute on numbers: every element but
    the last satisfies [p] and is below its successor. *)
Fixpoint pairs_ok (p : Z -> bool) (ns : list Z) : bool :=
  match ns with
  | a :: ((b :: _) as rest) => p a && (a <? b) && pairs_ok p rest
  | _ => true
  end.

Definition same_cards (values : list card_entry) : Prop :=
  forall v w, In v values -> In w values -> card v = card w.

Definition same_colors (values : list card_entry) : Prop :=
  forall v w, In v values -> In w values -> color v = color w.

Definition same_parity (ns : list Z) : Prop :=
  Forall (fun n => Z.even n = true) ns \/ Forall (fun n => Z.even n = false) ns.

(** The validator as the specification states it: a cluster passes the test
    of [update_values] exactly when it is a legal Group or a legal Run. *)
Definition test_is_group_or_run (item_sum : dict card_entry) : Prop :=
  meld_accepted item_sum = Ok true <->
  legal_group (map snd item_sum) \/ legal_run (map snd item_sum).

(** ** The opponent's groups *)

(** The groups of [group_tiles_by_integer] hold tiles of the list, each
    under the key that is its colour. *)
Definition group_inv (tile_list : list ai_item) (groups : dict (list ai_item)) : Prop :=
  forall k l, In (k, l) groups ->
  forall t, In t l -> In t tile_list /\ ai_color (snd t) = k.

(** A playable run in the words of the specification: three tiles of the
    rack of one colour whose numbers go up by 2 (a longer run holds one of
    length three). The three numbers have one parity. *)
Definition has_step_two_run (player_2 : dict addr) : bool :=
  let tiles := ai_card_number player_2 in
  existsb (fun a =>
    existsb (fun b =>
      existsb (fun c =>
        String.eqb (ai_color (snd a)) (ai_color (snd b)) &&
        String.eqb (ai_color (snd b)) (ai_color (snd c)) &&
        (ai_int b =? ai_int a + 2) && (ai_int c =? ai_int b + 2)) tiles) tiles) tiles.

(** The opponent's melds as the specification states them: the numbers of a
    meld go up by exactly 2. *)
Definition melds_step_two (player_2 : dict addr) : Prop :=
  forall melds meld, ai_melds player_2 = Ok melds -> In meld melds ->
  Sorted (step_by 2) (map ai_int meld).

(** The rule of the draw as the specification states it: with no run of
    step 2 of three tiles or more in the rack, a turn of the opponent that
    ends leaves the rack one tile larger. *)
Definition draws_without_step_two_run (cfg : config) (g : game) (entropy : list nat) : Prop :=
  has_step_two_run (PLAYER_2 g) = false ->
  forall g' entropy', play_ai_turn cfg true g entropy = Ok (g', entropy') ->
  List.length (PLAYER_2 g') = S (List.length (PLAYER_2 g)).

(** A path that [add_tile_to_ai] takes: a key of none of the three
    dictionaries. *)
Definition free_path (path : string) (g : game) : Prop :=
  dict_mem path (game_object_database g) = false /\
  dict_mem path (PLAYER_2 g) = false /\
  dict_mem path (PLAYER_1 g) = false.

(** ** Well-formed states *)

(** The rectangles a key owns: the values of the key in the three
    dictionaries of rectangles and field 3 of its [image_database] entry. *)
Definition owners (g : game) : list (string * addr) :=
  game_object_database g ++ PLAYER_1 g ++ PLAYER_2 g ++
  map (fun kv => (fst kv, img_rect (snd kv))) (image_database g).

(** No rectangle of a key of [game_object_database] is owned by another
    key: distinct tiles have distinct [Rect] objects. *)
Definition separate_b (g : game) : bool :=
  forallb (fun o =>
             forallb (fun ka => implb (Nat.eqb (snd o) (snd ka))
                                      (String.eqb (fst o) (fst ka)))
                     (game_object_database g))
          (owners g).

Fixpoint keys_unique_b (keys : list string) : bool :=
  match keys with
  | [] => true
  | k :: rest => negb (list_mem String.eqb k rest) && keys_unique_b rest
  end.

Definition addrs_valid_b (g : game) : bool :=
  forallb (fun ka => (snd ka <? List.length (heap g))%nat) (game_object_database g).

(** A state of the program: [game_object_database] is a dictionary, its
    rectangles exist, and no two keys share a rectangle. *)
Definition well_formed (g : game) : bool :=
  keys_unique_b (dict_keys (game_object_database g)) &&
  addrs_valid_b g && separate_b g.

(** [check_sum] after the first loop of [check_logic] when the sizes are in
    range: the dictionaries of the clusters, each once. *)
Definition check_sum_of (permutation_values : list (list item)) : list (dict card_entry) :=
  fold_left (fun check_sum perm_values =>
               let card_number := card_number_of perm_values in
               if list_mem card_dict_eqb card_number check_sum
               then check_sum else check_sum ++ [card_number])
            permutation_values [].

(** The key is a tile for the rollback loop. *)
Definition is_tile (key : string) : bool := str_in "images/tiles/1-15" key.

(** Every scanned item carries the position its key has in the state. *)
Definition scanned (permutation_values : list (list item)) (g : game) : Prop :=
  forall cluster key p, In cluster permutation_values -> In (key, p) cluster ->
  position_of key g = Some p.

(** Every tile of [game_object_database] is where its committed position
    is. *)
Definition committed_b (g : game) : bool :=
  forallb (fun ka =>
             negb (is_tile (fst ka)) ||
             match position_of (fst ka) g, snapshot_of (fst ka) g with
             | Some p, Some q => (fst p =? fst q) && (snd p =? snd q)
             | _, _ => false
             end)
          (game_object_database g).

(** Two states with the same keys: the same [game_object_database] and the
    same keys of [image_database]. *)
Definition same_shape (g g2 : game) : Prop :=
  game_object_database g2 = game_object_database g /\
  dict_keys (image_database g2) = dict_keys (image_database g).

(** Idempotence as the specification states it: on a board where every
    tile is at its committed position, two passes in a row both return
    success, and the second moves no tile. *)
Definition succeeds_twice (cfg : config) (g : game) : Prop :=
  well_formed g = true -> committed_b g = true ->
  exists g1 g2,
    check_logic_validation cfg g = Ok (true, g1) /\
    check_logic_validation cfg g1 = Ok (true, g2) /\
    forall key, position_of key g2 = position_of key g1.

(** The cluster passes the test of [update_values]. *)
Definition accepted_b (check : dict card_entry) : bool :=
  match meld_accepted check with
  | Ok true => true
  | _ => false
  end.

(** The key is in a cluster of the list that passes the test. *)
Definition in_accepted (key : string) (check_sum : list (dict card_entry)) : bool :=
  existsb (fun check => accepted_b check && dict_mem key check) check_sum.

(** A cluster of the list fails the test. *)
Definition any_rejected (check_sum : list (dict card_entry)) : bool :=
  existsb (fun check => negb (accepted_b check)) check_sum.

(** The positions of the scan: every entry of every cluster whose key is in
    [game_object_database] carries the position [target] gives its key. *)
Definition on_target (target : string -> option (Z * Z)) (g : game)
    (check_sum : list (dict card_entry)) : Prop :=
  forall check key v, In check check_sum -> In (key, v) check ->
  dict_mem key (game_object_database g) = true -> target key = Some (place v).

(** The pass as the specification states it: after a validation pass every
    tile is back at the position it had committed before. *)
Definition all_rolled_back (cfg : config) (g : game) : Prop :=
  forall ok g', check_logic_validation cfg g = Ok (ok, g') ->
  forall key, is_tile key = true -> dict_mem key (game_object_database g) = true ->
  position_of key g' = snapshot_of key g.

(** ** The tiles of the draws *)

(** The paths a draw can build: one for an index of colour from 1 to
    [len(tile_image_list) - 1] that has a colour name and a number from 1
    to [len(tile_image_list[0])]. *)
Definition drawable_paths (cfg : config) : list string :=
  let rows := List.length (TILES_IMAGES_PATHS cfg) in
  let numbers := List.length (hd [] (TILES_IMAGES_PATHS cfg)) in
  flat_map (fun r0 =>
              match nth_error color_names (r0 - 1) with
              | Some c => map (fun r1 => tile_image_path c (Z.of_nat r0) (Z.of_nat r1))
                              (seq 1 numbers)
              | None => []
              end)
           (seq 1 (rows - 1)).

(** The keys of a list that [card_and_color] reads as the colour of index
    [c] and the number [n]. *)
Definition copies_of (c n : nat) (pool : list string) : list string :=
  List.filter (fun key =>
                 String.eqb (fst (card_and_color key)) (str_of_nat n) &&
                 String.eqb (snd (card_and_color key)) (str_of_nat c)) pool.

(** The pool as the specification states it: two tiles for every colour and
    every number from 1 to 15. *)
Definition pool_has_two_copies (pool : list string) : Prop :=
  forall c n, (1 <= c <= 5)%nat -> (1 <= n <= 15)%nat ->
  List.length (copies_of c n pool) = 2%nat.

(** ** The initial deal *)

(** The string [is_present] of an index pair. *)
Definition index_string (random_tile : Z * Z) : string :=
  (str_of_nat (Z.to_nat (fst random_tile)) ++
   str_of_nat (Z.to_nat (snd random_tile)))%string.

(** [tile_image_list[r0][r1]] *)
Definition table_at (tile_image_list : list (list string)) (random_tile : Z * Z)
    : option string :=
  match nth_error tile_image_list (Z.to_nat (fst random_tile)) with
  | Some row => nth_error row (Z.to_nat (snd random_tile))
  | None => None
  end.

(** [random_tile_temp] holds the strings of the accepted index pairs, each
    once. *)
Definition deal_inv (d : deal) : Prop :=
  random_tile_temp d = map index_string (dealt_indices d) /\
  NoDup (random_tile_temp d).

(** Every key of the rack is the path at an accepted index pair. *)
Definition dealt_from (tile_image_list : list (list string)) (indices : list (Z * Z))
    (rack : dict addr) : Prop :=
  forall key, In key (dict_keys rack) ->
  exists random_tile, In random_tile indices /\
                      table_at tile_image_list random_tile = Some key.

(** The index pairs the rounds of the loop of the deal draw from the
    entropy list, two entries a round, for as long as neither [randint]
    raises. *)
Fixpoint pairs_of (tile_image_list : list (list string)) (entropy : list nat)
    : list (Z * Z) :=
  match entropy with
  | v0 :: v1 :: rest =>
      match randint 0 (Z.of_nat (List.length tile_image_list) - 1) [v0],
            randint 1 (Z.of_nat (List.length (hd [] tile_image_list))) [v1] with
      | Ok (d0, _), Ok (d1, _) => (d0, d1) :: pairs_of tile_image_list rest
      | _, _ => []
      end
  | _ => []
  end.

(** The pairs of a list that the loop accepts: those whose string
    [is_present] is not in [random_tile_temp] when they come. *)
Fixpoint fresh_pairs (seen : list string) (pairs : list (Z * Z)) : list (Z * Z) :=
  match pairs with
  | [] => []
  | p :: rest =>
      if list_mem String.eqb (index_string p) seen
      then fresh_pairs seen rest
      else p :: fresh_pairs (seen ++ [index_string p]) rest
  end.

(** The deal as the claim states it: over a non-empty table and from empty
    racks, a deal that does not run out of random numbers gives every
    player exactly 15 tiles, at pairwise distinct index pairs. *)
Definition deals_fifteen (cfg : config) (tile_image_list : list (list string))
    (players_database : list (dict addr)) (entropy : list nat) : Prop :=
  tile_image_list <> [] ->
  Forall (fun players => players = []) players_database ->
  draw_initial_tiles cfg tile_image_list players_database [] entropy
    <> Raise OutOfEntropy ->
  exists racks d entropy',
    draw_initial_tiles cfg tile_image_list players_database [] entropy
      = Ok (racks, d, entropy') /\
    Forall (fun rack => List.length rack = 15%nat) racks /\
    NoDup (dealt_indices d).

(** Entropy for a deal to two players from [example_config]: the index
    pairs [(1, 1)] to [(1, 15)], then [(2, 1)] to [(2, 15)]. *)
Definition example_entropy : list nat :=
  flat_map (fun i => [(1 + i / 15)%nat; (i mod 15)%nat]) (seq 0 30).

(** ** Example data *)

Definition tile_size : Z * Z := (52, 73).

Definition example_row0 : list string :=
  map (fun n => ("images/tiles/blank_" ++ str_of_nat n ++ ".png")%string) (seq 0 15).

Definition example_row (r0 : nat) : list string :=
  map (fun n => tile_image_path (nth (r0 - 1) color_names "") (Z.of_nat r0) (Z.of_nat n))
      (seq 0 16).

(** A window of 1280 by 720, a play area of ten columns and five rows at
    [(100, 50)], and a table of paths whose row [r0 >= 1] holds at index
    [r1 >= 1] the path that [add_tile_to_ai] builds from [(r0, r1)]. *)
Definition example_config : config :=
  mkConfig 1280 720 (mkRect 100 50 520 365) (100, 50) 520 365
           (example_row0 :: map example_row (seq 1 5))
           (fun _ => tile_size).

(** The key of the tile of colour index [c] and number [n]. *)
Definition tile (c : nat) (n : nat) : string :=
  tile_image_path (nth (c - 1) color_names "") (Z.of_nat c) (Z.of_nat n).

Fixpoint example_tiles (base : nat) (tiles : list (string * (Z * Z) * (Z * Z)))
    : list rect * dict addr * dict image_entry :=
  match tiles with
  | [] => ([], [], [])
  | (key, pos, snap) :: rest =>
      let '(h, objs, imgs) := example_tiles (S (S base)) rest in
      (mkRect (fst pos) (snd pos) 52 73 :: mkRect (fst snap) (snd snap) 52 73 :: h,
       (key, base) :: objs,
       (key, mkImage snap (S base)) :: imgs)
  end.

(** A state from the tiles of [game_object_database], each with its position
    and its committed position, the keys among them that are in [PLAYER_1],
    and the keys of [PLAYER_2]. Address 0 is the rectangle of the rack, a
    tile of [game_object_database] shares its rectangle with [PLAYER_1], as
    [place_initial_tiles] and [add_tile_to_rack] make it. *)
Definition example_game (tiles : list (string * (Z * Z) * (Z * Z))) (rack : list string)
    (ai : list string) : game :=
  let '(h, objs, imgs) := example_tiles 1 tiles in
  let n := List.length (mkRect 273 574 734 73 :: h) in
  mkGame ((mkRect 273 574 734 73 :: h) ++ map (fun _ => mkRect 0 0 52 73) ai)
         (("brown_rack_image_tile2", 0%nat) :: objs)
         imgs
         (List.filter (fun kv => list_mem String.eqb (fst kv) rack) objs)
         (combine ai (seq n (List.length ai)))
         (map (fun t => fst (fst t)) tiles).

(** RED 1, RED 2, RED 3 side by side. *)
Definition run_123 : dict card_entry :=
  card_number_of [(tile 4 1, (100, 50)); (tile 4 2, (152, 50)); (tile 4 3, (204, 50))].

(** RED 2, RED 8, RED 14 side by side. *)
Definition spaced_2_8_14 : dict card_entry :=
  card_number_of [(tile 4 2, (100, 50)); (tile 4 8, (152, 50)); (tile 4 14, (204, 50))].

(** RED 5, BLUE 5, GREEN 5 side by side. *)
Definition group_5 : dict card_entry :=
  card_number_of [(tile 4 5, (100, 50)); (tile 2 5, (152, 50)); (tile 3 5, (204, 50))].

(** RED 2, RED 4, RED 6 side by side. *)
Definition even_246 : dict card_entry :=
  card_number_of [(tile 4 2, (100, 50)); (tile 4 4, (152, 50)); (tile 4 6, (204, 50))].

(** BLUE 2, RED 4, GREEN 6 side by side. *)
Definition mixed_246 : dict card_entry :=
  card_number_of [(tile 2 2, (100, 50)); (tile 4 4, (152, 50)); (tile 3 6, (204, 50))].

(** An empty board; the opponent holds YELLOW 2, YELLOW 8, YELLOW 14 and
    BLACK 3, the player BLACK 9 in the rack. *)
Definition g_spaced : game :=
  example_game [ (tile 1 9, (278, 574), (278, 574)) ] [ tile 1 9 ]
               [ tile 5 2; tile 5 8; tile 5 14; tile 1 3 ].

(** An empty board; the opponent holds YELLOW 2, YELLOW 4 and BLACK 3. *)
Definition g_short : game :=
  example_game [ (tile 1 9, (278, 574), (278, 574)) ] [ tile 1 9 ]
               [ tile 5 2; tile 5 4; tile 1 3 ].

(** RED 5, BLUE 5, GREEN 5 in the first row of the board and RED 1, RED 2,
    BLUE 4 in the second, all six moved there from the rack; BLACK 9 still
    in the rack. The opponent holds YELLOW 2, 8, 14 and BLACK 3. *)
Definition g_mixed : game :=
  example_game
    [ (tile 4 5, (100, 50), (278, 574)); (tile 2 5, (152, 50), (340, 574));
      (tile 3 5, (204, 50), (402, 574));
      (tile 4 1, (100, 123), (464, 574)); (tile 4 2, (152, 123), (526, 574));
      (tile 2 4, (204, 123), (588, 574));
      (tile 1 9, (650, 574), (650, 574)) ]
    [ tile 4 5; tile 2 5; tile 3 5; tile 4 1; tile 4 2; tile 2 4; tile 1 9 ]
    [ tile 5 2; tile 5 8; tile 5 14; tile 1 3 ].

(** RED 5 and BLUE 5 moved from the rack to the board, side by side. *)
Definition g_pair : game :=
  example_game
    [ (tile 4 5, (100, 50), (278, 574)); (tile 2 5, (152, 50), (340, 574));
      (tile 1 9, (402, 574), (402, 574)) ]
    [ tile 4 5; tile 2 5; tile 1 9 ]
    [ tile 5 2; tile 5 8; tile 5 14; tile 1 3 ].

(** RED 5, BLUE 5, GREEN 5 committed on the board, BLACK 9 in the rack. *)
Definition g_committed : game :=
  example_game
    [ (tile 4 5, (100, 50), (100, 50)); (tile 2 5, (152, 50), (152, 50));
      (tile 3 5, (204, 50), (204, 50));
      (tile 1 9, (278, 574), (278, 574)) ]
    [ tile 1 9 ]
    [ tile 5 2; tile 5 8; tile 5 14; tile 1 3 ].

(** RED 5, BLUE 5, GREEN 5 committed on the board, BLACK 9 in the rack; the
    opponent holds YELLOW 2, YELLOW 4 and BLACK 3. *)
Definition g_draw : game :=
  example_game
    [ (tile 4 5, (100, 50), (100, 50)); (tile 2 5, (152, 50), (152, 50));
      (tile 3 5, (204, 50), (204, 50));
      (tile 1 9, (278, 574), (278, 574)) ]
    [ tile 1 9 ]
    [ tile 5 2; tile 5 4; tile 1 3 ].

(** RED 2, RED 4 and RED 6 moved from the rack to the board, each alone in
    a row of its own; BLACK 9 still in the rack. *)
Definition g_scattered : game :=
  example_game
    [ (tile 4 2, (100, 50), (278, 574)); (tile 4 4, (308, 123), (340, 574));
      (tile 4 6, (204, 196), (402, 574));
      (tile 1 9, (464, 574), (464, 574)) ]
    [ tile 4 2; tile 4 4; tile 4 6; tile 1 9 ]
    [ tile 5 2; tile 5 8; tile 5 14; tile 1 3 ].

(** The player holds six tiles and has moved all of them to the board:
    RED 5, BLUE 5, GREEN 5 in the first row and RED 1, RED 2, BLUE 4 in the
    second. The opponent holds YELLOW 2, 8, 14 and BLACK 3. *)
Definition g_all_out : game :=
  example_game
    [ (tile 4 5, (100, 50), (278, 574)); (tile 2 5, (152, 50), (340, 574));
      (tile 3 5, (204, 50), (402, 574));
      (tile 4 1, (100, 123), (464, 574)); (tile 4 2, (152, 123), (526, 574));
      (tile 2 4, (204, 123), (588, 574)) ]
    [ tile 4 5; tile 2 5; tile 3 5; tile 4 1; tile 4 2; tile 2 4 ]
    [ tile 5 2; tile 5 8; tile 5 14; tile 1 3 ].

(** * The helpers of the menu: sets of the rack and [play_for_me] *)

(** ** The regular expressions of the two [extract_] functions *)

(** [.] matches any character but a newline. *)
Definition newline : ascii := ascii_of_nat 10.

(** [.png] at the start of [s]. *)
Definition dot_png (s : string) : bool :=
  match s with
  | String c rest => negb (Ascii.eqb c newline) && String.prefix "png" rest
  | EmptyString => false
  end.

(** [(\d+).png] at the start of [s], the group of the match: [\d+] is
    greedy, it takes the digits there are and gives them back one by one
    until [.png] matches what follows. *)
Fixpoint match_number (s : string) : option string :=
  match s with
  | String c s' =>
      if is_digit_ascii c
      then match match_number s' with
           | Some d => Some (String c d)
           | None => if dot_png s' then Some (String c EmptyString) else None
           end
      else None
  | EmptyString => None
  end.

(** [re.search(r'_(\d+).png', filename)]: group 1 of the leftmost match. *)
Fixpoint search_number (filename : string) : option string :=
  match filename with
  | String c s' =>
      if Ascii.eqb c "_"
      then match match_number s' with
           | Some d => Some d
           | None => search_number s'
           end
      else search_number s'
  | EmptyString => None
  end.

(** Group 1 is a string of digits, on which [int] does not raise. *)
Definition extract_last_number_from_filename (filename : string) : Z :=
  match search_number filename with
  | Some d => digits_value 0 d
  | None => 0
  end.

(** [p] at the start of [s]: what follows it. *)
Fixpoint strip_prefix (p s : string) : option string :=
  match p, s with
  | EmptyString, _ => Some s
  | String a p', String b s' => if Ascii.eqb a b then strip_prefix p' s' else None
  | String _ _, EmptyString => None
  end.

(** [\d+] at the start of [s], followed by what [k] accepts. *)
Fixpoint digits_then (k : string -> bool) (s : string) : bool :=
  match s with
  | String c s' => is_digit_ascii c && (digits_then k s' || k s')
  | EmptyString => false
  end.

(** [_\d+_\d+.png] at the start of [s]. *)
Definition color_tail (s : string) : bool :=
  match s with
  | String c r =>
      Ascii.eqb c "_" &&
      digits_then (fun r1 => match r1 with
                             | String c1 r2 => Ascii.eqb c1 "_" && digits_then dot_png r2
                             | EmptyString => false
                             end) r
  | EmptyString => false
  end.

(** The pattern of [extract_color_from_filename] at the start of [s]: the
    directory is written with backslashes, and the first of the five names
    after which the rest matches is group 1. *)
Definition color_match_at (s : string) : option string :=
  match strip_prefix "images\tiles\1-15 " s with
  | Some rest =>
      List.find (fun c => match strip_prefix c rest with
                          | Some r => color_tail r
                          | None => false
                          end) color_names
  | None => None
  end.

(** [re.search(...)]: group 1 of the leftmost match. *)
Fixpoint search_color (filename : string) : option string :=
  match color_match_at filename with
  | Some c => Some c
  | None =>
      match filename with
      | String _ s' => search_color s'
      | EmptyString => None
      end
  end.

Definition lower_ascii (c : ascii) : ascii :=
  let n := nat_of_ascii c in
  if (65 <=? n)%nat && (n <=? 90)%nat then ascii_of_nat (n + 32) else c.

(** [s.lower()] on an ASCII string. *)
Fixpoint lower (s : string) : string :=
  match s with
  | String c s' => String (lower_ascii c) (lower s')
  | EmptyString => EmptyString
  end.

Definition extract_color_from_filename (filename : string) : string :=
  match search_color filename with
  | Some c => lower c
  | None => ""
  end.

(** ** [identify_rummikub_runs] *)

(** [s.split(sep)] for a separator of one character. *)
Fixpoint py_split (sep : ascii) (s : string) : list string :=
  match s with
  | EmptyString => [EmptyString]
  | String c s' =>
      if Ascii.eqb c sep then EmptyString :: py_split sep s'
      else match py_split sep s' with
           | w :: ws => String c w :: ws
           | [] => [String c EmptyString]
           end
  end.

(** [key.split('/')[-1].split('_')[0]] *)
Definition run_color (key : string) : string :=
  hd "" (py_split "_" (List.last (py_split "/" key) "")).

(** [if color not in color_groups: color_groups[color] = []] and
    [color_groups[color].append(key)] *)
Fixpoint color_group_add (color key : string) (color_groups : dict (list string))
    : dict (list string) :=
  match color_groups with
  | [] => [(color, [key])]
  | (c, tiles) :: rest =>
      if String.eqb color c then (c, tiles ++ [key]) :: rest
      else (c, tiles) :: color_group_add color key rest
  end.

(** The order of [tiles.sort(key=extract_last_number_from_filename)]. *)
Definition last_number_leb (a b : string) : bool :=
  extract_last_number_from_filename a <=? extract_last_number_from_filename b.

(** The loop over [range(len(tiles) - 1)]: one round per pair of
    neighbours. *)
Fixpoint run_loop (tiles : list string) (current_run : list string)
    (runs : list (list string)) : list string * list (list string) :=
  match tiles with
  | t :: ((t' :: _) as rest) =>
      let current_number := extract_last_number_from_filename t in
      let next_number := extract_last_number_from_filename t' in
      if next_number - current_number =? 2
      then run_loop rest
             ((if list_mem String.eqb t current_run then current_run
               else current_run ++ [t]) ++ [t'])
             runs
      else run_loop rest []
             (if (2 <=? List.length current_run)%nat then runs ++ [current_run] else runs)
  | _ => (current_run, runs)
  end.

(** The body of [for color, tiles in color_groups.items()]. *)
Definition runs_of_color (runs : list (list string)) (tiles : list string)
    : list (list string) :=
  let tiles := py_sorted last_number_leb tiles in
  let '(current_run, runs1) := run_loop tiles [] runs in
  if (2 <=? List.length current_run)%nat then runs1 ++ [current_run] else runs1.

Definition color_groups_of (tile_keys : list string) : dict (list string) :=
  fold_left (fun d key => color_group_add (run_color key) key d) tile_keys [].

Definition identify_rummikub_runs {V : Type} (player : dict V) : list (list string) :=
  let tile_keys := List.filter (str_in "images/tiles/1-15") (dict_keys player) in
  fold_left runs_of_color (map snd (color_groups_of tile_keys)) [].

(** ** [identify_rummikub_groups] *)

(** The loop over [PLAYER_1.items()] for one [key]; [seen_tiles] is a set,
    used for membership only. *)
Fixpoint group_inner (number : Z) (color : string) (others : list string)
    (group seen_tiles : list string) : list string * list string :=
  match others with
  | [] => (group, seen_tiles)
  | other_key :: rest =>
      if str_in "images/tiles/1-15" other_key &&
         negb (list_mem String.eqb other_key seen_tiles)
      then
        let other_number := extract_last_number_from_filename other_key in
        let other_color := extract_color_from_filename other_key in
        if (number =? other_number) && String.eqb color other_color
        then group_inner number color rest (group ++ [other_key]) (other_key :: seen_tiles)
        else group_inner number color rest group seen_tiles
      else group_inner number color rest group seen_tiles
  end.

(** The loop over [values.items()]; [len(list(set(group)))] is the number
    of distinct keys of the group. *)
Fixpoint group_outer (keys : list string) (player_1 : list string)
    (groups : list (list string)) (seen_tiles : list string) : list (list string) :=
  match keys with
  | [] => groups
  | key :: rest =>
      if str_in "images/tiles/1-15" key && negb (list_mem String.eqb key seen_tiles)
      then
        let number := extract_last_number_from_filename key in
        let color := extract_color_from_filename key in
        let '(group, seen1) :=
          group_inner number color player_1 [key] (key :: seen_tiles) in
        group_outer rest player_1
          (if (2 <=? List.length (List.nodup String.string_dec group))%nat
           then groups ++ [group] else groups)
          seen1
      else group_outer rest player_1 groups seen_tiles
  end.

(** [identify_rummikub_groups(values)]; the inner loop reads the global
    [PLAYER_1]. *)
Definition identify_rummikub_groups {V W : Type} (values : dict V) (player_1 : dict W)
    : list (list string) :=
  group_outer (dict_keys values) (dict_keys player_1) [] [].

(** ** [play_for_me] *)

(** [play_for_me] can raise [TypeError], which [exn] does not hold. *)
Inductive outcome (A : Type) : Type :=
| Returns (a : A)
| Raises (e : exn)
| RaisesTypeError.
Arguments Returns {A} a.
Arguments Raises {A} e.
Arguments RaisesTypeError {A}.

Definition of_result {A : Type} (r : result A) : outcome A :=
  match r with
  | Ok a => Returns a
  | Raise e => Raises e
  end.

Definition obind {A B : Type} (m : outcome A) (k : A -> outcome B) : outcome B :=
  match m with
  | Returns a => k a
  | Raises e => Raises e
  | RaisesTypeError => RaisesTypeError
  end.

(** The inner function [set_tile_position]: the rectangle of the key in
    [game_object_database], the rectangle and the committed position of its
    [image_database] entry all get [(pos_x, pos_y)], and the key leaves
    [PLAYER_1]. Each of the three look-ups can raise [KeyError]. *)
Definition set_tile_position (key : string) (pos_x pos_y : Z) (g : game) : result game :=
  do a <- of_option KeyError (dict_get key (game_object_database g));
  do e <- of_option KeyError (dict_get key (image_database g));
  let h1 := set_xy a pos_x pos_y (heap g) in
  let h2 := set_xy (img_rect e) pos_x pos_y h1 in
  if dict_mem key (PLAYER_1 g)
  then Ok (mkGame h2 (game_object_database g)
                  (dict_set key (mkImage (pos_x, pos_y) (img_rect e)) (image_database g))
                  (dict_del key (PLAYER_1 g)) (PLAYER_2 g) (IMG_PATHS g))
  else Raise KeyError.

(** [for group_key in group: set_tile_position(group_key, c_x, c_y); c_x += 52] *)
Fixpoint place_set (group : list string) (c_x c_y : Z) (g : game) : result (Z * game) :=
  match group with
  | [] => Ok (c_x, g)
  | group_key :: rest =>
      do g1 <- set_tile_position group_key c_x c_y g;
      place_set rest (c_x + 52) c_y g1
  end.

(** [for group in groups] *)
Fixpoint place_sets (groups : list (list string)) (c_x c_y : Z) (g : game)
    : result (Z * game) :=
  match groups with
  | [] => Ok (c_x, g)
  | group :: rest =>
      if in_range (Z.of_nat (List.length group)) 3 6
      then do r <- place_set group c_x c_y g;
           place_sets rest (fst r + 52) c_y (snd r)
      else place_sets rest c_x c_y g
  end.

(** [for run_key in run]. With a group in [groups] the test goes on to
    [all(run_key not in groups)], and [all] of a [bool] raises [TypeError];
    with no group the [else] branch runs. *)
Fixpoint place_run (groups : list (list string)) (run : list string) (c_x c_y : Z)
    (g : game) : outcome (Z * game) :=
  match run with
  | [] => Returns (c_x, g)
  | run_key :: rest =>
      if (0 <? List.length groups)%nat
      then RaisesTypeError
      else obind (of_result (set_tile_position run_key c_x c_y g))
                 (fun g1 => place_run groups rest (c_x + 52) c_y g1)
  end.

(** [for run in runs] *)
Fixpoint place_runs (groups runs : list (list string)) (c_x c_y : Z) (g : game)
    : outcome (Z * game) :=
  match runs with
  | [] => Returns (c_x, g)
  | run :: rest =>
      if in_range (Z.of_nat (List.length run)) 3 6
      then obind (place_run groups run c_x c_y g)
                 (fun r => place_runs groups rest (fst r + 52) c_y (snd r))
      else place_runs groups rest c_x c_y g
  end.

(** [play_for_me]: its [calculate_empty_spaces] and the loop for the start
    position are those of [play_ai_turn], word for word. *)
Definition play_for_me (cfg : config) (g : game) : outcome game :=
  let groups := identify_rummikub_groups (PLAYER_1 g) (PLAYER_1 g) in
  let runs := identify_rummikub_runs (PLAYER_1 g) in
  obind (of_result (calculate_empty_spaces cfg g)) (fun empty_space =>
  let start_position := start_loop empty_space 0 [] in
  obind (of_result (of_option IndexError (head start_position))) (fun s0 =>
  let c_x := if negb (snd s0 =? fst (BIG_BOX_POSITION cfg)) then snd s0 + 52 else snd s0 in
  let c_y := fst s0 in
  obind (of_result (place_sets groups c_x c_y g)) (fun r =>
  obind (place_runs groups runs (fst r + 52) c_y (snd r)) (fun r' =>
  Returns (snd r'))))).

(** * Notions used in the statements on the helpers *)

(** The characters of a string. *)
Definition chars (s : string) : list ascii := list_ascii_of_string s.

(** A key that a draw builds: a colour name, its index and a number. *)
Definition drawn_key (key : string) : Prop :=
  exists c r0 r1, In c color_names /\ 0 <= r0 /\ 0 <= r1 /\ key = tile_image_path c r0 r1.

(** The number of the second key is the number of the first plus 2. *)
Definition two_apart (a b : string) : Prop :=
  extract_last_number_from_filename b = extract_last_number_from_filename a + 2.

(** A rack for the examples: the keys of [tiles] for the given colour
    indices and numbers, each with a rectangle of its own. *)
Definition example_rack (tiles : list (nat * nat)) : dict addr :=
  combine (map (fun cn => tile (fst cn) (snd cn)) tiles) (seq 1 (List.length tiles)).

(** What [identify_rummikub_groups] puts together: a first key of [values]
    and, after it, keys of [PLAYER_1], all of them tile keys in which the
    two [extract_] functions read what they read in the first. *)
Definition group_of (values player_1 : list string) (group : list string) : Prop :=
  exists key others,
    group = key :: others /\ others <> [] /\ In key values /\
    (forall k, In k others -> In k player_1) /\
    (forall k, In k group ->
       str_in "images/tiles/1-15" k = true /\
       extract_last_number_from_filename k = extract_last_number_from_filename key /\
       extract_color_from_filename k = extract_color_from_filename key).

(** What the test of the inner loop of [identify_rummikub_groups] compares. *)
Definition same_reading (k k' : string) : Prop :=
  extract_last_number_from_filename k = extract_last_number_from_filename k' /\
  extract_color_from_filename k = extract_color_from_filename k'.

(** Two keys are in one group of the list. *)
Definition grouped (groups : list (list string)) (k k' : string) : Prop :=
  exists group, In group groups /\ In k group /\ In k' group.

(** ** [play_for_me] *)

(** [len(group) in range(3, 6)] *)
Definition set_playable (keys : list string) : bool :=
  in_range (Z.of_nat (List.length keys)) 3 6.

(** The keys that [play_for_me] puts on the board: those of the groups and
    of the runs of three to five keys, in the order of the two loops. *)
Definition placed_keys (g : game) : list string :=
  concat (List.filter set_playable (identify_rummikub_groups (PLAYER_1 g) (PLAYER_1 g))) ++
  concat (List.filter set_playable (identify_rummikub_runs (PLAYER_1 g))).

(** The player holds RED 1, RED 3, RED 5 and BLACK 9 in the rack; the
    board is empty. *)
Definition g_run : game :=
  example_game
    [ (tile 4 1, (278, 574), (278, 574)); (tile 4 3, (340, 574), (340, 574));
      (tile 4 5, (402, 574), (402, 574)); (tile 1 9, (464, 574), (464, 574)) ]
    [ tile 4 1; tile 4 3; tile 4 5; tile 1 9 ]
    [ tile 5 2; tile 5 4; tile 1 3 ].

(** The player holds RED 1, RED 3, RED 5 and BLUE 5. *)
Definition g_run_and_group : game :=
  example_game
    [ (tile 4 1, (278, 574), (278, 574)); (tile 4 3, (340, 574), (340, 574));
      (tile 4 5, (402, 574), (402, 574)); (tile 2 5, (464, 574), (464, 574)) ]
    [ tile 4 1; tile 4 3; tile 4 5; tile 2 5 ]
    [ tile 5 2; tile 5 4; tile 1 3 ].

(** The player holds RED 5, BLUE 5, GREEN 5 and BLACK 9. *)
Definition g_group : game :=
  example_game
    [ (tile 4 5, (278, 574), (278, 574)); (tile 2 5, (340, 574), (340, 574));
      (tile 3 5, (402, 574), (402, 574)); (tile 1 9, (464, 574), (464, 574)) ]
    [ tile 4 5; tile 2 5; tile 3 5; tile 1 9 ]
    [ tile 5 2; tile 5 4; tile 1 3 ].

(** What [play_for_me] leaves alone and what it does to the rack, when it
    has moved the keys of [keys] from the state [g]. *)
Definition moved_from (keys : list string) (g g' : game) : Prop :=
  game_object_database g' = game_object_database g /\
  PLAYER_2 g' = PLAYER_2 g /\ IMG_PATHS g' = IMG_PATHS g /\
  dict_keys (image_database g') = dict_keys (image_database g) /\
  PLAYER_1 g' = fold_left (fun d k => dict_del k d) keys (PLAYER_1 g) /\
  (forall k, In k keys -> exists p, snapshot_of k g' = Some p) /\
  (forall k, ~ In k keys -> snapshot_of k g' = snapshot_of k g).

(** The keys of [keys] are where their committed position is, the other
    keys where they were. *)
Definition committed_from (keys : list string) (g g' : game) : Prop :=
  well_formed g' = true /\
  (forall k, In k keys -> position_of k g' = snapshot_of k g') /\
  (forall k, ~ In k keys -> position_of k g' = position_of k g).

(** ** The cells of the play area *)

(** The test of [calculate_empty_spaces] on an entry of [image_database]:
    a tile whose committed position is in the play area. *)
Definition in_play_area (cfg : config) (o_k : string) (o_v : image_entry) : bool :=
  str_in "1-15" o_k &&
  in_range (fst (img_pos o_v)) (fst (BIG_BOX_POSITION cfg))
           (fst (BIG_BOX_POSITION cfg) + BIG_BOX_WIDTH cfg) &&
  in_range (snd (img_pos o_v)) (snd (BIG_BOX_POSITION cfg))
           (snd (BIG_BOX_POSITION cfg) + BIG_BOX_HEIGHT cfg).

(** RED 5 and BLUE 5 both committed at the first cell of the board. *)
Definition g_overlap : game :=
  example_game
    [ (tile 4 5, (100, 50), (100, 50)); (tile 2 5, (100, 50), (100, 50));
      (tile 1 9, (278, 574), (278, 574)) ]
    [ tile 1 9 ]
    [ tile 5 2; tile 5 4; tile 1 3 ].

(** ** The tiles the opponent puts on the board *)

(** Every key of [keys] is in [game_object_database] with the rectangle it
    has in the rack [player_2], and this rectangle is where the
    [image_database] entry of the key, which holds it too, says. *)
Definition ai_committed (player_2 : dict addr) (keys : list string) (g : game) : Prop :=
  (forall k a, In (k, a) player_2 -> (a < List.length (heap g))%nat) /\
  (forall k, In k keys ->
     exists a p, In (k, a) player_2 /\
                 dict_get k (game_object_database g) = Some a /\
                 dict_get k (image_database g) = Some (mkImage p a) /\
                 (rx (rect_at a (heap g)), ry (rect_at a (heap g))) = p).

(** The place [add_tile_to_rack] computes for the new tile: right of the
    last tile of [PLAYER_1] or, when that is beyond [rack_size[0] + 273],
    at the start of the second row of the rack. *)
Definition new_tile_place (rack_size : Z * Z) (g : game) : option (Z * Z) :=
  match List.last (map Some (PLAYER_1 g)) None with
  | None => None
  | Some last =>
      let last_value := rect_at (snd last) (heap g) in
      if rx last_value + 52 + 10 >? fst rack_size + 273
      then match dict_get "brown_rack_image_tile1" (game_object_database g) with
           | Some rack => Some (rx (rect_at rack (heap g)) + 10, ry last_value + snd rack_size)
           | None => None
           end
      else Some (rx last_value + 52 + 10, ry last_value)
  end.

(** * Moves and rearrangements *)

(** The constant [RACK_SIZE] of [surface_info] and the sizes of the tile
    surfaces, neither of which is in the sources at hand. A tile has one
    surface, which [game_object_database] and [PLAYER_1] both hold. *)
Record layout : Type := mkLayout {
  RACK_SIZE : Z * Z;
  surface_size : string -> Z * Z
}.

(** [get_game_object()[0]["brown_rack_image_tile2"]] *)
Definition rack2_size (lay : layout) : Z * Z :=
  (fst (RACK_SIZE lay) - 10, snd (RACK_SIZE lay)).

(** [get_game_object()[1]["brown_rack_image_tile2"]] *)
Definition rack2_coordinates (cfg : config) (lay : layout) : Z * Z :=
  (WINDOW_WIDTH cfg / 2 - fst (rack2_size lay) / 2,
   WINDOW_HEIGHT cfg - snd (rack2_size lay) * 2).

(** [KEYS_LIST], the keys [game_status] passes to [move_tiles]. *)
Definition in_keys_list (g : game) (key : string) : bool :=
  dict_mem key (game_object_database g) &&
  negb (str_in "brown_rack_image_tile" key) && str_in "tile" key.

(** [move_tiles] for the tile under the mouse: the rectangle of the key in
    [game_object_database] follows the mouse and, at the release, goes
    where [snap_to_grid] says. [snap_to_grid] is not in the sources at hand
    and the mouse is an input: the place [(x, y)] where the rectangle ends
    is a parameter. [CURRENT_POSITION], which no rule reads, is left
    out. *)
Definition move_tiles (key : string) (x y : Z) (g : game) : result game :=
  do a <- of_option KeyError (dict_get key (game_object_database g));
  Ok (with_heap (set_xy a x y (heap g)) g).

(** The body of the loops of [rearrange_tiles_by_groups] and
    [rearrange_tiles_by_runs]: a new rectangle at [(c_x, c_y)] replaces the
    one of the key in [game_object_database], and the entry of
    [image_database] is rebuilt with it. *)
Definition rearrange_tile (lay : layout) (key : string) (c_x c_y : Z) (g : game) : game :=
  let '(w, h) := surface_size lay key in
  let '(new_tile_position, h1) := alloc (mkRect c_x c_y w h) (heap g) in
  with_image_database
    (dict_set key (mkImage (c_x, c_y) new_tile_position) (image_database g))
    (with_game_object_database
       (dict_set key new_tile_position (game_object_database g)) (with_heap h1 g)).

(** [for key in group], with [tile_image, _ = self.game_object_database[key]]
    read first. *)
Fixpoint rearrange_group (lay : layout) (group : list string) (c_x c_y : Z) (g : game)
    : result (Z * game) :=
  match group with
  | [] => Ok (c_x, g)
  | key :: rest =>
      do _ <- of_option KeyError (dict_get key (game_object_database g));
      rearrange_group lay rest (c_x + fst (surface_size lay key) + 10) c_y
                      (rearrange_tile lay key c_x c_y g)
  end.

Fixpoint rearrange_groups (lay : layout) (groups : list (list string)) (c_x c_y : Z)
    (g : game) : result (Z * game) :=
  match groups with
  | [] => Ok (c_x, g)
  | group :: rest =>
      do r <- rearrange_group lay group c_x c_y g;
      rearrange_groups lay rest (fst r) c_y (snd r)
  end.

(** [for key, (tile_image, _) in PLAYER_1.items()]: the tiles that are not
    in [placed] follow, with a new row when the next tile would pass
    [limit]. *)
Fixpoint rearrange_rest (lay : layout) (placed : list string) (players : dict addr)
    (start_x limit : Z) (c_x c_y : Z) (g : game) : game :=
  match players with
  | [] => g
  | (key, _) :: rest =>
      if str_in "images/tiles/1-15" key && negb (list_mem String.eqb key placed)
      then
        let g1 := rearrange_tile lay key c_x c_y g in
        let '(w, h) := surface_size lay key in
        let c_x1 := c_x + w + 10 in
        if c_x1 + w >? limit
        then rearrange_rest lay placed rest start_x limit start_x (c_y + h + 10) g1
        else rearrange_rest lay placed rest start_x limit c_x1 c_y g1
      else rearrange_rest lay placed rest start_x limit c_x c_y g
  end.

Definition rearrange_tiles_by_groups (cfg : config) (lay : layout)
    (groups : list (list string)) (g : game) : result game :=
  let rack_coordinates := rack2_coordinates cfg lay in
  do r <- rearrange_groups lay groups (fst rack_coordinates + 5) (snd rack_coordinates) g;
  Ok (rearrange_rest lay (concat groups) (PLAYER_1 g)
        (fst rack_coordinates + 5) (fst rack_coordinates + fst (rack2_size lay))
        (fst r) (snd rack_coordinates) (snd r)).

(** Nothing happens when [runs] is empty; the keys of the runs go first,
    sorted by their number. *)
Definition rearrange_tiles_by_runs (cfg : config) (lay : layout)
    (runs : list (list string)) (g : game) : result game :=
  match runs with
  | [] => Ok g
  | _ =>
      let rack_coordinates := rack2_coordinates cfg lay in
      let runs := py_sorted last_number_leb (concat runs) in
      do r <- rearrange_group lay runs (fst rack_coordinates + 5) (snd rack_coordinates) g;
      Ok (rearrange_rest lay runs (PLAYER_1 g)
            (fst rack_coordinates + 5) (fst rack_coordinates + fst (rack2_size lay))
            (fst r) (snd rack_coordinates) (snd r))
  end.

(** * The tiles in play *)

(** The rows of the play area: the [y] of the cells of
    [calculate_empty_spaces]. *)
Definition in_play_rows (cfg : config) (y : Z) : bool :=
  existsb (Z.eqb y)
          (py_range_step (snd (BIG_BOX_POSITION cfg))
                         (snd (BIG_BOX_POSITION cfg) + BIG_BOX_HEIGHT cfg) 73).

(** The size of the rectangle of a key of [game_object_database]. *)
Definition size_of (key : string) (g : game) : option (Z * Z) :=
  match dict_get key (game_object_database g) with
  | Some a => Some (rw (rect_at a (heap g)), rh (rect_at a (heap g)))
  | None => None
  end.

(** The key is committed on the board: at its committed position the tile
    has its centre in [BIG_BOX], which is the test of the scan of
    [check_logic], or the committed position is in a row of the play area,
    where [play_ai_turn] and [play_for_me] put tiles. *)
Definition on_board (cfg : config) (g : game) (key : string) : bool :=
  match size_of key g, snapshot_of key g with
  | Some (w, h), Some (x, y) =>
      center_in (BIG_BOX cfg) (mkRect x y w h) || in_play_rows cfg y
  | _, _ => false
  end.

(** The tiles of a rack: the tile keys of its dictionary. *)
Definition rack_tiles (players : dict addr) : list string :=
  List.filter (str_in "1-15") (dict_keys players).

(** The tiles of the board: the tile keys of [game_object_database] that
    are in neither rack and are committed on the board. *)
Definition board_tiles (cfg : config) (g : game) : list string :=
  List.filter (fun key => str_in "1-15" key &&
                          negb (dict_mem key (PLAYER_1 g)) &&
                          negb (dict_mem key (PLAYER_2 g)) &&
                          on_board cfg g key)
              (dict_keys (game_object_database g)).

(** The tiles across both racks and the board. *)
Definition tiles_in_play (cfg : config) (g : game) : list string :=
  rack_tiles (PLAYER_1 g) ++ rack_tiles (PLAYER_2 g) ++ board_tiles cfg g.



(** [sound] as a test. *)
Definition sound_b (cfg : config) (g : game) : bool :=
  keys_unique_b (dict_keys (game_object_database g)) &&
  keys_unique_b (dict_keys (PLAYER_1 g)) &&
  keys_unique_b (dict_keys (PLAYER_2 g)) &&
  forallb (fun o => (snd o <? List.length (heap g))%nat) (owners g) &&
  forallb (fun o => forallb (fun o' => implb (Nat.eqb (snd o) (snd o'))
                                             (String.eqb (fst o) (fst o')))
                            (owners g)) (owners g) &&
  forallb (fun key => dict_mem key (game_object_database g)) (dict_keys (PLAYER_1 g)) &&
  forallb (fun key => negb (dict_mem key (game_object_database g)))
          (dict_keys (PLAYER_2 g)) &&
  forallb (fun key => negb (str_in "1-15" key) || dict_mem key (PLAYER_1 g) ||
                      on_board cfg g key)
          (dict_keys (game_object_database g)).

(** The pass of [check_logic] from [g] to [g'] takes out of [PLAYER_1]
    tiles of clusters that pass the test only. *)
Definition leaves_accepted (cfg : config) (g g' : game) : Prop :=
  forall key, In key (dict_keys (PLAYER_1 g)) -> ~ In key (dict_keys (PLAYER_1 g')) ->
  exists permutation_values,
    get_tile_by_position (BIG_BOX cfg) g = Ok permutation_values /\
    in_accepted key (check_sum_of permutation_values) = true.

(** [leaves_accepted] as a test. *)
Definition leaves_accepted_b (cfg : config) (g g' : game) : bool :=
  forallb (fun key =>
             dict_mem key (PLAYER_1 g') ||
             match get_tile_by_position (BIG_BOX cfg) g with
             | Ok permutation_values => in_accepted key (check_sum_of permutation_values)
             | Raise _ => false
             end)
          (dict_keys (PLAYER_1 g)).

(** What the player can do. *)
Inductive operation : Type :=
| Move (key : string) (x y : Z)
| CheckLogic
| AddTileToRack
| PlayForMe
| RearrangeByGroups
| RearrangeByRuns.

(** One operation that returns. [handle_mouse_motion] calls
    [add_tile_to_rack] with the size of the second rack and the
    rearrangements with the groups and the runs of [PLAYER_1]. A call of
    [check_logic] counts when its pass takes out of [PLAYER_1] tiles of
    passing clusters only. *)
Inductive step (cfg : config) (lay : layout)
    : operation -> game -> list nat -> game -> list nat -> Prop :=
| step_move key x y g g' entropy :
    in_keys_list g key = true ->
    move_tiles key x y g = Ok g' ->
    step cfg lay (Move key x y) g entropy g' entropy
| step_check g g' entropy entropy' :
    check_logic cfg g entropy = Ok (g', entropy') ->
    leaves_accepted cfg g g' ->
    step cfg lay CheckLogic g entropy g' entropy'
| step_draw g g' entropy entropy' :
    add_tile_to_rack cfg (rack2_size lay) g entropy = Ok (g', entropy') ->
    step cfg lay AddTileToRack g entropy g' entropy'
| step_auto g g' entropy :
    play_for_me cfg g = Returns g' ->
    step cfg lay PlayForMe g entropy g' entropy
| step_groups g g' entropy :
    rearrange_tiles_by_groups cfg lay
      (identify_rummikub_groups (PLAYER_1 g) (PLAYER_1 g)) g = Ok g' ->
    step cfg lay RearrangeByGroups g entropy g' entropy
| step_runs g g' entropy :
    rearrange_tiles_by_runs cfg lay (identify_rummikub_runs (PLAYER_1 g)) g = Ok g' ->
    step cfg lay RearrangeByRuns g entropy g' entropy.


(** One operation, run: [None] when it raises and, for [check_logic], when
    the pass takes out of [PLAYER_1] a tile of no passing cluster. *)
Definition run_step (cfg : config) (lay : layout) (op : operation) (g : game)
    (entropy : list nat) : option (game * list nat) :=
  match op with
  | Move key x y =>
      if in_keys_list g key
      then match move_tiles key x y g with
           | Ok g' => Some (g', entropy)
           | Raise _ => None
           end
      else None
  | CheckLogic =>
      match check_logic cfg g entropy with
      | Ok (g', entropy') => if leaves_accepted_b cfg g g' then Some (g', entropy') else None
      | Raise _ => None
      end
  | AddTileToRack =>
      match add_tile_to_rack cfg (rack2_size lay) g entropy with
      | Ok r => Some r
      | Raise _ => None
      end
  | PlayForMe =>
      match play_for_me cfg g with
      | Returns g' => Some (g', entropy)
      | _ => None
      end
  | RearrangeByGroups =>
      match rearrange_tiles_by_groups cfg lay
              (identify_rummikub_groups (PLAYER_1 g) (PLAYER_1 g)) g with
      | Ok g' => Some (g', entropy)
      | Raise _ => None
      end
  | RearrangeByRuns =>
      match rearrange_tiles_by_runs cfg lay (identify_rummikub_runs (PLAYER_1 g)) g with
      | Ok g' => Some (g', entropy)
      | Raise _ => None
      end
  end.

Fixpoint run (cfg : config) (lay : layout) (ops : list operation) (g : game)
    (entropy : list nat) : option (game * list nat) :=
  match ops with
  | [] => Some (g, entropy)
  | op :: rest =>
      match run_step cfg lay op g entropy with
      | Some (g1, entropy1) => run cfg lay rest g1 entropy1
      | None => None
      end
  end.









(** * Properties *)

(** ** The game-over test *)

(** The test of [update_blit]: it reports the end of the game exactly when
    one of the dictionaries [PLAYER_1] and [PLAYER_2] is empty, and names
    the player whose dictionary is empty. *)
Lemma update_blit_game_over (g : game) :
  (update_blit g <> None <-> PLAYER_1 g = [] \/ PLAYER_2 g = []) /\
  (update_blit g = Some "PLAYER 1 WINS" <-> PLAYER_1 g = []) /\
  (update_blit g = Some "PLAYER 2 WINS" <-> PLAYER_1 g <> [] /\ PLAYER_2 g = []).
Proof.
  unfold update_blit.
  destruct (PLAYER_1 g) as [|p1 r1], (PLAYER_2 g) as [|p2 r2]; cbn;
    repeat split; intros; try congruence; try tauto;
    try (destruct H; congruence); try (left; congruence); try (right; congruence).
Qed.

Lemma Ok_inj {A : Type} (a b : A) : Ok a = Ok b -> a = b.
Proof. congruence. Qed.

(** ** The test of [update_values] *)

Section UpdateValuesTest.

Lemma py_int_numeric (s : string) :
  isdigit s = true -> py_int s = Ok (digits_value 0 s).
Proof. intros H. unfold py_int. now rewrite H. Qed.

Lemma even_test (a b : Z) :
  negb (a mod 2 =? 0) || ((a >=? b) && negb (a + 2 =? b)) =
  negb (Z.even a && (a <? b)).
Proof.
  rewrite Zmod_even.
  destruct (Z.even a); cbn; [| reflexivity].
  destruct (Z.ltb_spec a b), (Z.geb_spec a b), (Z.eqb_spec (a + 2) b);
    cbn; try reflexivity; lia.
Qed.

Lemma odd_test (a b : Z) :
  (a mod 2 =? 0) || ((a >=? b) && negb (a + 2 =? b)) =
  negb (Z.odd a && (a <? b)).
Proof.
  rewrite Zmod_even, <- Z.negb_even.
  destruct (Z.even a); cbn; [reflexivity |].
  destruct (Z.ltb_spec a b), (Z.geb_spec a b), (Z.eqb_spec (a + 2) b);
    cbn; try reflexivity; lia.
Qed.

Lemma even_loop_cons (v w : card_entry) (values : list card_entry) :
  even_loop (v :: w :: values) =
  do current_value <- py_int (card v);
  do next_value <- py_int (card w);
  if negb (current_value mod 2 =? 0) ||
     ((current_value >=? next_value) && negb (current_value + 2 =? next_value))
  then Ok false
  else even_loop (w :: values).
Proof. reflexivity. Qed.

Lemma odd_loop_cons (v w : card_entry) (values : list card_entry) :
  odd_loop (v :: w :: values) =
  do current_value <- py_int (card v);
  do next_value <- py_int (card w);
  if (current_value mod 2 =? 0) ||
     ((current_value >=? next_value) && negb (current_value + 2 =? next_value))
  then Ok false
  else odd_loop (w :: values).
Proof. reflexivity. Qed.

Lemma even_loop_numeric (values : list card_entry) :
  Forall numeric values ->
  even_loop values = Ok (pairs_ok Z.even (map number_of values)).
Proof.
  induction values as [|v values IH]; intros Hn; [reflexivity |].
  destruct values as [|w values]; [reflexivity |].
  inversion Hn as [|? ? Hv Hrest]; subst.
  inversion Hrest as [|? ? Hw _]; subst.
  rewrite even_loop_cons, (py_int_numeric _ Hv), (py_int_numeric _ Hw).
  cbn [rbind]. rewrite even_test.
  change (map number_of (v :: w :: values))
    with (number_of v :: map number_of (w :: values)).
  cbn [map pairs_ok]. fold (number_of v) (number_of w).
  destruct (Z.even (number_of v) && (number_of v <? number_of w)); cbn [negb].
  - rewrite (IH Hrest). reflexivity.
  - reflexivity.
Qed.

Lemma odd_loop_numeric (values : list card_entry) :
  Forall numeric values ->
  odd_loop values = Ok (pairs_ok Z.odd (map number_of values)).
Proof.
  induction values as [|v values IH]; intros Hn; [reflexivity |].
  destruct values as [|w values]; [reflexivity |].
  inversion Hn as [|? ? Hv Hrest]; subst.
  inversion Hrest as [|? ? Hw _]; subst.
  rewrite odd_loop_cons, (py_int_numeric _ Hv), (py_int_numeric _ Hw).
  cbn [rbind]. rewrite odd_test.
  change (map number_of (v :: w :: values))
    with (number_of v :: map number_of (w :: values)).
  cbn [map pairs_ok]. fold (number_of v) (number_of w).
  destruct (Z.odd (number_of v) && (number_of v <? number_of w)); cbn [negb].
  - rewrite (IH Hrest). reflexivity.
  - reflexivity.
Qed.

Lemma last_numeric (values : list card_entry) (d : card_entry) :
  values <> [] -> Forall numeric values ->
  numeric (List.last values d) /\
  number_of (List.last values d) = List.last (map number_of values) 0.
Proof.
  induction values as [|v values IH]; intros Hne Hn; [congruence |].
  inversion Hn as [|? ? Hv Hrest]; subst.
  destruct values as [|w values]; [now split |].
  change (List.last (v :: w :: values) d) with (List.last (w :: values) d).
  change (List.last (map number_of (v :: w :: values)) 0)
    with (List.last (map number_of (w :: values)) 0).
  apply IH; [discriminate | assumption].
Qed.

Lemma all_even_numeric (values : list card_entry) :
  values <> [] -> Forall numeric values ->
  all_even_numbers_satisfied values =
  Ok (pairs_ok Z.even (map number_of values) &&
      Z.even (List.last (map number_of values) 0)).
Proof.
  intros Hne Hn. unfold all_even_numbers_satisfied.
  rewrite (even_loop_numeric _ Hn). cbn [rbind].
  destruct (last_numeric values (mkCard "" "" (0, 0)) Hne Hn) as [Hl Hv].
  rewrite (py_int_numeric _ Hl). cbn [rbind].
  fold (number_of (List.last values (mkCard "" "" (0, 0)))). rewrite Hv.
  rewrite Zmod_even.
  destruct (Z.even (List.last (map number_of values) 0)); cbn;
    now rewrite ?andb_true_r, ?andb_false_r.
Qed.

Lemma all_odd_numeric (values : list card_entry) :
  values <> [] -> Forall numeric values ->
  all_odd_numbers_satisfied values =
  Ok (pairs_ok Z.odd (map number_of values) &&
      Z.odd (List.last (map number_of values) 0)).
Proof.
  intros Hne Hn. unfold all_odd_numbers_satisfied.
  rewrite (odd_loop_numeric _ Hn). cbn [rbind].
  destruct (last_numeric values (mkCard "" "" (0, 0)) Hne Hn) as [Hl Hv].
  rewrite (py_int_numeric _ Hl). cbn [rbind].
  fold (number_of (List.last values (mkCard "" "" (0, 0)))). rewrite Hv.
  rewrite Zmod_even, <- Z.negb_even.
  destruct (Z.even (List.last (map number_of values) 0)); cbn;
    now rewrite ?andb_true_r, ?andb_false_r.
Qed.

(** The loops in terms of lists: all numbers satisfy [p] and each is below
    the next. *)
Lemma pairs_ok_sorted (p : Z -> bool) (ns : list Z) :
  ns <> [] ->
  pairs_ok p ns && p (List.last ns 0) = true <->
  Forall (fun n => p n = true) ns /\ Sorted Z.lt ns.
Proof.
  induction ns as [|a ns IH]; intros Hne; [congruence |].
  destruct ns as [|b ns].
  - cbn. split.
    + intros H. split; [now constructor | repeat constructor].
    + intros [H _]. now inversion H.
  - change (List.last (a :: b :: ns) 0) with (List.last (b :: ns) 0).
    change (pairs_ok p (a :: b :: ns))
      with (p a && (a <? b) && pairs_ok p (b :: ns)).
    specialize (IH ltac:(discriminate)).
    rewrite <- !andb_assoc, !andb_true_iff, Z.ltb_lt, <- andb_true_iff, IH.
    split.
    + intros (Ha & Hab & HF & HS). split; constructor; auto.
    + intros [HF HS]. inversion HF; subst. inversion HS as [|? ? HS' Hhd]; subst.
      inversion Hhd; subst. repeat split; auto.
Qed.

(** The outcome of the test on a cluster whose cards are numbers. *)
Lemma meld_accepted_numeric (key : string) (first : card_entry) (rest : dict card_entry) :
  let item_sum := (key, first) :: rest in
  let values := map snd item_sum in
  let ns := map number_of values in
  Forall numeric values ->
  meld_accepted item_sum =
  Ok ((all_same_numbers_satisfied (card first) values &&
       all_different_color_satisfied (color first) values) ||
      ((all_same_color_satisfied (color first) values &&
        (pairs_ok Z.even ns && Z.even (List.last ns 0))) ||
       (pairs_ok Z.odd ns && Z.odd (List.last ns 0)))).
Proof.
  intros item_sum values ns Hn. unfold meld_accepted, item_sum.
  fold item_sum. fold values.
  rewrite all_even_numeric, all_odd_numeric by (auto; discriminate).
  reflexivity.
Qed.

Lemma all_same_numbers_iff (c : string) (values : list card_entry) :
  all_same_numbers_satisfied c values = true <->
  forall v, In v values -> card v = c.
Proof.
  unfold all_same_numbers_satisfied. rewrite forallb_forall.
  split; intros H v Hv; specialize (H v Hv); now apply String.eqb_eq.
Qed.

Lemma all_same_color_iff (c : string) (values : list card_entry) :
  all_same_color_satisfied c values = true <->
  forall v, In v (tl values) -> color v = c.
Proof.
  unfold all_same_color_satisfied. rewrite forallb_forall.
  split; intros H v Hv; specialize (H v Hv); now apply String.eqb_eq.
Qed.

Lemma all_different_color_iff (c : string) (values : list card_entry) :
  all_different_color_satisfied c values = true <->
  forall v, In v (tl values) -> color v <> c.
Proof.
  unfold all_different_color_satisfied. rewrite forallb_forall.
  split; intros H v Hv; specialize (H v Hv).
  - apply negb_true_iff, String.eqb_neq in H. exact H.
  - apply negb_true_iff, String.eqb_neq. exact H.
Qed.

Lemma Forall_even_odd (ns : list Z) :
  Forall (fun n => Z.odd n = true) ns <-> Forall (fun n => Z.even n = false) ns.
Proof.
  split; intros H; eapply Forall_impl; try exact H; cbn; intros n Hn.
  - rewrite <- Z.negb_even in Hn. now apply negb_true_iff.
  - rewrite <- Z.negb_even. now apply negb_true_iff.
Qed.

Lemma update_values_flag (cfg : config) (item_sum : dict card_entry) (g g' : game)
    (b : bool) :
  update_values cfg item_sum g = Ok (b, g') -> meld_accepted item_sum = Ok b.
Proof.
  unfold update_values. destruct (meld_accepted item_sum) as [[|]|e]; cbn; intros H.
  - destruct (commit_loop cfg item_sum g); cbn in H; congruence.
  - destruct (rollback g); cbn in H; congruence.
  - discriminate.
Qed.

End UpdateValuesTest.

(** Tiles that differ in number or colour and share the number have
    pairwise distinct colours. *)
Lemma same_cards_colors (values : list card_entry) :
  same_cards values ->
  NoDup (map (fun v => (card v, color v)) values) ->
  NoDup (map color values).
Proof.
  induction values as [|v values IH]; intros Hsame Hnd; [constructor |].
  cbn [map] in *. apply NoDup_cons in Hnd as [Hnotin Hnd].
  apply NoDup_cons. split.
  - intros Hin. apply Hnotin.
    apply list_elem_of_In in Hin. apply in_map_iff in Hin as (w & Hc & Hw).
    apply list_elem_of_In, in_map_iff. exists w. split; [| exact Hw].
    rewrite Hc. f_equal. apply Hsame; [now right | now left].
  - apply IH; [| exact Hnd].
    intros a b Ha Hb. apply Hsame; now right.
Qed.

(** C2 (amended): on a cluster whose cards are numbers, the test of
    [update_values] accepts every cluster of one number with pairwise
    distinct colours and every cluster of one colour whose numbers are all
    even or all odd and strictly increasing, whatever the step. A cluster
    of pairwise different tiles that is neither is rejected, colour
    included (BLUE 2, RED 4, GREEN 6 is), unless its numbers are all odd
    and strictly increasing: about such a cluster of mixed colours nothing
    is stated. So every Run of step 1 with two tiles or more is
    rejected. *)
Theorem update_values_test (item_sum : dict card_entry) :
  let values := map snd item_sum in
  let ns := map number_of values in
  (0 < List.length item_sum)%nat ->
  forallb (fun v => isdigit (card v)) values = true ->
  (same_cards values -> NoDup (map color values) ->
   meld_accepted item_sum = Ok true) /\
  (same_colors values -> same_parity ns -> Sorted Z.lt ns ->
   meld_accepted item_sum = Ok true) /\
  (NoDup (map (fun v => (card v, color v)) values) ->
   ~ (same_cards values /\ NoDup (map color values)) ->
   ~ (same_colors values /\ same_parity ns /\ Sorted Z.lt ns) ->
   ~ (Forall (fun n => Z.odd n = true) ns /\ Sorted Z.lt ns) ->
   meld_accepted item_sum = Ok false) /\
  (legal_run values -> (2 <= List.length item_sum)%nat ->
   meld_accepted item_sum = Ok false).
Proof.
  intros values ns Hlen Hdig.
  destruct item_sum as [|[key first] rest]; [cbn in Hlen; lia |].
  assert (Hn : Forall numeric values).
  { apply List.Forall_forall. intros v Hv.
    rewrite forallb_forall in Hdig. exact (Hdig v Hv). }
  assert (Hne : ns <> []) by discriminate.
  pose proof (meld_accepted_numeric key first rest Hn) as Hacc.
  cbv zeta in Hacc. fold values in Hacc. fold ns in Hacc.
  pose proof (pairs_ok_sorted Z.even ns Hne) as Heven.
  pose proof (pairs_ok_sorted Z.odd ns Hne) as Hodd.
  assert (Hfirst : In first values) by (left; reflexivity).
  assert (Hshape :
    meld_accepted ((key, first) :: rest) = Ok true ->
    same_cards values \/
    (same_colors values /\ Forall (fun n => Z.even n = true) ns /\ Sorted Z.lt ns) \/
    (Forall (fun n => Z.odd n = true) ns /\ Sorted Z.lt ns)).
  { rewrite Hacc. intros H. apply Ok_inj in H.
    apply orb_prop in H as [H | H].
    - left. apply andb_prop in H as [H _].
      pose proof (proj1 (all_same_numbers_iff _ _) H) as H'.
      intros v w Hv Hw. now rewrite (H' v Hv), (H' w Hw).
    - right. apply orb_prop in H as [H | H].
      + left. apply andb_prop in H as [Hc H]. apply Heven in H as [HF HS].
        split; [| now split].
        pose proof (proj1 (all_same_color_iff _ _) Hc) as Hc'.
        assert (Hall : forall v, In v values -> color v = color first).
        { intros v [<- | Hv]; [reflexivity | now apply Hc']. }
        intros v w Hv Hw. now rewrite (Hall v Hv), (Hall w Hw).
      + right. now apply Hodd. }
  repeat split.
  - intros Hsame Hnodup. rewrite Hacc. f_equal.
    apply orb_true_iff. left. apply andb_true_iff. split.
    + apply all_same_numbers_iff. intros v Hv. now apply Hsame.
    + apply all_different_color_iff. intros v Hv Heq.
      cbn in Hnodup. apply NoDup_cons in Hnodup as [Hnotin _].
      apply Hnotin. rewrite <- Heq. apply list_elem_of_In. now apply in_map.
  - intros Hsame Hpar Hsorted. rewrite Hacc. f_equal.
    apply orb_true_iff. right.
    destruct Hpar as [Hpar | Hpar].
    + apply orb_true_iff. left. apply andb_true_iff. split.
      * apply all_same_color_iff. intros v Hv. apply Hsame; [now right | exact Hfirst].
      * apply Heven. now split.
    + apply orb_true_iff. right. apply Hodd. split; [| exact Hsorted].
      now apply Forall_even_odd.
  - intros Hpairs HnotG HnotR HnotO.
    destruct (meld_accepted ((key, first) :: rest)) as [[|]|e] eqn:E.
    + exfalso. destruct (Hshape eq_refl) as [Hsame | [(Hc & HF & HS) | HO]].
      * apply HnotG. split; [exact Hsame |]. now apply same_cards_colors.
      * apply HnotR. split; [exact Hc |]. split; [now left | exact HS].
      * now apply HnotO.
    + reflexivity.
    + rewrite Hacc in E. discriminate.
  - intros [_ Hrun] Hlen2.
    destruct rest as [|[key2 second] rest]; [cbn in Hlen2; lia |].
    assert (Hstep : number_of second = number_of first + 1).
    { cbn in Hrun. inversion Hrun as [|? ? _ Hhd]; subst. now inversion Hhd. }
    assert (Hpair : forall p : Z -> bool,
              (forall n, p (n + 1) = negb (p n)) ->
              ~ Forall (fun n => p n = true) ns).
    { intros p Hp HF. subst ns values. cbn in HF.
      fold (number_of first) (number_of second) in HF.
      inversion HF as [|? ? H1 Hr]; subst. inversion Hr as [|? ? H2 _]; subst.
      rewrite Hstep, Hp, H1 in H2. discriminate. }
    destruct (meld_accepted ((key, first) :: (key2, second) :: rest)) as [[|]|e] eqn:E.
    + exfalso. destruct (Hshape eq_refl) as [Hsame | [(_ & HF & _) | [HF _]]].
      * assert (card first = card second) as Hc
          by (apply Hsame; [left | right; left]; reflexivity).
        unfold number_of in Hstep. rewrite Hc in Hstep. lia.
      * apply (Hpair Z.even); [| exact HF].
        intros n. now rewrite Z.add_1_r, Z.even_succ, <- Z.negb_even.
      * apply (Hpair Z.odd); [| exact HF].
        intros n. now rewrite Z.add_1_r, Z.odd_succ, <- Z.negb_odd.
    + reflexivity.
    + rewrite Hacc in E. discriminate.
Qed.

(** The amended test at RED 2, RED 4, RED 6, accepted, and at BLUE 2,
    RED 4, GREEN 6, rejected for its colours. *)
Lemma update_values_test_witness :
  meld_accepted even_246 = Ok true /\ meld_accepted mixed_246 = Ok false.
Proof.
  split.
  - refine (proj1 (proj2 (update_values_test even_246 _ _)) _ _ _).
    + vm_compute. lia.
    + reflexivity.
    + intros v w Hv Hw. cbn in Hv, Hw.
      destruct Hv as [<- | [<- | [<- | []]]], Hw as [<- | [<- | [<- | []]]]; reflexivity.
    + left. repeat constructor.
    + repeat constructor.
  - refine (proj1 (proj2 (proj2 (update_values_test mixed_246 _ _))) _ _ _ _).
    + vm_compute. lia.
    + reflexivity.
    + vm_compute. repeat (apply NoDup_cons; split; [| ]); try constructor;
        rewrite ?list_elem_of_In; cbn; intuition discriminate.
    + intros [Hsame _].
      specialize (Hsame (mkCard "2" "2" (100, 50)) (mkCard "4" "4" (152, 50))
                        ltac:(left; reflexivity) ltac:(right; left; reflexivity)).
      vm_compute in Hsame. discriminate.
    + intros [Hsame _].
      specialize (Hsame (mkCard "2" "2" (100, 50)) (mkCard "4" "4" (152, 50))
                        ltac:(left; reflexivity) ltac:(right; left; reflexivity)).
      vm_compute in Hsame. discriminate.
    + intros [HF _]. inversion HF as [|? ? H1 _]. vm_compute in H1. discriminate.
Defined.

(** C2, as stated, fails: RED 1, RED 2, RED 3 is a legal Run and the test
    rejects it; RED 2, RED 8, RED 14 is neither a Group nor a Run and the
    test accepts it. *)
Lemma test_is_not_group_or_run :
  ~ test_is_group_or_run run_123 /\ ~ test_is_group_or_run spaced_2_8_14.
Proof.
  split.
  - intros [_ H].
    assert (Hacc : meld_accepted run_123 = Ok true).
    { apply H. right. split.
      - intros v w Hv Hw. cbn in Hv, Hw.
        destruct Hv as [<- | [<- | [<- | []]]], Hw as [<- | [<- | [<- | []]]];
          reflexivity.
      - repeat constructor. }
    vm_compute in Hacc. discriminate.
  - intros [H _].
    destruct (H ltac:(reflexivity)) as [[Hsame _] | [_ Hrun]].
    + specialize (Hsame (mkCard "2" "4" (100, 50)) (mkCard "8" "4" (152, 50))
                        ltac:(left; reflexivity) ltac:(right; left; reflexivity)).
      vm_compute in Hsame. discriminate.
    + cbn in Hrun. inversion Hrun as [|? ? _ Hhd]; subst.
      inversion Hhd as [|? ? Hstep]; subst. vm_compute in Hstep. discriminate.
Qed.

(** ** Sorting *)

Section Sorting.

Context {A : Type} (leb : A -> A -> bool).

Lemma insert_sorted_perm (x : A) (l : list A) :
  Permutation (insert_sorted leb x l) (x :: l).
Proof.
  induction l as [|y l IH]; cbn; [reflexivity |].
  destruct (leb y x); [| reflexivity].
  rewrite IH. apply perm_swap.
Qed.

Lemma fold_insert_perm (l acc : list A) :
  Permutation (fold_left (fun acc x => insert_sorted leb x acc) l acc) (l ++ acc).
Proof.
  revert acc. induction l as [|x l IH]; intros acc; cbn; [reflexivity |].
  rewrite IH, insert_sorted_perm. symmetry. apply Permutation_middle.
Qed.

Lemma py_sorted_perm (l : list A) : Permutation (py_sorted leb l) l.
Proof.
  unfold py_sorted. rewrite fold_insert_perm. now rewrite app_nil_r.
Qed.

Lemma py_sorted_In (x : A) (l : list A) : In x (py_sorted leb l) <-> In x l.
Proof.
  split; apply Permutation_in; [| symmetry]; apply py_sorted_perm.
Qed.

Lemma py_sorted_length (l : list A) : List.length (py_sorted leb l) = List.length l.
Proof. apply Permutation_length, py_sorted_perm. Qed.

Hypothesis leb_total : forall a b, leb a b = false -> leb b a = true.

Let le (a b : A) : Prop := leb a b = true.

Lemma insert_sorted_hd (x y : A) (l : list A) :
  le y x -> HdRel le y l -> HdRel le y (insert_sorted leb x l).
Proof.
  intros Hyx Hhd. destruct l as [|z l]; cbn; [now constructor |].
  inversion Hhd; subst. destruct (leb z x); now constructor.
Qed.

Lemma insert_sorted_sorted (x : A) (l : list A) :
  Sorted le l -> Sorted le (insert_sorted leb x l).
Proof.
  induction l as [|y l IH]; intros Hs; cbn; [repeat constructor |].
  inversion Hs as [|? ? Hs' Hhd]; subst.
  destruct (leb y x) eqn:E.
  - constructor; [now apply IH | now apply insert_sorted_hd].
  - constructor; [assumption | constructor; now apply leb_total].
Qed.

Lemma py_sorted_sorted (l : list A) : Sorted le (py_sorted leb l).
Proof.
  unfold py_sorted.
  assert (H : forall acc, Sorted le acc ->
              Sorted le (fold_left (fun acc x => insert_sorted leb x acc) l acc)).
  { induction l as [|x l IH]; intros acc Hacc; cbn; [assumption |].
    apply IH, insert_sorted_sorted, Hacc. }
  apply H. constructor.
Qed.

End Sorting.

Lemma Sorted_map_le (l : list ai_item) :
  Sorted (fun a b => number_leb a b = true) l -> Sorted Z.le (map ai_int l).
Proof.
  induction 1 as [|a l Hs IH Hhd]; cbn; constructor; [assumption |].
  destruct Hhd as [|b l Hab]; cbn; constructor.
  unfold number_leb in Hab. now apply Z.leb_le.
Qed.

(** ** The groups of the opponent's rack *)

Section AiGroups.

Lemma split_parity_spec (card_number : list ai_item) (evens odds : list ai_item) :
  split_parity card_number = Ok (evens, odds) ->
  (forall t, In t evens -> In t card_number /\ Z.even (ai_int t) = true) /\
  (forall t, In t odds -> In t card_number /\ Z.even (ai_int t) = false) /\
  (List.length evens + List.length odds = List.length card_number)%nat.
Proof.
  revert evens odds.
  induction card_number as [|it rest IH]; intros evens odds H; cbn in H.
  - injection H as <- <-. split; [| split]; [intros u [] | intros u [] | reflexivity].
  - destruct (py_int (ai_number (snd it))) as [n|] eqn:En; [| discriminate].
    cbn in H. destruct (split_parity rest) as [[ev od]|] eqn:Er; [| discriminate].
    cbn in H. destruct (IH ev od eq_refl) as (He & Ho & Hl).
    assert (Hit : ai_int it = n) by (unfold ai_int; now rewrite En).
    rewrite Zmod_even in H.
    destruct (Z.even n) eqn:Ee; cbn in H; injection H as <- <-.
    + split; [| split].
      * intros t [<- | Ht]; [split; [now left | congruence] |].
        destruct (He t Ht). split; [now right | assumption].
      * intros t Ht. destruct (Ho t Ht). split; [now right | assumption].
      * cbn. lia.
    + split; [| split].
      * intros t Ht. destruct (He t Ht). split; [now right | assumption].
      * intros t [<- | Ht]; [split; [now left | congruence] |].
        destruct (Ho t Ht). split; [now right | assumption].
      * cbn. lia.
Qed.

Lemma group_append_inv (tile_list : list ai_item) (tile : ai_item)
    (groups : dict (list ai_item)) :
  In tile tile_list -> group_inv tile_list groups ->
  group_inv tile_list (group_append (ai_color (snd tile)) tile groups).
Proof.
  intros Hin. induction groups as [|[k' l'] groups IH]; intros Hinv k l Hkl t Ht.
  - cbn in Hkl. destruct Hkl as [[= <- <-] | []].
    destruct Ht as [<- | []]. now split.
  - cbn in Hkl. destruct (String.eqb_spec (ai_color (snd tile)) k') as [E | E].
    + destruct Hkl as [[= <- <-] | Hkl].
      * apply in_app_or in Ht as [Ht | [<- | []]].
        -- apply (Hinv k' l'); [now left | assumption].
        -- now split.
      * apply (Hinv k l); [now right | assumption].
    + destruct Hkl as [[= <- <-] | Hkl].
      * apply (Hinv k' l'); [now left | assumption].
      * apply IH with (k := k) (l := l); auto.
        intros k0 l0 H0. apply Hinv. now right.
Qed.

Lemma group_fold_inv (tile_list todo : list ai_item) (groups : dict (list ai_item)) :
  (forall t, In t todo -> In t tile_list) -> group_inv tile_list groups ->
  group_inv tile_list
    (fold_left (fun d tile => group_append (ai_color (snd tile)) tile d) todo groups).
Proof.
  revert groups. induction todo as [|t todo IH]; intros groups Hsub Hinv; cbn.
  - assumption.
  - apply IH.
    + intros u Hu. apply Hsub. now right.
    + apply group_append_inv; [apply Hsub; now left | assumption].
Qed.

(** A group holds tiles of the list, all of the colour of its key, sorted
    by number. *)
Lemma group_tiles_by_integer_spec (tile_list : list ai_item) (k : string)
    (l : list ai_item) :
  In (k, l) (group_tiles_by_integer tile_list) ->
  (forall t, In t l -> In t tile_list /\ ai_color (snd t) = k) /\
  Sorted Z.le (map ai_int l).
Proof.
  unfold group_tiles_by_integer. intros H.
  apply in_map_iff in H as ([k0 l0] & [= <- <-] & Hin). cbn.
  split.
  - intros t Ht. apply py_sorted_In in Ht.
    eapply (group_fold_inv tile_list tile_list []); eauto.
    intros ? ? [].
  - apply Sorted_map_le, py_sorted_sorted.
    intros a b. unfold number_leb. intros Hab.
    apply Z.leb_gt in Hab. apply Z.leb_le. lia.
Qed.

End AiGroups.

(** ** The melds of the opponent *)

Lemma ai_card_number_In (player_2 : dict addr) (t : ai_item) :
  In t (ai_card_number player_2) ->
  In (fst t, ai_value (snd t)) player_2 /\
  card_and_color (fst t) = (ai_number (snd t), ai_color (snd t)).
Proof.
  unfold ai_card_number. intros H.
  apply in_map_iff in H as ([k a] & Heq & Hin). cbn in Heq.
  destruct (card_and_color k) as [c col] eqn:E. subst t. cbn.
  split; [assumption | exact E].
Qed.

(** A group of one of the two parities. *)
Lemma ai_groups_spec (player_2 : dict addr) (evens odds : dict (list ai_item))
    (k : string) (l : list ai_item) :
  ai_groups player_2 = Ok (evens, odds) ->
  In (k, l) evens \/ In (k, l) odds ->
  (forall t, In t l -> In t (ai_card_number player_2) /\ ai_color (snd t) = k) /\
  (forall t u, In t l -> In u l -> Z.even (ai_int t) = Z.even (ai_int u)) /\
  Sorted Z.le (map ai_int l).
Proof.
  unfold ai_groups. intros H Hin.
  destruct (split_parity (ai_card_number player_2)) as [[ev od]|] eqn:Es;
    [| discriminate].
  cbn in H. injection H as <- <-.
  destruct (split_parity_spec _ _ _ Es) as (Hev & Hod & _).
  destruct Hin as [Hin | Hin];
    destruct (group_tiles_by_integer_spec _ _ _ Hin) as [Hmem Hsorted];
    (split; [| split]; [| | exact Hsorted]).
  - intros t Ht. destruct (Hmem t Ht) as [Ht' Hc]. apply py_sorted_In in Ht'.
    split; [now apply Hev | exact Hc].
  - intros t u Ht Hu.
    destruct (Hmem t Ht) as [Ht' _], (Hmem u Hu) as [Hu' _].
    apply py_sorted_In in Ht', Hu'.
    destruct (Hev t Ht') as [_ ->], (Hev u Hu') as [_ ->]. reflexivity.
  - intros t Ht. destruct (Hmem t Ht) as [Ht' Hc]. apply py_sorted_In in Ht'.
    split; [now apply Hod | exact Hc].
  - intros t u Ht Hu.
    destruct (Hmem t Ht) as [Ht' _], (Hmem u Hu) as [Hu' _].
    apply py_sorted_In in Ht', Hu'.
    destruct (Hod t Ht') as [_ ->], (Hod u Hu') as [_ ->]. reflexivity.
Qed.

Lemma ai_melds_In (player_2 : dict addr) (melds : list (list ai_item))
    (meld : list ai_item) :
  ai_melds player_2 = Ok melds -> In meld melds ->
  playable meld = true /\
  exists evens odds k,
    ai_groups player_2 = Ok (evens, odds) /\
    (In (k, meld) evens \/ In (k, meld) odds).
Proof.
  unfold ai_melds. intros H Hin.
  destruct (ai_groups player_2) as [[evens odds]|] eqn:Eg; [| discriminate].
  cbn in H. injection H as <-.
  apply in_app_or in Hin.
  destruct Hin as [Hin | Hin]; apply filter_In in Hin as [Hin Hp];
    apply in_map_iff in Hin as ([k l] & Hl & Hin); cbn in Hl; subst l;
    (split; [exact Hp |]); exists evens, odds, k; split; auto.
Qed.

(** C5 (amended): a meld the opponent plays has three to five tiles, all
    tiles of the opponent's rack, of one colour and of one parity, in
    ascending order of their numbers; the loop asks nothing of the step
    between two numbers. *)
Theorem ai_melds_shape (player_2 : dict addr) (melds : list (list ai_item))
    (meld : list ai_item) :
  ai_melds player_2 = Ok melds -> In meld melds ->
  (3 <= List.length meld <= 5)%nat /\
  (forall t, In t meld ->
     In (fst t, ai_value (snd t)) player_2 /\
     card_and_color (fst t) = (ai_number (snd t), ai_color (snd t))) /\
  (forall t u, In t meld -> In u meld -> ai_color (snd t) = ai_color (snd u)) /\
  (forall t u, In t meld -> In u meld -> Z.even (ai_int t) = Z.even (ai_int u)) /\
  Sorted Z.le (map ai_int meld).
Proof.
  intros H Hin.
  destruct (ai_melds_In _ _ _ H Hin) as (Hp & evens & odds & k & Hg & Hk).
  destruct (ai_groups_spec _ _ _ _ _ Hg Hk) as (Hmem & Hpar & Hsorted).
  split; [| split; [| split; [| split]]].
  - unfold playable, in_range in Hp. apply andb_prop in Hp as [H1 H2].
    apply Z.leb_le in H1. apply Z.ltb_lt in H2. lia.
  - intros t Ht. destruct (Hmem t Ht) as [Ht' _]. now apply ai_card_number_In.
  - intros t u Ht Hu. destruct (Hmem t Ht) as [_ ->], (Hmem u Hu) as [_ ->].
    reflexivity.
  - exact Hpar.
  - exact Hsorted.
Qed.

(** The meld of a rack of YELLOW 2, 8, 14 and BLACK 3. *)
Lemma ai_melds_shape_witness :
  (3 <= List.length (map (fun n => (tile 5 n, mkAiCard (str_of_nat n) "5" (n / 6 + 3)%nat))
                         [2; 8; 14]%nat) <= 5)%nat.
Proof.
  refine (proj1 (ai_melds_shape (PLAYER_2 g_spaced) _ _ _ _)).
  - vm_compute. reflexivity.
  - left. vm_compute. reflexivity.
Defined.

(** C5, as stated, fails: with YELLOW 2, YELLOW 8 and YELLOW 14 in the rack
    the opponent plays the three of them as one meld, and [play_ai_turn]
    moves them from the rack to the board. *)
Lemma melds_not_step_two :
  ~ melds_step_two (PLAYER_2 g_spaced) /\
  match play_ai_turn example_config true g_spaced [] with
  | Ok (g', _) =>
      dict_keys (PLAYER_2 g') = [tile 1 3] /\
      position_of (tile 5 2) g' = Some (100, 50) /\
      position_of (tile 5 8) g' = Some (152, 50) /\
      position_of (tile 5 14) g' = Some (204, 50)
  | Raise _ => False
  end.
Proof.
  split.
  - intros H.
    specialize (H _ _ ltac:(vm_compute; reflexivity) ltac:(left; reflexivity)).
    cbn in H. inversion H as [|? ? _ Hhd]; subst.
    inversion Hhd as [|? ? Hstep]; subst. vm_compute in Hstep. discriminate.
  - vm_compute. repeat split.
Qed.

(** ** Dictionaries *)

Section Dict.

Context {V : Type}.

Lemma dict_mem_get (k : string) (d : dict V) :
  dict_mem k d = false <-> dict_get k d = None.
Proof. unfold dict_mem. destruct (dict_get k d); split; congruence. Qed.

Lemma dict_get_In (k : string) (v : V) (d : dict V) :
  dict_get k d = Some v -> In (k, v) d.
Proof.
  induction d as [|[k' v'] d IH]; cbn; [discriminate |].
  destruct (String.eqb_spec k k') as [-> | Hne].
  - intros [= ->]. now left.
  - intros H. right. now apply IH.
Qed.

Lemma dict_get_None (k : string) (d : dict V) :
  dict_get k d = None <-> ~ In k (dict_keys d).
Proof.
  induction d as [|[k' v'] d IH]; cbn; [tauto |].
  destruct (String.eqb_spec k k') as [-> | Hne].
  - split; [discriminate | intros H; exfalso; apply H; now left].
  - rewrite IH. split; intros H; [intros [E | E]; [congruence | auto] | tauto].
Qed.

Lemma dict_set_fresh (k : string) (v : V) (d : dict V) :
  dict_get k d = None -> dict_set k v d = d ++ [(k, v)].
Proof.
  induction d as [|[k' v'] d IH]; cbn; [reflexivity |].
  destruct (String.eqb k k'); [discriminate |].
  intros H. now rewrite IH.
Qed.

Lemma dict_get_set_eq (k : string) (v : V) (d : dict V) :
  dict_get k (dict_set k v d) = Some v.
Proof.
  induction d as [|[k' v'] d IH]; cbn.
  - now rewrite String.eqb_refl.
  - destruct (String.eqb k k') eqn:E; cbn; rewrite E; [reflexivity | exact IH].
Qed.

Lemma dict_get_set_ne (k k' : string) (v : V) (d : dict V) :
  k <> k' -> dict_get k' (dict_set k v d) = dict_get k' d.
Proof.
  intros Hne. induction d as [|[k0 v0] d IH]; cbn.
  - destruct (String.eqb_spec k' k); [congruence | reflexivity].
  - destruct (String.eqb_spec k k0) as [-> | Hk]; cbn.
    + destruct (String.eqb_spec k' k0); [congruence | reflexivity].
    + destruct (String.eqb k' k0); [reflexivity | exact IH].
Qed.

Lemma dict_keys_set_mem (k : string) (v : V) (d : dict V) :
  dict_get k d <> None -> dict_keys (dict_set k v d) = dict_keys d.
Proof.
  unfold dict_keys.
  induction d as [|[k' v'] d IH]; cbn; [congruence |].
  destruct (String.eqb_spec k k') as [-> | Hne]; cbn; [reflexivity |].
  intros H. f_equal. now apply IH.
Qed.

Lemma dict_set_same (k : string) (v : V) (d : dict V) :
  dict_get k d = Some v -> dict_set k v d = d.
Proof.
  induction d as [|[k' v'] d IH]; cbn; [discriminate |].
  destruct (String.eqb_spec k k') as [-> | Hne].
  - now intros [= ->].
  - intros H. now rewrite IH.
Qed.

End Dict.

(** ** The turn of the opponent *)

Lemma with_PLAYER_2_id (g : game) : with_PLAYER_2 (PLAYER_2 g) g = g.
Proof. now destruct g. Qed.

Lemma place_group_spec (value : list ai_item) (c_x c_y : Z) (g : game)
    (keys : list string) :
  let '(_, g', keys') := place_group value c_x c_y g keys in
  keys' = keys ++ map fst value /\
  PLAYER_1 g' = PLAYER_1 g /\ PLAYER_2 g' = PLAYER_2 g /\ IMG_PATHS g' = IMG_PATHS g.
Proof.
  revert c_x g keys. induction value as [|v value IH]; intros c_x g keys; cbn.
  - now rewrite app_nil_r.
  - specialize (IH (c_x + 52) (place_tile v c_x c_y g) (keys ++ [fst v])).
    destruct (place_group value (c_x + 52) c_y (place_tile v c_x c_y g) (keys ++ [fst v]))
      as [[c' g'] keys'].
    destruct IH as (-> & -> & -> & ->). rewrite <- app_assoc. now cbn.
Qed.

Lemma place_groups_spec (groups : dict (list ai_item)) (c_x c_y : Z) (g : game)
    (keys : list string) (flag : bool) :
  let '(_, g', keys', flag') := place_groups groups c_x c_y g keys flag in
  keys' = keys ++ concat (map (map fst) (List.filter playable (map snd groups))) /\
  flag' = flag && forallb (fun value => negb (playable value)) (map snd groups) /\
  PLAYER_1 g' = PLAYER_1 g /\ PLAYER_2 g' = PLAYER_2 g /\ IMG_PATHS g' = IMG_PATHS g.
Proof.
  revert c_x g keys flag.
  induction groups as [|[k value] groups IH]; intros c_x g keys flag; cbn.
  - now rewrite app_nil_r, andb_true_r.
  - destruct (playable value) eqn:Ep; cbn.
    + pose proof (place_group_spec value c_x c_y g keys) as Hg.
      destruct (place_group value c_x c_y g keys) as [[c1 g1] keys1].
      destruct Hg as (-> & H1 & H2 & H3).
      specialize (IH (c1 + 52) g1 (keys ++ map fst value) false).
      destruct (place_groups groups (c1 + 52) c_y g1 (keys ++ map fst value) false)
        as [[[c2 g2] keys2] flag2].
      destruct IH as (-> & -> & -> & -> & ->).
      rewrite <- app_assoc, andb_false_r. auto.
    + apply IH.
Qed.

Lemma place_groups_none (groups : dict (list ai_item)) (c_x c_y : Z) (g : game)
    (keys : list string) (flag : bool) :
  List.filter playable (map snd groups) = [] ->
  place_groups groups c_x c_y g keys flag = (c_x, g, keys, flag).
Proof.
  induction groups as [|[k value] groups IH]; cbn; [reflexivity |].
  destruct (playable value); [discriminate | exact IH].
Qed.

(** The keys that leave the opponent's rack are the keys of the melds. *)
Lemma play_ai_turn_melds (cfg : config) (g g' : game) (entropy entropy' : list nat)
    (melds : list (list ai_item)) :
  play_ai_turn cfg true g entropy = Ok (g', entropy') ->
  ai_melds (PLAYER_2 g) = Ok melds -> melds <> [] ->
  PLAYER_2 g' = delete_keys (concat (map (map fst) melds)) (PLAYER_2 g) /\
  PLAYER_1 g' = PLAYER_1 g /\ entropy' = entropy.
Proof.
  unfold play_ai_turn, ai_melds. intros H Hm Hne.
  destruct (ai_groups (PLAYER_2 g)) as [[evens odds]|]; [| discriminate].
  cbn in H, Hm. injection Hm as <-.
  destruct (calculate_empty_spaces cfg g) as [es|]; [| discriminate]. cbn in H.
  destruct (head (start_loop es 0 [])) as [s0|]; [| discriminate]. cbn in H.
  set (c_x := if negb (snd s0 =? fst (BIG_BOX_POSITION cfg)) then snd s0 + 52 else snd s0) in H.
  pose proof (place_groups_spec evens c_x (fst s0) g [] true) as H1.
  destruct (place_groups evens c_x (fst s0) g [] true) as [[[c1 g1] keys1] f1].
  destruct H1 as (-> & -> & Hp1 & Hp2 & _).
  pose proof (place_groups_spec odds c1 (fst s0) g1
                ([] ++ concat (map (map fst) (List.filter playable (map snd evens)))) true)
    as H2.
  destruct (place_groups odds c1 (fst s0) g1 _ true) as [[[c2 g2] keys2] f2].
  destruct H2 as (-> & -> & Hq1 & Hq2 & _).
  cbn [app] in H.
  assert (Hflags :
    (true && forallb (fun value => negb (playable value)) (map snd evens)) &&
    (true && forallb (fun value => negb (playable value)) (map snd odds)) = false).
  { cbn [andb].
    destruct (forallb (fun value => negb (playable value)) (map snd evens)) eqn:E1;
      [| reflexivity].
    destruct (forallb (fun value => negb (playable value)) (map snd odds)) eqn:E2;
      [| reflexivity].
    exfalso. apply Hne.
    assert (Hnil : forall l, forallb (fun value => negb (playable value)) l = true ->
                             List.filter playable l = []).
    { induction l as [|x l IHl]; cbn; [reflexivity |].
      destruct (playable x); cbn; [discriminate | exact IHl]. }
    now rewrite (Hnil _ E1), (Hnil _ E2). }
  rewrite Hflags in H. injection H as <- <-.
  cbn. rewrite Hq2, Hp2, Hq1, Hp1.
  rewrite map_app, concat_app. auto.
Qed.

(** ** The draw of the opponent *)


(** ** The draw of the opponent *)

Lemma ai_draw_loop_free (fuel : nat) (cfg : config) (g : game) (entropy entropy' : list nat)
    (path : string) :
  ai_draw_loop fuel cfg g entropy = Ok (path, entropy') -> free_path path g.
Proof.
  revert entropy. induction fuel as [|fuel IH]; intros entropy; cbn; [discriminate |].
  destruct (random_tile_path cfg entropy) as [[[[r0 r1] p] e]|]; cbn; [| discriminate].
  destruct (dict_mem p (game_object_database g)) eqn:E1; cbn; [apply IH |].
  destruct (dict_mem p (PLAYER_2 g)) eqn:E2; cbn; [apply IH |].
  destruct (dict_mem p (PLAYER_1 g)) eqn:E3; cbn; [apply IH |].
  intros [= <- <-]. now repeat split.
Qed.

Lemma ai_draw_loop_first (fuel : nat) (cfg : config) (g : game) (entropy rest : list nat)
    (r0 r1 : Z) (path : string) :
  random_tile_path cfg entropy = Ok (r0, r1, path, rest) -> free_path path g ->
  ai_draw_loop (S fuel) cfg g entropy = Ok (path, rest).
Proof.
  intros Hr (H1 & H2 & H3). cbn. rewrite Hr. cbn. now rewrite H1, H2, H3.
Qed.

(** The state after a draw of the opponent. *)
Lemma add_tile_to_ai_free (cfg : config) (g : game) (path : string) (entropy : list nat) :
  free_path path g ->
  exists g',
    (if negb (dict_mem path (PLAYER_2 g)) && negb (dict_mem path (PLAYER_1 g)) &&
        negb (dict_mem path (game_object_database g))
     then let '(r, g1) := load_image_at cfg path (0, 0) g in
          Ok (with_PLAYER_2 (dict_set path r (PLAYER_2 g1)) g1, entropy)
     else Ok (g, entropy)) = Ok (g', entropy) /\
    (exists a, PLAYER_2 g' = PLAYER_2 g ++ [(path, a)]) /\
    game_object_database g' = game_object_database g /\
    PLAYER_1 g' = PLAYER_1 g.
Proof.
  intros (H1 & H2 & H3). rewrite H1, H2, H3. cbn [negb andb].
  unfold load_image_at. destruct (image_size cfg path) as [w h]. cbn.
  eexists. split; [reflexivity |]. cbn.
  split; [| split; reflexivity].
  eexists. apply dict_set_fresh. now apply dict_mem_get.
Qed.

Lemma add_tile_to_ai_spec (cfg : config) (g g' : game) (entropy entropy' : list nat) :
  add_tile_to_ai cfg g entropy = Ok (g', entropy') ->
  (exists key a, free_path key g /\ PLAYER_2 g' = PLAYER_2 g ++ [(key, a)]) /\
  game_object_database g' = game_object_database g /\
  PLAYER_1 g' = PLAYER_1 g.
Proof.
  unfold add_tile_to_ai. intros H.
  destruct (ai_draw_loop (S (List.length entropy)) cfg g entropy) as [[path e]|] eqn:Ed;
    [| discriminate].
  cbn [rbind] in H.
  pose proof (ai_draw_loop_free _ _ _ _ _ _ Ed) as Hfree.
  destruct (add_tile_to_ai_free cfg g path e Hfree) as (g1 & Heq & [a Ha] & Hg & Hp).
  rewrite Heq in H. injection H as <- <-.
  split; [| split; assumption].
  exists path, a. now split.
Qed.

(** C6 (amended): when no group of one colour and one parity of the
    opponent's rack has three to five tiles, and the scan of the board
    finds a start position, the turn of the opponent is a draw: nothing is
    played, and a draw that ends appends one tile, held by nobody before,
    to the rack; the draw ends at once when the first path drawn is free. *)
Theorem ai_draws_when_nothing_playable (cfg : config) (is_delete : bool) (g : game)
    (entropy : list nat) (empty_space : list (Z * Z)) :
  ai_melds (PLAYER_2 g) = Ok [] ->
  calculate_empty_spaces cfg g = Ok empty_space ->
  (0 < List.length (start_loop empty_space 0 []))%nat ->
  play_ai_turn cfg is_delete g entropy = add_tile_to_ai cfg g entropy /\
  (forall g' entropy',
     add_tile_to_ai cfg g entropy = Ok (g', entropy') ->
     List.length (PLAYER_2 g') = S (List.length (PLAYER_2 g)) /\
     (exists key a, free_path key g /\ PLAYER_2 g' = PLAYER_2 g ++ [(key, a)]) /\
     game_object_database g' = game_object_database g /\
     PLAYER_1 g' = PLAYER_1 g) /\
  (forall r0 r1 path rest,
     random_tile_path cfg entropy = Ok (r0, r1, path, rest) -> free_path path g ->
     exists g', add_tile_to_ai cfg g entropy = Ok (g', rest)).
Proof.
  intros Hm He Hs. split; [| split].
  - unfold play_ai_turn. unfold ai_melds in Hm.
    destruct (ai_groups (PLAYER_2 g)) as [[evens odds]|]; [| discriminate].
    cbn in Hm. injection Hm as Hm. apply app_eq_nil in Hm as [Hev Hod].
    cbn [rbind fst snd]. rewrite He. cbn [rbind].
    destruct (start_loop empty_space 0 []) as [|s0 sp]; [cbn in Hs; lia |].
    cbn [head of_option rbind].
    rewrite (place_groups_none evens _ _ _ _ _ Hev).
    rewrite (place_groups_none odds _ _ _ _ _ Hod).
    cbn [andb delete_keys fold_left]. rewrite with_PLAYER_2_id.
    now destruct is_delete.
  - intros g' entropy' H.
    destruct (add_tile_to_ai_spec _ _ _ _ _ H) as ((key & a & Hf & Hp) & Hg & H1).
    split; [| split; [| split]]; auto.
    + rewrite Hp, length_app. cbn. lia.
    + now exists key, a.
  - intros r0 r1 path rest Hr Hf.
    unfold add_tile_to_ai.
    rewrite (ai_draw_loop_first _ _ _ _ _ _ _ _ Hr Hf). cbn [rbind].
    destruct (add_tile_to_ai_free cfg g path rest Hf) as (g' & Heq & _).
    exists g'. exact Heq.
Qed.

(** With YELLOW 2, YELLOW 4 and BLACK 3 in the rack the opponent draws. *)
Lemma ai_draws_when_nothing_playable_witness :
  play_ai_turn example_config true g_short [0; 0]%nat =
  add_tile_to_ai example_config g_short [0; 0]%nat.
Proof.
  refine (proj1 (ai_draws_when_nothing_playable example_config true g_short
                   [0; 0]%nat _ _ _ _)).
  - vm_compute. reflexivity.
  - vm_compute. reflexivity.
  - vm_compute. lia.
Defined.

(** C6, as stated, fails: the rack YELLOW 2, YELLOW 8, YELLOW 14, BLACK 3
    holds no run of step 2, and the turn of the opponent plays three tiles
    and draws none. *)
Lemma no_draw_without_step_two_run :
  ~ draws_without_step_two_run example_config g_spaced [0; 0]%nat.
Proof.
  intros H.
  specialize (H ltac:(vm_compute; reflexivity)).
  destruct (play_ai_turn example_config true g_spaced [0; 0]%nat)
    as [[g' entropy']|] eqn:E; [| vm_compute in E; discriminate].
  specialize (H g' entropy' eq_refl).
  vm_compute in E. injection E as <- <-. vm_compute in H. discriminate.
Qed.

(** ** The initial deal *)

Lemma list_mem_string_false (x : string) (l : list string) :
  list_mem String.eqb x l = false -> x ∉ l.
Proof.
  unfold list_mem. intros H Hin. apply list_elem_of_In in Hin.
  assert (existsb (String.eqb x) l = true) as Ht.
  { apply existsb_exists. exists x. split; [assumption | apply String.eqb_refl]. }
  congruence.
Qed.

Lemma dict_keys_set_In {V : Type} (k k' : string) (v : V) (d : dict V) :
  In k' (dict_keys (dict_set k v d)) -> k' = k \/ In k' (dict_keys d).
Proof.
  unfold dict_keys. induction d as [|[k0 v0] d IH]; cbn.
  - intros [<- | []]. now left.
  - destruct (String.eqb_spec k k0) as [-> | Hne]; cbn.
    + intros [<- | H]; [right; now left | right; now right].
    + intros [<- | H]; [right; now left |].
      destruct (IH H) as [-> | H']; [now left | right; now right].
Qed.

Lemma deal_inv_NoDup (d : deal) : deal_inv d -> NoDup (dealt_indices d).
Proof.
  intros [Heq Hnd]. rewrite Heq in Hnd.
  revert Hnd. generalize (dealt_indices d) as l. clear.
  induction l as [|x l IH]; cbn; intros H; [constructor |].
  apply NoDup_cons in H as [Hnotin Hnd].
  apply NoDup_cons. split; [| now apply IH].
  intros Hin. apply Hnotin. apply list_elem_of_In, in_map. now apply list_elem_of_In.
Qed.

Lemma deal_player_spec (fuel : nat) (cfg : config) (tile_image_list : list (list string))
    (players players' : dict addr) (d d' : deal) (entropy entropy' : list nat) :
  deal_player fuel cfg tile_image_list players d entropy = Ok (players', d', entropy') ->
  deal_inv d -> dealt_from tile_image_list (dealt_indices d) players ->
  List.length players' = 15%nat /\
  deal_inv d' /\
  dealt_from tile_image_list (dealt_indices d') players' /\
  exists more, dealt_indices d' = dealt_indices d ++ more.
Proof.
  revert players d entropy.
  induction fuel as [|fuel IH]; intros players d entropy H Hinv Hfrom.
  - cbn in H. destruct (Nat.eqb_spec (List.length players) 15); [| discriminate].
    injection H as <- <- <-. repeat split; try assumption; try apply Hinv.
    exists []. now rewrite app_nil_r.
  - cbn [deal_player] in H.
    destruct (Nat.eqb_spec (List.length players) 15).
    { injection H as <- <- <-. repeat split; try assumption; try apply Hinv.
      exists []. now rewrite app_nil_r. }
    destruct (randint 0 (Z.of_nat (List.length tile_image_list) - 1) entropy)
      as [[r0 e0]|]; [| discriminate]. cbn [rbind fst snd] in H.
    destruct (head tile_image_list) as [row0|]; [| discriminate].
    cbn [of_option rbind] in H.
    destruct (randint 1 (Z.of_nat (List.length row0)) e0) as [[r1 e1]|]; [| discriminate].
    cbn [rbind fst snd] in H.
    change (str_of_nat (Z.to_nat r0) +:+ str_of_nat (Z.to_nat r1))
      with (index_string (r0, r1)) in H.
    destruct (list_mem String.eqb (index_string (r0, r1)) (random_tile_temp d)) eqn:Em.
    { exact (IH _ _ _ H Hinv Hfrom). }
    destruct (nth_error tile_image_list (Z.to_nat r0)) as [row|] eqn:Erow; [| discriminate].
    cbn [of_option rbind] in H.
    destruct (nth_error row (Z.to_nat r1)) as [path|] eqn:Epath; [| discriminate].
    cbn [of_option rbind] in H.
    destruct (image_size cfg path) as [w h]. cbn [alloc] in H.
    apply IH in H.
    + destruct H as (Hlen & Hinv' & Hfrom' & more & Hmore). cbn in Hmore.
      repeat split; try assumption; try apply Hinv'.
      exists ((r0, r1) :: more). now rewrite Hmore, <- app_assoc.
    + destruct Hinv as [Heq Hnd]. split; cbn.
      * now rewrite map_app, Heq.
      * apply NoDup_app. split; [assumption |]. split.
        -- intros x Hx Hx'. apply list_elem_of_In in Hx'. destruct Hx' as [<- | []].
           now apply (list_mem_string_false _ _ Em).
        -- apply NoDup_singleton.
    + intros key Hkey. cbn. apply dict_keys_set_In in Hkey as [-> | Hkey].
      * exists (r0, r1). split; [apply in_or_app; right; now left |].
        unfold table_at. cbn. now rewrite Erow.
      * destruct (Hfrom key Hkey) as (rt & Hrt & Hat).
        exists rt. split; [apply in_or_app; now left | assumption].
Qed.

Lemma dealt_from_more (tile_image_list : list (list string)) (indices more : list (Z * Z))
    (rack : dict addr) :
  dealt_from tile_image_list indices rack ->
  dealt_from tile_image_list (indices ++ more) rack.
Proof.
  intros H key Hkey. destruct (H key Hkey) as (rt & Hrt & Hat).
  exists rt. split; [apply in_or_app; now left | assumption].
Qed.

Lemma deal_players_spec (cfg : config) (tile_image_list : list (list string))
    (players_database racks : list (dict addr)) (d d' : deal)
    (entropy entropy' : list nat) :
  deal_players cfg tile_image_list players_database d entropy = Ok (racks, d', entropy') ->
  deal_inv d ->
  Forall (dealt_from tile_image_list (dealt_indices d)) players_database ->
  List.length racks = List.length players_database /\
  Forall (fun rack => List.length rack = 15%nat) racks /\
  deal_inv d' /\
  Forall (dealt_from tile_image_list (dealt_indices d')) racks /\
  exists more, dealt_indices d' = dealt_indices d ++ more.
Proof.
  revert racks d entropy.
  induction players_database as [|players rest IH]; intros racks d entropy H Hinv Hfrom.
  - cbn in H. injection H as <- <- <-. repeat split; auto; try apply Hinv.
    exists []. now rewrite app_nil_r.
  - cbn [deal_players] in H.
    destruct (deal_player (S (List.length entropy)) cfg tile_image_list players d entropy)
      as [[[p1 d1] e1]|] eqn:E1; [| discriminate].
    cbn [rbind] in H.
    destruct (deal_players cfg tile_image_list rest d1 e1) as [[[rs d2] e2]|] eqn:E2;
      [| discriminate].
    cbn [rbind] in H. injection H as <- <- <-.
    apply Forall_cons in Hfrom as [Hp Hrest].
    destruct (deal_player_spec _ _ _ _ _ _ _ _ _ E1 Hinv Hp)
      as (Hlen1 & Hinv1 & Hfrom1 & more1 & Hmore1).
    apply IH in E2; [| assumption |].
    + destruct E2 as (Hlen & Hall & Hinv2 & Hfrom2 & more2 & Hmore2).
      repeat split; try apply Hinv2.
      * cbn. now rewrite Hlen.
      * now constructor.
      * constructor; [| assumption]. rewrite Hmore2. now apply dealt_from_more.
      * exists (more1 ++ more2). now rewrite Hmore2, Hmore1, <- app_assoc.
    + rewrite Hmore1. eapply List.Forall_impl; [| exact Hrest].
      intros rack. apply dealt_from_more.
Qed.

(** A deal that ends leaves every player's rack with exactly 15 tiles;
    the index pairs it accepted are pairwise distinct, whatever the player
    they went to, and, from empty racks, every tile of a rack is the path
    at one of them. *)
Lemma deal_that_returns (cfg : config) (tile_image_list : list (list string))
    (players_database racks : list (dict addr)) (h : list rect) (d : deal)
    (entropy entropy' : list nat) :
  forallb (fun players => (List.length players =? 0)%nat) players_database = true ->
  draw_initial_tiles cfg tile_image_list players_database h entropy =
    Ok (racks, d, entropy') ->
  List.length racks = List.length players_database /\
  Forall (fun rack => List.length rack = 15%nat) racks /\
  NoDup (dealt_indices d) /\
  NoDup (random_tile_temp d) /\
  Forall (dealt_from tile_image_list (dealt_indices d)) racks.
Proof.
  unfold draw_initial_tiles. intros Hempty H.
  apply deal_players_spec in H.
  - destruct H as (Hlen & Hall & Hinv & Hfrom & _).
    repeat split; try assumption; [now apply deal_inv_NoDup | apply Hinv].
  - split; cbn; [reflexivity | constructor].
  - apply List.Forall_forall. intros players Hin.
    rewrite forallb_forall in Hempty. specialize (Hempty players Hin).
    apply Nat.eqb_eq in Hempty. destruct players; [| discriminate].
    intros key [].
Qed.

(** ** The keys of the tiles *)

Lemma to_uint_nonnil (n : nat) : Nat.to_uint n <> Decimal.Nil.
Proof.
  rewrite <- (DecimalNat.Unsigned.of_to n) at 1. rewrite DecimalNat.Unsigned.to_of.
  apply DecimalFacts.unorm_nonnil.
Qed.

Lemma str_of_nat_inj (n m : nat) : str_of_nat n = str_of_nat m -> n = m.
Proof.
  unfold str_of_nat. intros H.
  apply (f_equal NilZero.uint_of_string) in H.
  rewrite !NilZero.usu in H by apply to_uint_nonnil.
  injection H as H. now apply DecimalNat.Unsigned.to_uint_inj.
Qed.

Lemma append_inv_head (p a b : string) : (p ++ a = p ++ b)%string -> a = b.
Proof.
  induction p as [|c p IH]; cbn; [auto |]. intros [= H]. auto.
Qed.

Lemma length_append (a b : string) :
  String.length (a ++ b) = (String.length a + String.length b)%nat.
Proof.
  induction a as [|c a IH]; [reflexivity |].
  change (S (String.length (a ++ b)) = S (String.length a + String.length b)).
  now rewrite IH.
Qed.

Lemma append_inv_tail (a b t : string) : (a ++ t = b ++ t)%string -> a = b.
Proof.
  revert b. induction a as [|c a IH]; intros [|c' b] H.
  - reflexivity.
  - apply (f_equal String.length) in H. rewrite !length_append in H. cbn in H. lia.
  - apply (f_equal String.length) in H. rewrite !length_append in H. cbn in H. lia.
  - cbn in H. injection H as -> H. f_equal. now apply IH.
Qed.

(** Two paths of one colour are equal only for one number. *)
Lemma tile_image_path_number (c : string) (r0 r1 r1' : Z) :
  0 <= r1 -> 0 <= r1' ->
  tile_image_path c r0 r1 = tile_image_path c r0 r1' -> r1 = r1'.
Proof.
  unfold tile_image_path. intros H1 H1' H.
  do 7 apply append_inv_head in H.
  apply append_inv_tail, str_of_nat_inj in H. lia.
Qed.

(** The name of the colour of an index. *)
Lemma color_of_index (r0 : Z) (c : string) :
  nth_error color_names (Z.to_nat (r0 - 1)) = Some c -> 1 <= r0 ->
  (r0 = 1 /\ c = "BLACK") \/ (r0 = 2 /\ c = "BLUE") \/ (r0 = 3 /\ c = "GREEN") \/
  (r0 = 4 /\ c = "RED") \/ (r0 = 5 /\ c = "YELLOW").
Proof.
  intros H Hr.
  assert (Hlt : (Z.to_nat (r0 - 1) < List.length color_names)%nat)
    by (apply nth_error_Some; congruence).
  cbn in Hlt.
  assert (Hc : r0 = 1 \/ r0 = 2 \/ r0 = 3 \/ r0 = 4 \/ r0 = 5) by lia.
  destruct Hc as [-> | [-> | [-> | [-> | ->]]]]; cbn in H; injection H as <-; tauto.
Qed.

(** Two draws build the same key exactly when they agree on the colour and
    on the number. *)
Lemma tile_image_path_inj (c c' : string) (r0 r1 r0' r1' : Z) :
  nth_error color_names (Z.to_nat (r0 - 1)) = Some c ->
  nth_error color_names (Z.to_nat (r0' - 1)) = Some c' ->
  1 <= r0 -> 1 <= r0' -> 0 <= r1 -> 0 <= r1' ->
  tile_image_path c r0 r1 = tile_image_path c' r0' r1' ->
  r0 = r0' /\ r1 = r1'.
Proof.
  intros Hc Hc' H0 H0' H1 H1' H.
  assert (r0 = r0') as <-.
  { destruct (color_of_index _ _ Hc H0) as [[-> ->] | [[-> ->] | [[-> ->] | [[-> ->] | [-> ->]]]]];
    destruct (color_of_index _ _ Hc' H0') as [[-> ->] | [[-> ->] | [[-> ->] | [[-> ->] | [-> ->]]]]];
    try reflexivity; cbn in H; discriminate. }
  split; [reflexivity |].
  assert (c = c') as <- by congruence.
  eapply tile_image_path_number; eauto.
Qed.

Lemma randint_range (a b r : Z) (entropy rest : list nat) :
  randint a b entropy = Ok (r, rest) -> a <= r <= b.
Proof.
  unfold randint. destruct (Z.ltb_spec b a); [discriminate |].
  destruct entropy as [|v e]; [discriminate |]. intros [= <- <-].
  pose proof (Z.mod_pos_bound (Z.of_nat v) (b - a + 1) ltac:(lia)). lia.
Qed.

Lemma random_tile_path_spec (cfg : config) (entropy rest : list nat) (r0 r1 : Z)
    (path : string) :
  random_tile_path cfg entropy = Ok (r0, r1, path, rest) ->
  1 <= r0 <= Z.of_nat (List.length (TILES_IMAGES_PATHS cfg)) - 1 /\
  1 <= r1 <= Z.of_nat (List.length (hd [] (TILES_IMAGES_PATHS cfg))) /\
  exists c, nth_error color_names (Z.to_nat (r0 - 1)) = Some c /\
            path = tile_image_path c r0 r1.
Proof.
  unfold random_tile_path. intros H.
  destruct (randint 1 (Z.of_nat (List.length (TILES_IMAGES_PATHS cfg)) - 1) entropy)
    as [[d0 e0]|] eqn:E0; [| discriminate].
  cbn [rbind fst snd] in H.
  destruct (TILES_IMAGES_PATHS cfg) as [|row0 rows]; [discriminate |].
  cbn [head of_option rbind hd] in H |- *.
  destruct (randint 1 (Z.of_nat (List.length row0)) e0) as [[d1 e1]|] eqn:E1;
    [| discriminate].
  cbn [rbind fst snd] in H.
  destruct (nth_error color_names (Z.to_nat (d0 - 1))) as [c|] eqn:Ec; [| discriminate].
  cbn [of_option rbind] in H. injection H as <- <- <- <-.
  split; [exact (randint_range _ _ _ _ _ E0) |].
  split; [exact (randint_range _ _ _ _ _ E1) |].
  exists c. now split.
Qed.

Lemma drawable_paths_In (cfg : config) (entropy rest : list nat) (r0 r1 : Z)
    (path : string) :
  random_tile_path cfg entropy = Ok (r0, r1, path, rest) ->
  In path (drawable_paths cfg).
Proof.
  intros H. destruct (random_tile_path_spec _ _ _ _ _ _ H) as (H0 & H1 & c & Hc & ->).
  unfold drawable_paths. apply in_flat_map. exists (Z.to_nat r0). split.
  - apply in_seq. lia.
  - replace (Z.to_nat r0 - 1)%nat with (Z.to_nat (r0 - 1)) by lia. rewrite Hc.
    apply in_map_iff. exists (Z.to_nat r1). split.
    + now rewrite !Z2Nat.id by lia.
    + apply in_seq. lia.
Qed.

(** C7 (amended): a tile that a draw creates is identified by its colour
    and its number alone. The path of a draw is built from a colour index
    from 1 to 5 and a number from 1 to the length of the first row of the
    table; two draws build the same key exactly when they agree on both,
    so there is one key for a colour and a number and nothing like an
    instance; and a draw of the opponent takes a key that nobody holds. *)
Theorem drawn_tile_identity (cfg : config) (entropy rest : list nat) (r0 r1 : Z)
    (path : string) :
  random_tile_path cfg entropy = Ok (r0, r1, path, rest) ->
  1 <= r0 <= 5 /\
  1 <= r1 <= Z.of_nat (List.length (hd [] (TILES_IMAGES_PATHS cfg))) /\
  (exists c, nth_error color_names (Z.to_nat (r0 - 1)) = Some c /\
             path = tile_image_path c r0 r1) /\
  In path (drawable_paths cfg) /\
  (forall entropy2 rest' r0' r1' path',
     random_tile_path cfg entropy2 = Ok (r0', r1', path', rest') ->
     (path' = path <-> r0' = r0 /\ r1' = r1)) /\
  (forall g g' e e',
     add_tile_to_ai cfg g e = Ok (g', e') ->
     exists key a, free_path key g /\ PLAYER_2 g' = PLAYER_2 g ++ [(key, a)]).
Proof.
  intros H.
  destruct (random_tile_path_spec _ _ _ _ _ _ H) as (H0 & H1 & c & Hc & Hp).
  assert (Hc5 : (Z.to_nat (r0 - 1) < List.length color_names)%nat)
    by (apply nth_error_Some; congruence).
  cbn in Hc5.
  split; [lia |]. split; [exact H1 |]. split; [now exists c |].
  split; [now apply (drawable_paths_In _ _ _ _ _ _ H) |]. split.
  - intros entropy2 rest' r0' r1' path' H'.
    destruct (random_tile_path_spec _ _ _ _ _ _ H') as (H0' & H1' & c' & Hc' & Hp').
    split.
    + intros Heq. subst path path'.
      eapply tile_image_path_inj; eauto; lia.
    + intros [-> ->]. subst path path'. congruence.
  - intros g g' e e' Hadd. now apply (add_tile_to_ai_spec _ _ _ _ _ Hadd).
Qed.

(** The draw of RED 5. *)
Lemma drawn_tile_identity_witness :
  In (tile 4 5) (drawable_paths example_config).
Proof.
  refine (proj1 (proj2 (proj2 (proj2
    (drawn_tile_identity example_config [3; 4]%nat [] 4 5 (tile 4 5) _))))).
  vm_compute. reflexivity.
Defined.

(** C7, as stated, fails: among the paths the draws can build there is one
    RED 5, not two. *)
Lemma pool_has_one_copy :
  ~ pool_has_two_copies (drawable_paths example_config).
Proof.
  intros H. specialize (H 4%nat 5%nat ltac:(lia) ltac:(lia)).
  vm_compute in H. discriminate.
Qed.

(** ** The store of rectangles *)

Section Store.

Implicit Types (h : list rect) (a b : addr) (x y : Z).

Lemma set_xy_length a x y h : List.length (set_xy a x y h) = List.length h.
Proof.
  unfold set_xy. destruct (h !! a); [apply length_insert | reflexivity].
Qed.

Lemma rect_at_set_xy_ne a b x y h : a <> b -> rect_at b (set_xy a x y h) = rect_at b h.
Proof.
  intros Hne. unfold rect_at, set_xy.
  destruct (h !! a); [| reflexivity].
  now rewrite list_lookup_insert_ne.
Qed.

Lemma rect_at_set_xy_eq a x y h :
  (a < List.length h)%nat ->
  rect_at a (set_xy a x y h) = mkRect x y (rw (rect_at a h)) (rh (rect_at a h)).
Proof.
  intros Hlt. unfold rect_at, set_xy.
  destruct (h !! a) as [r|] eqn:E.
  - now rewrite list_lookup_insert_eq.
  - apply lookup_ge_None in E. lia.
Qed.

(** A write of the position a rectangle has changes nothing. *)
Lemma set_xy_same a x y h :
  rx (rect_at a h) = x -> ry (rect_at a h) = y -> set_xy a x y h = h.
Proof.
  unfold rect_at, set_xy. destruct (h !! a) as [r|] eqn:E; [| reflexivity].
  intros <- <-. apply list_insert_id. now destruct r.
Qed.

(** The size of a rectangle never changes. *)
Lemma rect_at_set_xy_size a b x y h :
  rw (rect_at b (set_xy a x y h)) = rw (rect_at b h) /\
  rh (rect_at b (set_xy a x y h)) = rh (rect_at b h).
Proof.
  destruct (Nat.eq_dec a b) as [<- | Hne].
  - destruct (Nat.lt_ge_cases a (List.length h)) as [Hlt | Hge].
    + rewrite rect_at_set_xy_eq by assumption. now cbn.
    + unfold set_xy. rewrite (proj2 (lookup_ge_None h a)) by lia. now split.
  - now rewrite rect_at_set_xy_ne.
Qed.

End Store.

(** ** Well-formed states *)

Section WellFormed.

Lemma keys_unique_NoDup (keys : list string) :
  keys_unique_b keys = true -> List.NoDup keys.
Proof.
  induction keys as [|k keys IH]; cbn; [constructor |].
  intros H. apply andb_prop in H as [Hk H].
  constructor; [| now apply IH].
  intros Hin. apply negb_true_iff in Hk. unfold list_mem in Hk.
  assert (existsb (String.eqb k) keys = true) as Ht.
  { apply existsb_exists. exists k. split; [assumption | apply String.eqb_refl]. }
  congruence.
Qed.

Lemma dict_get_unique {V : Type} (k : string) (v : V) (d : dict V) :
  List.NoDup (dict_keys d) -> In (k, v) d -> dict_get k d = Some v.
Proof.
  unfold dict_keys.
  induction d as [|[k' v'] d IH]; cbn; [tauto |].
  intros Hnd [[= -> ->] | Hin].
  - now rewrite String.eqb_refl.
  - inversion Hnd as [|? ? Hnotin Hnd']; subst.
    destruct (String.eqb_spec k k') as [-> | Hne].
    + exfalso. apply Hnotin. apply in_map_iff. now exists (k', v).
    + now apply IH.
Qed.

Lemma well_formed_keys (g : game) :
  well_formed g = true -> List.NoDup (dict_keys (game_object_database g)).
Proof.
  unfold well_formed. intros H. apply andb_prop in H as [H _].
  apply andb_prop in H as [H _]. now apply keys_unique_NoDup.
Qed.

Lemma well_formed_valid (g : game) (k : string) (a : addr) :
  well_formed g = true -> dict_get k (game_object_database g) = Some a ->
  (a < List.length (heap g))%nat.
Proof.
  unfold well_formed, addrs_valid_b. intros H Hget.
  apply andb_prop in H as [H _]. apply andb_prop in H as [_ H].
  rewrite forallb_forall in H. specialize (H (k, a) (dict_get_In _ _ _ Hget)).
  cbn in H. now apply Nat.ltb_lt.
Qed.

(** An owner of a rectangle of [game_object_database] is its key. *)
Lemma well_formed_separate (g : game) (k k' : string) (a : addr) :
  well_formed g = true -> In (k, a) (owners g) ->
  dict_get k' (game_object_database g) = Some a -> k = k'.
Proof.
  unfold well_formed, separate_b. intros H Ho Hget.
  apply andb_prop in H as [_ H].
  rewrite forallb_forall in H. specialize (H (k, a) Ho).
  rewrite forallb_forall in H. specialize (H (k', a) (dict_get_In _ _ _ Hget)).
  cbn in H. rewrite Nat.eqb_refl in H. cbn in H. now apply String.eqb_eq.
Qed.

Lemma owners_gdb (g : game) (k : string) (a : addr) :
  dict_get k (game_object_database g) = Some a -> In (k, a) (owners g).
Proof. intros H. unfold owners. apply in_or_app. left. now apply dict_get_In. Qed.

Lemma owners_P1 (g : game) (k : string) (a : addr) :
  dict_get k (PLAYER_1 g) = Some a -> In (k, a) (owners g).
Proof.
  intros H. unfold owners. apply in_or_app. right. apply in_or_app. left.
  now apply dict_get_In.
Qed.

Lemma owners_P2 (g : game) (k : string) (a : addr) :
  dict_get k (PLAYER_2 g) = Some a -> In (k, a) (owners g).
Proof.
  intros H. unfold owners. apply in_or_app. right. apply in_or_app. right.
  apply in_or_app. left. now apply dict_get_In.
Qed.

Lemma owners_image (g : game) (k : string) (e : image_entry) :
  dict_get k (image_database g) = Some e -> In (k, img_rect e) (owners g).
Proof.
  intros H. unfold owners. apply in_or_app. right. apply in_or_app. right.
  apply in_or_app. right. apply in_map_iff. exists (k, e).
  split; [reflexivity | now apply dict_get_In].
Qed.

End WellFormed.

(** ** Rollback *)

Section Rollback.

Lemma separate_b_spec (g : game) :
  separate_b g = true <->
  forall o ka, In o (owners g) -> In ka (game_object_database g) ->
               snd o = snd ka -> fst o = fst ka.
Proof.
  unfold separate_b. rewrite forallb_forall. split.
  - intros H o ka Ho Hka Heq. specialize (H o Ho).
    rewrite forallb_forall in H. specialize (H ka Hka).
    rewrite Heq, Nat.eqb_refl in H. cbn in H. now apply String.eqb_eq.
  - intros H o Ho. apply forallb_forall. intros ka Hka.
    destruct (Nat.eqb_spec (snd o) (snd ka)) as [Heq | Hne]; cbn; [| reflexivity].
    apply String.eqb_eq. now apply H.
Qed.

(** The rectangles of [game_object_database] are pairwise distinct. *)
Lemma well_formed_addrs (g : game) :
  well_formed g = true -> List.NoDup (map snd (game_object_database g)).
Proof.
  intros Hwf. pose proof (well_formed_keys g Hwf) as Hk.
  assert (Hsep : forall k k' a, In (k, a) (game_object_database g) ->
                                In (k', a) (game_object_database g) -> k = k').
  { intros k k' a H1 H2.
    apply (well_formed_separate g k k' a Hwf).
    - unfold owners. apply in_or_app. now left.
    - now apply dict_get_unique. }
  revert Hk Hsep. unfold dict_keys. generalize (game_object_database g) as l.
  induction l as [|[k a] l IH]; cbn; intros Hk Hsep; [constructor |].
  inversion Hk as [|? ? Hnotin Hk']; subst. constructor.
  - intros Hin. apply in_map_iff in Hin as ([k' a'] & Ha & Hin). cbn in Ha. subst a'.
    apply Hnotin. apply in_map_iff. exists (k', a). split; [| assumption]. cbn.
    symmetry. apply (Hsep k k' a); [now left | now right].
  - apply IH; [assumption |]. intros k1 k2 a0 H1 H2.
    apply (Hsep k1 k2 a0); now right.
Qed.

Lemma rollback_loop_spec (images : dict image_entry) (items : dict addr)
    (h h' : list rect) :
  rollback_loop images items h = Ok h' ->
  List.NoDup (map snd items) ->
  (forall k a, In (k, a) items -> (a < List.length h)%nat) ->
  List.length h' = List.length h /\
  (forall b, ~ In b (map snd items) -> rect_at b h' = rect_at b h) /\
  (forall b, rw (rect_at b h') = rw (rect_at b h) /\ rh (rect_at b h') = rh (rect_at b h)) /\
  (forall k a, In (k, a) items ->
     if is_tile k
     then exists e, dict_get k images = Some e /\
                    rx (rect_at a h') = fst (img_pos e) /\
                    ry (rect_at a h') = snd (img_pos e)
     else rect_at a h' = rect_at a h).
Proof.
  revert h. induction items as [|[k a] items IH]; intros h H Hnd Hvalid.
  - cbn in H. injection H as <-. repeat split; auto. intros k a [].
  - cbn [rollback_loop] in H. cbn in Hnd. inversion Hnd as [|? ? Hnotin Hnd']; subst.
    fold (is_tile k) in H.
    destruct (is_tile k) eqn:Et.
    + destruct (dict_get k images) as [e|] eqn:Ee; [| discriminate].
      cbn [of_option rbind] in H.
      apply IH in H; [| assumption |].
      2:{ intros k' a' Hin. rewrite set_xy_length. apply (Hvalid k' a'). now right. }
      destruct H as (Hlen & Hframe & Hsize & Hitems).
      rewrite set_xy_length in Hlen.
      split; [exact Hlen |]. split; [| split].
      * intros b Hb. rewrite Hframe by (intros Hin; apply Hb; now right).
        apply rect_at_set_xy_ne. intros ->. apply Hb. now left.
      * intros b. destruct (Hsize b) as [-> ->]. apply rect_at_set_xy_size.
      * intros k' a' [[= <- <-] | Hin].
        -- rewrite Et. exists e. split; [assumption |].
           rewrite (Hframe a Hnotin), rect_at_set_xy_eq
             by (apply (Hvalid k a); now left).
           now cbn.
        -- specialize (Hitems k' a' Hin). destruct (is_tile k'); [exact Hitems |].
           rewrite Hitems. apply rect_at_set_xy_ne. intros ->.
           apply Hnotin. apply in_map_iff. now exists (k', a').
    + apply IH in H; [| assumption |].
      2:{ intros k' a' Hin. apply (Hvalid k' a'). now right. }
      destruct H as (Hlen & Hframe & Hsize & Hitems).
      split; [exact Hlen |]. split; [| split].
      * intros b Hb. apply Hframe. intros Hin. apply Hb. now right.
      * exact Hsize.
      * intros k' a' [[= <- <-] | Hin].
        -- rewrite Et. now apply Hframe.
        -- now apply Hitems.
Qed.

Lemma well_formed_with_heap (g : game) (h : list rect) :
  List.length h = List.length (heap g) ->
  well_formed (with_heap h g) = well_formed g.
Proof.
  intros Hlen. unfold well_formed, addrs_valid_b, separate_b, owners. cbn.
  now rewrite Hlen.
Qed.

(** A rollback touches the store only: every tile of
    [game_object_database] goes where its committed position is, the other
    rectangles of the dictionary stay. *)
Lemma rollback_spec (g g' : game) :
  rollback g = Ok g' -> well_formed g = true ->
  g' = with_heap (heap g') g /\
  well_formed g' = true /\
  (forall key, dict_mem key (game_object_database g) = true ->
     position_of key g' = if is_tile key then snapshot_of key g else position_of key g) /\
  (forall b, rw (rect_at b (heap g')) = rw (rect_at b (heap g)) /\
             rh (rect_at b (heap g')) = rh (rect_at b (heap g))).
Proof.
  unfold rollback. intros H Hwf.
  destruct (rollback_loop (image_database g) (game_object_database g) (heap g))
    as [h'|] eqn:E; [| discriminate].
  cbn in H. injection H as <-.
  apply rollback_loop_spec in E; [| now apply well_formed_addrs |].
  2:{ intros k a Hin. apply (well_formed_valid g k a Hwf).
      apply dict_get_unique; [now apply well_formed_keys | assumption]. }
  destruct E as (Hlen & Hframe & Hsize & Hitems).
  split; [reflexivity |]. split; [now rewrite well_formed_with_heap |].
  split; [| exact Hsize].
  intros key Hmem. unfold position_of, snapshot_of. cbn.
  unfold dict_mem in Hmem.
  destruct (dict_get key (game_object_database g)) as [a|] eqn:Eg; [| discriminate].
  specialize (Hitems key a (dict_get_In _ _ _ Eg)).
  destruct (is_tile key).
  - destruct Hitems as (e & -> & -> & ->). now destruct (img_pos e).
  - now rewrite Hitems.
Qed.

End Rollback.

(** ** Commit *)

Section Commit.

Lemma well_formed_sub (g g' : game) :
  game_object_database g' = game_object_database g ->
  List.length (heap g') = List.length (heap g) ->
  (forall o, In o (owners g') -> In o (owners g)) ->
  well_formed g = true -> well_formed g' = true.
Proof.
  intros Hg Hlen Hsub Hwf. unfold well_formed in *.
  apply andb_prop in Hwf as [Hwf Hsep]. apply andb_prop in Hwf as [Hk Hv].
  unfold addrs_valid_b in *. rewrite Hg, Hlen, Hk, Hv. cbn.
  apply separate_b_spec. intros o ka Ho Hka.
  rewrite Hg in Hka. apply (proj1 (separate_b_spec g) Hsep); auto.
Qed.

Lemma dict_del_In {V : Type} (k : string) (d : dict V) (x : string * V) :
  In x (dict_del k d) -> In x d.
Proof.
  induction d as [|[k' v'] d IH]; cbn; [tauto |].
  destruct (String.eqb k k'); [now right |].
  intros [<- | H]; [now left | right; now apply IH].
Qed.

Lemma fold_dict_del_In {V : Type} (keys : list string) (d : dict V) (x : string * V) :
  In x (fold_left (fun d key => dict_del key d) keys d) -> In x d.
Proof.
  revert d. induction keys as [|k keys IH]; intros d; cbn; [tauto |].
  intros H. apply IH in H. now apply dict_del_In in H.
Qed.

Lemma update_score_spec (cfg : config) (rack_size : Z * Z) (rack_coordinates : rect)
    (g : game) :
  let g' := update_score cfg rack_size rack_coordinates g in
  heap g' = heap g /\
  game_object_database g' = game_object_database g /\
  image_database g' = image_database g /\
  PLAYER_2 g' = PLAYER_2 g /\
  IMG_PATHS g' = IMG_PATHS g /\
  (forall x, In x (PLAYER_1 g') -> In x (PLAYER_1 g)).
Proof.
  cbn. repeat split; try reflexivity.
  intros x. apply fold_dict_del_In.
Qed.

Lemma write_if_member_length (key : string) (d : dict addr) (x y : Z) (h : list rect) :
  List.length (write_if_member key d x y h) = List.length h.
Proof.
  unfold write_if_member. destruct (dict_get key d); [apply set_xy_length | reflexivity].
Qed.

Lemma write_if_member_ne (key : string) (d : dict addr) (x y : Z) (h : list rect)
    (b : addr) :
  (forall w, dict_get key d = Some w -> w <> b) ->
  rect_at b (write_if_member key d x y h) = rect_at b h.
Proof.
  unfold write_if_member. intros H. destruct (dict_get key d) as [w|]; [| reflexivity].
  apply rect_at_set_xy_ne. now apply H.
Qed.

Lemma write_if_member_size (key : string) (d : dict addr) (x y : Z) (h : list rect)
    (b : addr) :
  rw (rect_at b (write_if_member key d x y h)) = rw (rect_at b h) /\
  rh (rect_at b (write_if_member key d x y h)) = rh (rect_at b h).
Proof.
  unfold write_if_member. destruct (dict_get key d) as [w|]; [| now split].
  apply rect_at_set_xy_size.
Qed.

Lemma image_owners_set (key : string) (e e' : image_entry) (d : dict image_entry) :
  dict_get key d = Some e -> img_rect e' = img_rect e ->
  map (fun kv => (fst kv, img_rect (snd kv))) (dict_set key e' d) =
  map (fun kv => (fst kv, img_rect (snd kv))) d.
Proof.
  intros Hget Hr. induction d as [|[k0 e0] d IH]; cbn in *; [discriminate |].
  destruct (String.eqb_spec key k0) as [-> | Hne]; cbn.
  - injection Hget as ->. now rewrite Hr.
  - f_equal. now apply IH.
Qed.

(** One tile of an accepted cluster: its rectangle and its committed
    position take the scanned position, the other keys keep theirs. *)
Lemma commit_item_spec (cfg : config) (key : string) (v : card_entry) (g g' : game) :
  commit_item cfg key v g = Ok g' -> well_formed g = true ->
  well_formed g' = true /\
  game_object_database g' = game_object_database g /\
  PLAYER_2 g' = PLAYER_2 g /\
  dict_keys (image_database g') = dict_keys (image_database g) /\
  (forall b, rw (rect_at b (heap g')) = rw (rect_at b (heap g)) /\
             rh (rect_at b (heap g')) = rh (rect_at b (heap g))) /\
  (forall k, k <> key ->
     position_of k g' = position_of k g /\ snapshot_of k g' = snapshot_of k g) /\
  (dict_mem key (game_object_database g) = true ->
     position_of key g' = Some (place v) /\ snapshot_of key g' = Some (place v)) /\
  (dict_mem key (game_object_database g) = false -> g' = g).
Proof.
  unfold commit_item. intros H Hwf.
  destruct (dict_get key (game_object_database g)) as [a|] eqn:Ea.
  2:{ injection H as <-. unfold dict_mem. rewrite Ea.
      repeat split; auto; discriminate. }
  destruct (dict_get key (image_database g)) as [e|] eqn:Ee; [| discriminate].
  cbn [of_option rbind] in H.
  set (x := fst (place v)) in *. set (y := snd (place v)) in *.
  set (h1 := write_if_member key (PLAYER_1 g) x y (heap g)) in *.
  set (h2 := write_if_member key (PLAYER_2 g) x y h1) in *.
  set (h3 := set_xy a x y h2) in *.
  set (h4 := set_xy (img_rect e) x y h3) in *.
  set (images := dict_set key (mkImage (x, y) (img_rect e)) (image_database g)) in *.
  set (g1 := with_image_database images (with_heap h4 g)) in *.
  destruct (dict_get "brown_rack_image_tile2" (game_object_database g1)) as [rack|];
    [| discriminate].
  cbn [of_option rbind] in H. apply Ok_inj in H. cbv zeta in H.
  pose proof (update_score_spec cfg (rw (rect_at rack (heap g1)), rh (rect_at rack (heap g1)))
                (rect_at rack (heap g1)) g1) as Hus.
  cbv zeta in Hus. rewrite H in Hus. clear H.
  destruct Hus as (Hh & Hg & Hi & Hp2 & _ & Hp1).
  change (heap g1) with h4 in Hh.
  change (game_object_database g1) with (game_object_database g) in Hg.
  change (image_database g1) with images in Hi.
  change (PLAYER_2 g1) with (PLAYER_2 g) in Hp2.
  change (PLAYER_1 g1) with (PLAYER_1 g) in Hp1.
  assert (Hlen : List.length h4 = List.length (heap g)).
  { unfold h4, h3, h2, h1.
    now rewrite !set_xy_length, !write_if_member_length. }
  assert (Hvalid : (a < List.length (heap g))%nat)
    by exact (well_formed_valid g key a Hwf Ea).
  assert (Hframe : forall b, (forall k, In (k, b) (owners g) -> k <> key) ->
                             rect_at b h4 = rect_at b (heap g)).
  { intros b Hb. unfold h4, h3, h2, h1.
    rewrite rect_at_set_xy_ne, rect_at_set_xy_ne, !write_if_member_ne; auto.
    - intros w Hw ->. apply (Hb key); [now apply owners_P1 | reflexivity].
    - intros w Hw ->. apply (Hb key); [now apply owners_P2 | reflexivity].
    - intros ->. apply (Hb key); [now apply owners_gdb | reflexivity].
    - intros <-. apply (Hb key); [now apply owners_image | reflexivity]. }
  assert (Hsize : forall b, rw (rect_at b h4) = rw (rect_at b (heap g)) /\
                            rh (rect_at b h4) = rh (rect_at b (heap g))).
  { intros b. unfold h4, h3, h2, h1.
    destruct (rect_at_set_xy_size (img_rect e) b x y
                (set_xy a x y (write_if_member key (PLAYER_2 g) x y
                   (write_if_member key (PLAYER_1 g) x y (heap g))))) as [-> ->].
    destruct (rect_at_set_xy_size a b x y
                (write_if_member key (PLAYER_2 g) x y
                   (write_if_member key (PLAYER_1 g) x y (heap g)))) as [-> ->].
    destruct (write_if_member_size key (PLAYER_2 g) x y
                (write_if_member key (PLAYER_1 g) x y (heap g)) b) as [-> ->].
    apply write_if_member_size. }
  assert (Hkey : rx (rect_at a h4) = x /\ ry (rect_at a h4) = y).
  { unfold h4. destruct (Nat.eq_dec (img_rect e) a) as [-> | Hne].
    - rewrite rect_at_set_xy_eq; [now cbn |].
      unfold h3, h2, h1. now rewrite set_xy_length, !write_if_member_length.
    - rewrite rect_at_set_xy_ne by assumption. unfold h3.
      rewrite rect_at_set_xy_eq; [now cbn |].
      unfold h2, h1. now rewrite !write_if_member_length. }
  split; [| split; [| split; [| split; [| split; [| split; [| split]]]]]].
  - apply (well_formed_sub g); [exact Hg | now rewrite Hh | | exact Hwf].
    intros o. unfold owners. rewrite Hg, Hi, Hp2.
      unfold images. rewrite (image_owners_set key e (mkImage (x, y) (img_rect e)) _ Ee eq_refl).
      intros Ho. apply in_app_or in Ho as [Ho | Ho]; [apply in_or_app; now left |].
      apply in_or_app; right.
      apply in_app_or in Ho as [Ho | Ho]; [apply in_or_app; left; now apply Hp1 |].
      apply in_or_app; now right.
  - exact Hg.
  - exact Hp2.
  - rewrite Hi. unfold images. apply dict_keys_set_mem. congruence.
  - intros b. rewrite Hh. apply Hsize.
  - intros k Hk. unfold position_of, snapshot_of. rewrite Hg, Hh, Hi.
    split.
    + destruct (dict_get k (game_object_database g)) as [ak|] eqn:Eak; [| reflexivity].
      rewrite Hframe; [reflexivity |].
      intros k0 Ho ->. apply Hk. symmetry.
      exact (well_formed_separate g key k ak Hwf Ho Eak).
    + unfold images. rewrite dict_get_set_ne by congruence. reflexivity.
  - intros _. unfold position_of, snapshot_of. rewrite Hg, Hh, Hi, Ea.
    destruct Hkey as [-> ->]. unfold images. rewrite dict_get_set_eq. cbn.
    unfold x, y. now destruct (place v).
  - unfold dict_mem. rewrite Ea. discriminate.
Qed.

End Commit.

(** ** The loop over the clusters *)

Section Pass.

Variable cfg : config.
Variable target : string -> option (Z * Z).

Lemma dict_mem_keys {V : Type} (k : string) (d : dict V) :
  dict_mem k d = true <-> In k (dict_keys d).
Proof.
  unfold dict_mem. destruct (dict_get k d) eqn:E.
  - split; [| reflexivity]. intros _.
    apply dict_get_In in E. apply in_map_iff. now exists (k, v).
  - split; [discriminate |]. intros H. now apply dict_get_None in E.
Qed.

(** The accepting branch of [update_values]. *)
Lemma commit_loop_spec (d : dict card_entry) (g g' : game) :
  commit_loop cfg d g = Ok g' -> well_formed g = true ->
  (forall key v, In (key, v) d -> dict_mem key (game_object_database g) = true ->
                 target key = Some (place v)) ->
  well_formed g' = true /\
  game_object_database g' = game_object_database g /\
  PLAYER_2 g' = PLAYER_2 g /\
  dict_keys (image_database g') = dict_keys (image_database g) /\
  (forall b, rw (rect_at b (heap g')) = rw (rect_at b (heap g)) /\
             rh (rect_at b (heap g')) = rh (rect_at b (heap g))) /\
  (forall k,
     if dict_mem k d && dict_mem k (game_object_database g)
     then position_of k g' = target k /\ snapshot_of k g' = target k
     else position_of k g' = position_of k g /\ snapshot_of k g' = snapshot_of k g).
Proof.
  revert g. induction d as [|[k1 v1] d IH]; intros g H Hwf Ht.
  - cbn in H. injection H as <-. repeat split; auto.
  - cbn [commit_loop] in H.
    destruct (commit_item cfg k1 v1 g) as [g1|] eqn:E1; [| discriminate].
    cbn [rbind] in H.
    destruct (commit_item_spec _ _ _ _ _ E1 Hwf)
      as (Hwf1 & Hg1 & Hp1 & Hi1 & Hs1 & Hother & Hkey & Hnot).
    apply IH in H; [| assumption |].
    2:{ intros key v Hin Hmem. rewrite Hg1 in Hmem. apply Ht; [now right | assumption]. }
    destruct H as (Hwf' & Hg' & Hp' & Hi' & Hs' & Hpos).
    split; [exact Hwf' |]. split; [congruence |]. split; [congruence |].
    split; [congruence |]. split.
    { intros b. destruct (Hs' b) as [-> ->]. apply Hs1. }
    intros k. specialize (Hpos k). rewrite Hg1 in Hpos.
    unfold dict_mem at 1. cbn [dict_get].
    destruct (String.eqb_spec k k1) as [-> | Hne].
    + cbn [andb].
      destruct (dict_mem k1 (game_object_database g)) eqn:Em.
      * destruct (dict_mem k1 d); cbn [andb] in Hpos; [exact Hpos |].
        destruct Hpos as [-> ->]. destruct (Hkey eq_refl) as [-> ->].
        rewrite (Ht k1 v1 (or_introl eq_refl) Em). now split.
      * rewrite andb_false_r in Hpos. rewrite (Hnot eq_refl) in Hpos. exact Hpos.
    + fold (dict_mem k d).
      destruct (dict_mem k d && dict_mem k (game_object_database g)); [exact Hpos |].
      destruct Hpos as [-> ->]. now apply Hother.
Qed.

(** One call of [update_values]. *)
Lemma update_values_spec (d : dict card_entry) (g g' : game) (b : bool) :
  update_values cfg d g = Ok (b, g') -> well_formed g = true ->
  (forall key v, In (key, v) d -> dict_mem key (game_object_database g) = true ->
                 target key = Some (place v)) ->
  meld_accepted d = Ok b /\
  well_formed g' = true /\
  game_object_database g' = game_object_database g /\
  PLAYER_2 g' = PLAYER_2 g /\
  dict_keys (image_database g') = dict_keys (image_database g) /\
  (forall a, rw (rect_at a (heap g')) = rw (rect_at a (heap g)) /\
             rh (rect_at a (heap g')) = rh (rect_at a (heap g))) /\
  (forall k, dict_mem k (game_object_database g) = true ->
     if b
     then if dict_mem k d
          then position_of k g' = target k /\ snapshot_of k g' = target k
          else position_of k g' = position_of k g /\ snapshot_of k g' = snapshot_of k g
     else position_of k g' = (if is_tile k then snapshot_of k g else position_of k g) /\
          snapshot_of k g' = snapshot_of k g).
Proof.
  intros H Hwf Ht. pose proof (update_values_flag _ _ _ _ _ H) as Hacc.
  split; [exact Hacc |].
  unfold update_values in H. rewrite Hacc in H. cbn [rbind] in H.
  destruct b.
  - destruct (commit_loop cfg d g) as [g1|] eqn:E; [| discriminate].
    cbn in H. injection H as <-.
    destruct (commit_loop_spec d g g1 E Hwf Ht) as (Hwf' & Hg & Hp & Hi & Hs & Hpos).
    repeat (split; [assumption |]).
    intros k Hk. specialize (Hpos k). rewrite Hk, andb_true_r in Hpos. exact Hpos.
  - destruct (rollback g) as [g1|] eqn:E; [| discriminate].
    cbn in H. injection H as <-.
    destruct (rollback_spec g g1 E Hwf) as (Heq & Hwf' & Hpos & Hs).
    split; [exact Hwf' |].
    rewrite Heq. cbn [game_object_database PLAYER_2 image_database with_heap heap].
    repeat (split; [reflexivity |]).
    split; [exact Hs |].
    intros k Hk. split; [| reflexivity].
    rewrite <- Heq. now apply Hpos.
Qed.

Lemma on_target_tail (g : game) (check : dict card_entry)
    (check_sum : list (dict card_entry)) :
  on_target target g (check :: check_sum) -> on_target target g check_sum.
Proof. intros H d key v Hd. apply H. now right. Qed.

(** The second loop of [check_logic]: where every tile of
    [game_object_database] is afterwards, and what its committed position
    is. *)
Lemma status_loop_spec (check_sum : list (dict card_entry)) (g g' : game)
    (status : list bool) :
  status_loop cfg check_sum g = Ok (status, g') -> well_formed g = true ->
  on_target target g check_sum ->
  forallb (fun b => b) status = negb (any_rejected check_sum) /\
  well_formed g' = true /\
  game_object_database g' = game_object_database g /\
  PLAYER_2 g' = PLAYER_2 g /\
  dict_keys (image_database g') = dict_keys (image_database g) /\
  (forall a, rw (rect_at a (heap g')) = rw (rect_at a (heap g)) /\
             rh (rect_at a (heap g')) = rh (rect_at a (heap g))) /\
  (forall k, dict_mem k (game_object_database g) = true ->
     if in_accepted k check_sum
     then position_of k g' = target k /\ snapshot_of k g' = target k
     else snapshot_of k g' = snapshot_of k g /\
          position_of k g' =
            if is_tile k && any_rejected check_sum
            then snapshot_of k g else position_of k g).
Proof.
  revert g status. induction check_sum as [|d check_sum IH]; intros g status H Hwf Ht.
  - cbn in H. injection H as <- <-. cbn. repeat split; auto.
    now rewrite andb_false_r.
  - cbn [status_loop] in H.
    destruct (update_values cfg d g) as [[b g1]|] eqn:E1; [| discriminate].
    cbn [rbind fst snd] in H.
    destruct (status_loop cfg check_sum g1) as [[st g2]|] eqn:E2; [| discriminate].
    cbn [rbind fst snd] in H. injection H as <- <-.
    destruct (update_values_spec d g g1 b E1 Hwf) as (Hacc & Hwf1 & Hg1 & Hp1 & Hi1 & Hs1 & Hpos1).
    { intros key v Hin. apply (Ht d); [now left | assumption]. }
    destruct (IH g1 st E2 Hwf1) as (Hflag & Hwf2 & Hg2 & Hp2 & Hi2 & Hs2 & Hpos2).
    { intros d' key v Hd Hin Hmem. rewrite Hg1 in Hmem.
      apply (Ht d'); [now right | assumption | assumption]. }
    assert (Hab : accepted_b d = b).
    { unfold accepted_b. rewrite Hacc. now destruct b. }
    split.
    { cbn. rewrite Hflag, Hab. now destruct b. }
    split; [exact Hwf2 |]. split; [congruence |]. split; [congruence |].
    split; [congruence |]. split.
    { intros a. destruct (Hs2 a) as [-> ->]. apply Hs1. }
    intros k Hk. specialize (Hpos1 k Hk).
    assert (Hk1 : dict_mem k (game_object_database g1) = true) by now rewrite Hg1.
    specialize (Hpos2 k Hk1).
    cbn [in_accepted any_rejected existsb]. fold (in_accepted k check_sum).
    fold (any_rejected check_sum). rewrite Hab.
    destruct (in_accepted k check_sum).
    + rewrite orb_true_r. exact Hpos2.
    + rewrite orb_false_r. destruct Hpos2 as [Hsnap2 Hp2'].
      destruct b; cbn [andb negb orb].
      * destruct (dict_mem k d); destruct Hpos1 as [Hq1 Hq2];
          rewrite Hsnap2, Hp2', Hq1, Hq2.
        -- split; [| reflexivity]. now destruct (is_tile k && any_rejected check_sum).
        -- now split.
      * destruct Hpos1 as [Hq1 Hq2]. rewrite Hsnap2, Hp2', Hq1, Hq2.
        split; [reflexivity |].
        destruct (is_tile k); cbn [andb]; [| reflexivity].
        now destruct (any_rejected check_sum).
Qed.

End Pass.

(** ** The scan of the play area *)

Section Scan.

Variable P : item -> Prop.

Lemma dict_set_In {V : Type} (k : string) (v : V) (d : dict V) (x : string * V) :
  In x (dict_set k v d) -> x = (k, v) \/ In x d.
Proof.
  induction d as [|[k' v'] d IH]; cbn.
  - intros [<- | []]. now left.
  - destruct (String.eqb_spec k k') as [-> | Hne]; cbn.
    + intros [<- | H]; [now left | right; now right].
    + intros [<- | H]; [right; now left |].
      destruct (IH H) as [-> | H']; [now left | right; now right].
Qed.

Lemma setdefault_append_In (dimensions : Z) (data_item : item)
    (dimensions_dict : list (Z * list item)) :
  P data_item ->
  (forall e x, In e dimensions_dict -> In x (snd e) -> P x) ->
  forall e x, In e (setdefault_append dimensions data_item dimensions_dict) ->
              In x (snd e) -> P x.
Proof.
  intros Hd. induction dimensions_dict as [|[d items] rest IH]; intros H e x He Hx.
  - cbn in He. destruct He as [<- | []]. cbn in Hx. destruct Hx as [<- | []]. exact Hd.
  - cbn in He. destruct (dimensions =? d).
    + destruct He as [<- | He].
      * cbn in Hx. apply in_app_or in Hx as [Hx | [<- | []]]; [| exact Hd].
        apply (H (d, items)); [now left | exact Hx].
      * apply (H e); [now right | exact Hx].
    + destruct He as [<- | He].
      * apply (H (d, items)); [now left | exact Hx].
      * apply IH with (e := e); auto. intros e0 x0 He0. apply H. now right.
Qed.

Lemma fold_setdefault_In (sorted_data : list item) (acc : list (Z * list item)) :
  (forall x, In x sorted_data -> P x) ->
  (forall e x, In e acc -> In x (snd e) -> P x) ->
  forall e x,
    In e (fold_left (fun d data_item =>
                       setdefault_append (snd (snd data_item)) data_item d)
                    sorted_data acc) ->
    In x (snd e) -> P x.
Proof.
  revert acc. induction sorted_data as [|it rest IH]; intros acc Hs Hacc; cbn.
  - exact Hacc.
  - apply IH.
    + intros x Hx. apply Hs. now right.
    + apply setdefault_append_In; [apply Hs; now left | exact Hacc].
Qed.

Lemma append_new_In (x : item) (l : list item) :
  P x -> (forall y, In y l -> P y) -> forall y, In y (append_new x l) -> P y.
Proof.
  intros Hx Hl y. unfold append_new.
  destruct (list_mem item_eqb x l); [apply Hl |].
  intros Hy. apply in_app_or in Hy as [Hy | [<- | []]]; auto.
Qed.

Lemma pair_loop_In (n : nat) (combination_items temp : list item)
    (final : list (list item)) (filt : list item) :
  (forall x, In x combination_items -> P x) ->
  (forall x, In x temp -> P x) ->
  (forall l x, In l final -> In x l -> P x) ->
  (forall x, In x filt -> P x) ->
  let '(temp', final', filt') := pair_loop n combination_items temp final filt in
  (forall x, In x temp' -> P x) /\
  (forall l x, In l final' -> In x l -> P x) /\
  (forall x, In x filt' -> P x).
Proof.
  revert temp final filt.
  induction combination_items as [|first rest IH]; intros temp final filt Hc Ht Hf Hl.
  - cbn. auto.
  - destruct rest as [|next rest]; [cbn; auto |].
    change (pair_loop n (first :: next :: rest) temp final filt) with
      (if adjacent (snd first) (snd next)
       then pair_loop n (next :: rest) (append_new next (append_new first temp)) final filt
       else pair_loop n (next :: rest) []
              (if (2 <=? n)%nat then final ++ [temp] else final)
              (filt ++ [first; next])).
    assert (Hfirst : P first) by (apply Hc; now left).
    assert (Hnext : P next) by (apply Hc; right; now left).
    assert (Hrest : forall x, In x (next :: rest) -> P x)
      by (intros x Hx; apply Hc; now right).
    destruct (adjacent (snd first) (snd next)).
    + apply IH; auto.
      apply append_new_In; [exact Hnext |]. now apply append_new_In.
    + apply IH; auto.
      * intros x [].
      * intros l x Hin Hx. destruct (2 <=? n)%nat; [| now apply (Hf l)].
        apply in_app_or in Hin as [Hin | [<- | []]]; [now apply (Hf l) | now apply Ht].
      * intros x Hx. apply in_app_or in Hx as [Hx | [<- | [<- | []]]]; auto.
Qed.

Lemma row_step_In (acc : list (list item) * list item) (combination_items : list item) :
  (forall x, In x combination_items -> P x) ->
  (forall l x, In l (fst acc) -> In x l -> P x) ->
  (forall x, In x (snd acc) -> P x) ->
  (forall l x, In l (fst (row_step acc combination_items)) -> In x l -> P x) /\
  (forall x, In x (snd (row_step acc combination_items)) -> P x).
Proof.
  destruct acc as [final filt]. cbn [fst snd]. intros Hc Hf Hl.
  unfold row_step.
  pose proof (pair_loop_In (List.length combination_items) combination_items []
                final filt Hc ltac:(intros x []) Hf Hl) as H.
  destruct (pair_loop (List.length combination_items) combination_items [] final filt)
    as [[temp final1] filt1].
  destruct H as (Ht & Hf1 & Hl1). cbn [fst snd]. split; [| exact Hl1].
  intros l x Hin Hx. destruct (2 <=? List.length combination_items)%nat; [| now apply (Hf1 l)].
  apply in_app_or in Hin as [Hin | [<- | []]]; [now apply (Hf1 l) | now apply Ht].
Qed.

Lemma fold_row_step_In (rows : list (list item)) (acc : list (list item) * list item) :
  (forall l x, In l rows -> In x l -> P x) ->
  (forall l x, In l (fst acc) -> In x l -> P x) ->
  (forall x, In x (snd acc) -> P x) ->
  (forall l x, In l (fst (fold_left row_step rows acc)) -> In x l -> P x) /\
  (forall x, In x (snd (fold_left row_step rows acc)) -> P x).
Proof.
  revert acc. induction rows as [|row rows IH]; intros acc Hr Hf Hl; cbn; [auto |].
  destruct (row_step_In acc row) as [H1 H2]; auto.
  { intros x. apply (Hr row). now left. }
  apply IH; auto. intros l x Hin. apply (Hr l). now right.
Qed.

Lemma list_remove_In (x : item) (l l' : list item) :
  list_remove item_eqb x l = Ok l' -> forall y, In y l' -> In y l.
Proof.
  revert l'. induction l as [|z l IH]; intros l' H; cbn in H; [discriminate |].
  destruct (item_eqb x z).
  - injection H as <-. intros y Hy. now right.
  - destruct (list_remove item_eqb x l) as [r|]; [| discriminate].
    cbn in H. injection H as <-. intros y [<- | Hy]; [now left | right; now apply (IH r)].
Qed.

Lemma drop_if_grouped_In (x : item) (sub_lists : list (list item)) (l l' : list item) :
  drop_if_grouped x sub_lists l = Ok l' -> forall y, In y l' -> In y l.
Proof.
  revert l. induction sub_lists as [|s rest IH]; intros l H; cbn in H.
  - injection H as <-. auto.
  - destruct (list_mem item_eqb x s); [| now apply IH].
    destruct (list_remove item_eqb x l) as [r|] eqn:E; [| discriminate].
    cbn in H. intros y Hy. apply (list_remove_In _ _ _ E). now apply (IH r).
Qed.

Lemma is_filtered_from_In (fuel idx : nat) (sub_lists : list (list item))
    (l l' : list item) :
  is_filtered_from fuel idx sub_lists l = Ok l' -> forall y, In y l' -> In y l.
Proof.
  revert idx l. induction fuel as [|fuel IH]; intros idx l H; cbn in H.
  - injection H as <-. auto.
  - destruct (nth_error l idx) as [x|]; [| injection H as <-; auto].
    destruct (drop_if_grouped x sub_lists l) as [r|] eqn:E; [| discriminate].
    cbn in H. intros y Hy. apply (drop_if_grouped_In _ _ _ _ E).
    now apply (IH (S idx) r).
Qed.

Lemma repeat_filtered_In (times : nat) (sub_lists : list (list item))
    (l l' : list item) :
  repeat_filtered times sub_lists l = Ok l' -> forall y, In y l' -> In y l.
Proof.
  revert l. induction times as [|t IH]; intros l H; cbn [repeat_filtered] in H.
  - injection H as <-. auto.
  - destruct (is_filtered sub_lists l) as [r|] eqn:E; [| discriminate].
    cbn [rbind] in H. intros y Hy.
    apply (is_filtered_from_In (S (List.length l)) 0 sub_lists l r E). now apply (IH r).
Qed.

End Scan.

(** Every item of every cluster comes from [data_list]. *)
Lemma get_tile_by_position_items (big_box : rect) (g : game)
    (permutation_values : list (list item)) :
  get_tile_by_position big_box g = Ok permutation_values ->
  forall cluster x, In cluster permutation_values -> In x cluster ->
  In x (collect_data_list big_box (heap g) (game_object_database g) []).
Proof.
  unfold get_tile_by_position.
  set (data_list := collect_data_list big_box (heap g) (game_object_database g) []).
  set (P := fun x : item => In x data_list).
  set (sorted_data := py_sorted dimensions_leb data_list).
  set (dimensions_dict :=
         fold_left (fun d data_item => setdefault_append (snd (snd data_item)) data_item d)
                   sorted_data []).
  assert (Hdict : forall e x, In e dimensions_dict -> In x (snd e) -> P x).
  { apply fold_setdefault_In.
    - intros x Hx. now apply py_sorted_In in Hx.
    - intros e x []. }
  set (rows := map (py_sorted dimensions_leb)
                   (map snd (List.filter (fun e => (1 <? List.length (snd e))%nat)
                                         dimensions_dict))).
  set (singles := concat (map snd (List.filter
                    (fun e => negb (1 <? List.length (snd e))%nat) dimensions_dict))).
  assert (Hrows : forall l x, In l rows -> In x l -> P x).
  { intros l x Hl Hx. apply in_map_iff in Hl as (l0 & <- & Hl0).
    apply py_sorted_In in Hx. apply in_map_iff in Hl0 as (e & <- & He).
    apply filter_In in He as [He _]. now apply (Hdict e). }
  assert (Hsingles : forall x, In x singles -> P x).
  { intros x Hx. apply in_concat in Hx as (l & Hl & Hx).
    apply in_map_iff in Hl as (e & <- & He).
    apply filter_In in He as [He _]. now apply (Hdict e). }
  pose proof (fold_row_step_In P rows ([], []) Hrows
                ltac:(intros l x []) ltac:(intros x [])) as Hfold.
  destruct (fold_left row_step rows ([], [])) as [final filt].
  cbn [fst snd] in Hfold. destruct Hfold as [Hfinal Hfilt].
  set (nonempty :=
         List.filter (fun sublist : list item =>
                        match sublist with [] => false | _ => true end) final).
  destruct (repeat_filtered 15 nonempty filt) as [filt'|] eqn:Ef; [| discriminate].
  cbn [rbind]. intros H. apply Ok_inj in H.
  assert (Hfinal1 : forall l x,
            In l (nonempty ++ map (fun filer_val => [filer_val]) filt') ->
            In x l -> P x).
  { intros l x Hl Hx. apply in_app_or in Hl as [Hl | Hl].
    - apply filter_In in Hl as [Hl _]. now apply (Hfinal l).
    - apply in_map_iff in Hl as (y & <- & Hy). destruct Hx as [<- | []].
      apply Hfilt. now apply (repeat_filtered_In _ _ _ _ Ef). }
  intros cluster x Hc Hx. fold P.
  match type of H with
  | match ?r with [] => _ | _ => _ end = _ => set (remaining := r) in H
  end.
  assert (Hrem : forall y, In y remaining -> P y).
  { intros y Hy. apply filter_In in Hy as [Hy _]. apply filter_In in Hy as [Hy _].
    apply py_sorted_In in Hy. now apply Hsingles. }
  destruct remaining as [|r0 rem].
  - subst permutation_values. now apply (Hfinal1 cluster).
  - subst permutation_values. apply in_app_or in Hc as [Hc | [<- | []]].
    + now apply (Hfinal1 cluster).
    + now apply Hrem.
Qed.

Lemma collect_data_list_In (big_box : rect) (h : list rect) (items : dict addr)
    (data_list : dict (Z * Z)) (x : item) :
  In x (collect_data_list big_box h items data_list) ->
  In x data_list \/
  exists a, In (fst x, a) items /\ snd x = (rx (rect_at a h), ry (rect_at a h)).
Proof.
  revert data_list. induction items as [|[k a] items IH]; intros data_list H; cbn in H.
  - now left.
  - destruct (str_in "1-15" k && center_in big_box (rect_at a h)).
    + apply IH in H as [H | (a' & Ha & Hp)].
      * apply dict_set_In in H as [-> | H]; [| now left].
        right. exists a. split; [now left | reflexivity].
      * right. exists a'. split; [now right | exact Hp].
    + apply IH in H as [H | (a' & Ha & Hp)]; [now left |].
      right. exists a'. split; [now right | exact Hp].
Qed.

(** The scan reports every tile at the position it has. *)
Lemma get_tile_by_position_scanned (big_box : rect) (g : game)
    (permutation_values : list (list item)) :
  get_tile_by_position big_box g = Ok permutation_values ->
  well_formed g = true ->
  scanned permutation_values g.
Proof.
  intros H Hwf cluster key p Hc Hx.
  pose proof (get_tile_by_position_items _ _ _ H cluster (key, p) Hc Hx) as Hin.
  apply collect_data_list_In in Hin as [[] | (a & Ha & Hp)].
  cbn in Ha, Hp. unfold position_of.
  rewrite (dict_get_unique key a _ (well_formed_keys g Hwf) Ha). now rewrite Hp.
Qed.

(** ** The first loop of [check_logic] *)

Section Gather.

Lemma gather_loop_in_range (permutation_values todo : list (list item))
    (check_sum : list (dict card_entry)) (g : game) :
  sizes_in_range permutation_values = true ->
  gather_loop permutation_values todo check_sum g =
  Ok (fold_left (fun check_sum perm_values =>
                   let card_number := card_number_of perm_values in
                   if list_mem card_dict_eqb card_number check_sum
                   then check_sum else check_sum ++ [card_number])
                todo check_sum, g).
Proof.
  intros Hs. revert check_sum.
  induction todo as [|cl todo IH]; intros check_sum; cbn; [reflexivity |].
  rewrite Hs. apply IH.
Qed.

Lemma card_number_of_In (perm_values : list item) (key : string) (v : card_entry) :
  In (key, v) (card_number_of perm_values) ->
  In (key, place v) perm_values.
Proof.
  unfold card_number_of.
  assert (H : forall acc : dict card_entry,
            (forall k w, In (k, w) acc -> In (k, place w) perm_values) ->
            forall todo, (forall x, In x todo -> In x perm_values) ->
            In (key, v)
               (fold_left (fun d kv =>
                             let '(key, value) := kv in
                             let '(card, color) := card_and_color key in
                             dict_set key (mkCard card color value) d) todo acc) ->
            In (key, place v) perm_values).
  { intros acc Hacc todo. revert acc Hacc.
    induction todo as [|[k p] todo IH]; intros acc Hacc Hsub Hin; cbn in Hin.
    - now apply Hacc.
    - apply IH in Hin; auto.
      + intros k0 w Hw. destruct (card_and_color k) as [c col].
        apply dict_set_In in Hw as [[= -> ->] | Hw]; [| now apply Hacc].
        cbn. apply Hsub. now left.
      + intros x Hx. apply Hsub. now right. }
  apply (H [] ltac:(intros k w []) perm_values). auto.
Qed.

Lemma check_sum_of_In (permutation_values : list (list item)) (check : dict card_entry) :
  In check (check_sum_of permutation_values) ->
  exists cluster, In cluster permutation_values /\ check = card_number_of cluster.
Proof.
  unfold check_sum_of.
  assert (H : forall todo acc,
            (forall d, In d acc -> exists cl, In cl permutation_values /\ d = card_number_of cl) ->
            (forall cl, In cl todo -> In cl permutation_values) ->
            In check (fold_left (fun check_sum perm_values =>
                         let card_number := card_number_of perm_values in
                         if list_mem card_dict_eqb card_number check_sum
                         then check_sum else check_sum ++ [card_number]) todo acc) ->
            exists cl, In cl permutation_values /\ check = card_number_of cl).
  { induction todo as [|cl todo IH]; intros acc Hacc Hsub Hin; cbn in Hin.
    - now apply Hacc.
    - apply IH in Hin; auto.
      + intros d Hd.
        destruct (list_mem card_dict_eqb (card_number_of cl) acc); [now apply Hacc |].
        apply in_app_or in Hd as [Hd | [<- | []]]; [now apply Hacc |].
        exists cl. split; [apply Hsub; now left | reflexivity].
      + intros cl0 H0. apply Hsub. now right. }
  apply H; auto. intros d [].
Qed.

(** The clusters of a scan carry the positions of the state. *)
Lemma scanned_on_target (permutation_values : list (list item)) (g : game) :
  scanned permutation_values g ->
  on_target (fun k => position_of k g) g (check_sum_of permutation_values).
Proof.
  intros Hs check key v Hc Hin _.
  apply check_sum_of_In in Hc as (cl & Hcl & ->).
  apply card_number_of_In in Hin. exact (Hs cl key (place v) Hcl Hin).
Qed.

(** With a size out of range every round of the loop is a rollback. *)
Lemma gather_loop_rollback (permutation_values todo : list (list item))
    (check_sum check_sum' : list (dict card_entry)) (g g' : game) :
  sizes_in_range permutation_values = false ->
  gather_loop permutation_values todo check_sum g = Ok (check_sum', g') ->
  well_formed g = true ->
  check_sum' = check_sum /\
  well_formed g' = true /\
  g' = with_heap (heap g') g /\
  (forall b, rw (rect_at b (heap g')) = rw (rect_at b (heap g)) /\
             rh (rect_at b (heap g')) = rh (rect_at b (heap g))) /\
  (forall key, dict_mem key (game_object_database g) = true ->
     position_of key g' =
       if is_tile key && negb (Nat.eqb (List.length todo) 0)
       then snapshot_of key g else position_of key g).
Proof.
  intros Hs. revert g.
  induction todo as [|cl todo IH]; intros g H Hwf; cbn [gather_loop] in H.
  - injection H as <- <-.
    split; [reflexivity |]. split; [exact Hwf |]. split; [now destruct g |].
    split; [now split |].
    intros key _. cbn [List.length Nat.eqb negb]. now rewrite andb_false_r.
  - rewrite Hs in H.
    destruct (rollback g) as [g1|] eqn:E; [| discriminate]. cbn [rbind] in H.
    destruct (rollback_spec g g1 E Hwf) as (Heq1 & Hwf1 & Hpos1 & Hsize1).
    destruct (IH g1 H Hwf1) as (-> & Hwf' & Heq' & Hsize' & Hpos').
    split; [reflexivity |]. split; [exact Hwf' |]. split.
    { rewrite Heq', Heq1. reflexivity. }
    split.
    { intros b. destruct (Hsize' b) as [-> ->]. apply Hsize1. }
    intros key Hk. cbn [List.length Nat.eqb negb]. rewrite andb_true_r.
    assert (Hk1 : dict_mem key (game_object_database g1) = true)
      by (rewrite Heq1; exact Hk).
    rewrite (Hpos' key Hk1), (Hpos1 key Hk).
    assert (Hsnap : snapshot_of key g1 = snapshot_of key g) by now rewrite Heq1.
    rewrite Hsnap.
    destruct (is_tile key); cbn [andb]; [| reflexivity].
    now destruct (negb (Nat.eqb (List.length todo) 0)).
Qed.

End Gather.

(** ** The validation pass *)

Lemma sizes_in_range_nonempty (permutation_values : list (list item)) :
  sizes_in_range permutation_values = false -> permutation_values <> [].
Proof. now destruct permutation_values. Qed.

(** When the scan holds a cluster of a size outside 3 to 5, the pass never
    calls [update_values], so no cluster is committed (the committed
    positions and the rack are what they were), and every tile of
    [game_object_database] is back where its committed position is. *)
Lemma size_out_of_range_rolls_back (cfg : config) (g g' : game) (ok : bool)
    (permutation_values : list (list item)) :
  well_formed g = true ->
  get_tile_by_position (BIG_BOX cfg) g = Ok permutation_values ->
  sizes_in_range permutation_values = false ->
  check_logic_validation cfg g = Ok (ok, g') ->
  (forall key, is_tile key = true -> dict_mem key (game_object_database g) = true ->
     position_of key g' = snapshot_of key g /\
     snapshot_of key g' = snapshot_of key g) /\
  image_database g' = image_database g /\
  game_object_database g' = game_object_database g /\
  PLAYER_1 g' = PLAYER_1 g /\
  PLAYER_2 g' = PLAYER_2 g.
Proof.
  intros Hwf Hscan Hsizes H. unfold check_logic_validation in H.
  rewrite Hscan in H. cbn [rbind] in H. unfold validate in H.
  pose proof (sizes_in_range_nonempty _ Hsizes) as Hne.
  destruct permutation_values as [|cl rest] eqn:Epv; [congruence |].
  rewrite <- Epv in *. clear Epv.
  destruct (gather_loop permutation_values permutation_values [] g)
    as [[check_sum g1]|] eqn:Eg; [| discriminate].
  cbn [rbind fst snd] in H.
  destruct (gather_loop_rollback _ _ _ _ _ _ Hsizes Eg Hwf)
    as (-> & Hwf1 & Heq & _ & Hpos).
  cbn in H. injection H as <- <-.
  assert (Hlen : negb (Nat.eqb (List.length permutation_values) 0) = true)
    by (destruct permutation_values; [congruence | reflexivity]).
  split.
  - intros key Ht Hk. rewrite (Hpos key Hk), Ht, Hlen. cbn [andb].
    split; [reflexivity |]. now rewrite Heq.
  - rewrite Heq. now cbn.
Qed.

(** A pair of tiles on the board goes back to the rack. *)
Lemma size_out_of_range_rolls_back_witness :
  match check_logic_validation example_config g_pair with
  | Ok (_, g') =>
      position_of (tile 4 5) g' = Some (278, 574) /\
      position_of (tile 2 5) g' = Some (340, 574) /\
      image_database g' = image_database g_pair
  | Raise _ => False
  end.
Proof.
  destruct (check_logic_validation example_config g_pair) as [[ok g']|e] eqn:E.
  - destruct (size_out_of_range_rolls_back example_config g_pair g' ok
                [[(tile 4 5, (100, 50)); (tile 2 5, (152, 50))]]
                ltac:(vm_compute; reflexivity) ltac:(vm_compute; reflexivity)
                ltac:(vm_compute; reflexivity) E) as (Hpos & Hi & _).
    split; [| split; [| exact Hi]].
    + exact (proj1 (Hpos (tile 4 5) ltac:(vm_compute; reflexivity)
                         ltac:(vm_compute; reflexivity))).
    + exact (proj1 (Hpos (tile 2 5) ltac:(vm_compute; reflexivity)
                         ltac:(vm_compute; reflexivity))).
  - vm_compute in E. discriminate.
Defined.

(** C1 (amended): when the sizes are in range and a cluster fails the test,
    the pass reports no success, every tile in no cluster that passes is
    back where its committed position was, and that position is kept; a
    tile of a cluster that passes stays where the scan found it, and that
    place becomes its committed position. *)
Theorem validation_commits_per_cluster (cfg : config) (g g' : game) (ok : bool)
    (permutation_values : list (list item)) :
  well_formed g = true ->
  get_tile_by_position (BIG_BOX cfg) g = Ok permutation_values ->
  sizes_in_range permutation_values = true ->
  any_rejected (check_sum_of permutation_values) = true ->
  check_logic_validation cfg g = Ok (ok, g') ->
  ok = false /\
  (forall key, is_tile key = true -> dict_mem key (game_object_database g) = true ->
     if in_accepted key (check_sum_of permutation_values)
     then position_of key g' = position_of key g /\
          snapshot_of key g' = position_of key g
     else position_of key g' = snapshot_of key g /\
          snapshot_of key g' = snapshot_of key g).
Proof.
  intros Hwf Hscan Hsizes Hrej H. unfold check_logic_validation in H.
  rewrite Hscan in H. cbn [rbind] in H. unfold validate in H.
  destruct permutation_values as [|cl rest] eqn:Epv; [discriminate |].
  rewrite <- Epv in *. clear Epv.
  rewrite (gather_loop_in_range _ _ _ _ Hsizes) in H. cbn [rbind fst snd] in H.
  fold (check_sum_of permutation_values) in H.
  destruct (status_loop cfg (check_sum_of permutation_values) g) as [[status g1]|] eqn:Es;
    [| discriminate].
  cbn [rbind fst snd] in H. injection H as <- <-.
  pose proof (get_tile_by_position_scanned _ _ _ Hscan Hwf) as Hsc.
  destruct (status_loop_spec cfg (fun k => position_of k g) _ _ _ _ Es Hwf
              (scanned_on_target _ _ Hsc)) as (Hflag & _ & _ & _ & _ & _ & Hpos).
  split; [now rewrite Hflag, Hrej |].
  intros key Ht Hk. specialize (Hpos key Hk). rewrite Ht, Hrej in Hpos. cbn [andb] in Hpos.
  destruct (in_accepted key (check_sum_of permutation_values)); [exact Hpos |].
  destruct Hpos as [-> ->]. now split.
Qed.

(** The pass on a board with a Group of fives and RED 1, RED 2, BLUE 4. *)
Lemma validation_commits_per_cluster_witness :
  match check_logic_validation example_config g_mixed with
  | Ok (ok, g') =>
      ok = false /\
      position_of (tile 4 5) g' = Some (100, 50) /\
      snapshot_of (tile 4 5) g' = Some (100, 50) /\
      position_of (tile 4 1) g' = Some (464, 574)
  | Raise _ => False
  end.
Proof.
  destruct (check_logic_validation example_config g_mixed) as [[ok g']|e] eqn:E.
  - destruct (validation_commits_per_cluster example_config g_mixed g' ok
                [[(tile 4 5, (100, 50)); (tile 2 5, (152, 50)); (tile 3 5, (204, 50))];
                 [(tile 4 1, (100, 123)); (tile 4 2, (152, 123)); (tile 2 4, (204, 123))]]
                ltac:(vm_compute; reflexivity) ltac:(vm_compute; reflexivity)
                ltac:(vm_compute; reflexivity) ltac:(vm_compute; reflexivity) E)
      as (Hok & Hpos).
    split; [exact Hok |].
    pose proof (Hpos (tile 4 5) ltac:(vm_compute; reflexivity)
                     ltac:(vm_compute; reflexivity)) as H5.
    pose proof (Hpos (tile 4 1) ltac:(vm_compute; reflexivity)
                     ltac:(vm_compute; reflexivity)) as H1.
    vm_compute in H5. vm_compute in H1.
    destruct H5 as [H5 H5']. destruct H1 as [H1 _].
    split; [exact H5 | split; [exact H5' | exact H1]].
  - vm_compute in E. discriminate.
Defined.

(** C1, as stated, fails: with a Group of fives next to RED 1, RED 2,
    BLUE 4 the second cluster fails the test, and after the pass RED 5 is
    on the board, not back in the rack. *)
Lemma valid_cluster_stays_on_board :
  any_rejected (check_sum_of
    [[(tile 4 5, (100, 50)); (tile 2 5, (152, 50)); (tile 3 5, (204, 50))];
     [(tile 4 1, (100, 123)); (tile 4 2, (152, 123)); (tile 2 4, (204, 123))]]) = true /\
  get_tile_by_position (BIG_BOX example_config) g_mixed =
    Ok [[(tile 4 5, (100, 50)); (tile 2 5, (152, 50)); (tile 3 5, (204, 50))];
        [(tile 4 1, (100, 123)); (tile 4 2, (152, 123)); (tile 2 4, (204, 123))]] /\
  ~ all_rolled_back example_config g_mixed.
Proof.
  split; [vm_compute; reflexivity |]. split; [vm_compute; reflexivity |].
  intros H.
  destruct (check_logic_validation example_config g_mixed) as [[ok g']|e] eqn:E;
    [| vm_compute in E; discriminate].
  specialize (H ok g' E (tile 4 5) ltac:(vm_compute; reflexivity)
                ltac:(vm_compute; reflexivity)).
  vm_compute in E. injection E as <- <-. vm_compute in H. discriminate.
Qed.

(** ** Two passes in a row *)

Section Again.

Variable cfg : config.

Lemma committed_b_spec (g : game) (key : string) :
  committed_b g = true -> is_tile key = true ->
  dict_mem key (game_object_database g) = true ->
  position_of key g = snapshot_of key g.
Proof.
  unfold committed_b. intros H Ht Hk. rewrite forallb_forall in H.
  unfold dict_mem in Hk.
  destruct (dict_get key (game_object_database g)) as [a|] eqn:Ea; [| discriminate].
  specialize (H (key, a) (dict_get_In _ _ _ Ea)). cbn [fst] in H.
  rewrite Ht in H. cbn [negb orb] in H.
  destruct (position_of key g) as [[px py]|], (snapshot_of key g) as [[qx qy]|];
    try discriminate.
  cbn in H. apply andb_prop in H as [Hx Hy].
  apply Z.eqb_eq in Hx, Hy. now subst.
Qed.

Lemma dict_get_same_keys {V : Type} (k : string) (d d2 : dict V) :
  dict_keys d2 = dict_keys d -> dict_get k d = None -> dict_get k d2 = None.
Proof.
  intros Hk H. apply dict_get_None. rewrite Hk. now apply dict_get_None.
Qed.

Lemma same_shape_sym (g g2 : game) : same_shape g g2 -> same_shape g2 g.
Proof. intros [H1 H2]. now split. Qed.

Lemma same_shape_trans (g g2 g3 : game) :
  same_shape g g2 -> same_shape g2 g3 -> same_shape g g3.
Proof. intros [H1 H2] [H3 H4]. split; congruence. Qed.

(** Whether the rollback loop raises depends on the keys only. *)
Lemma rollback_loop_ok (images images2 : dict image_entry) (items : dict addr)
    (h h' h2 : list rect) :
  dict_keys images2 = dict_keys images ->
  rollback_loop images items h = Ok h' ->
  exists h2', rollback_loop images2 items h2 = Ok h2'.
Proof.
  intros Hk. revert h h2. induction items as [|[k a] items IH]; intros h h2 H.
  - now exists h2.
  - cbn [rollback_loop] in H |- *.
    destruct (str_in "images/tiles/1-15" k); [| now apply (IH h)].
    destruct (dict_get k images) as [e|] eqn:E; [| discriminate].
    cbn [of_option rbind] in H.
    destruct (dict_get k images2) as [e2|] eqn:E2.
    + cbn [of_option rbind]. eapply IH. exact H.
    + apply (dict_get_same_keys k images2 images) in E2; [congruence | now symmetry].
Qed.

Lemma rollback_ok (g g' g2 : game) :
  same_shape g g2 -> rollback g = Ok g' -> exists g2', rollback g2 = Ok g2'.
Proof.
  intros [Hg Hi]. unfold rollback. intros H.
  destruct (rollback_loop (image_database g) (game_object_database g) (heap g))
    as [h'|] eqn:E; [| discriminate].
  rewrite Hg.
  destruct (rollback_loop_ok _ _ _ _ _ (heap g2) Hi E) as [h2' ->].
  cbn. eauto.
Qed.

Lemma commit_item_ok (key : string) (v : card_entry) (g g' g2 : game) :
  same_shape g g2 -> commit_item cfg key v g = Ok g' ->
  exists g2', commit_item cfg key v g2 = Ok g2'.
Proof.
  intros [Hg Hi]. unfold commit_item. rewrite Hg. intros H.
  destruct (dict_get key (game_object_database g)) as [a|]; [| eauto].
  destruct (dict_get key (image_database g)) as [e|] eqn:E; [| discriminate].
  cbn [of_option rbind] in H.
  destruct (dict_get key (image_database g2)) as [e2|] eqn:E2.
  2:{ apply (dict_get_same_keys key (image_database g2) (image_database g)) in E2;
        [congruence | now symmetry]. }
  cbn [of_option rbind game_object_database with_image_database with_heap] in H |- *.
  rewrite Hg.
  destruct (dict_get "brown_rack_image_tile2" (game_object_database g)); [| discriminate].
  cbn [of_option rbind]. eauto.
Qed.

Lemma commit_item_shape (key : string) (v : card_entry) (g g' : game) :
  commit_item cfg key v g = Ok g' -> well_formed g = true -> same_shape g g'.
Proof.
  intros H Hwf.
  destruct (commit_item_spec _ _ _ _ _ H Hwf) as (_ & Hg & _ & Hi & _). now split.
Qed.

Lemma commit_loop_ok (d : dict card_entry) (g g' g2 : game) :
  same_shape g g2 -> well_formed g = true -> well_formed g2 = true ->
  commit_loop cfg d g = Ok g' ->
  exists g2', commit_loop cfg d g2 = Ok g2'.
Proof.
  revert g g2. induction d as [|[k v] d IH]; intros g g2 Hs Hwf Hwf2 H.
  - cbn. eauto.
  - cbn [commit_loop] in H |- *.
    destruct (commit_item cfg k v g) as [g1|] eqn:E1; [| discriminate].
    cbn [rbind] in H.
    destruct (commit_item_ok k v g g1 g2 Hs E1) as [g21 E2]. rewrite E2. cbn [rbind].
    apply (IH g1 g21); auto.
    + pose proof (commit_item_shape _ _ _ _ E1 Hwf) as S1.
      pose proof (commit_item_shape _ _ _ _ E2 Hwf2) as S2.
      eapply same_shape_trans; [apply same_shape_sym; exact S1 |].
      eapply same_shape_trans; [exact Hs | exact S2].
    + now destruct (commit_item_spec _ _ _ _ _ E1 Hwf).
    + now destruct (commit_item_spec _ _ _ _ _ E2 Hwf2).
Qed.

Lemma update_values_ok (d : dict card_entry) (g g' g2 : game) (b : bool) :
  same_shape g g2 -> well_formed g = true -> well_formed g2 = true ->
  update_values cfg d g = Ok (b, g') ->
  exists g2', update_values cfg d g2 = Ok (b, g2').
Proof.
  intros Hs Hwf Hwf2 H. pose proof (update_values_flag _ _ _ _ _ H) as Hacc.
  unfold update_values in H |- *. rewrite Hacc in H |- *. cbn [rbind] in H |- *.
  destruct b.
  - destruct (commit_loop cfg d g) as [g1|] eqn:E; [| discriminate].
    destruct (commit_loop_ok d g g1 g2 Hs Hwf Hwf2 E) as [g21 ->]. cbn. eauto.
  - destruct (rollback g) as [g1|] eqn:E; [| discriminate].
    destruct (rollback_ok g g1 g2 Hs E) as [g21 ->]. cbn. eauto.
Qed.

Lemma status_loop_ok (check_sum : list (dict card_entry)) (g g' g2 : game)
    (status : list bool) (target target2 : string -> option (Z * Z)) :
  same_shape g g2 -> well_formed g = true -> well_formed g2 = true ->
  on_target target g check_sum -> on_target target2 g2 check_sum ->
  status_loop cfg check_sum g = Ok (status, g') ->
  exists g2', status_loop cfg check_sum g2 = Ok (status, g2').
Proof.
  revert g g2 status.
  induction check_sum as [|d check_sum IH]; intros g g2 status Hs Hwf Hwf2 Ht Ht2 H.
  - cbn in H |- *. injection H as <- <-. eauto.
  - cbn [status_loop] in H |- *.
    destruct (update_values cfg d g) as [[b g1]|] eqn:E1; [| discriminate].
    cbn [rbind fst snd] in H.
    destruct (status_loop cfg check_sum g1) as [[st g1']|] eqn:E1'; [| discriminate].
    cbn [rbind fst snd] in H. injection H as <- <-.
    destruct (update_values_ok d g g1 g2 b Hs Hwf Hwf2 E1) as [g21 E2].
    rewrite E2. cbn [rbind fst snd].
    destruct (update_values_spec cfg target d g g1 b E1 Hwf)
      as (_ & Hwf1 & Hg1 & _ & Hi1 & _).
    { intros key v Hin. apply (Ht d); [now left | assumption]. }
    destruct (update_values_spec cfg target2 d g2 g21 b E2 Hwf2)
      as (_ & Hwf21 & Hg21 & _ & Hi21 & _).
    { intros key v Hin. apply (Ht2 d); [now left | assumption]. }
    destruct (IH g1 g21 st) as [g2' E2']; auto.
    + destruct Hs as [Hs1 Hs2]. split; congruence.
    + intros d' key v Hd Hin Hm. rewrite Hg1 in Hm.
      apply (Ht d' key v); [now right | exact Hin | exact Hm].
    + intros d' key v Hd Hin Hm. rewrite Hg21 in Hm.
      apply (Ht2 d' key v); [now right | exact Hin | exact Hm].
    + rewrite E2'. cbn [rbind fst snd]. eauto.
Qed.

Lemma gather_loop_rollback_ok (permutation_values todo : list (list item))
    (check_sum check_sum' : list (dict card_entry)) (g g' g2 : game) :
  sizes_in_range permutation_values = false ->
  same_shape g g2 -> well_formed g = true -> well_formed g2 = true ->
  gather_loop permutation_values todo check_sum g = Ok (check_sum', g') ->
  exists g2', gather_loop permutation_values todo check_sum g2 = Ok (check_sum', g2').
Proof.
  intros Hsz. revert g g2.
  induction todo as [|cl todo IH]; intros g g2 Hs Hwf Hwf2 H; cbn [gather_loop] in H |- *.
  - injection H as <- <-. eauto.
  - rewrite Hsz in H |- *.
    destruct (rollback g) as [g1|] eqn:E; [| discriminate]. cbn [rbind] in H.
    destruct (rollback_ok g g1 g2 Hs E) as [g21 E2]. rewrite E2. cbn [rbind].
    destruct (rollback_spec g g1 E Hwf) as (Heq1 & Hwf1 & _).
    destruct (rollback_spec g2 g21 E2 Hwf2) as (Heq2 & Hwf21 & _).
    apply (IH g1 g21); auto.
    rewrite Heq1, Heq2. exact Hs.
Qed.

(** The scan reads the rectangles of [game_object_database] only. *)
Lemma collect_data_list_ext (big_box : rect) (h h2 : list rect) (items : dict addr)
    (data_list : dict (Z * Z)) :
  (forall k a, In (k, a) items -> rect_at a h2 = rect_at a h) ->
  collect_data_list big_box h2 items data_list =
  collect_data_list big_box h items data_list.
Proof.
  revert data_list. induction items as [|[k a] items IH]; intros data_list H; cbn.
  - reflexivity.
  - rewrite (H k a) by now left.
    rewrite !IH by (intros k' a' Hin; apply (H k' a'); now right). reflexivity.
Qed.

Lemma rect_ext (r r2 : rect) :
  rx r2 = rx r -> ry r2 = ry r -> rw r2 = rw r -> rh r2 = rh r -> r2 = r.
Proof. destruct r, r2; cbn; congruence. Qed.

Lemma get_tile_by_position_ext (big_box : rect) (g g2 : game) :
  well_formed g = true ->
  game_object_database g2 = game_object_database g ->
  (forall key, dict_mem key (game_object_database g) = true ->
               position_of key g2 = position_of key g) ->
  (forall b, rw (rect_at b (heap g2)) = rw (rect_at b (heap g)) /\
             rh (rect_at b (heap g2)) = rh (rect_at b (heap g))) ->
  get_tile_by_position big_box g2 = get_tile_by_position big_box g.
Proof.
  intros Hwf Hg Hpos Hsize. unfold get_tile_by_position. rewrite Hg.
  rewrite (collect_data_list_ext big_box (heap g) (heap g2)); [reflexivity |].
  intros k a Hin.
  pose proof (dict_get_unique k a _ (well_formed_keys g Hwf) Hin) as Hget.
  assert (Hk : dict_mem k (game_object_database g) = true)
    by (unfold dict_mem; now rewrite Hget).
  specialize (Hpos k Hk). unfold position_of in Hpos. rewrite Hg, Hget in Hpos.
  injection Hpos as Hx Hy. destruct (Hsize a). now apply rect_ext.
Qed.

End Again.

(** C4 (amended): on a board where every tile is at its committed
    position, a validation pass moves no tile, and the next pass on the
    state it leaves gives the answer of the first, success or not, and
    changes neither the position nor the committed position of any tile.
    The answer need not be success. *)
Theorem validation_idempotent (cfg : config) (g g1 : game) (ok : bool) :
  well_formed g = true ->
  committed_b g = true ->
  check_logic_validation cfg g = Ok (ok, g1) ->
  exists g2,
    check_logic_validation cfg g1 = Ok (ok, g2) /\
    (forall key, dict_mem key (game_object_database g) = true ->
       position_of key g1 = position_of key g) /\
    (forall key, dict_mem key (game_object_database g) = true ->
       position_of key g2 = position_of key g1 /\
       snapshot_of key g2 = snapshot_of key g1).
Proof.
  intros Hwf Hcom H. unfold check_logic_validation in H.
  destruct (get_tile_by_position (BIG_BOX cfg) g) as [pvs|] eqn:Hscan; [| discriminate].
  cbn [rbind] in H. unfold validate in H.
  assert (Hhome : forall key, dict_mem key (game_object_database g) = true ->
            (if is_tile key then snapshot_of key g else position_of key g)
            = position_of key g).
  { intros key Hk. destruct (is_tile key) eqn:Et; [| reflexivity].
    symmetry. now apply committed_b_spec. }
  destruct pvs as [|cl rest] eqn:Epv.
  { (* nothing in the play area: both passes roll back and report no success *)
    destruct (rollback g) as [g1'|] eqn:Er; [| discriminate].
    cbn in H. injection H as <- <-.
    destruct (rollback_spec g g1' Er Hwf) as (Heq1 & Hwf1 & Hpos1 & Hsize1).
    assert (Hg1 : game_object_database g1' = game_object_database g)
      by now rewrite Heq1.
    assert (Hsame : forall key, dict_mem key (game_object_database g) = true ->
                                position_of key g1' = position_of key g).
    { intros key Hk. rewrite (Hpos1 key Hk). now apply Hhome. }
    assert (Hscan1 : get_tile_by_position (BIG_BOX cfg) g1' = Ok []).
    { rewrite <- Hscan. now apply get_tile_by_position_ext. }
    destruct (rollback_ok g g1' g1') as [g2 Er2]; auto.
    { split; [exact Hg1 | now rewrite Heq1]. }
    destruct (rollback_spec g1' g2 Er2 Hwf1) as (Heq2 & _ & Hpos2 & _).
    exists g2. split; [| split; [exact Hsame |]].
    - unfold check_logic_validation. rewrite Hscan1. cbn [rbind validate].
      now rewrite Er2.
    - intros key Hk.
      assert (Hk1 : dict_mem key (game_object_database g1') = true) by now rewrite Hg1.
      split; [| now rewrite Heq2].
      rewrite (Hpos2 key Hk1), (Hsame key Hk).
      replace (snapshot_of key g1') with (snapshot_of key g) by now rewrite Heq1.
      now apply Hhome. }
  rewrite <- Epv in *.
  assert (Hne : pvs <> []) by (rewrite Epv; discriminate). clear Epv.
  pose proof (get_tile_by_position_scanned _ _ _ Hscan Hwf) as Hsc.
  destruct (sizes_in_range pvs) eqn:Hsizes.
  - (* every size in range *)
    rewrite (gather_loop_in_range _ _ _ _ Hsizes) in H. cbn [rbind fst snd] in H.
    fold (check_sum_of pvs) in H.
    destruct (status_loop cfg (check_sum_of pvs) g) as [[status g1']|] eqn:Es;
      [| discriminate].
    cbn [rbind fst snd] in H. injection H as <- <-.
    destruct (status_loop_spec cfg (fun k => position_of k g) _ _ _ _ Es Hwf
                (scanned_on_target _ _ Hsc))
      as (Hflag & Hwf1 & Hg1 & _ & Hi1 & Hsize1 & Hpos1).
    assert (Hsame : forall key, dict_mem key (game_object_database g) = true ->
                                position_of key g1' = position_of key g).
    { intros key Hk. specialize (Hpos1 key Hk).
      destruct (in_accepted key (check_sum_of pvs)); [apply Hpos1 |].
      destruct Hpos1 as [_ ->].
      destruct (any_rejected (check_sum_of pvs));
        rewrite ?andb_true_r, ?andb_false_r; [now apply Hhome | reflexivity]. }
    assert (Hsnap : forall key, dict_mem key (game_object_database g) = true ->
              (if is_tile key then snapshot_of key g1' else position_of key g1')
              = position_of key g1').
    { intros key Hk. destruct (is_tile key) eqn:Et; [| reflexivity].
      specialize (Hpos1 key Hk). rewrite (Hsame key Hk).
      destruct (in_accepted key (check_sum_of pvs)).
      - now destruct Hpos1 as [_ ->].
      - destruct Hpos1 as [-> _]. symmetry. now apply committed_b_spec. }
    assert (Hscan1 : get_tile_by_position (BIG_BOX cfg) g1' = Ok pvs).
    { rewrite <- Hscan. now apply get_tile_by_position_ext. }
    pose proof (get_tile_by_position_scanned _ _ _ Hscan1 Hwf1) as Hsc1.
    destruct (status_loop_ok cfg (check_sum_of pvs) g g1' g1' status
                (fun k => position_of k g) (fun k => position_of k g1'))
      as [g2 Es2]; auto.
    { now split. }
    { now apply scanned_on_target. }
    { now apply scanned_on_target. }
    exists g2. split; [| split; [exact Hsame |]].
    + unfold check_logic_validation. rewrite Hscan1. cbn [rbind]. unfold validate.
      destruct pvs as [|cl0 rest0]; [congruence |].
      rewrite (gather_loop_in_range _ _ _ _ Hsizes). cbn [rbind fst snd].
      fold (check_sum_of (cl0 :: rest0)). rewrite Es2. reflexivity.
    + destruct (status_loop_spec cfg (fun k => position_of k g1') _ _ _ _ Es2 Hwf1
                  (scanned_on_target _ _ Hsc1)) as (_ & _ & _ & _ & _ & _ & Hpos2).
      intros key Hk.
      assert (Hk1 : dict_mem key (game_object_database g1') = true) by now rewrite Hg1.
      specialize (Hpos2 key Hk1). specialize (Hpos1 key Hk).
      pose proof (Hsnap key Hk) as Hs1. pose proof (Hsame key Hk) as Hp1.
      destruct (in_accepted key (check_sum_of pvs)).
      * destruct Hpos1 as [Hq1 Hq2]. destruct Hpos2 as [Hp2 Hs2].
        split; [exact Hp2 |]. now rewrite Hs2, Hq2, Hp1.
      * destruct Hpos2 as [Hs2 Hp2]. split; [| exact Hs2].
        rewrite Hp2.
        destruct (is_tile key); cbn [andb]; [| reflexivity].
        now destruct (any_rejected (check_sum_of pvs)).
  - (* a size out of range: both passes roll back *)
    destruct (gather_loop pvs pvs [] g) as [[check_sum g1']|] eqn:Eg; [| discriminate].
    cbn [rbind fst snd] in H.
    destruct (gather_loop_rollback _ _ _ _ _ _ Hsizes Eg Hwf)
      as (-> & Hwf1 & Heq1 & Hsize1 & Hpos1).
    cbn in H. injection H as <- <-.
    assert (Hlen : negb (Nat.eqb (List.length pvs) 0) = true)
      by (destruct pvs; [congruence | reflexivity]).
    assert (Hg1 : game_object_database g1' = game_object_database g)
      by now rewrite Heq1.
    assert (Hsnap1 : forall key, snapshot_of key g1' = snapshot_of key g)
      by (intros key; now rewrite Heq1).
    assert (Hsame : forall key, dict_mem key (game_object_database g) = true ->
                                position_of key g1' = position_of key g).
    { intros key Hk. rewrite (Hpos1 key Hk), Hlen, andb_true_r. now apply Hhome. }
    assert (Hscan1 : get_tile_by_position (BIG_BOX cfg) g1' = Ok pvs).
    { rewrite <- Hscan. now apply get_tile_by_position_ext. }
    destruct (gather_loop_rollback_ok pvs pvs [] [] g g1' g1' Hsizes) as [g2 Eg2]; auto.
    { split; [exact Hg1 | now rewrite Heq1]. }
    destruct (gather_loop_rollback _ _ _ _ _ _ Hsizes Eg2 Hwf1)
      as (_ & Hwf2 & Heq2 & _ & Hpos2).
    exists g2. split; [| split; [exact Hsame |]].
    + unfold check_logic_validation. rewrite Hscan1. cbn [rbind]. unfold validate.
      destruct pvs as [|cl0 rest0]; [congruence |].
      rewrite Eg2. now cbn.
    + intros key Hk.
      assert (Hk1 : dict_mem key (game_object_database g1') = true) by now rewrite Hg1.
      split; [| now rewrite Heq2].
      rewrite (Hpos2 key Hk1), Hlen, andb_true_r.
      rewrite Hsnap1, (Hsame key Hk). now apply Hhome.
Qed.

(** Two passes on a board with a committed Group of fives, both with
    success; two passes on the empty board of [g_spaced], both
    without. *)
Lemma validation_idempotent_witness :
  (exists g1 g2,
     check_logic_validation example_config g_committed = Ok (true, g1) /\
     check_logic_validation example_config g1 = Ok (true, g2) /\
     position_of (tile 4 5) g2 = position_of (tile 4 5) g1) /\
  (exists g1 g2,
     check_logic_validation example_config g_spaced = Ok (false, g1) /\
     check_logic_validation example_config g1 = Ok (false, g2)).
Proof.
  split.
  - destruct (check_logic_validation example_config g_committed) as [[[|] g1]|e] eqn:E;
      [| vm_compute in E; discriminate | vm_compute in E; discriminate].
    destruct (validation_idempotent example_config g_committed g1 true
                ltac:(vm_compute; reflexivity) ltac:(vm_compute; reflexivity) E)
      as (g2 & H2 & _ & Hpos).
    exists g1, g2. split; [reflexivity |]. split; [exact H2 |].
    exact (proj1 (Hpos (tile 4 5) ltac:(vm_compute; reflexivity))).
  - destruct (check_logic_validation example_config g_spaced) as [[[|] g1]|e] eqn:E;
      [vm_compute in E; discriminate | | vm_compute in E; discriminate].
    destruct (validation_idempotent example_config g_spaced g1 false
                ltac:(vm_compute; reflexivity) ltac:(vm_compute; reflexivity) E)
      as (g2 & H2 & _).
    exists g1, g2. split; [reflexivity | exact H2].
Defined.

(** C4, as stated, fails: on the board of [g_spaced], where every tile is
    at its committed position and the play area is empty, the pass does
    not return success. *)
Lemma committed_board_without_success :
  ~ succeeds_twice example_config g_spaced.
Proof.
  intros H. destruct (H ltac:(vm_compute; reflexivity) ltac:(vm_compute; reflexivity))
    as (g1 & g2 & H1 & _).
  vm_compute in H1. discriminate.
Qed.

(** * Where the code departs from its own documentation *)

(** C3: the scan puts the tiles that are alone in their row into ONE
    cluster (the list [remaining_items] is appended whole), so RED 2,
    RED 4 and RED 6, each alone in a row of its own, are one cluster of
    three, pass the test and are committed where they lie: the pass
    reports success and the three tiles leave the rack. *)
Theorem lone_tiles_are_one_cluster :
  get_tile_by_position (BIG_BOX example_config) g_scattered =
    Ok [[(tile 4 2, (100, 50)); (tile 4 4, (308, 123)); (tile 4 6, (204, 196))]] /\
  exists g',
    check_logic_validation example_config g_scattered = Ok (true, g') /\
    map (fun key => snapshot_of key g') [tile 4 2; tile 4 4; tile 4 6] =
      [Some (100, 50); Some (308, 123); Some (204, 196)] /\
    map (fun key => position_of key g') [tile 4 2; tile 4 4; tile 4 6] =
      [Some (100, 50); Some (308, 123); Some (204, 196)] /\
    dict_keys (PLAYER_1 g') = [tile 1 9].
Proof.
  split; [vm_compute; reflexivity |].
  eexists. split; [vm_compute; reflexivity |].
  repeat split; vm_compute; reflexivity.
Qed.

(** C8: with the six tiles of the rack on the board, a Group of fives in
    the first row and RED 1, RED 2, BLUE 4 in the second, [check_logic]
    commits the Group, and [update_score], called in the loop of the
    commit, takes all six keys out of [PLAYER_1]. The rollback of the
    second cluster puts its three tiles back in the rack area and not back
    in [PLAYER_1], and [update_blit] shows PLAYER 1 WINS. *)
Theorem win_with_tiles_in_rack :
  exists g',
    check_logic example_config g_all_out [] = Ok (g', []) /\
    update_blit g' = Some "PLAYER 1 WINS" /\
    PLAYER_1 g' = [] /\
    map (fun key => position_of key g') [tile 4 1; tile 4 2; tile 2 4] =
      [Some (464, 574); Some (526, 574); Some (588, 574)] /\
    forallb (fun key =>
               match dict_get key (game_object_database g') with
               | Some a => negb (outside_rack example_config (734, 73)
                                   (mkRect 273 574 734 73) (heap g') (key, a))
               | None => false
               end) [tile 4 1; tile 4 2; tile 2 4] = true.
Proof.
  eexists. split; [vm_compute; reflexivity |].
  repeat split; vm_compute; reflexivity.
Qed.

(** ** The tiles in play *)

Section Keys.

Variable cfg : config.








End Keys.

(** ** Keys of dictionaries under assignment and deletion *)

Section KeySets.

Context {V : Type}.

Lemma dict_keys_set_iff (k k' : string) (v : V) (d : dict V) :
  In k' (dict_keys (dict_set k v d)) <-> k' = k \/ In k' (dict_keys d).
Proof.
  unfold dict_keys. induction d as [|[k0 v0] d IH]; cbn.
  - split; [intros [<- | []]; now left | intros [-> | []]; now left].
  - destruct (String.eqb_spec k k0) as [-> | Hne]; cbn.
    + intuition (subst; auto).
    + rewrite IH. intuition (subst; auto).
Qed.

Lemma dict_keys_set_NoDup (k : string) (v : V) (d : dict V) :
  List.NoDup (dict_keys d) -> List.NoDup (dict_keys (dict_set k v d)).
Proof.
  unfold dict_keys. induction d as [|[k0 v0] d IH]; cbn; intros H.
  - repeat constructor. intros [].
  - inversion H as [|? ? Hnotin Hnd]; subst.
    destruct (String.eqb_spec k k0) as [-> | Hne]; cbn.
    + now constructor.
    + constructor; [| now apply IH].
      intros Hin. apply (dict_keys_set_iff k k0 v d) in Hin as [-> | Hin]; auto.
Qed.

Lemma dict_keys_del_iff (k k' : string) (d : dict V) :
  List.NoDup (dict_keys d) ->
  (In k' (dict_keys (dict_del k d)) <-> In k' (dict_keys d) /\ k' <> k).
Proof.
  unfold dict_keys. induction d as [|[k0 v0] d IH]; cbn; intros H.
  - tauto.
  - inversion H as [|? ? Hnotin Hnd]; subst.
    destruct (String.eqb_spec k k0) as [-> | Hne]; cbn.
    + split.
      * intros Hin. split; [now right |]. intros ->. contradiction.
      * intros [[<- | Hin] Hk]; [congruence | exact Hin].
    + rewrite (IH Hnd). split.
      * intros [<- | [Hin Hk]]; [split; [now left | congruence] | split; [now right | exact Hk]].
      * intros [[<- | Hin] Hk]; [now left | right; now split].
Qed.

Lemma dict_keys_del_NoDup (k : string) (d : dict V) :
  List.NoDup (dict_keys d) -> List.NoDup (dict_keys (dict_del k d)).
Proof.
  unfold dict_keys. induction d as [|[k0 v0] d IH]; cbn; intros H; [constructor |].
  inversion H as [|? ? Hnotin Hnd]; subst.
  destruct (String.eqb k k0) eqn:E; cbn; [exact Hnd |].
  constructor; [| now apply IH].
  intros Hin. apply (dict_keys_del_iff k k0 d Hnd) in Hin as [Hin _]. contradiction.
Qed.

End KeySets.

Lemma delete_keys_spec (keys : list string) (d : dict addr) :
  List.NoDup (dict_keys d) ->
  List.NoDup (dict_keys (delete_keys keys d)) /\
  (forall k, In k (dict_keys (delete_keys keys d)) <-> In k (dict_keys d) /\ ~ In k keys).
Proof.
  unfold delete_keys. revert d.
  induction keys as [|key keys IH]; intros d Hnd; cbn [fold_left].
  - split; [exact Hnd |]. intros k. cbn. tauto.
  - destruct (dict_mem key d) eqn:Em.
    + destruct (IH (dict_del key d) (dict_keys_del_NoDup key d Hnd)) as [Hn Hiff].
      split; [exact Hn |]. intros k. rewrite Hiff, (dict_keys_del_iff key k d Hnd).
      cbn. split.
      * intros [[Hin Hne] Hk]. split; [exact Hin |]. intros [E | E]; [congruence | auto].
      * intros [Hin Hk]. split; [split; [exact Hin |] |]; intros E; apply Hk; auto.
    + destruct (IH d Hnd) as [Hn Hiff].
      split; [exact Hn |]. intros k. rewrite Hiff. cbn. split.
      * intros [Hin Hk]. split; [exact Hin |]. intros [E | E]; [| auto].
        subst k. apply dict_mem_keys in Hin. congruence.
      * intros [Hin Hk]. split; [exact Hin |]. intros E. apply Hk. now right.
Qed.



Lemma NoDup_app_inv {A : Type} (l1 l2 : list A) :
  List.NoDup (l1 ++ l2) ->
  List.NoDup l1 /\ List.NoDup l2 /\ (forall a, In a l1 -> ~ In a l2).
Proof.
  intros H. split; [now apply NoDup_app_remove_r in H |].
  split; [now apply NoDup_app_remove_l in H |].
  induction l1 as [|x l1 IH]; cbn in *; [tauto |].
  inversion H as [|? ? Hnotin Hnd]; subst.
  intros a [<- | Ha] Hin.
  - apply Hnotin. apply in_or_app. now right.
  - now apply (IH Hnd a).
Qed.



Lemma load_image_at_keys (cfg : config) (path : string) (coordinates : Z * Z)
    (g g1 : game) (r : addr) :
  load_image_at cfg path coordinates g = (r, g1) ->
  game_object_database g1 = game_object_database g /\
  PLAYER_1 g1 = PLAYER_1 g /\ PLAYER_2 g1 = PLAYER_2 g /\ IMG_PATHS g1 = IMG_PATHS g.
Proof.
  unfold load_image_at. destruct (image_size cfg path) as [w h].
  destruct (alloc _ (heap g)) as [image_rect h1].
  destruct (alloc _ h1) as [returned h2].
  intros [= <- <-]. now cbn.
Qed.

(** * Properties of the helpers *)

(** ** Decimal strings *)

Section Decimal.

Lemma string_of_uint_digits (d : Decimal.uint) :
  all_digits (NilZero.string_of_uint d) = true.
Proof.
  assert (H : forall d, all_digits (NilEmpty.string_of_uint d) = true)
    by (induction d0; cbn; auto).
  unfold NilZero.string_of_uint. destruct d; try apply H. reflexivity.
Qed.

Lemma str_of_nat_digits (n : nat) : all_digits (str_of_nat n) = true.
Proof. apply string_of_uint_digits. Qed.

Lemma str_of_nat_nonempty (n : nat) : str_of_nat n <> "".
Proof.
  unfold str_of_nat, NilZero.string_of_uint.
  pose proof (to_uint_nonnil n) as H.
  destruct (Nat.to_uint n); cbn; congruence.
Qed.

Lemma digits_value_of_uint (d : Decimal.uint) (acc : nat) :
  digits_value (Z.of_nat acc) (NilEmpty.string_of_uint d) =
  Z.of_nat (Nat.of_uint_acc d acc).
Proof.
  revert acc. induction d; intros acc; cbn [NilEmpty.string_of_uint
    digits_value Nat.of_uint_acc]; [reflexivity | ..];
    rewrite <- IHd, ?Nat.tail_mul_spec; f_equal;
    match goal with
    | |- context [nat_of_ascii ?c] =>
        let v := eval vm_compute in (nat_of_ascii c) in change (nat_of_ascii c) with v
    end; lia.
Qed.

Lemma digits_value_str_of_nat (n : nat) : digits_value 0 (str_of_nat n) = Z.of_nat n.
Proof.
  unfold str_of_nat, NilZero.string_of_uint.
  pose proof (to_uint_nonnil n) as Hn.
  rewrite <- (DecimalNat.Unsigned.of_to n) at 2. unfold Nat.of_uint.
  destruct (Nat.to_uint n) eqn:E; try congruence;
    apply (digits_value_of_uint _ 0).
Qed.

End Decimal.

(** ** The two regular expressions *)

Section Regex.

Lemma append_nil (s : string) : ("" ++ s)%string = s.
Proof. reflexivity. Qed.

Lemma append_cons (c : ascii) (a b : string) :
  (String c a ++ b)%string = String c (a ++ b).
Proof. reflexivity. Qed.

Lemma digit_not (c d : ascii) :
  is_digit_ascii c = true -> is_digit_ascii d = false -> c <> d.
Proof. intros Hc Hd ->. congruence. Qed.

Lemma prefix_png_head (c : ascii) (rest : string) :
  c <> "p"%char -> String.prefix "png" (String c rest) = false.
Proof.
  intros Hc.
  change (String.prefix "png" (String c rest))
    with (if ascii_dec "p" c then String.prefix "ng" rest else false).
  destruct (ascii_dec "p" c) as [E | E]; [congruence | reflexivity].
Qed.

Lemma dot_png_blocked (d0 d1 : string) :
  all_digits d0 = true -> all_digits d1 = true -> d1 <> "" ->
  dot_png (d0 ++ "_" ++ d1 ++ ".png") = false.
Proof.
  intros H0 H1 Hne.
  assert (Hd1 : forall s, String.prefix "png" (d1 ++ s) = false).
  { intros s. destruct d1 as [|c1 d1']; [congruence |]. cbn in H1.
    apply andb_prop in H1 as [H1 _]. apply prefix_png_head.
    now apply (digit_not _ _ H1). }
  destruct d0 as [|c0 d0']; rewrite ?append_cons, ?append_nil; cbn [dot_png].
  - rewrite Hd1. apply andb_false_r.
  - cbn in H0. apply andb_prop in H0 as [_ H0].
    destruct d0' as [|c1 d0'']; rewrite ?append_cons, ?append_nil.
    + rewrite prefix_png_head by discriminate. apply andb_false_r.
    + cbn in H0. apply andb_prop in H0 as [H0 _].
      rewrite prefix_png_head by now apply (digit_not _ _ H0).
      apply andb_false_r.
Qed.

(** After the digits of a first number and a second [_], the expression
    does not match. *)
Lemma match_number_blocked (d0 d1 : string) :
  all_digits d0 = true -> all_digits d1 = true -> d1 <> "" ->
  match_number (d0 ++ "_" ++ d1 ++ ".png") = None.
Proof.
  intros H0 H1 Hne. induction d0 as [|c d0 IH]; [reflexivity |].
  cbn in H0. apply andb_prop in H0 as [Hc H0].
  rewrite (append_cons c d0). cbn [match_number]. rewrite Hc, (IH H0), dot_png_blocked; auto.
Qed.

(** On the digits of a number and [.png] the group is the number. *)
Lemma match_number_digits (d : string) :
  all_digits d = true -> d <> "" -> match_number (d ++ ".png") = Some d.
Proof.
  induction d as [|c d IH]; [congruence |]. intros H _.
  cbn in H. apply andb_prop in H as [Hc H].
  rewrite (append_cons c d). cbn [match_number]. rewrite Hc.
  destruct d as [|c' d']; [reflexivity |].
  now rewrite IH.
Qed.

Lemma search_number_skip (p s : string) :
  Forall (fun ch => ch <> "_"%char) (chars p) ->
  search_number (p ++ s) = search_number s.
Proof.
  induction p as [|c p IH]; intros H; [reflexivity |].
  cbn in H. inversion H as [|? ? Hc Hp]; subst.
  rewrite (append_cons c p). cbn [search_number].
  destruct (Ascii.eqb_spec c "_"); [congruence | now apply IH].
Qed.

Lemma digits_chars (d : string) (ch : ascii) :
  all_digits d = true -> is_digit_ascii ch = false ->
  Forall (fun c => c <> ch) (chars d).
Proof.
  intros H Hch. induction d as [|c d IH]; cbn; constructor.
  - cbn in H. apply andb_prop in H as [Hc _]. now apply (digit_not _ _ Hc).
  - cbn in H. apply andb_prop in H as [_ H]. now apply IH.
Qed.

Lemma color_names_chars (c : string) (ch : ascii) :
  In c color_names -> (nat_of_ascii ch <? 65)%nat || (90 <? nat_of_ascii ch)%nat = true ->
  Forall (fun x => x <> ch) (chars c).
Proof.
  intros Hc Hch.
  assert (H : forall x, In x (chars c) -> (65 <=? nat_of_ascii x)%nat &&
                                          (nat_of_ascii x <=? 90)%nat = true).
  { cbn in Hc. intros x Hx.
    repeat (destruct Hc as [<- | Hc];
            [cbn in Hx; repeat (destruct Hx as [<- | Hx]; [reflexivity |]); destruct Hx |]).
    destruct Hc. }
  apply List.Forall_forall. intros x Hx -> .
  specialize (H ch Hx). apply andb_prop in H as [H1 H2].
  apply Nat.leb_le in H1, H2.
  apply orb_prop in Hch as [Hch | Hch]; apply Nat.ltb_lt in Hch; lia.
Qed.

(** The number [extract_last_number_from_filename] reads in the key of a
    tile. *)
Lemma search_number_tile (c : string) (r0 r1 : Z) :
  In c color_names ->
  search_number (tile_image_path c r0 r1) = Some (str_of_nat (Z.to_nat r1)).
Proof.
  intros Hc. unfold tile_image_path.
  pose proof (str_of_nat_digits (Z.to_nat r0)) as D0.
  pose proof (str_of_nat_digits (Z.to_nat r1)) as D1.
  pose proof (str_of_nat_nonempty (Z.to_nat r1)) as N1.
  rewrite (search_number_skip "images/tiles/1-15 ")
    by (cbn; repeat constructor; discriminate).
  rewrite (search_number_skip c) by (apply color_names_chars; [exact Hc | reflexivity]).
  rewrite (search_number_skip "/") by (cbn; repeat constructor; discriminate).
  rewrite (search_number_skip c) by (apply color_names_chars; [exact Hc | reflexivity]).
  rewrite (append_cons "_" ""), append_nil.
  cbn [search_number]. change (Ascii.eqb "_" "_") with true. cbv iota.
  rewrite (match_number_blocked _ _ D0 D1 N1).
  rewrite (search_number_skip (str_of_nat (Z.to_nat r0)))
    by (apply digits_chars; [assumption | reflexivity]).
  rewrite ?append_cons, ?append_nil; cbn [search_number]. change (Ascii.eqb "_" "_") with true. cbv iota.
  now rewrite match_number_digits.
Qed.

End Regex.

Section Colour.

Lemma chars_app (a b : string) : chars (a ++ b) = chars a ++ chars b.
Proof.
  unfold chars. induction a as [|c a IH]; [reflexivity |].
  rewrite (append_cons c a). cbn. now rewrite IH.
Qed.

Lemma strip_prefix_app (p s r : string) :
  strip_prefix p s = Some r -> s = (p ++ r)%string.
Proof.
  revert s. induction p as [|a p IH]; intros s; cbn.
  - now intros [= ->].
  - destruct s as [|b s]; [discriminate |].
    destruct (Ascii.eqb_spec a b) as [-> | Hne]; [| discriminate].
    intros H. rewrite (append_cons b p). f_equal. now apply IH.
Qed.

Lemma color_match_at_backslash (s : string) :
  Forall (fun ch => ch <> "\"%char) (chars s) -> color_match_at s = None.
Proof.
  intros H. unfold color_match_at.
  destruct (strip_prefix "images\tiles\1-15 " s) as [rest|] eqn:E; [| reflexivity].
  apply strip_prefix_app in E. subst s. rewrite chars_app in H.
  apply Forall_app in H as [H _]. exfalso.
  rewrite List.Forall_forall in H. apply (H "\"%char); [| reflexivity].
  cbn. tauto.
Qed.

Lemma search_color_backslash (s : string) :
  Forall (fun ch => ch <> "\"%char) (chars s) -> search_color s = None.
Proof.
  induction s as [|c s IH]; intros H.
  - cbn [search_color]. now rewrite color_match_at_backslash.
  - cbn [search_color]. rewrite color_match_at_backslash by assumption.
    apply IH. cbn in H. now inversion H.
Qed.

Lemma tile_image_path_chars (c : string) (r0 r1 : Z) (ch : ascii) :
  In c color_names ->
  is_digit_ascii ch = false ->
  (nat_of_ascii ch <? 65)%nat || (90 <? nat_of_ascii ch)%nat = true ->
  ~ In ch (chars "images/tiles/1-15 /_.png") ->
  Forall (fun x => x <> ch) (chars (tile_image_path c r0 r1)).
Proof.
  intros Hc Hd Hu Hs. unfold tile_image_path.
  assert (Hlit : forall lit, (forall x, In x (chars lit) ->
                                        In x (chars "images/tiles/1-15 /_.png")) ->
                             Forall (fun x => x <> ch) (chars lit)).
  { intros lit Hl. apply List.Forall_forall. intros x Hx ->. apply Hs, Hl, Hx. }
  rewrite !chars_app. repeat apply Forall_app_2.
  - apply Hlit. cbn. tauto.
  - now apply color_names_chars.
  - apply Hlit. cbn. tauto.
  - now apply color_names_chars.
  - apply Hlit. cbn. tauto.
  - apply digits_chars; [apply str_of_nat_digits | exact Hd].
  - apply Hlit. cbn. tauto.
  - apply digits_chars; [apply str_of_nat_digits | exact Hd].
  - apply Hlit. cbn. tauto.
Qed.

Lemma extract_color_tile (c : string) (r0 r1 : Z) :
  In c color_names -> extract_color_from_filename (tile_image_path c r0 r1) = "".
Proof.
  intros Hc. unfold extract_color_from_filename.
  rewrite search_color_backslash; [reflexivity |].
  apply tile_image_path_chars; auto.
  cbn. intros H. repeat (destruct H as [H | H]; [discriminate |]). destruct H.
Qed.

Lemma extract_last_number_tile (c : string) (r0 r1 : Z) :
  In c color_names -> 0 <= r1 ->
  extract_last_number_from_filename (tile_image_path c r0 r1) = r1.
Proof.
  intros Hc H1. unfold extract_last_number_from_filename.
  rewrite search_number_tile by assumption.
  rewrite digits_value_str_of_nat. lia.
Qed.

End Colour.

(** X1: the number that the sort key of the runs and the test of the groups
    read in a key built by a draw is the number of the tile. *)
Theorem extract_last_number_of_drawn_key (c : string) (r0 r1 : Z) :
  In c color_names -> 0 <= r1 ->
  search_number (tile_image_path c r0 r1) = Some (str_of_nat (Z.to_nat r1)) /\
  extract_last_number_from_filename (tile_image_path c r0 r1) = r1.
Proof.
  intros Hc H1. split; [now apply search_number_tile | now apply extract_last_number_tile].
Qed.

Lemma extract_last_number_of_drawn_key_witness :
  extract_last_number_from_filename (tile_image_path "RED" 4 15) = 15.
Proof.
  apply (extract_last_number_of_drawn_key "RED" 4 15); [cbn; tauto | lia].
Defined.

(** X2: [extract_color_from_filename] finds no colour in a file name
    without a backslash: its pattern spells the directory with
    backslashes. *)
Theorem extract_color_without_backslash (filename : string) :
  Forall (fun ch => ch <> "\"%char) (chars filename) ->
  extract_color_from_filename filename = "".
Proof.
  intros H. unfold extract_color_from_filename. now rewrite search_color_backslash.
Qed.

Lemma extract_color_without_backslash_witness :
  extract_color_from_filename (tile 4 5) = "".
Proof.
  apply (extract_color_without_backslash (tile 4 5)).
  vm_compute. repeat constructor; discriminate.
Defined.

(** ** [identify_rummikub_runs] *)

Section Runs.

Lemma list_mem_string (x : string) (l : list string) :
  list_mem String.eqb x l = true <-> In x l.
Proof.
  unfold list_mem. rewrite existsb_exists. split.
  - intros (y & Hy & E). apply String.eqb_eq in E. now subst.
  - intros H. exists x. split; [exact H | apply String.eqb_refl].
Qed.

Lemma Sorted_snoc {A : Type} (R : A -> A -> Prop) (l : list A) (x d : A) :
  Sorted R l -> (l = [] \/ R (List.last l d) x) -> Sorted R (l ++ [x]).
Proof.
  induction l as [|a l IH]; intros Hs Hl; cbn.
  - repeat constructor.
  - inversion Hs as [|? ? Hs' Hhd]; subst.
    destruct Hl as [Hl | Hl]; [discriminate |].
    destruct l as [|b l].
    + cbn in *. repeat constructor. exact Hl.
    + constructor.
      * apply IH; [exact Hs' | right; exact Hl].
      * cbn. constructor. now inversion Hhd.
Qed.

Lemma last_snoc {A : Type} (l : list A) (x d : A) : List.last (l ++ [x]) d = x.
Proof.
  induction l as [|a l IH]; [reflexivity |].
  cbn [app]. destruct (l ++ [x]) eqn:E; [now destruct l | exact IH].
Qed.

Lemma last_In {A : Type} (l : list A) (d : A) : l <> [] -> In (List.last l d) l.
Proof.
  induction l as [|a l IH]; [congruence |]. intros _.
  destruct l as [|b l]; [now left |]. right. apply IH. discriminate.
Qed.

Variable P : string -> Prop.

(** What holds of a run that [runs] receives. *)
Variable good : list string -> Prop.

Hypothesis good_intro : forall run,
  (2 <= List.length run)%nat -> Sorted two_apart run -> (forall k, In k run -> P k) ->
  good run.

Lemma run_loop_spec (tiles current_run : list string) (runs : list (list string)) :
  (forall k, In k tiles -> P k) ->
  Sorted two_apart current_run ->
  (forall k, In k current_run -> P k) ->
  (current_run <> [] -> List.last current_run "" = hd "" tiles) ->
  (forall run, In run runs -> good run) ->
  let '(current', runs') := run_loop tiles current_run runs in
  Sorted two_apart current' /\ (forall k, In k current' -> P k) /\
  (forall run, In run runs' -> good run).
Proof.
  revert current_run runs.
  induction tiles as [|t tiles IH]; intros current runs Ht Hs Hc Hl Hr; [now cbn |].
  destruct tiles as [|t' rest]; [now cbn |].
  cbn [run_loop].
  destruct (Z.eqb_spec (extract_last_number_from_filename t' -
                        extract_last_number_from_filename t) 2) as [E | E].
  - apply IH.
    + intros k Hk. apply Ht. now right.
    + destruct current as [|c0 current0] eqn:Ec.
      * cbn. repeat constructor. unfold two_apart. lia.
      * rewrite <- Ec in *.
        assert (Hne : current <> []) by (rewrite Ec; discriminate).
        specialize (Hl Hne). cbn [hd] in Hl.
        assert (Hin : list_mem String.eqb t current = true).
        { apply list_mem_string. rewrite <- Hl. now apply last_In. }
        rewrite Hin. apply (Sorted_snoc _ _ _ ""); [exact Hs |].
        right. rewrite Hl. unfold two_apart. lia.
    + intros k Hk. apply in_app_or in Hk as [Hk | [<- | []]].
      * destruct (list_mem String.eqb t current); [now apply Hc |].
        apply in_app_or in Hk as [Hk | [<- | []]]; [now apply Hc |].
        apply Ht. now left.
      * apply Ht. right. now left.
    + intros _. now rewrite last_snoc.
    + exact Hr.
  - apply IH.
    + intros k Hk. apply Ht. now right.
    + constructor.
    + intros k [].
    + congruence.
    + intros run Hrun. destruct (Nat.leb_spec 2 (List.length current)).
      * apply in_app_or in Hrun as [Hrun | [<- | []]]; [now apply Hr |].
        now apply good_intro.
      * now apply Hr.
Qed.

Lemma runs_of_color_spec (runs : list (list string)) (tiles : list string) :
  (forall k, In k tiles -> P k) ->
  (forall run, In run runs -> good run) ->
  forall run, In run (runs_of_color runs tiles) -> good run.
Proof.
  intros Ht Hr. unfold runs_of_color.
  pose proof (run_loop_spec (py_sorted last_number_leb tiles) [] runs) as H.
  destruct (run_loop (py_sorted last_number_leb tiles) [] runs) as [current runs1].
  destruct H as (Hs & Hc & Hr1).
  - intros k Hk. apply Ht. now apply py_sorted_In in Hk.
  - constructor.
  - intros k [].
  - congruence.
  - exact Hr.
  - intros run Hrun. destruct (Nat.leb_spec 2 (List.length current)).
    + apply in_app_or in Hrun as [Hrun | [<- | []]]; [now apply Hr1 |].
      now apply good_intro.
    + now apply Hr1.
Qed.

End Runs.

Lemma color_group_add_In (keys : list string) (key : string)
    (color_groups : dict (list string)) :
  In key keys ->
  (forall c l, In (c, l) color_groups -> forall k, In k l -> In k keys /\ run_color k = c) ->
  forall c l, In (c, l) (color_group_add (run_color key) key color_groups) ->
  forall k, In k l -> In k keys /\ run_color k = c.
Proof.
  intros Hkey. induction color_groups as [|[c0 l0] rest IH]; intros Hg c l Hin k Hk.
  - cbn in Hin. destruct Hin as [[= <- <-] | []]. destruct Hk as [<- | []]. now split.
  - cbn in Hin. destruct (String.eqb_spec (run_color key) c0) as [E | E].
    + destruct Hin as [[= <- <-] | Hin].
      * apply in_app_or in Hk as [Hk | [<- | []]].
        -- apply (Hg c0 l0); [now left | exact Hk].
        -- now split.
      * apply (Hg c l); [now right | exact Hk].
    + destruct Hin as [[= <- <-] | Hin].
      * apply (Hg c0 l0); [now left | exact Hk].
      * apply (IH (fun c l H => Hg c l (or_intror H)) c l Hin k Hk).
Qed.

Lemma color_groups_of_In (keys : list string) (c : string) (l : list string) :
  In (c, l) (color_groups_of keys) ->
  forall k, In k l -> In k keys /\ run_color k = c.
Proof.
  unfold color_groups_of.
  assert (H : forall todo acc,
             (forall k, In k todo -> In k keys) ->
             (forall c l, In (c, l) acc -> forall k, In k l -> In k keys /\ run_color k = c) ->
             forall c l,
               In (c, l) (fold_left (fun d key => color_group_add (run_color key) key d)
                                    todo acc) ->
               forall k, In k l -> In k keys /\ run_color k = c).
  { induction todo as [|key todo IH]; intros acc Ht Ha; cbn [fold_left]; [exact Ha |].
    apply IH.
    - intros k Hk. apply Ht. now right.
    - apply color_group_add_In; [apply Ht; now left | exact Ha]. }
  apply H; [auto | intros ? ? []].
Qed.

(** X3: every run that [identify_rummikub_runs] returns has at least two
    keys, all tile keys of the player of one colour word, and the number of
    each key is the number of the key before it plus 2, not plus 1. *)
Theorem identify_rummikub_runs_step_two {V : Type} (player : dict V) (run : list string) :
  In run (identify_rummikub_runs player) ->
  (2 <= List.length run)%nat /\
  Sorted two_apart run /\
  (forall k, In k run ->
     In k (dict_keys player) /\ str_in "images/tiles/1-15" k = true) /\
  (forall k k', In k run -> In k' run -> run_color k = run_color k').
Proof.
  unfold identify_rummikub_runs.
  set (tile_keys := List.filter (str_in "images/tiles/1-15") (dict_keys player)).
  set (Q := fun r : list string =>
              exists c, (2 <= List.length r)%nat /\ Sorted two_apart r /\
                        (forall k, In k r -> In k tile_keys /\ run_color k = c)).
  assert (H : forall groups runs,
             (forall c l, In (c, l) groups ->
                forall k, In k l -> In k tile_keys /\ run_color k = c) ->
             (forall r, In r runs -> Q r) ->
             forall r, In r (fold_left runs_of_color (map snd groups) runs) -> Q r).
  { induction groups as [|[c l] groups IH]; intros runs Hg Hr; cbn [map fold_left snd];
      [exact Hr |].
    apply IH; [intros c' l' H'; apply Hg; now right |].
    apply (runs_of_color_spec (fun k => In k tile_keys /\ run_color k = c) Q).
    - intros r H2 Hs Hk. now exists c.
    - apply (Hg c l). now left.
    - exact Hr. }
  intros Hrun.
  destruct (H (color_groups_of tile_keys) [] (color_groups_of_In tile_keys)
              ltac:(intros ? []) run Hrun) as (c & H2 & Hs & Hk).
  split; [exact H2 |]. split; [exact Hs |]. split.
  - intros k Hin. destruct (Hk k Hin) as [Ht _].
    apply filter_In in Ht. exact Ht.
  - intros k k' Hin Hin'. destruct (Hk k Hin) as [_ ->]. now destruct (Hk k' Hin') as [_ ->].
Qed.

(** A rack with RED 1, 3, 5, 6, 8, BLUE 5, 7 and BLACK 9. *)
Lemma identify_rummikub_runs_step_two_witness :
  (2 <= List.length [tile 4 1; tile 4 3; tile 4 5])%nat /\
  Sorted two_apart [tile 4 1; tile 4 3; tile 4 5].
Proof.
  destruct (identify_rummikub_runs_step_two
              (example_rack [(4, 1); (4, 3); (4, 5); (4, 6); (4, 8); (2, 5); (2, 7); (1, 9)]%nat)
              [tile 4 1; tile 4 3; tile 4 5]
              ltac:(vm_compute; tauto)) as (H2 & Hs & _).
  split; [exact H2 | exact Hs].
Defined.

(** ** [identify_rummikub_groups] *)

Section Groups.

Variable player_1 : list string.

Lemma list_mem_string_not (x : string) (l : list string) :
  list_mem String.eqb x l = false <-> ~ In x l.
Proof.
  rewrite <- list_mem_string. destruct (list_mem String.eqb x l); split; congruence.
Qed.

(** The keys the inner loop adds to the group of [key]. *)
Lemma group_inner_spec (number : Z) (color : string) (others group seen : list string) :
  List.NoDup group -> (forall k, In k group -> In k seen) ->
  let '(group', seen') := group_inner number color others group seen in
  exists added,
    group' = group ++ added /\
    List.NoDup group' /\
    (forall k, In k seen' <-> In k seen \/ In k added) /\
    (forall k, In k added ->
       ~ In k seen /\ In k others /\ str_in "images/tiles/1-15" k = true /\
       extract_last_number_from_filename k = number /\
       extract_color_from_filename k = color).
Proof.
  revert group seen.
  induction others as [|other rest IH]; intros group seen Hnd Hsub; cbn [group_inner].
  - exists []. rewrite app_nil_r.
    split; [reflexivity |]. split; [exact Hnd |].
    split; [intros k; cbn; tauto | intros k []].
  - assert (Hskip : let '(group', seen') := group_inner number color rest group seen in
             exists added,
               group' = group ++ added /\ List.NoDup group' /\
               (forall k, In k seen' <-> In k seen \/ In k added) /\
               (forall k, In k added ->
                  ~ In k seen /\ In k (other :: rest) /\
                  str_in "images/tiles/1-15" k = true /\
                  extract_last_number_from_filename k = number /\
                  extract_color_from_filename k = color)).
    { specialize (IH group seen Hnd Hsub).
      destruct (group_inner number color rest group seen) as [group' seen'].
      destruct IH as (added & -> & Hnd' & Hseen & Hadd).
      exists added.
      split; [reflexivity |]. split; [exact Hnd' |]. split; [exact Hseen |].
      intros k Hk. destruct (Hadd k Hk) as (? & ? & ? & ? & ?).
      repeat split; auto. now right. }
    destruct (str_in "images/tiles/1-15" other) eqn:Et; cbn [andb]; [| exact Hskip].
    destruct (list_mem String.eqb other seen) eqn:Es; cbn [negb]; [exact Hskip |].
    apply list_mem_string_not in Es.
    destruct (Z.eqb_spec number (extract_last_number_from_filename other)) as [En | En];
      cbn [andb]; [| exact Hskip].
    destruct (String.eqb_spec color (extract_color_from_filename other)) as [Ec | Ec];
      [| exact Hskip].
    clear Hskip.
    specialize (IH (group ++ [other]) (other :: seen)).
    destruct (group_inner number color rest (group ++ [other]) (other :: seen))
      as [group' seen'].
    destruct IH as (added & -> & Hnd' & Hseen & Hadd).
    + apply List.NoDup_app; [exact Hnd | repeat constructor; intros [] |].
      intros k Hk [<- | []]. apply Es, Hsub, Hk.
    + intros k Hk. apply in_app_or in Hk as [Hk | [<- | []]]; [right; now apply Hsub | now left].
    + exists (other :: added). rewrite <- app_assoc in *. cbn [app] in *.
      split; [reflexivity |]. split; [exact Hnd' |]. split.
      * intros k. rewrite Hseen. cbn. tauto.
      * intros k [<- | Hk].
        -- repeat split; auto. now left.
        -- destruct (Hadd k Hk) as (Hn & ? & ? & ? & ?). cbn in Hn.
           repeat split; auto. now right.
Qed.

Variable values : list string.

Lemma group_outer_spec (keys : list string) (groups : list (list string))
    (seen : list string) :
  (forall k, In k keys -> In k values) ->
  List.NoDup (concat groups) ->
  (forall k, In k (concat groups) -> In k seen) ->
  Forall (group_of values player_1) groups ->
  List.NoDup (concat (group_outer keys player_1 groups seen)) /\
  Forall (group_of values player_1) (group_outer keys player_1 groups seen).
Proof.
  revert groups seen.
  induction keys as [|key rest IH]; intros groups seen Hk Hnd Hsub Hall; cbn [group_outer];
    [now split |].
  assert (Hrest : forall k, In k rest -> In k values) by (intros k H; apply Hk; now right).
  destruct (str_in "images/tiles/1-15" key) eqn:Et; cbn [andb]; [| now apply IH].
  destruct (list_mem String.eqb key seen) eqn:Es; cbn [negb]; [now apply IH |].
  apply list_mem_string_not in Es.
  pose proof (group_inner_spec (extract_last_number_from_filename key)
                (extract_color_from_filename key) player_1 [key] (key :: seen)) as Hin.
  destruct (group_inner (extract_last_number_from_filename key)
              (extract_color_from_filename key) player_1 [key] (key :: seen))
    as [group seen1].
  destruct Hin as (added & -> & Hndg & Hseen & Hadd).
  { repeat constructor. intros []. }
  { intros k [<- | []]. now left. }
  cbn [app] in *.
  destruct (Nat.leb_spec 2 (List.length (List.nodup string_dec (key :: added)))) as [H2 | H2].
  - apply IH; [exact Hrest | | |].
    + rewrite concat_app. cbn [concat]. rewrite app_nil_r.
      apply List.NoDup_app; [exact Hnd | exact Hndg |].
      intros k Hkg [<- | Hka]; [now apply Es, Hsub |].
      destruct (Hadd k Hka) as (Hn & _). apply Hn. right. now apply Hsub.
    + intros k Hkc. rewrite concat_app in Hkc. cbn [concat] in Hkc.
      rewrite app_nil_r in Hkc. apply Hseen.
      apply in_app_or in Hkc as [Hkc | [<- | Hkc]]; cbn.
      * left. right. now apply Hsub.
      * left. now left.
      * now right.
    + apply Forall_app_2; [exact Hall |]. constructor; [| constructor].
      exists key, added. split; [reflexivity |]. split.
      * intros ->. rewrite (List.nodup_fixed_point string_dec) in H2 by exact Hndg.
        cbn in H2. lia.
      * split; [apply Hk; now left |]. split.
        -- intros k Hka. now destruct (Hadd k Hka) as (_ & ? & _).
        -- intros k [<- | Hka]; [now repeat split |].
           destruct (Hadd k Hka) as (_ & _ & ? & ? & ?). now repeat split.
  - apply IH; [exact Hrest | exact Hnd | | exact Hall].
    intros k Hkc. apply Hseen. left. right. now apply Hsub.
Qed.

End Groups.

(** The groups, read off the two loops. *)
Lemma identify_rummikub_groups_spec {V W : Type} (values : dict V) (player_1 : dict W) :
  List.NoDup (concat (identify_rummikub_groups values player_1)) /\
  Forall (group_of (dict_keys values) (dict_keys player_1))
         (identify_rummikub_groups values player_1).
Proof.
  unfold identify_rummikub_groups. apply group_outer_spec.
  - auto.
  - constructor.
  - intros k [].
  - constructor.
Qed.

(** X4: no key is in two groups of [identify_rummikub_groups] or twice in
    one, and every group is a key of [values] followed by at least one key
    of [PLAYER_1], all of them tile keys with the number and the colour
    that the two [extract_] functions read in the first. *)
Theorem identify_rummikub_groups_disjoint {V W : Type} (values : dict V)
    (player_1 : dict W) :
  List.NoDup (concat (identify_rummikub_groups values player_1)) /\
  Forall (group_of (dict_keys values) (dict_keys player_1))
         (identify_rummikub_groups values player_1).
Proof.
  destruct (identify_rummikub_groups_spec values player_1) as [Hnodup Hgroups].
  split; [exact Hnodup | exact Hgroups].
Qed.

Section Grouping.

Variable player_1 : list string.

Lemma group_inner_complete (number : Z) (color : string) (others group seen : list string)
    (k : string) :
  In k others -> str_in "images/tiles/1-15" k = true ->
  extract_last_number_from_filename k = number ->
  extract_color_from_filename k = color ->
  In k (snd (group_inner number color others group seen)).
Proof.
  intros Hin Ht Hn Hc. revert group seen.
  induction others as [|other rest IH]; intros group seen; [destruct Hin |].
  assert (Hmono : forall group seen x, In x seen ->
                    In x (snd (group_inner number color rest group seen))).
  { clear. induction rest as [|o rest IH]; intros group seen x Hx; cbn [group_inner];
      [exact Hx |].
    destruct (str_in "images/tiles/1-15" o && negb (list_mem String.eqb o seen));
      [| now apply IH].
    destruct ((number =? extract_last_number_from_filename o) &&
              String.eqb color (extract_color_from_filename o)); apply IH; [now right | exact Hx]. }
  cbn [group_inner]. destruct Hin as [-> | Hin].
  - rewrite Ht. cbn [andb].
    destruct (list_mem String.eqb k seen) eqn:Es; cbn [negb].
    + apply Hmono. now apply list_mem_string.
    + rewrite Hn, Hc, Z.eqb_refl, String.eqb_refl. cbn [andb]. apply Hmono. now left.
  - destruct (str_in "images/tiles/1-15" other && negb (list_mem String.eqb other seen));
      [| now apply IH].
    destruct ((number =? extract_last_number_from_filename other) &&
              String.eqb color (extract_color_from_filename other)); now apply IH.
Qed.

(** Keys of the rack that the test of the inner loop does not tell apart
    end in one group. *)
Lemma group_outer_complete (keys : list string) (groups : list (list string))
    (seen : list string) :
  (forall k, In k keys -> In k player_1) ->
  (forall k, In k (concat groups) -> In k seen) ->
  (forall k k', In k seen -> In k' player_1 -> str_in "images/tiles/1-15" k' = true ->
                k' <> k -> same_reading k' k -> grouped groups k k') ->
  forall k k',
    In k seen \/ (In k keys /\ str_in "images/tiles/1-15" k = true) ->
    In k' player_1 -> str_in "images/tiles/1-15" k' = true ->
    k' <> k -> same_reading k' k ->
    grouped (group_outer keys player_1 groups seen) k k'.
Proof.
  revert groups seen.
  induction keys as [|key rest IH]; intros groups seen Hk Hsub HJ k k' Hin Hk' Ht' Hne Hsame;
    cbn [group_outer].
  { destruct Hin as [Hin | [[] _]]. now apply HJ. }
  assert (Hrest : forall k, In k rest -> In k player_1) by (intros x H; apply Hk; now right).
  destruct (str_in "images/tiles/1-15" key) eqn:Et; cbn [andb].
  2:{ apply IH; auto. destruct Hin as [Hin | [[<- | Hin] Htk]]; [now left | congruence |].
      right. now split. }
  destruct (list_mem String.eqb key seen) eqn:Es; cbn [negb].
  { apply list_mem_string in Es. apply IH; auto.
    destruct Hin as [Hin | [[<- | Hin] Htk]]; [now left | now left |]. right. now split. }
  apply list_mem_string_not in Es.
  pose proof (group_inner_spec (extract_last_number_from_filename key)
                (extract_color_from_filename key) player_1 [key] (key :: seen)) as Hspec.
  pose proof (fun x => group_inner_complete (extract_last_number_from_filename key)
                (extract_color_from_filename key) player_1 [key] (key :: seen) x) as Hcomp.
  destruct (group_inner (extract_last_number_from_filename key)
              (extract_color_from_filename key) player_1 [key] (key :: seen))
    as [group seen1].
  destruct Hspec as (added & -> & Hndg & Hseen & Hadd).
  { repeat constructor. intros []. }
  { intros x [<- | []]. now left. }
  cbn [app snd] in *.
  (* the keys of the new group read as its first key *)
  assert (Hg : forall x, In x (key :: added) -> same_reading x key /\ ~ In x seen /\
                                                In x player_1).
  { intros x [<- | Hx].
    - split; [now split |]. split; [exact Es | apply Hk; now left].
    - destruct (Hadd x Hx) as (Hn & Hp & _ & Hnum & Hcol).
      split; [now split |]. split; [| exact Hp]. intros H. apply Hn. now right. }
  set (groups' := if (2 <=? List.length (List.nodup string_dec (key :: added)))%nat
                  then groups ++ [key :: added] else groups).
  apply IH.
  - exact Hrest.
  - intros x Hx. apply Hseen. subst groups'.
    destruct (2 <=? List.length (List.nodup string_dec (key :: added)))%nat.
    + rewrite concat_app in Hx. cbn [concat] in Hx. rewrite app_nil_r in Hx.
      apply in_app_or in Hx as [Hx | [<- | Hx]]; cbn; [left; right; now apply Hsub | tauto | tauto].
    + left. right. now apply Hsub.
  - intros x x' Hx Hx' Htx' Hnex Hsx.
    assert (Hold : grouped groups x x' -> grouped groups' x x').
    { intros (G & HG & H1 & H2). exists G. split; [| now split]. subst groups'.
      destruct (2 <=? List.length (List.nodup string_dec (key :: added)))%nat;
        [apply in_or_app; now left | exact HG]. }
    apply Hseen in Hx. destruct Hx as [[<- | Hx] | Hx].
    + (* [x] is the first key of the new group *)
      assert (Hx1 : In x' (key :: added)).
      { specialize (Hcomp x' Hx' Htx' (proj1 Hsx) (proj2 Hsx)).
        apply Hseen in Hcomp. destruct Hcomp as [[<- | Hc] | Hc]; [now left | | now right].
        exfalso. destruct (HJ x' key Hc (Hk key (or_introl eq_refl)) Et) as (G & HG & H1 & H2).
        - congruence.
        - destruct Hsx as [A B]. now split.
        - apply Es, Hsub, in_concat. now exists G. }
      exists (key :: added). split; [| split; [now left | exact Hx1]].
      subst groups'.
      assert (H2 : (2 <= List.length (key :: added))%nat).
      { destruct Hx1 as [<- | Hx1]; [congruence |]. destruct added; [destruct Hx1 | cbn; lia]. }
      rewrite (List.nodup_fixed_point string_dec) by exact Hndg.
      apply Nat.leb_le in H2. rewrite H2. apply in_or_app. right. now left.
    + now apply Hold, HJ.
    + (* [x] was added to the new group *)
      destruct (Hg x (or_intror Hx)) as (Hsk & Hns & Hxp).
      assert (Hx1 : In x' (key :: added)).
      { assert (Hs' : same_reading x' key).
        { destruct Hsx as [A B], Hsk as [C D]. split; congruence. }
        specialize (Hcomp x' Hx' Htx' (proj1 Hs') (proj2 Hs')).
        apply Hseen in Hcomp. destruct Hcomp as [[<- | Hc] | Hc]; [now left | | now right].
        exfalso. destruct (Hadd x Hx) as (_ & _ & Htx & _).
        destruct (HJ x' x Hc Hxp Htx) as (G & HG & H1 & H2).
        - congruence.
        - destruct Hsx as [A B]. now split.
        - apply Hns, Hsub, in_concat. now exists G. }
      exists (key :: added). split; [| split; [now right | exact Hx1]].
      subst groups'.
      assert (H2 : (2 <= List.length (key :: added))%nat) by (destruct added; [destruct Hx | cbn; lia]).
      rewrite (List.nodup_fixed_point string_dec) by exact Hndg.
      apply Nat.leb_le in H2. rewrite H2. apply in_or_app. right. now left.
  - destruct Hin as [Hin | [[<- | Hin] Htk]].
    + left. apply Hseen. left. now right.
    + left. apply Hseen. left. now left.
    + right. now split.
  - exact Hk'.
  - exact Ht'.
  - exact Hne.
  - exact Hsame.
Qed.

End Grouping.

Lemma tile_image_path_marker (c : string) (r0 r1 : Z) :
  str_in "images/tiles/1-15" (tile_image_path c r0 r1) = true.
Proof. reflexivity. Qed.

(** X5: two different tile keys of the rack are in one group of
    [identify_rummikub_groups(PLAYER_1)] exactly when the two [extract_]
    functions read the same number and the same colour in them. *)
Theorem identify_rummikub_groups_same_reading {V : Type} (rack : dict V) (k k' : string) :
  In k (dict_keys rack) -> In k' (dict_keys rack) ->
  str_in "images/tiles/1-15" k = true -> str_in "images/tiles/1-15" k' = true ->
  k <> k' ->
  grouped (identify_rummikub_groups rack rack) k k' <-> same_reading k k'.
Proof.
  intros Hk Hk' Ht Ht' Hne. split.
  - intros (G & HG & H1 & H2).
    destruct (identify_rummikub_groups_spec rack rack) as [_ Hall].
    rewrite List.Forall_forall in Hall.
    destruct (Hall G HG) as (key & others & -> & _ & _ & _ & Hread).
    destruct (Hread k H1) as (_ & A & B), (Hread k' H2) as (_ & C & D).
    split; congruence.
  - intros [A B]. unfold identify_rummikub_groups.
    apply group_outer_complete.
    + auto.
    + intros x [].
    + intros x x' [].
    + right. now split.
    + exact Hk'.
    + exact Ht'.
    + congruence.
    + now split.
Qed.

(** RED 5 and BLUE 5 of a rack with RED 1, 3, 5, BLUE 5, 7. *)
Lemma identify_rummikub_groups_same_reading_witness :
  grouped (identify_rummikub_groups
             (example_rack [(4, 1); (4, 3); (4, 5); (2, 5); (2, 7)]%nat)
             (example_rack [(4, 1); (4, 3); (4, 5); (2, 5); (2, 7)]%nat))
          (tile 4 5) (tile 2 5) <->
  same_reading (tile 4 5) (tile 2 5).
Proof.
  apply (identify_rummikub_groups_same_reading
           (example_rack [(4, 1); (4, 3); (4, 5); (2, 5); (2, 7)]%nat) (tile 4 5) (tile 2 5)).
  - vm_compute. tauto.
  - vm_compute. tauto.
  - reflexivity.
  - reflexivity.
  - vm_compute. discriminate.
Defined.

(** X6: on the keys that the draws build, the colour plays no part in
    [identify_rummikub_groups]: two different tiles of the rack are in one
    group exactly when they have the same number. *)
Theorem identify_rummikub_groups_by_number {V : Type} (rack : dict V)
    (c c' : string) (r0 r1 r0' r1' : Z) :
  In c color_names -> In c' color_names -> 0 <= r1 -> 0 <= r1' ->
  In (tile_image_path c r0 r1) (dict_keys rack) ->
  In (tile_image_path c' r0' r1') (dict_keys rack) ->
  tile_image_path c r0 r1 <> tile_image_path c' r0' r1' ->
  grouped (identify_rummikub_groups rack rack)
          (tile_image_path c r0 r1) (tile_image_path c' r0' r1') <->
  r1 = r1'.
Proof.
  intros Hc Hc' H1 H1' Hk Hk' Hne. split.
  - intros (G & HG & A & B).
    destruct (identify_rummikub_groups_spec rack rack) as [_ Hall].
    rewrite List.Forall_forall in Hall.
    destruct (Hall G HG) as (key & others & -> & _ & _ & _ & Hread).
    destruct (Hread _ A) as (_ & E & _), (Hread _ B) as (_ & E' & _).
    rewrite extract_last_number_tile in E, E' by assumption. congruence.
  - intros <-. unfold identify_rummikub_groups.
    apply group_outer_complete.
    + auto.
    + intros x [].
    + intros x x' [].
    + right. split; [exact Hk | apply tile_image_path_marker].
    + exact Hk'.
    + apply tile_image_path_marker.
    + congruence.
    + split.
      * now rewrite !extract_last_number_tile.
      * now rewrite !extract_color_tile.
Qed.

(** RED 5 and BLUE 5. *)
Lemma identify_rummikub_groups_by_number_witness :
  grouped (identify_rummikub_groups
             (example_rack [(4, 1); (4, 3); (4, 5); (2, 5); (2, 7)]%nat)
             (example_rack [(4, 1); (4, 3); (4, 5); (2, 5); (2, 7)]%nat))
          (tile_image_path "RED" 4 5) (tile_image_path "BLUE" 2 5) <->
  5 = 5.
Proof.
  apply (identify_rummikub_groups_by_number
           (example_rack [(4, 1); (4, 3); (4, 5); (2, 5); (2, 7)]%nat) "RED" "BLUE" 4 5 2 5).
  - cbn. tauto.
  - cbn. tauto.
  - lia.
  - lia.
  - vm_compute. tauto.
  - vm_compute. tauto.
  - vm_compute. discriminate.
Defined.

(** ** [play_for_me] *)

Section PlayForMe.

Lemma place_run_no_groups (run : list string) (c_x c_y : Z) (g : game) :
  place_run [] run c_x c_y g = of_result (place_set run c_x c_y g).
Proof.
  revert c_x g. induction run as [|key rest IH]; intros c_x g; [reflexivity |].
  cbn [place_run place_set List.length Nat.ltb Nat.leb].
  destruct (set_tile_position key c_x c_y g) as [g1|e]; cbn; [apply IH | reflexivity].
Qed.

Lemma place_runs_no_groups (runs : list (list string)) (c_x c_y : Z) (g : game) :
  place_runs [] runs c_x c_y g = of_result (place_sets runs c_x c_y g).
Proof.
  revert c_x g. induction runs as [|run rest IH]; intros c_x g; [reflexivity |].
  cbn [place_runs place_sets].
  destruct (in_range (Z.of_nat (List.length run)) 3 6); [| apply IH].
  rewrite place_run_no_groups.
  destruct (place_set run c_x c_y g) as [[c1 g1]|e]; cbn; [apply IH | reflexivity].
Qed.

(** With a group in [groups], the first run of three to five keys raises
    [TypeError] before anything is moved. *)
Lemma place_runs_groups (groups runs : list (list string)) (c_x c_y : Z) (g : game) :
  groups <> [] ->
  place_runs groups runs c_x c_y g =
  if existsb set_playable runs then RaisesTypeError else Returns (c_x, g).
Proof.
  intros Hg. induction runs as [|run rest IH]; [reflexivity |].
  cbn [place_runs existsb]. unfold set_playable at 1.
  destruct (in_range (Z.of_nat (List.length run)) 3 6) eqn:E; cbn [orb]; [| exact IH].
  destruct run as [|key run']; [discriminate |].
  cbn [place_run]. destruct groups; [congruence | reflexivity].
Qed.

Lemma fold_dict_del_keys {V : Type} (keys : list string) (d : dict V) :
  List.NoDup (dict_keys d) ->
  List.NoDup (dict_keys (fold_left (fun d k => dict_del k d) keys d)) /\
  (forall k, In k (dict_keys (fold_left (fun d k => dict_del k d) keys d)) <->
             In k (dict_keys d) /\ ~ In k keys).
Proof.
  revert d. induction keys as [|key keys IH]; intros d Hnd; cbn [fold_left].
  - split; [exact Hnd |]. intros k. cbn. tauto.
  - destruct (IH (dict_del key d) (dict_keys_del_NoDup key d Hnd)) as [Hnd' Hiff].
    split; [exact Hnd' |]. intros k. rewrite Hiff, (dict_keys_del_iff key k d Hnd).
    cbn. intuition congruence.
Qed.

Lemma set_tile_position_frame (key : string) (x y : Z) (g g1 : game) :
  set_tile_position key x y g = Ok g1 ->
  game_object_database g1 = game_object_database g /\
  PLAYER_2 g1 = PLAYER_2 g /\ IMG_PATHS g1 = IMG_PATHS g /\
  dict_keys (image_database g1) = dict_keys (image_database g) /\
  PLAYER_1 g1 = dict_del key (PLAYER_1 g) /\
  dict_mem key (PLAYER_1 g) = true /\
  snapshot_of key g1 = Some (x, y) /\
  (forall k, k <> key -> snapshot_of k g1 = snapshot_of k g).
Proof.
  unfold set_tile_position. intros H.
  destruct (dict_get key (game_object_database g)) as [a|] eqn:Ea; [| discriminate].
  destruct (dict_get key (image_database g)) as [e|] eqn:Ee; [| discriminate].
  cbn [of_option rbind] in H.
  destruct (dict_mem key (PLAYER_1 g)) eqn:Em; [| discriminate].
  injection H as <-. cbn.
  split; [reflexivity |]. split; [reflexivity |]. split; [reflexivity |].
  split; [apply dict_keys_set_mem; congruence |].
  split; [reflexivity |]. split; [reflexivity |]. split.
  - unfold snapshot_of. cbn. now rewrite dict_get_set_eq.
  - intros k Hk. unfold snapshot_of. cbn. rewrite dict_get_set_ne by congruence. reflexivity.
Qed.

Lemma set_tile_position_commit (key : string) (x y : Z) (g g1 : game) :
  set_tile_position key x y g = Ok g1 -> well_formed g = true ->
  well_formed g1 = true /\
  position_of key g1 = Some (x, y) /\
  (forall k, k <> key -> position_of k g1 = position_of k g).
Proof.
  unfold set_tile_position. intros H Hwf.
  destruct (dict_get key (game_object_database g)) as [a|] eqn:Ea; [| discriminate].
  destruct (dict_get key (image_database g)) as [e|] eqn:Ee; [| discriminate].
  cbn [of_option rbind] in H.
  destruct (dict_mem key (PLAYER_1 g)) eqn:Em; [| discriminate].
  injection H as <-.
  pose proof (well_formed_valid g key a Hwf Ea) as Hva.
  split; [| split].
  - apply (well_formed_sub g); [reflexivity | cbn; now rewrite !set_xy_length | | exact Hwf].
    intros o Ho. unfold owners in *. cbn in Ho.
    rewrite (image_owners_set key e) in Ho by (auto; reflexivity).
    rewrite !in_app_iff in *.
    destruct Ho as [Ho | [Ho | Ho]]; [tauto | | tauto].
    right. left. now apply dict_del_In in Ho.
  - unfold position_of. cbn. rewrite Ea. f_equal.
    destruct (Nat.eq_dec (img_rect e) a) as [E | E].
    + rewrite E, rect_at_set_xy_eq by now rewrite set_xy_length. reflexivity.
    + rewrite rect_at_set_xy_ne, rect_at_set_xy_eq by assumption. reflexivity.
  - intros k Hk. unfold position_of. cbn.
    destruct (dict_get k (game_object_database g)) as [b|] eqn:Eb; [| reflexivity].
    assert (Hba : a <> b).
    { intros <-. apply Hk. symmetry.
      apply (well_formed_separate g key k a Hwf); [now apply owners_gdb | exact Eb]. }
    assert (Hbe : img_rect e <> b).
    { intros <-. apply Hk. symmetry.
      apply (well_formed_separate g key k (img_rect e) Hwf); [now apply owners_image | exact Eb]. }
    now rewrite !rect_at_set_xy_ne by assumption.
Qed.

Lemma moved_from_step (keys : list string) (key : string) (x y : Z) (g g1 g2 : game) :
  moved_from keys g g1 -> set_tile_position key x y g1 = Ok g2 ->
  moved_from (keys ++ [key]) g g2.
Proof.
  intros (Hg & H2 & Hi & Hk & H1 & Hs & Hs') H.
  destruct (set_tile_position_frame _ _ _ _ _ H) as (Hg' & H2' & Hi' & Hk' & H1' & _ & Hsk & Hso).
  unfold moved_from. rewrite Hg', H2', Hi', Hk', H1', H1, fold_left_app.
  do 5 (split; [assumption || reflexivity |]). split.
  - intros k Hin. destruct (string_dec k key) as [-> | Hne]; [now exists (x, y) |].
    rewrite (Hso k Hne). apply Hs.
    apply in_app_or in Hin as [Hin | [E | []]]; [exact Hin | congruence].
  - intros k Hin. rewrite in_app_iff in Hin. cbn in Hin.
    rewrite Hso by (intros ->; tauto). apply Hs'. tauto.
Qed.

Lemma committed_from_step (keys : list string) (key : string) (x y : Z) (g g1 g2 : game) :
  committed_from keys g g1 -> set_tile_position key x y g1 = Ok g2 ->
  committed_from (keys ++ [key]) g g2.
Proof.
  intros (Hwf & Hc & Ho) H.
  destruct (set_tile_position_frame _ _ _ _ _ H) as (_ & _ & _ & _ & _ & _ & Hsk & Hso).
  destruct (set_tile_position_commit _ _ _ _ _ H Hwf) as (Hwf' & Hpk & Hpo).
  split; [exact Hwf' |]. split.
  - intros k Hin. destruct (string_dec k key) as [-> | Hne]; [congruence |].
    rewrite (Hpo k Hne), (Hso k Hne). apply Hc.
    apply in_app_or in Hin as [Hin | [E | []]]; [exact Hin | congruence].
  - intros k Hin. rewrite in_app_iff in Hin. cbn in Hin.
    rewrite Hpo by (intros ->; tauto). apply Ho. tauto.
Qed.

Variable rel : list string -> game -> game -> Prop.

Hypothesis rel_step : forall keys key x y g g1 g2,
  rel keys g g1 -> set_tile_position key x y g1 = Ok g2 -> rel (keys ++ [key]) g g2.

Lemma place_set_rel (group keys : list string) (c_x c_y : Z) (g g1 : game)
    (r : Z * game) :
  rel keys g g1 -> place_set group c_x c_y g1 = Ok r -> rel (keys ++ group) g (snd r).
Proof.
  revert keys c_x g1. induction group as [|key rest IH]; intros keys c_x g1 Hr H.
  - cbn in H. injection H as <-. now rewrite app_nil_r.
  - cbn [place_set] in H.
    destruct (set_tile_position key c_x c_y g1) as [g2|] eqn:E; [| discriminate].
    cbn [rbind] in H.
    replace (keys ++ key :: rest) with ((keys ++ [key]) ++ rest)
      by (now rewrite <- app_assoc).
    eapply IH; [| exact H]. eapply rel_step; eauto.
Qed.

Lemma place_sets_rel (sets : list (list string)) (keys : list string) (c_x c_y : Z)
    (g g1 : game) (r : Z * game) :
  rel keys g g1 -> place_sets sets c_x c_y g1 = Ok r ->
  rel (keys ++ concat (List.filter set_playable sets)) g (snd r).
Proof.
  revert keys c_x g1. induction sets as [|group rest IH]; intros keys c_x g1 Hr H.
  - cbn in H. injection H as <-. cbn. now rewrite app_nil_r.
  - cbn [place_sets] in H. cbn [List.filter]. unfold set_playable at 1.
    destruct (in_range (Z.of_nat (List.length group)) 3 6).
    + destruct (place_set group c_x c_y g1) as [r1|] eqn:E; [| discriminate].
      cbn [rbind] in H. cbn [concat]. rewrite app_assoc.
      eapply IH; [| exact H]. eapply place_set_rel; eauto.
    + eapply IH; eauto.
Qed.

(** What a call of [play_for_me] that returns has done. *)
Lemma play_for_me_rel (cfg : config) (g g' : game) :
  rel [] g g -> play_for_me cfg g = Returns g' -> rel (placed_keys g) g g'.
Proof.
  intros Hr H. unfold play_for_me in H.
  destruct (calculate_empty_spaces cfg g) as [es|]; [| discriminate].
  cbn [of_result obind] in H.
  destruct (head (start_loop es 0 [])) as [s0|]; [| discriminate].
  cbn [of_option of_result obind] in H.
  set (c_x := if negb (snd s0 =? fst (BIG_BOX_POSITION cfg)) then snd s0 + 52 else snd s0) in H.
  destruct (place_sets (identify_rummikub_groups (PLAYER_1 g) (PLAYER_1 g)) c_x (fst s0) g)
    as [r1|] eqn:E1; [| discriminate].
  cbn [of_result obind] in H.
  pose proof (place_sets_rel _ [] _ _ g g r1 Hr E1) as Hr1. cbn [app] in Hr1.
  unfold placed_keys.
  destruct (identify_rummikub_groups (PLAYER_1 g) (PLAYER_1 g)) as [|gr grs] eqn:Eg.
  - rewrite place_runs_no_groups in H.
    destruct (place_sets (identify_rummikub_runs (PLAYER_1 g)) (fst r1 + 52) (fst s0) (snd r1))
      as [r2|] eqn:E2; [| discriminate].
    cbn [of_result obind] in H. injection H as <-.
    eapply place_sets_rel; eauto.
  - rewrite place_runs_groups in H by discriminate.
    destruct (existsb set_playable (identify_rummikub_runs (PLAYER_1 g))) eqn:Ex;
      [discriminate |].
    cbn [obind snd] in H. injection H as <-.
    assert (Hnone : List.filter set_playable (identify_rummikub_runs (PLAYER_1 g)) = []).
    { clear -Ex. induction (identify_rummikub_runs (PLAYER_1 g)) as [|run runs IH];
        [reflexivity |].
      cbn in Ex |- *. apply orb_false_elim in Ex as [-> Ex]. now apply IH. }
    rewrite Hnone. cbn [concat]. now rewrite app_nil_r.
Qed.

End PlayForMe.

(** X7: with a group in the rack and a run of three to five keys,
    [play_for_me] does not return: the test [all(run_key not in groups)]
    applies [all] to a [bool] and raises [TypeError], once the groups of
    three to five keys are on the board. *)
Theorem play_for_me_type_error (cfg : config) (g : game) (run : list string) :
  identify_rummikub_groups (PLAYER_1 g) (PLAYER_1 g) <> [] ->
  In run (identify_rummikub_runs (PLAYER_1 g)) -> set_playable run = true ->
  (forall g', play_for_me cfg g <> Returns g') /\
  (forall es s0 r,
     calculate_empty_spaces cfg g = Ok es ->
     head (start_loop es 0 []) = Some s0 ->
     place_sets (identify_rummikub_groups (PLAYER_1 g) (PLAYER_1 g))
                (if negb (snd s0 =? fst (BIG_BOX_POSITION cfg)) then snd s0 + 52 else snd s0)
                (fst s0) g = Ok r ->
     play_for_me cfg g = RaisesTypeError).
Proof.
  intros Hg Hrun Hp.
  assert (Hex : existsb set_playable (identify_rummikub_runs (PLAYER_1 g)) = true).
  { apply existsb_exists. now exists run. }
  assert (Hte : forall c_x c_y g1,
             place_runs (identify_rummikub_groups (PLAYER_1 g) (PLAYER_1 g))
                        (identify_rummikub_runs (PLAYER_1 g)) c_x c_y g1 = RaisesTypeError).
  { intros c_x c_y g1. rewrite place_runs_groups by exact Hg. now rewrite Hex. }
  split.
  - intros g' H. unfold play_for_me in H.
    destruct (calculate_empty_spaces cfg g) as [es|]; [| discriminate].
    cbn [of_result obind] in H.
    destruct (head (start_loop es 0 [])) as [s0|]; [| discriminate].
    cbn [of_option of_result obind] in H.
    destruct (place_sets _ _ (fst s0) g) as [r1|]; [| discriminate].
    cbn [of_result obind] in H. rewrite Hte in H. discriminate.
  - intros es s0 r Hes Hs0 Hr. unfold play_for_me.
    rewrite Hes. cbn [of_result obind]. rewrite Hs0. cbn [of_option of_result obind].
    rewrite Hr. cbn [of_result obind]. now rewrite Hte.
Qed.

(** The rack holds RED 1, RED 3, RED 5 and BLUE 5: a run of three keys,
    and RED 5 with BLUE 5 as a group. *)
Lemma play_for_me_type_error_witness :
  play_for_me example_config g_run_and_group = RaisesTypeError.
Proof.
  refine (proj2 (play_for_me_type_error example_config g_run_and_group
                   [tile 4 1; tile 4 3; tile 4 5] _ _ _)
                (grid_cells example_config) (50, 100) (100, g_run_and_group) _ _ _).
  - vm_compute. discriminate.
  - vm_compute. tauto.
  - reflexivity.
  - vm_compute. reflexivity.
  - vm_compute. reflexivity.
  - vm_compute. reflexivity.
Defined.

(** X8: a call of [play_for_me] that returns changes no key of
    [game_object_database], of [image_database] or of [PLAYER_2], and takes
    out of [PLAYER_1] exactly the keys of the groups and runs of three to
    five keys; it does not call [update_blit] or the opponent. *)
Theorem play_for_me_moves (cfg : config) (g g' : game) :
  List.NoDup (dict_keys (PLAYER_1 g)) ->
  play_for_me cfg g = Returns g' ->
  game_object_database g' = game_object_database g /\
  PLAYER_2 g' = PLAYER_2 g /\
  IMG_PATHS g' = IMG_PATHS g /\
  dict_keys (image_database g') = dict_keys (image_database g) /\
  List.NoDup (dict_keys (PLAYER_1 g')) /\
  (forall k, In k (dict_keys (PLAYER_1 g')) <->
             In k (dict_keys (PLAYER_1 g)) /\ ~ In k (placed_keys g)).
Proof.
  intros Hnd H.
  destruct (play_for_me_rel moved_from moved_from_step cfg g g') as
    (Hg & H2 & Hi & Hk & H1 & _ & _); [| exact H |].
  { unfold moved_from. cbn. do 5 (split; [reflexivity |]). split; [intros k [] | auto]. }
  do 4 (split; [assumption |]). rewrite H1. now apply fold_dict_del_keys.
Qed.

(** The rack holds RED 1, RED 3, RED 5 and BLACK 9: the run leaves it. *)
Lemma play_for_me_moves_witness :
  match play_for_me example_config g_run with
  | Returns g' => dict_keys (PLAYER_1 g') = [tile 1 9] /\
                  game_object_database g' = game_object_database g_run
  | _ => False
  end.
Proof.
  destruct (play_for_me example_config g_run) as [g'| |] eqn:E;
    [| vm_compute in E; discriminate | vm_compute in E; discriminate].
  split.
  - vm_compute in E. injection E as <-. reflexivity.
  - exact (proj1 (play_for_me_moves example_config g_run g'
                    ltac:(vm_compute; repeat constructor; cbn; intuition discriminate) E)).
Defined.

(** X9: the tiles that [play_for_me] puts on the board are committed where
    it puts them, with no validation: for each of them the position is the
    committed position. Every other tile keeps its position and its
    committed position. *)
Theorem play_for_me_commits (cfg : config) (g g' : game) :
  well_formed g = true ->
  play_for_me cfg g = Returns g' ->
  well_formed g' = true /\
  (forall k, In k (placed_keys g) ->
     exists p, position_of k g' = Some p /\ snapshot_of k g' = Some p) /\
  (forall k, ~ In k (placed_keys g) ->
     position_of k g' = position_of k g /\ snapshot_of k g' = snapshot_of k g).
Proof.
  intros Hwf H.
  destruct (play_for_me_rel moved_from moved_from_step cfg g g') as
    (_ & _ & _ & _ & _ & Hs & Hs'); [| exact H |].
  { unfold moved_from. cbn. do 5 (split; [reflexivity |]). split; [intros k [] | auto]. }
  destruct (play_for_me_rel committed_from committed_from_step cfg g g') as
    (Hwf' & Hc & Ho); [| exact H |].
  { split; [exact Hwf |]. split; [intros k [] | auto]. }
  split; [exact Hwf' |]. split.
  - intros k Hk. destruct (Hs k Hk) as [p Hp]. exists p. split; [| exact Hp].
    now rewrite (Hc k Hk).
  - intros k Hk. split; [now apply Ho | now apply Hs'].
Qed.

(** RED 5, BLUE 5 and GREEN 5 go to the first row of the board. *)
Lemma play_for_me_commits_witness :
  match play_for_me example_config g_group with
  | Returns g' =>
      position_of (tile 4 5) g' = Some (100, 50) /\
      exists p, position_of (tile 2 5) g' = Some p /\ snapshot_of (tile 2 5) g' = Some p
  | _ => False
  end.
Proof.
  destruct (play_for_me example_config g_group) as [g'| |] eqn:E;
    [| vm_compute in E; discriminate | vm_compute in E; discriminate].
  split.
  - vm_compute in E. injection E as <-. reflexivity.
  - exact (proj1 (proj2 (play_for_me_commits example_config g_group g'
                           ltac:(vm_compute; reflexivity) E))
                 (tile 2 5) ltac:(vm_compute; tauto)).
Defined.

(** * More on the validation pass and the turn of the opponent *)

(** ** Edge cases of [check_logic] *)

Lemma collect_data_list_none (big_box : rect) (h : list rect) (items : dict addr)
    (data_list : dict (Z * Z)) :
  (forall k a, In (k, a) items -> str_in "1-15" k = true ->
               center_in big_box (rect_at a h) = false) ->
  collect_data_list big_box h items data_list = data_list.
Proof.
  revert data_list. induction items as [|[k a] items IH]; intros data_list H; [reflexivity |].
  cbn [collect_data_list].
  destruct (str_in "1-15" k) eqn:Et; cbn [andb].
  - rewrite (H k a (or_introl eq_refl) Et). apply IH. intros k' a' Hin. apply H. now right.
  - apply IH. intros k' a' Hin. apply H. now right.
Qed.

(** X10: with no tile in the play area, [check_logic] puts every tile of
    [game_object_database] back at its committed position and nothing
    else: the dictionaries are what they were, the opponent does not play
    and no random number is drawn. *)
Theorem check_logic_empty_board (cfg : config) (g g' : game)
    (entropy entropy' : list nat) :
  well_formed g = true ->
  (forall k a, In (k, a) (game_object_database g) -> str_in "1-15" k = true ->
               center_in (BIG_BOX cfg) (rect_at a (heap g)) = false) ->
  check_logic cfg g entropy = Ok (g', entropy') ->
  entropy' = entropy /\
  g' = with_heap (heap g') g /\
  (forall key, dict_mem key (game_object_database g) = true ->
     position_of key g' = if is_tile key then snapshot_of key g else position_of key g).
Proof.
  intros Hwf Hnone H. unfold check_logic, check_logic_validation, get_tile_by_position in H.
  rewrite collect_data_list_none in H by exact Hnone.
  cbn in H.
  destruct (rollback g) as [g1|] eqn:Er; [| discriminate].
  cbn in H. injection H as <- <-.
  destruct (rollback_spec g g1 Er Hwf) as (Heq & _ & Hpos & _).
  split; [reflexivity |]. split; [exact Heq | exact Hpos].
Qed.

(** A board with the tiles of the player in the rack. *)
Lemma check_logic_empty_board_witness :
  match check_logic example_config g_run [] with
  | Ok (g', entropy') => entropy' = [] /\ g' = with_heap (heap g') g_run
  | Raise _ => False
  end.
Proof.
  destruct (check_logic example_config g_run []) as [[g' e']|] eqn:E;
    [| vm_compute in E; discriminate].
  destruct (check_logic_empty_board example_config g_run g' [] e'
              ltac:(vm_compute; reflexivity)) as (He & Hg & _); [| exact E | now split].
  intros k a Hin Ht. vm_compute in Hin.
  repeat (destruct Hin as [[= <- <-] | Hin]; [first [discriminate Ht | reflexivity] |]).
  destruct Hin.
Defined.

(** X11: when the play area holds a cluster of fewer than three or more
    than five tiles, the pass rolls the tiles back and still reports
    success, [all] of an empty list being true: [check_logic] goes on to
    the turn of the opponent. *)
Theorem check_logic_out_of_range_plays (cfg : config) (g g1 : game) (ok : bool)
    (permutation_values : list (list item)) (entropy : list nat) :
  well_formed g = true ->
  get_tile_by_position (BIG_BOX cfg) g = Ok permutation_values ->
  sizes_in_range permutation_values = false ->
  check_logic_validation cfg g = Ok (ok, g1) ->
  ok = true /\
  check_logic cfg g entropy = play_ai_turn cfg true g1 entropy.
Proof.
  intros Hwf Hscan Hsizes H.
  assert (Hok : ok = true).
  { unfold check_logic_validation in H. rewrite Hscan in H. cbn [rbind] in H.
    unfold validate in H.
    pose proof (sizes_in_range_nonempty _ Hsizes) as Hne.
    destruct permutation_values as [|cl rest] eqn:Epv; [congruence |].
    rewrite <- Epv in *. clear Epv.
    destruct (gather_loop permutation_values permutation_values [] g)
      as [[check_sum g2]|] eqn:Eg; [| discriminate].
    cbn [rbind fst snd] in H.
    destruct (gather_loop_rollback _ _ _ _ _ _ Hsizes Eg Hwf) as (-> & _).
    cbn in H. now injection H as <- _. }
  split; [exact Hok |]. unfold check_logic. rewrite H. cbn. now rewrite Hok.
Qed.

(** RED 5 and BLUE 5 alone on the board: the opponent plays. *)
Lemma check_logic_out_of_range_plays_witness :
  match check_logic_validation example_config g_pair with
  | Ok (ok, g1) =>
      ok = true /\
      check_logic example_config g_pair [] = play_ai_turn example_config true g1 []
  | Raise _ => False
  end.
Proof.
  destruct (check_logic_validation example_config g_pair) as [[ok g1]|] eqn:E;
    [| vm_compute in E; discriminate].
  apply (check_logic_out_of_range_plays example_config g_pair g1 ok
           [[(tile 4 5, (100, 50)); (tile 2 5, (152, 50))]] []);
    [vm_compute; reflexivity | vm_compute; reflexivity | vm_compute; reflexivity | exact E].
Defined.

(** ** The scan of the play area misses no tile *)

Section Cover.

Lemma item_eqb_eq (a b : item) : item_eqb a b = true <-> a = b.
Proof.
  destruct a as [k [x y]], b as [k' [x' y']]. unfold item_eqb. cbn.
  rewrite !andb_true_iff, String.eqb_eq, !Z.eqb_eq. split.
  - intros (-> & -> & ->). reflexivity.
  - intros [= -> -> ->]. auto.
Qed.

Lemma list_mem_item (x : item) (l : list item) :
  list_mem item_eqb x l = true <-> In x l.
Proof.
  unfold list_mem. rewrite existsb_exists. split.
  - intros (y & Hy & E). apply item_eqb_eq in E. now subst.
  - intros H. exists x. split; [exact H | now apply item_eqb_eq].
Qed.

Lemma dict_set_keep {V : Type} (k k' : string) (v v' : V) (d : dict V) :
  k <> k' -> In (k, v) d -> In (k, v) (dict_set k' v' d).
Proof.
  intros Hne. induction d as [|[k0 v0] d IH]; cbn; [tauto |].
  destruct (String.eqb_spec k' k0) as [-> | E]; cbn.
  - intros [[= <- <-] | H]; [congruence | now right].
  - intros [H | H]; [now left | right; now apply IH].
Qed.

Lemma dict_set_new {V : Type} (k : string) (v : V) (d : dict V) :
  In (k, v) (dict_set k v d).
Proof.
  induction d as [|[k0 v0] d IH]; cbn; [now left |].
  destruct (String.eqb_spec k k0) as [-> | E]; cbn; [now left | now right].
Qed.

Lemma collect_data_list_keep (big_box : rect) (h : list rect) (items : dict addr)
    (data_list : dict (Z * Z)) (k : string) (p : Z * Z) :
  ~ In k (dict_keys items) -> In (k, p) data_list ->
  In (k, p) (collect_data_list big_box h items data_list).
Proof.
  revert data_list. induction items as [|[k0 a0] items IH]; intros data_list Hk Hin;
    [exact Hin |].
  cbn in Hk. cbn [collect_data_list].
  destruct (str_in "1-15" k0 && center_in big_box (rect_at a0 h)).
  - apply IH; [tauto |]. apply dict_set_keep; [intros ->; tauto | exact Hin].
  - apply IH; [tauto | exact Hin].
Qed.

Lemma collect_data_list_complete (big_box : rect) (h : list rect) (items : dict addr)
    (data_list : dict (Z * Z)) (k : string) (a : addr) :
  List.NoDup (dict_keys items) -> In (k, a) items ->
  str_in "1-15" k = true -> center_in big_box (rect_at a h) = true ->
  In (k, (rx (rect_at a h), ry (rect_at a h)))
     (collect_data_list big_box h items data_list).
Proof.
  intros Hnd Hin Ht Hc. revert data_list.
  induction items as [|[k0 a0] items IH]; intros data_list; [destruct Hin |].
  cbn in Hnd. inversion Hnd as [|? ? Hnotin Hnd']; subst.
  cbn [collect_data_list]. destruct Hin as [[= -> ->] | Hin].
  - rewrite Ht, Hc. cbn [andb]. apply collect_data_list_keep; [exact Hnotin |].
    apply dict_set_new.
  - destruct (str_in "1-15" k0 && center_in big_box (rect_at a0 h)); now apply IH.
Qed.

Lemma collect_data_list_sound (big_box : rect) (h : list rect) (items : dict addr)
    (data_list : dict (Z * Z)) (x : item) :
  In x (collect_data_list big_box h items data_list) ->
  In x data_list \/
  exists a, In (fst x, a) items /\ str_in "1-15" (fst x) = true /\
            center_in big_box (rect_at a h) = true /\
            snd x = (rx (rect_at a h), ry (rect_at a h)).
Proof.
  revert data_list. induction items as [|[k a] items IH]; intros data_list H; cbn in H.
  - now left.
  - destruct (str_in "1-15" k) eqn:Et; cbn [andb] in H.
    + destruct (center_in big_box (rect_at a h)) eqn:Ec.
      * apply IH in H as [H | (a' & Ha & Hp)].
        -- apply dict_set_In in H as [-> | H]; [| now left].
           right. exists a. cbn. split; [now left | now repeat split].
        -- right. exists a'. split; [now right | exact Hp].
      * apply IH in H as [H | (a' & Ha & Hp)]; [now left |].
        right. exists a'. split; [now right | exact Hp].
    + apply IH in H as [H | (a' & Ha & Hp)]; [now left |].
      right. exists a'. split; [now right | exact Hp].
Qed.

Lemma collect_data_list_NoDup (big_box : rect) (h : list rect) (items : dict addr)
    (data_list : dict (Z * Z)) :
  List.NoDup (dict_keys data_list) ->
  List.NoDup (dict_keys (collect_data_list big_box h items data_list)).
Proof.
  revert data_list. induction items as [|[k a] items IH]; intros data_list H; [exact H |].
  cbn [collect_data_list].
  destruct (str_in "1-15" k && center_in big_box (rect_at a h)); apply IH; [| exact H].
  now apply dict_keys_set_NoDup.
Qed.

(** *** The rows *)

Lemma setdefault_append_perm (dimensions : Z) (x : item) (d : list (Z * list item)) :
  Permutation (concat (map snd (setdefault_append dimensions x d)))
              (x :: concat (map snd d)).
Proof.
  induction d as [|[d0 l0] d IH]; cbn; [reflexivity |].
  destruct (dimensions =? d0); cbn.
  - rewrite <- app_assoc. cbn. symmetry. apply Permutation_middle.
  - rewrite IH. symmetry.
    change (x :: l0 ++ concat (map snd d)) with ([x] ++ l0 ++ concat (map snd d)).
    change (l0 ++ x :: concat (map snd d)) with (l0 ++ [x] ++ concat (map snd d)).
    rewrite !app_assoc. apply Permutation_app_tail, Permutation_app_comm.
Qed.

Lemma fold_setdefault_perm (sorted_data : list item) (acc : list (Z * list item)) :
  Permutation
    (concat (map snd (fold_left (fun d data_item =>
                                   setdefault_append (snd (snd data_item)) data_item d)
                                sorted_data acc)))
    (sorted_data ++ concat (map snd acc)).
Proof.
  revert acc. induction sorted_data as [|x l IH]; intros acc; cbn [fold_left app];
    [reflexivity |].
  rewrite IH, setdefault_append_perm. symmetry. apply Permutation_middle.
Qed.

Lemma NoDup_concat_filter {A : Type} (p : list A -> bool) (ls : list (list A)) :
  List.NoDup (concat ls) -> List.NoDup (concat (List.filter p ls)).
Proof.
  induction ls as [|l ls IH]; cbn; [auto |]. intros H.
  apply NoDup_app_inv in H as (Hl & Hls & Hd).
  destruct (p l); cbn; [| now apply IH].
  apply List.NoDup_app; [exact Hl | now apply IH |].
  intros a Ha Hin. apply (Hd a Ha).
  apply in_concat in Hin as (l' & Hl' & Ha'). apply filter_In in Hl' as [Hl' _].
  apply in_concat. now exists l'.
Qed.

Lemma occurrences_NoDup (x : item) (l : list item) :
  List.NoDup l -> In x l -> occurrences x l = 1%nat.
Proof.
  unfold occurrences. induction l as [|y l IH]; intros Hnd Hin; [destruct Hin |].
  inversion Hnd as [|? ? Hnotin Hnd']; subst. cbn [List.filter].
  destruct (item_eqb x y) eqn:E.
  - apply item_eqb_eq in E. subst y. cbn. f_equal.
    clear IH Hin Hnd. induction l as [|z l IH]; [reflexivity |].
    cbn in Hnotin |- *. destruct (item_eqb x z) eqn:Ez.
    + apply item_eqb_eq in Ez. subst z. exfalso. apply Hnotin. now left.
    + apply IH; [tauto | now inversion Hnd'].
  - destruct Hin as [-> | Hin]; [| now apply IH].
    assert (item_eqb x x = true) by now apply item_eqb_eq. congruence.
Qed.

(** *** The loop over the pairs of neighbours of a row *)

Lemma append_new_incl (x y : item) (l : list item) : In y l -> In y (append_new x l).
Proof.
  unfold append_new. destruct (list_mem item_eqb x l); [auto |].
  intros H. apply in_or_app. now left.
Qed.

Lemma append_new_self (x : item) (l : list item) : In x (append_new x l).
Proof.
  unfold append_new. destruct (list_mem item_eqb x l) eqn:E.
  - now apply list_mem_item.
  - apply in_or_app. right. now left.
Qed.

Lemma pair_loop_cons (n : nat) (first next : item) (rest temp : list item)
    (final : list (list item)) (filt : list item) :
  pair_loop n (first :: next :: rest) temp final filt =
  if adjacent (snd first) (snd next)
  then pair_loop n (next :: rest) (append_new next (append_new first temp)) final filt
  else pair_loop n (next :: rest) []
         (if (2 <=? n)%nat then final ++ [temp] else final) (filt ++ [first; next]).
Proof. reflexivity. Qed.

Lemma pair_loop_cover (n : nat) (row temp : list item) (final : list (list item))
    (filt : list item) :
  (2 <=? n)%nat = true ->
  let '(temp', final', filt') := pair_loop n row temp final filt in
  (forall x, In x temp \/ (exists c, In c final /\ In x c) \/ In x filt ->
             In x temp' \/ (exists c, In c final' /\ In x c) \/ In x filt') /\
  (forall x, In x row -> (2 <= List.length row)%nat ->
             In x temp' \/ (exists c, In c final' /\ In x c) \/ In x filt').
Proof.
  intros Hn. revert temp final filt.
  induction row as [|first row IH]; intros temp final filt.
  { cbn. split; [auto | intros x []]. }
  destruct row as [|next rest].
  { cbn. split; [auto |]. intros x _ H. lia. }
  rewrite pair_loop_cons, Hn.
  destruct (adjacent (snd first) (snd next)).
  - specialize (IH (append_new next (append_new first temp)) final filt).
    destruct (pair_loop n (next :: rest) (append_new next (append_new first temp))
                        final filt) as [[temp' final'] filt'].
    destruct IH as [Hkeep Hrow].
    assert (Hf : In first (append_new next (append_new first temp)))
      by apply append_new_incl, append_new_self.
    assert (Hx : In next (append_new next (append_new first temp)))
      by apply append_new_self.
    split.
    + intros x [H | H]; apply Hkeep; [left | right; exact H].
      now apply append_new_incl, append_new_incl.
    + intros x [<- | [<- | H]] _.
      * apply Hkeep. now left.
      * apply Hkeep. now left.
      * apply Hrow; [now right |]. destruct rest; [destruct H | cbn; lia].
  - specialize (IH [] (final ++ [temp]) (filt ++ [first; next])).
    destruct (pair_loop n (next :: rest) [] (final ++ [temp]) (filt ++ [first; next]))
      as [[temp' final'] filt'].
    destruct IH as [Hkeep Hrow].
    split.
    + intros x [H | [(c & Hc & H) | H]]; apply Hkeep; right.
      * left. exists temp. split; [apply in_or_app; right; now left | exact H].
      * left. exists c. split; [apply in_or_app; now left | exact H].
      * right. apply in_or_app. now left.
    + intros x [<- | [<- | H]] _.
      * apply Hkeep. right. right. apply in_or_app. right. now left.
      * apply Hkeep. right. right. apply in_or_app. right. right. now left.
      * apply Hrow; [now right |]. destruct rest; [destruct H | cbn; lia].
Qed.

Lemma row_step_cover (acc : list (list item) * list item) (row : list item) :
  (2 <= List.length row)%nat ->
  (forall x, (exists c, In c (fst acc) /\ In x c) \/ In x (snd acc) ->
             (exists c, In c (fst (row_step acc row)) /\ In x c) \/
             In x (snd (row_step acc row))) /\
  (forall x, In x row ->
             (exists c, In c (fst (row_step acc row)) /\ In x c) \/
             In x (snd (row_step acc row))).
Proof.
  intros H2. destruct acc as [final filt]. unfold row_step.
  assert (Hn : (2 <=? List.length row)%nat = true) by now apply Nat.leb_le.
  pose proof (pair_loop_cover (List.length row) row [] final filt Hn) as H.
  destruct (pair_loop (List.length row) row [] final filt) as [[temp' final'] filt'].
  rewrite Hn. cbn [fst snd] in *. destruct H as [Hkeep Hrow].
  assert (Hfin : forall x,
            In x temp' \/ (exists c, In c final' /\ In x c) \/ In x filt' ->
            (exists c, In c (final' ++ [temp']) /\ In x c) \/ In x filt').
  { intros x [H | [(c & Hc & H) | H]].
    - left. exists temp'. split; [apply in_or_app; right; now left | exact H].
    - left. exists c. split; [apply in_or_app; now left | exact H].
    - now right. }
  split.
  - intros x H. apply Hfin, Hkeep. now right.
  - intros x H. now apply Hfin, Hrow.
Qed.

Lemma fold_row_step_cover (rows : list (list item)) (acc : list (list item) * list item) :
  (forall row, In row rows -> (2 <= List.length row)%nat) ->
  forall x, ((exists c, In c (fst acc) /\ In x c) \/ In x (snd acc)) \/
            (exists row, In row rows /\ In x row) ->
            (exists c, In c (fst (fold_left row_step rows acc)) /\ In x c) \/
            In x (snd (fold_left row_step rows acc)).
Proof.
  revert acc. induction rows as [|row rows IH]; intros acc H2 x Hx; cbn [fold_left].
  - destruct Hx as [Hx | (row & [] & _)]. exact Hx.
  - destruct (row_step_cover acc row (H2 row (or_introl eq_refl))) as [Hkeep Hrow].
    apply IH; [intros r Hr; apply H2; now right |].
    destruct Hx as [Hx | (r & [<- | Hr] & Hx)].
    + left. now apply Hkeep.
    + left. now apply Hrow.
    + right. now exists r.
Qed.

(** *** The passes of [is_filtered] *)

Lemma list_remove_cover (x : item) (l l' : list item) :
  list_remove item_eqb x l = Ok l' -> forall y, In y l -> In y l' \/ y = x.
Proof.
  revert l'. induction l as [|z l IH]; intros l' H y Hy; [destruct Hy |].
  cbn in H. destruct (item_eqb x z) eqn:E.
  - apply item_eqb_eq in E. subst z. apply Ok_inj in H. subst l'.
    destruct Hy as [<- | Hy]; [now right | now left].
  - destruct (list_remove item_eqb x l) as [r|]; [| discriminate].
    cbn in H. apply Ok_inj in H. subst l'.
    destruct Hy as [<- | Hy]; [left; now left |].
    destruct (IH r eq_refl y Hy) as [H | H]; [left; now right | now right].
Qed.

Lemma drop_if_grouped_cover (x : item) (sub_lists : list (list item)) (l l' : list item) :
  drop_if_grouped x sub_lists l = Ok l' ->
  forall y, In y l -> In y l' \/ exists c, In c sub_lists /\ In y c.
Proof.
  revert l. induction sub_lists as [|s rest IH]; intros l H y Hy; cbn in H.
  - apply Ok_inj in H. subst. now left.
  - destruct (list_mem item_eqb x s) eqn:Em.
    + destruct (list_remove item_eqb x l) as [r|] eqn:Er; [| discriminate].
      cbn [rbind] in H.
      destruct (list_remove_cover _ _ _ Er y Hy) as [Hr | ->].
      * destruct (IH r H y Hr) as [H' | (c & Hc & H')]; [now left |].
        right. exists c. split; [now right | exact H'].
      * right. exists s. split; [now left | now apply list_mem_item].
    + destruct (IH l H y Hy) as [H' | (c & Hc & H')]; [now left |].
      right. exists c. split; [now right | exact H'].
Qed.

Lemma is_filtered_from_cover (fuel idx : nat) (sub_lists : list (list item))
    (l l' : list item) :
  is_filtered_from fuel idx sub_lists l = Ok l' ->
  forall y, In y l -> In y l' \/ exists c, In c sub_lists /\ In y c.
Proof.
  revert idx l. induction fuel as [|fuel IH]; intros idx l H y Hy; cbn in H.
  - apply Ok_inj in H. subst. now left.
  - destruct (nth_error l idx) as [x|]; [| apply Ok_inj in H; subst; now left].
    destruct (drop_if_grouped x sub_lists l) as [r|] eqn:Ed; [| discriminate].
    cbn [rbind] in H.
    destruct (drop_if_grouped_cover _ _ _ _ Ed y Hy) as [Hr | Hc]; [| now right].
    now apply (IH (S idx) r).
Qed.

Lemma repeat_filtered_cover (times : nat) (sub_lists : list (list item))
    (l l' : list item) :
  repeat_filtered times sub_lists l = Ok l' ->
  forall y, In y l -> In y l' \/ exists c, In c sub_lists /\ In y c.
Proof.
  revert l. induction times as [|t IH]; intros l H y Hy; cbn [repeat_filtered] in H.
  - apply Ok_inj in H. subst. now left.
  - destruct (is_filtered sub_lists l) as [r|] eqn:Ef; [| discriminate].
    cbn [rbind] in H. unfold is_filtered in Ef.
    destruct (is_filtered_from_cover _ _ _ _ _ Ef y Hy) as [Hr | Hc]; [| now right].
    now apply (IH r).
Qed.

End Cover.

Lemma NoDup_concat_map_filter {A B : Type} (f : B -> list A) (q : B -> bool) (d : list B) :
  List.NoDup (concat (map f d)) -> List.NoDup (concat (map f (List.filter q d))).
Proof.
  induction d as [|e d IH]; cbn; [auto |]. intros H.
  apply NoDup_app_inv in H as (Hl & Hls & Hd).
  destruct (q e); cbn; [| now apply IH].
  apply List.NoDup_app; [exact Hl | now apply IH |].
  intros a Ha Hin. apply (Hd a Ha).
  apply in_concat in Hin as (l' & Hl' & Ha').
  apply in_map_iff in Hl' as (e' & <- & He'). apply filter_In in He' as [He' _].
  apply in_concat. exists (f e'). split; [now apply in_map | exact Ha'].
Qed.

(** X12: the clusters of [get_tile_by_position] cover the play area: no
    cluster is empty, every tile of [game_object_database] whose centre is
    in the box is in a cluster with the position of its rectangle, and a
    cluster holds nothing else. *)
Theorem get_tile_by_position_covers (big_box : rect) (g : game)
    (permutation_values : list (list item)) :
  well_formed g = true ->
  get_tile_by_position big_box g = Ok permutation_values ->
  (forall cluster, In cluster permutation_values -> cluster <> []) /\
  (forall key a,
     In (key, a) (game_object_database g) -> str_in "1-15" key = true ->
     center_in big_box (rect_at a (heap g)) = true ->
     exists cluster,
       In cluster permutation_values /\
       In (key, (rx (rect_at a (heap g)), ry (rect_at a (heap g)))) cluster) /\
  (forall cluster x,
     In cluster permutation_values -> In x cluster ->
     exists a, In (fst x, a) (game_object_database g) /\ str_in "1-15" (fst x) = true /\
               center_in big_box (rect_at a (heap g)) = true /\
               snd x = (rx (rect_at a (heap g)), ry (rect_at a (heap g)))).
Proof.
  intros Hwf Hscan.
  pose proof (well_formed_keys g Hwf) as Hkeys.
  assert (Hsound : forall cluster x,
            In cluster permutation_values -> In x cluster ->
            exists a, In (fst x, a) (game_object_database g) /\
                      str_in "1-15" (fst x) = true /\
                      center_in big_box (rect_at a (heap g)) = true /\
                      snd x = (rx (rect_at a (heap g)), ry (rect_at a (heap g)))).
  { intros cluster x Hc Hx.
    pose proof (get_tile_by_position_items _ _ _ Hscan cluster x Hc Hx) as Hin.
    now apply collect_data_list_sound in Hin as [[] | H]. }
  revert Hscan. unfold get_tile_by_position.
  set (data_list := collect_data_list big_box (heap g) (game_object_database g) []).
  assert (Hnd : List.NoDup data_list).
  { apply (List.NoDup_map_inv fst). apply (collect_data_list_NoDup big_box (heap g) _ []).
    constructor. }
  set (sorted_data := py_sorted dimensions_leb data_list).
  set (dimensions_dict :=
         fold_left (fun d data_item => setdefault_append (snd (snd data_item)) data_item d)
                   sorted_data []).
  assert (Hperm : Permutation (concat (map snd dimensions_dict)) data_list).
  { unfold dimensions_dict. rewrite fold_setdefault_perm. cbn [map concat].
    rewrite app_nil_r. apply py_sorted_perm. }
  assert (Hnd_dict : List.NoDup (concat (map snd dimensions_dict))).
  { eapply Permutation_NoDup; [symmetry; exact Hperm | exact Hnd]. }
  set (rows := map (py_sorted dimensions_leb)
                   (map snd (List.filter (fun e => (1 <? List.length (snd e))%nat)
                                         dimensions_dict))).
  set (singles := concat (map snd (List.filter
                    (fun e => negb (1 <? List.length (snd e))%nat) dimensions_dict))).
  assert (Hrows2 : forall row, In row rows -> (2 <= List.length row)%nat).
  { intros row Hrow. apply in_map_iff in Hrow as (l0 & <- & Hl0).
    rewrite py_sorted_length. apply in_map_iff in Hl0 as (e & <- & He).
    apply filter_In in He as [_ He]. apply Nat.ltb_lt in He. lia. }
  assert (Hsplit : forall x, In x data_list ->
            (exists row, In row rows /\ In x row) \/ In x singles).
  { intros x Hx. apply (Permutation_in _ (Permutation_sym Hperm)) in Hx.
    apply in_concat in Hx as (l & Hl & Hx). apply in_map_iff in Hl as (e & <- & He).
    destruct (1 <? List.length (snd e))%nat eqn:El.
    - left. exists (py_sorted dimensions_leb (snd e)). split.
      + apply in_map, in_map_iff. exists e. split; [reflexivity |].
        apply filter_In. now split.
      + now apply py_sorted_In.
    - right. apply in_concat. exists (snd e). split; [| exact Hx].
      apply in_map_iff. exists e. split; [reflexivity |].
      apply filter_In. split; [exact He | now rewrite El]. }
  pose proof (fold_row_step_cover rows ([], []) Hrows2) as Hfold.
  destruct (fold_left row_step rows ([], [])) as [final filt].
  cbn [fst snd] in Hfold.
  set (nonempty :=
         List.filter (fun sublist : list item =>
                        match sublist with [] => false | _ => true end) final).
  destruct (repeat_filtered 15 nonempty filt) as [filt'|] eqn:Ef; [| discriminate].
  cbn [rbind]. intros H. apply Ok_inj in H.
  set (final1 := nonempty ++ map (fun filer_val => [filer_val]) filt') in *.
  assert (Hnonempty : forall c x, In c final -> In x c -> In c nonempty).
  { intros c x Hc Hx. apply filter_In. split; [exact Hc |]. now destruct c. }
  assert (Hrowcover : forall x, (exists row, In row rows /\ In x row) ->
            exists cluster, In cluster final1 /\ In x cluster).
  { intros x Hx. destruct (Hfold x (or_intror Hx)) as [(c & Hc & Hxc) | Hxf].
    - exists c. split; [| exact Hxc]. apply in_or_app. left. now apply (Hnonempty c x).
    - destruct (repeat_filtered_cover _ _ _ _ Ef x Hxf) as [Hx' | (c & Hc & Hxc)].
      + exists [x]. split; [| now left]. apply in_or_app. right.
        apply in_map_iff. now exists x.
      + exists c. split; [| exact Hxc]. apply in_or_app. now left. }
  match type of H with
  | match ?r with [] => _ | _ => _ end = _ => set (remaining := r) in H
  end.
  assert (Hsingles : forall x, In x singles ->
            (exists cluster, In cluster final1 /\ In x cluster) \/ In x remaining).
  { intros x Hx.
    destruct (existsb (list_mem item_eqb x) final1) eqn:Ex.
    - left. apply existsb_exists in Ex as (c & Hc & Hm). exists c.
      split; [exact Hc | now apply list_mem_item].
    - right. unfold remaining. apply filter_In. split; [| now rewrite Ex].
      apply filter_In. split; [now apply py_sorted_In |].
      apply Nat.eqb_eq, occurrences_NoDup; [| now apply py_sorted_In].
      eapply Permutation_NoDup; [symmetry; apply py_sorted_perm |].
      now apply NoDup_concat_map_filter. }
  assert (Hfinal1 : forall c, In c final1 -> c <> []).
  { intros c Hc. apply in_app_or in Hc as [Hc | Hc].
    - apply filter_In in Hc as [_ Hc]. now destruct c.
    - apply in_map_iff in Hc as (y & <- & _). discriminate. }
  split; [| split; [| exact Hsound]].
  - intros cluster Hc. destruct remaining as [|r0 rem]; subst permutation_values.
    + now apply Hfinal1.
    + apply in_app_or in Hc as [Hc | [<- | []]]; [now apply Hfinal1 | discriminate].
  - intros key a Hin Ht Hcen.
    pose proof (collect_data_list_complete big_box (heap g) _ [] key a Hkeys Hin Ht Hcen)
      as Hx. fold data_list in Hx.
    assert (Hcases : (exists cluster, In cluster final1 /\
                        In (key, (rx (rect_at a (heap g)), ry (rect_at a (heap g)))) cluster) \/
                     In (key, (rx (rect_at a (heap g)), ry (rect_at a (heap g)))) remaining).
    { destruct (Hsplit _ Hx) as [Hrow | Hs]; [left; now apply Hrowcover | now apply Hsingles]. }
    destruct Hcases as [(c & Hc & Hxc) | Hrem].
    + exists c. split; [| exact Hxc].
      destruct remaining; subst permutation_values; [exact Hc | apply in_or_app; now left].
    + exists remaining. split; [| exact Hrem].
      destruct remaining as [|r0 rem] eqn:Er; [destruct Hrem |].
      subst permutation_values. apply in_or_app. right. now left.
Qed.

(** The board of [g_mixed]: two rows of three tiles. *)
Lemma get_tile_by_position_covers_witness :
  exists cluster,
    In cluster [[(tile 4 5, (100, 50)); (tile 2 5, (152, 50)); (tile 3 5, (204, 50))];
                [(tile 4 1, (100, 123)); (tile 4 2, (152, 123)); (tile 2 4, (204, 123))]] /\
    In (tile 4 2, (152, 123)) cluster.
Proof.
  exact (proj1 (proj2 (get_tile_by_position_covers (BIG_BOX example_config) g_mixed
                         [[(tile 4 5, (100, 50)); (tile 2 5, (152, 50)); (tile 3 5, (204, 50))];
                          [(tile 4 1, (100, 123)); (tile 4 2, (152, 123));
                           (tile 2 4, (204, 123))]]
                         ltac:(vm_compute; reflexivity) ltac:(vm_compute; reflexivity)))
               (tile 4 2) 9%nat ltac:(vm_compute; tauto) ltac:(reflexivity)
               ltac:(vm_compute; reflexivity)).
Defined.

(** ** The free cells of the play area *)

Section Grid.

Lemma range_from_In (fuel : nat) (a step x : Z) :
  In x (range_from fuel a step) ->
  exists i, (i < fuel)%nat /\ x = a + Z.of_nat i * step.
Proof.
  revert a. induction fuel as [|f IH]; intros a H; [destruct H |].
  cbn in H. destruct H as [<- | H].
  - exists 0%nat. split; [lia | cbn; lia].
  - destruct (IH _ H) as (i & Hi & ->). exists (S i). split; [lia | lia].
Qed.

Lemma range_from_NoDup (fuel : nat) (a step : Z) :
  0 < step -> List.NoDup (range_from fuel a step).
Proof.
  intros Hs. revert a. induction fuel as [|f IH]; intros a; cbn; constructor; [| apply IH].
  intros H. apply range_from_In in H as (i & _ & H). nia.
Qed.

Lemma py_range_step_NoDup (a b step : Z) : List.NoDup (py_range_step a b step).
Proof.
  unfold py_range_step. destruct (a <? b) eqn:E; cbn [andb]; [| constructor].
  destruct (Z.ltb_spec 0 step); [| constructor]. now apply range_from_NoDup.
Qed.

(** [x in range(a, b)] for the elements of [range(a, b, step)]. *)
Lemma py_range_step_In (a b step x : Z) :
  In x (py_range_step a b step) -> a <= x < b.
Proof.
  unfold py_range_step. destruct (Z.ltb_spec a b); cbn [andb]; [| intros []].
  destruct (Z.ltb_spec 0 step); [| intros []].
  intros Hx. apply range_from_In in Hx as (i & Hi & ->).
  assert (Hq : Z.of_nat i < (b - a + step - 1) / step) by lia.
  assert (Hd : step * ((b - a + step - 1) / step) <= b - a + step - 1)
    by (apply Z.mul_div_le; lia).
  nia.
Qed.

Lemma grid_cells_NoDup (cfg : config) : List.NoDup (grid_cells cfg).
Proof.
  unfold grid_cells.
  generalize (py_range_step_NoDup (snd (BIG_BOX_POSITION cfg))
                (snd (BIG_BOX_POSITION cfg) + BIG_BOX_HEIGHT cfg) 73).
  generalize (py_range_step_NoDup (fst (BIG_BOX_POSITION cfg))
                (fst (BIG_BOX_POSITION cfg) + BIG_BOX_WIDTH cfg) 52).
  generalize (py_range_step (fst (BIG_BOX_POSITION cfg))
                (fst (BIG_BOX_POSITION cfg) + BIG_BOX_WIDTH cfg) 52) as cols.
  generalize (py_range_step (snd (BIG_BOX_POSITION cfg))
                (snd (BIG_BOX_POSITION cfg) + BIG_BOX_HEIGHT cfg) 73) as rows.
  intros rows cols Hc Hr. induction rows as [|y rows IH]; cbn; [constructor |].
  inversion Hr as [|? ? Hy Hr']; subst.
  apply List.NoDup_app.
  - apply List.NoDup_map_NoDup_ForallPairs; [| exact Hc].
    intros x x' _ _ [= ->]. reflexivity.
  - now apply IH.
  - intros [y' x'] H1 H2. apply in_map_iff in H1 as (x & [= <- <-] & _).
    apply in_flat_map in H2 as (y2 & Hy2 & H2).
    apply in_map_iff in H2 as (x2 & [= <- <-] & _). contradiction.
Qed.

Lemma grid_cells_In (cfg : config) (c : Z * Z) :
  In c (grid_cells cfg) ->
  in_range (snd c) (fst (BIG_BOX_POSITION cfg))
           (fst (BIG_BOX_POSITION cfg) + BIG_BOX_WIDTH cfg) = true /\
  in_range (fst c) (snd (BIG_BOX_POSITION cfg))
           (snd (BIG_BOX_POSITION cfg) + BIG_BOX_HEIGHT cfg) = true.
Proof.
  unfold grid_cells. intros H. apply in_flat_map in H as (y & Hy & H).
  apply in_map_iff in H as (x & <- & Hx). cbn.
  apply py_range_step_In in Hy, Hx. unfold in_range.
  split; apply andb_true_intro; split; (apply Z.leb_le || apply Z.ltb_lt); lia.
Qed.

Lemma cell_eqb_eq (a b : Z * Z) : cell_eqb a b = true <-> a = b.
Proof.
  destruct a as [y x], b as [y' x']. unfold cell_eqb. cbn.
  rewrite andb_true_iff, !Z.eqb_eq. split; [intros [-> ->] | intros [= -> ->]]; auto.
Qed.

Lemma list_remove_cell (x : Z * Z) (l l' : list (Z * Z)) :
  List.NoDup l -> list_remove cell_eqb x l = Ok l' ->
  List.NoDup l' /\ (forall y, In y l' <-> In y l /\ y <> x).
Proof.
  revert l'. induction l as [|z l IH]; intros l' Hnd H; [discriminate |].
  inversion Hnd as [|? ? Hz Hnd']; subst. cbn in H.
  destruct (cell_eqb x z) eqn:E.
  - apply cell_eqb_eq in E. subst z. apply Ok_inj in H. subst l'.
    split; [exact Hnd' |]. intros y. cbn. split.
    + intros Hy. split; [now right | intros ->; contradiction].
    + intros [[<- | Hy] Hne]; [congruence | exact Hy].
  - destruct (list_remove cell_eqb x l) as [r|] eqn:Er; [| discriminate].
    cbn in H. apply Ok_inj in H. subst l'.
    destruct (IH r Hnd' eq_refl) as [Hr Hiff].
    assert (Hzx : z <> x).
    { intros ->. assert (cell_eqb x x = true) by now apply cell_eqb_eq. congruence. }
    split.
    + constructor; [| exact Hr]. intros Hin. apply Hiff in Hin. tauto.
    + intros y. cbn. rewrite Hiff. split.
      * intros [<- | [Hy Hne]]; [now split; [left |] | split; [now right | exact Hne]].
      * intros [[<- | Hy] Hne]; [now left | right; now split].
Qed.

Lemma list_remove_absent (x : Z * Z) (l : list (Z * Z)) :
  ~ In x l -> list_remove cell_eqb x l = Raise ValueError.
Proof.
  induction l as [|z l IH]; intros H; [reflexivity |]. cbn in H |- *.
  destruct (cell_eqb x z) eqn:E; [apply cell_eqb_eq in E; subst; tauto |].
  rewrite IH by tauto. reflexivity.
Qed.

Lemma list_remove_raises (x : Z * Z) (l : list (Z * Z)) (e : exn) :
  list_remove cell_eqb x l = Raise e -> e = ValueError.
Proof.
  induction l as [|z l IH]; cbn; [congruence |].
  destruct (cell_eqb x z); [discriminate |].
  destruct (list_remove cell_eqb x l); cbn; [discriminate |].
  intros [= <-]. now apply IH.
Qed.

Variable cfg : config.

Lemma remove_occupied_cons (o_k : string) (o_v : image_entry) (rest : dict image_entry)
    (empty_spaces : list (Z * Z)) :
  remove_occupied cfg ((o_k, o_v) :: rest) empty_spaces =
  if in_play_area cfg o_k o_v
  then do l <- list_remove cell_eqb (snd (img_pos o_v), fst (img_pos o_v)) empty_spaces;
       remove_occupied cfg rest l
  else remove_occupied cfg rest empty_spaces.
Proof. reflexivity. Qed.

Lemma remove_occupied_spec (images : dict image_entry) (es es' : list (Z * Z)) :
  List.NoDup es -> remove_occupied cfg images es = Ok es' ->
  List.NoDup es' /\
  (forall c, In c es' <->
     In c es /\
     forall k e, In (k, e) images -> in_play_area cfg k e = true ->
                 (snd (img_pos e), fst (img_pos e)) <> c).
Proof.
  revert es. induction images as [|[k0 e0] images IH]; intros es Hnd H.
  - cbn in H. apply Ok_inj in H. subst es'. split; [exact Hnd |].
    intros c. split; [intros Hc; split; [exact Hc | intros k e []] | tauto].
  - rewrite remove_occupied_cons in H.
    destruct (in_play_area cfg k0 e0) eqn:Ep.
    + destruct (list_remove cell_eqb (snd (img_pos e0), fst (img_pos e0)) es) as [l|] eqn:El;
        [| discriminate].
      cbn [rbind] in H. destruct (list_remove_cell _ _ _ Hnd El) as [Hl Hiff].
      destruct (IH l Hl H) as [Hnd' Hiff']. split; [exact Hnd' |].
      intros c. rewrite Hiff', Hiff. split.
      * intros [[Hc Hne] Hall]. split; [exact Hc |].
        intros k e [[= <- <-] | Hin] Hp; [congruence | now apply (Hall k e)].
      * intros [Hc Hall]. split; [split; [exact Hc |] |].
        -- intros ->. apply (Hall k0 e0); [now left | exact Ep | reflexivity].
        -- intros k e Hin. apply (Hall k e). now right.
    + destruct (IH es Hnd H) as [Hnd' Hiff']. split; [exact Hnd' |].
      intros c. rewrite Hiff'. split.
      * intros [Hc Hall]. split; [exact Hc |].
        intros k e [[= <- <-] | Hin] Hp; [congruence | now apply (Hall k e)].
      * intros [Hc Hall]. split; [exact Hc |]. intros k e Hin. apply (Hall k e). now right.
Qed.

Lemma remove_occupied_raises (images : dict image_entry) (es : list (Z * Z)) (e : exn) :
  remove_occupied cfg images es = Raise e -> e = ValueError.
Proof.
  revert es. induction images as [|[k0 e0] images IH]; intros es H; [discriminate |].
  rewrite remove_occupied_cons in H.
  destruct (in_play_area cfg k0 e0); [| now apply (IH es)].
  destruct (list_remove cell_eqb (snd (img_pos e0), fst (img_pos e0)) es) as [l|] eqn:El.
  - now apply (IH l).
  - cbn in H. injection H as <-. now apply (list_remove_raises _ _ _ El).
Qed.

(** A tile of the play area whose cell is not in the list. *)
Lemma remove_occupied_absent (images : dict image_entry) (es : list (Z * Z))
    (k : string) (e : image_entry) :
  In (k, e) images -> in_play_area cfg k e = true ->
  ~ In (snd (img_pos e), fst (img_pos e)) es -> List.NoDup es ->
  remove_occupied cfg images es = Raise ValueError.
Proof.
  intros Hin Hp. revert es.
  induction images as [|[k0 e0] images IH]; intros es Hout Hnd; [destruct Hin |].
  rewrite remove_occupied_cons. destruct Hin as [[= -> ->] | Hin].
  - rewrite Hp, list_remove_absent by exact Hout. reflexivity.
  - destruct (in_play_area cfg k0 e0); [| now apply IH].
    destruct (list_remove cell_eqb (snd (img_pos e0), fst (img_pos e0)) es) as [l|] eqn:El.
    + cbn [rbind]. destruct (list_remove_cell _ _ _ Hnd El) as [Hl Hiff].
      apply IH; [exact Hin | | exact Hl]. intros H. apply Hiff in H. tauto.
    + cbn. f_equal. now apply (list_remove_raises _ _ _ El).
Qed.

(** Two tiles of the play area on one cell, the second after the first. *)
Lemma remove_occupied_twice (pre post : dict image_entry) (es : list (Z * Z))
    (k1 k2 : string) (e1 e2 : image_entry) :
  in_play_area cfg k1 e1 = true -> in_play_area cfg k2 e2 = true ->
  img_pos e1 = img_pos e2 -> In (k2, e2) post -> List.NoDup es ->
  remove_occupied cfg (pre ++ (k1, e1) :: post) es = Raise ValueError.
Proof.
  intros Hp1 Hp2 Hpos Hin. revert es.
  induction pre as [|[k0 e0] pre IH]; intros es Hnd; cbn [app].
  - rewrite remove_occupied_cons, Hp1.
    destruct (list_remove cell_eqb (snd (img_pos e1), fst (img_pos e1)) es) as [l|] eqn:El.
    + cbn [rbind]. destruct (list_remove_cell _ _ _ Hnd El) as [Hl Hiff].
      apply (remove_occupied_absent post l k2 e2 Hin Hp2); [| exact Hl].
      rewrite <- Hpos. intros H. apply Hiff in H. tauto.
    + cbn. f_equal. now apply (list_remove_raises _ _ _ El).
  - rewrite remove_occupied_cons.
    destruct (in_play_area cfg k0 e0); [| now apply IH].
    destruct (list_remove cell_eqb (snd (img_pos e0), fst (img_pos e0)) es) as [l|] eqn:El.
    + cbn [rbind]. apply IH. now destruct (list_remove_cell _ _ _ Hnd El).
    + cbn. f_equal. now apply (list_remove_raises _ _ _ El).
Qed.

End Grid.

Lemma split_parity_raises (card_number : list ai_item) (e : exn) :
  split_parity card_number = Raise e -> e = ValueError.
Proof.
  induction card_number as [|it rest IH]; cbn; [discriminate |].
  unfold py_int. destruct (isdigit (ai_number (snd it))); cbn; [| congruence].
  destruct (split_parity rest) as [r|e']; cbn.
  - destruct (_ =? 0); discriminate.
  - intros [= <-]. now apply IH.
Qed.

(** X13: when two tiles are committed at one place of the play area,
    [calculate_empty_spaces] removes the cell of the first and raises
    [ValueError] at the second ([list.remove] of a cell that is no longer
    there); the turn of the opponent and [play_for_me] raise it too. *)
Theorem calculate_empty_spaces_overlap (cfg : config) (g : game) (k1 k2 : string)
    (e1 e2 : image_entry) :
  k1 <> k2 ->
  In (k1, e1) (image_database g) -> In (k2, e2) (image_database g) ->
  in_play_area cfg k1 e1 = true -> in_play_area cfg k2 e2 = true ->
  img_pos e1 = img_pos e2 ->
  calculate_empty_spaces cfg g = Raise ValueError /\
  (forall is_delete entropy, play_ai_turn cfg is_delete g entropy = Raise ValueError) /\
  play_for_me cfg g = Raises ValueError.
Proof.
  intros Hne H1 H2 Hp1 Hp2 Hpos.
  assert (Hcalc : calculate_empty_spaces cfg g = Raise ValueError).
  { unfold calculate_empty_spaces.
    destruct (in_split _ _ H1) as (l1 & l2 & Heq). rewrite Heq in H2 |- *.
    apply in_app_or in H2 as [H2 | [[= E _] | H2]]; [| congruence |].
    - destruct (in_split _ _ H2) as (l3 & l4 & ->). rewrite <- app_assoc. cbn [app].
      apply (remove_occupied_twice cfg l3 _ _ k2 k1 e2 e1); auto using grid_cells_NoDup.
      apply in_or_app. right. now left.
    - apply (remove_occupied_twice cfg l1 l2 _ k1 k2 e1 e2); auto using grid_cells_NoDup. }
  split; [exact Hcalc |]. split.
  - intros is_delete entropy. unfold play_ai_turn.
    destruct (ai_groups (PLAYER_2 g)) as [gs|e] eqn:Eg.
    + cbn [rbind]. now rewrite Hcalc.
    + cbn. f_equal. unfold ai_groups in Eg.
      destruct (split_parity (ai_card_number (PLAYER_2 g))) as [parts|e'] eqn:Es;
        [discriminate |].
      cbn in Eg. injection Eg as <-. now apply (split_parity_raises _ _ Es).
  - unfold play_for_me. now rewrite Hcalc.
Qed.

(** RED 5 and BLUE 5 on the first cell of the board. *)
Lemma calculate_empty_spaces_overlap_witness :
  calculate_empty_spaces example_config g_overlap = Raise ValueError.
Proof.
  apply (calculate_empty_spaces_overlap example_config g_overlap (tile 4 5) (tile 2 5)
           (mkImage (100, 50) 2) (mkImage (100, 50) 4)).
  - vm_compute. discriminate.
  - vm_compute. tauto.
  - vm_compute. tauto.
  - reflexivity.
  - reflexivity.
  - reflexivity.
Defined.

Lemma start_loop_In (empty_space : list (Z * Z)) (count : Z)
    (start_position : list (Z * Z)) (s : Z * Z) :
  In s (start_loop empty_space count start_position) ->
  In s start_position \/ (In s empty_space /\ In (fst s, snd s + 52) empty_space).
Proof.
  revert count start_position.
  induction empty_space as [|e rest IH]; intros count sp H; [now left |].
  destruct rest as [|e' rest']; [now left |].
  cbn [start_loop] in H.
  destruct ((fst e =? fst e') && (snd e + 52 =? snd e')) eqn:E.
  - apply andb_prop in E as [E1 E2]. apply Z.eqb_eq in E1, E2.
    assert (He : In s (sp ++ [e]) ->
                 In s sp \/ In s (e :: e' :: rest') /\ In (fst s, snd s + 52) (e :: e' :: rest')).
    { intros Hs. apply in_app_or in Hs as [Hs | [<- | []]]; [now left |].
      right. split; [now left |]. right. left. destruct e'. cbn in *. congruence. }
    destruct (count + 1 =? 5); [now apply He |].
    destruct (IH _ _ H) as [Hs | [Hs Hs']]; [now apply He |].
    right. split; now right.
  - destruct (IH _ _ H) as [[] | [Hs Hs']]. right. split; now right.
Qed.

(** The place that [play_ai_turn] and [play_for_me] compute from the first
    start position is a cell of the play area at which no tile is
    committed. *)
Lemma start_place_free (cfg : config) (g : game) (empty_space : list (Z * Z))
    (s0 : Z * Z) :
  calculate_empty_spaces cfg g = Ok empty_space ->
  head (start_loop empty_space 0 []) = Some s0 ->
  let c_x := if negb (snd s0 =? fst (BIG_BOX_POSITION cfg)) then snd s0 + 52 else snd s0 in
  In (fst s0, c_x) (grid_cells cfg) /\
  (forall k e, In (k, e) (image_database g) -> str_in "1-15" k = true ->
               img_pos e <> (c_x, fst s0)).
Proof.
  intros Hes Hs0 c_x. unfold calculate_empty_spaces in Hes.
  destruct (remove_occupied_spec cfg _ _ _ (grid_cells_NoDup cfg) Hes) as [_ Hiff].
  assert (Hin : In s0 (start_loop empty_space 0 [])).
  { destruct (start_loop empty_space 0 []); [discriminate |].
    cbn in Hs0. injection Hs0 as ->. now left. }
  apply start_loop_In in Hin as [[] | [Hs Hs']].
  assert (Hcell : In (fst s0, c_x) empty_space).
  { subst c_x.
    destruct (negb (snd s0 =? fst (BIG_BOX_POSITION cfg))); [exact Hs' |].
    now destruct s0. }
  apply Hiff in Hcell as [Hgrid Hfree]. split; [exact Hgrid |].
  intros k e Hk Ht Hpos. apply (Hfree k e Hk).
  - destruct (grid_cells_In cfg _ Hgrid) as [Hx Hy]. cbn [fst snd] in Hx, Hy.
    unfold in_play_area. rewrite Ht, Hpos. cbn [fst snd]. rewrite Hx, Hy. reflexivity.
  - now rewrite Hpos.
Qed.

(** ** [update_score] *)

Section Score.

Context {V : Type}.

Lemma filter_id {A : Type} (p : A -> bool) (l : list A) :
  (forall x, In x l -> p x = true) -> List.filter p l = l.
Proof.
  induction l as [|x l IH]; intros H; [reflexivity |]. cbn.
  rewrite (H x (or_introl eq_refl)). f_equal. apply IH. intros y Hy. apply H. now right.
Qed.

Lemma dict_del_filter (k : string) (d : dict V) :
  List.NoDup (dict_keys d) ->
  dict_del k d = List.filter (fun kv => negb (String.eqb k (fst kv))) d.
Proof.
  induction d as [|[k0 v0] d IH]; intros Hnd; [reflexivity |].
  cbn in Hnd. inversion Hnd as [|? ? Hk Hnd']; subst. cbn.
  destruct (String.eqb_spec k k0) as [-> | Hne]; cbn.
  - symmetry. apply filter_id. intros [k1 v1] Hin. cbn.
    destruct (String.eqb_spec k0 k1) as [-> | E]; [| reflexivity].
    exfalso. apply Hk. apply in_map_iff. now exists (k1, v1).
  - f_equal. now apply IH.
Qed.

Lemma filter_keys_NoDup (p : string * V -> bool) (d : dict V) :
  List.NoDup (dict_keys d) -> List.NoDup (dict_keys (List.filter p d)).
Proof.
  induction d as [|[k0 v0] d IH]; intros Hnd; [constructor |].
  cbn in Hnd. inversion Hnd as [|? ? Hk Hnd']; subst. cbn.
  destruct (p (k0, v0)); cbn; [| now apply IH].
  constructor; [| now apply IH]. intros Hin. apply Hk.
  apply in_map_iff in Hin as (x & <- & Hx). apply filter_In in Hx as [Hx _].
  now apply in_map.
Qed.

Lemma filter_filter {A : Type} (p q : A -> bool) (l : list A) :
  List.filter p (List.filter q l) = List.filter (fun x => q x && p x) l.
Proof.
  induction l as [|x l IH]; [reflexivity |]. cbn.
  destruct (q x); cbn; [destruct (p x); now rewrite IH | exact IH].
Qed.

Lemma fold_dict_del_filter (keys : list string) (d : dict V) :
  List.NoDup (dict_keys d) ->
  fold_left (fun d key => dict_del key d) keys d =
  List.filter (fun kv => negb (list_mem String.eqb (fst kv) keys)) d.
Proof.
  revert d. induction keys as [|key keys IH]; intros d Hnd; cbn [fold_left].
  - symmetry. now apply filter_id.
  - rewrite IH by now apply dict_keys_del_NoDup.
    rewrite dict_del_filter by exact Hnd. rewrite filter_filter.
    apply filter_ext. intros [k v]. cbn.
    rewrite (String.eqb_sym k key). now destruct (String.eqb key k).
Qed.

End Score.

(** X15: [update_score] takes out of [PLAYER_1] the tile keys whose rectangle
    is outside the rack area, keeps every other entry in its place, and
    changes nothing else. *)
Theorem update_score_filter (cfg : config) (rack_size : Z * Z) (rack_coordinates : rect)
    (g : game) :
  List.NoDup (dict_keys (PLAYER_1 g)) ->
  update_score cfg rack_size rack_coordinates g =
  with_PLAYER_1
    (List.filter (fun entry => negb (outside_rack cfg rack_size rack_coordinates (heap g) entry))
                 (PLAYER_1 g)) g.
Proof.
  intros Hnd. unfold update_score. f_equal.
  rewrite fold_dict_del_filter by exact Hnd.
  apply filter_ext_in. intros [k a] Hin. cbn [fst]. f_equal.
  destruct (outside_rack cfg rack_size rack_coordinates (heap g) (k, a)) eqn:Eo.
  - apply list_mem_string. apply in_map_iff. exists (k, a). split; [reflexivity |].
    apply filter_In. now split.
  - apply list_mem_string_not. intros H. apply in_map_iff in H as ([k' a'] & Hk & H).
    cbn in Hk. subst k'. apply filter_In in H as [H Ho].
    assert (a' = a).
    { apply dict_get_unique in H, Hin; try exact Hnd. congruence. }
    subst a'. congruence.
Qed.

(** The six tiles of [g_mixed] that are on the board leave the rack. *)
Lemma update_score_filter_witness :
  dict_keys (PLAYER_1 (update_score example_config (734, 73) (mkRect 273 574 734 73) g_mixed))
  = [tile 1 9].
Proof.
  rewrite (update_score_filter example_config (734, 73) (mkRect 273 574 734 73) g_mixed).
  - reflexivity.
  - vm_compute. repeat constructor; cbn; intuition discriminate.
Defined.

(** ** The number and the colour that the validation reads in a key *)

Section Cards.

Lemma substring_skip (p s : string) (i m : nat) :
  substring (String.length p + i) m (p ++ s) = substring i m s.
Proof.
  induction p as [|c p IH]; [reflexivity |].
  rewrite (append_cons c p). cbn [String.length Nat.add substring]. exact IH.
Qed.

Lemma slice_neg_app (a b : nat) (p s : string) :
  (a <= String.length s)%nat -> slice_neg a b (p ++ s) = slice_neg a b s.
Proof.
  intros Ha. unfold slice_neg. rewrite length_append.
  replace (String.length p + String.length s - a)%nat
    with (String.length p + (String.length s - a))%nat by lia.
  rewrite substring_skip. f_equal. lia.
Qed.

Lemma card_and_color_app (p s : string) :
  (8 <= String.length s)%nat -> card_and_color (p ++ s) = card_and_color s.
Proof.
  intros H. unfold card_and_color. now rewrite !slice_neg_app by lia.
Qed.

Lemma append_assoc (a b c : string) : ((a ++ b) ++ c)%string = (a ++ b ++ c)%string.
Proof.
  induction a as [|x a IH]; [reflexivity |].
  rewrite !(append_cons x). now rewrite IH.
Qed.

Lemma isdigit_str_of_nat (n : nat) : isdigit (str_of_nat n) = true.
Proof.
  pose proof (str_of_nat_nonempty n) as Hne. pose proof (str_of_nat_digits n) as Hd.
  unfold isdigit. destruct (str_of_nat n); [congruence | exact Hd].
Qed.

End Cards.

(** X16: in the key that a draw builds from the colour index [r0] (one
    digit) and the number [r1] (one or two digits), the slices of
    [check_logic] and [play_ai_turn] read the number as the card and the
    index of the colour, not its name, as the colour; [int] of the card is
    the number. *)
Theorem card_and_color_of_drawn_key (c : string) (r0 r1 : Z) :
  1 <= r0 <= 9 -> 1 <= r1 <= 99 ->
  card_and_color (tile_image_path c r0 r1) =
    (str_of_nat (Z.to_nat r1), str_of_nat (Z.to_nat r0)) /\
  py_int (fst (card_and_color (tile_image_path c r0 r1))) = Ok r1.
Proof.
  intros H0 H1.
  assert (Htable :
    forallb (fun n0 =>
      forallb (fun n1 =>
        let s := ("_" ++ str_of_nat n0 ++ "_" ++ str_of_nat n1 ++ ".png")%string in
        (8 <=? String.length s)%nat &&
        String.eqb (fst (card_and_color s)) (str_of_nat n1) &&
        String.eqb (snd (card_and_color s)) (str_of_nat n0))
      (seq 1 99)) (seq 1 9) = true) by (vm_compute; reflexivity).
  rewrite forallb_forall in Htable.
  specialize (Htable (Z.to_nat r0) ltac:(apply in_seq; lia)).
  rewrite forallb_forall in Htable.
  specialize (Htable (Z.to_nat r1) ltac:(apply in_seq; lia)).
  cbv zeta in Htable.
  apply andb_prop in Htable as [Htable E0]. apply andb_prop in Htable as [Hlen E1].
  apply Nat.leb_le in Hlen. apply String.eqb_eq in E0, E1.
  assert (Hcc : card_and_color (tile_image_path c r0 r1) =
                (str_of_nat (Z.to_nat r1), str_of_nat (Z.to_nat r0))).
  { replace (tile_image_path c r0 r1)
      with (((("images/tiles/1-15 " ++ c) ++ "/") ++ c) ++
            ("_" ++ str_of_nat (Z.to_nat r0) ++ "_" ++ str_of_nat (Z.to_nat r1) ++ ".png"))%string
      by (unfold tile_image_path; now rewrite !append_assoc).
    rewrite card_and_color_app by exact Hlen.
    rewrite (surjective_pairing (card_and_color _)). now rewrite E0, E1. }
  split; [exact Hcc |]. rewrite Hcc. cbn [fst]. unfold py_int.
  rewrite isdigit_str_of_nat, digits_value_str_of_nat. f_equal. lia.
Qed.

(** RED 12: the card is 12, the colour is the index 4. *)
Lemma card_and_color_of_drawn_key_witness :
  card_and_color (tile_image_path "RED" 4 12) = ("12", "4").
Proof.
  apply (card_and_color_of_drawn_key "RED" 4 12); lia.
Defined.

(** * More on the deal and the draws *)

(** ** The racks of the deal share no tile *)

Section Deal.

Variable cfg : config.
Variable tile_image_list : list (list string).

(** The index pairs a player accepts, and the keys they give. *)
Lemma deal_player_segment (fuel : nat) (players players' : dict addr) (d d' : deal)
    (entropy entropy' : list nat) (seg : list (Z * Z)) :
  deal_player fuel cfg tile_image_list players d entropy = Ok (players', d', entropy') ->
  dealt_from tile_image_list seg players -> List.NoDup (dict_keys players) ->
  exists more,
    random_tile_temp d' = random_tile_temp d ++ map index_string more /\
    dealt_from tile_image_list (seg ++ more) players' /\
    List.NoDup (dict_keys players').
Proof.
  revert players d entropy seg.
  induction fuel as [|fuel IH]; intros players d entropy seg H Hfrom Hnd.
  - cbn in H. destruct (Nat.eqb_spec (List.length players) 15); [| discriminate].
    injection H as <- <- <-. exists []. cbn. now rewrite !app_nil_r.
  - cbn [deal_player] in H.
    destruct (Nat.eqb_spec (List.length players) 15).
    { injection H as <- <- <-. exists []. cbn. now rewrite !app_nil_r. }
    destruct (randint 0 (Z.of_nat (List.length tile_image_list) - 1) entropy)
      as [[r0 e0]|]; [| discriminate]. cbn [rbind fst snd] in H.
    destruct (head tile_image_list) as [row0|]; [| discriminate].
    cbn [of_option rbind] in H.
    destruct (randint 1 (Z.of_nat (List.length row0)) e0) as [[r1 e1]|]; [| discriminate].
    cbn [rbind fst snd] in H.
    change (str_of_nat (Z.to_nat r0) +:+ str_of_nat (Z.to_nat r1))
      with (index_string (r0, r1)) in H.
    destruct (list_mem String.eqb (index_string (r0, r1)) (random_tile_temp d)) eqn:Em.
    { exact (IH _ _ _ _ H Hfrom Hnd). }
    destruct (nth_error tile_image_list (Z.to_nat r0)) as [row|] eqn:Erow; [| discriminate].
    cbn [of_option rbind] in H.
    destruct (nth_error row (Z.to_nat r1)) as [path|] eqn:Epath; [| discriminate].
    cbn [of_option rbind] in H.
    destruct (image_size cfg path) as [w h]. cbn [alloc] in H.
    apply (IH _ _ _ (seg ++ [(r0, r1)])) in H.
    + destruct H as (more & Htemp & Hfrom' & Hnd'). cbn in Htemp.
      exists ((r0, r1) :: more). rewrite <- app_assoc in Htemp, Hfrom'.
      now repeat split.
    + intros key Hkey. apply dict_keys_set_In in Hkey as [-> | Hkey].
      * exists (r0, r1). split; [apply in_or_app; right; now left |].
        unfold table_at. cbn. now rewrite Erow.
      * destruct (Hfrom key Hkey) as (rt & Hrt & Hat).
        exists rt. split; [apply in_or_app; now left | assumption].
    + now apply dict_keys_set_NoDup.
Qed.

Lemma deal_players_segments (players_database racks : list (dict addr)) (d d' : deal)
    (entropy entropy' : list nat) :
  deal_players cfg tile_image_list players_database d entropy = Ok (racks, d', entropy') ->
  Forall (fun players => players = []) players_database ->
  exists segs,
    random_tile_temp d' = random_tile_temp d ++ map index_string (concat segs) /\
    Forall2 (dealt_from tile_image_list) segs racks /\
    Forall (fun rack => List.NoDup (dict_keys rack)) racks.
Proof.
  revert racks d entropy.
  induction players_database as [|players rest IH]; intros racks d entropy H Hempty.
  - cbn in H. injection H as <- <- <-. exists []. cbn. rewrite app_nil_r.
    split; [reflexivity |]. split; constructor.
  - cbn [deal_players] in H.
    destruct (deal_player (S (List.length entropy)) cfg tile_image_list players d entropy)
      as [[[players' d1] e1]|] eqn:E1; [| discriminate].
    cbn [rbind] in H.
    destruct (deal_players cfg tile_image_list rest d1 e1) as [[[rest' d2] e2]|] eqn:E2;
      [| discriminate].
    cbn [rbind] in H. injection H as <- <- <-.
    inversion Hempty as [|? ? Hp Hrest]; subst.
    destruct (deal_player_segment _ _ _ _ _ _ _ [] E1) as (more & Ht1 & Hf1 & Hn1).
    { intros key []. }
    { constructor. }
    destruct (IH _ _ _ E2 Hrest) as (segs & Ht2 & Hf2 & Hn2).
    exists (more :: segs). cbn [concat]. rewrite map_app, app_assoc, <- Ht1.
    split; [exact Ht2 |]. split; constructor; assumption.
Qed.

End Deal.

Lemma table_at_once (tile_image_list : list (list string)) (i j : Z * Z) (key : string) :
  List.NoDup (concat tile_image_list) ->
  table_at tile_image_list i = Some key -> table_at tile_image_list j = Some key ->
  index_string i = index_string j.
Proof.
  intros Hnd Hi Hj. unfold table_at in Hi, Hj. unfold index_string.
  assert (H : Z.to_nat (fst i) = Z.to_nat (fst j) /\ Z.to_nat (snd i) = Z.to_nat (snd j)).
  { revert Hi Hj. generalize (Z.to_nat (fst i)) as a, (Z.to_nat (fst j)) as a',
      (Z.to_nat (snd i)) as b, (Z.to_nat (snd j)) as b'.
    clear i j. intros a a' b b'. revert a a'.
    induction tile_image_list as [|row rows IH]; intros a a' Hi Hj.
    { destruct a; discriminate. }
    cbn in Hnd. apply NoDup_app_inv in Hnd as (Hrow & Hrows & Hdisj).
    assert (Hconcat : forall n r m, nth_error rows n = Some r -> nth_error r m = Some key ->
                                    In key (concat rows)).
    { intros n r m Hn Hm. apply in_concat. exists r.
      split; [eapply nth_error_In; eauto | eapply nth_error_In; eauto]. }
    destruct a as [|a], a' as [|a']; cbn in Hi, Hj.
    - split; [reflexivity |].
      apply (proj1 (List.NoDup_nth_error row) Hrow); [| congruence].
      apply nth_error_Some. congruence.
    - exfalso. destruct (nth_error rows a') as [r|] eqn:Er; [| discriminate].
      apply (Hdisj key); [eapply nth_error_In; eauto | eapply Hconcat; eauto].
    - exfalso. destruct (nth_error rows a) as [r|] eqn:Er; [| discriminate].
      apply (Hdisj key); [eapply nth_error_In; eauto | eapply Hconcat; eauto].
    - destruct (IH Hrows a a' Hi Hj) as [-> ->]. now split. }
  destruct H as [-> ->]. reflexivity.
Qed.

Lemma Forall2_In_right {A B : Type} (R : A -> B -> Prop) (l : list A) (l' : list B) (y : B) :
  Forall2 R l l' -> In y l' -> exists x, In x l /\ R x y.
Proof.
  induction 1 as [|x y0 l l' HR _ IH]; intros Hin; [destruct Hin |].
  destruct Hin as [<- | Hin]; [exists x; split; [now left | exact HR] |].
  destruct (IH Hin) as (x' & Hx' & HR'). exists x'. split; [now right | exact HR'].
Qed.

Lemma racks_disjoint (tile_image_list : list (list string)) (segs : list (list (Z * Z)))
    (racks : list (dict addr)) :
  List.NoDup (concat tile_image_list) ->
  Forall2 (dealt_from tile_image_list) segs racks ->
  List.NoDup (map index_string (concat segs)) ->
  Forall (fun rack => List.NoDup (dict_keys rack)) racks ->
  List.NoDup (concat (map dict_keys racks)).
Proof.
  intros Htable Hf. induction Hf as [|seg rack segs racks Hfrom Hf IH]; intros Hnd Hracks;
    cbn; [constructor |].
  cbn in Hnd. rewrite map_app in Hnd. apply NoDup_app_inv in Hnd as (Hseg & Hsegs & Hdisj).
  inversion Hracks as [|? ? Hrack Hracks']; subst.
  apply List.NoDup_app; [exact Hrack | now apply IH |].
  intros key Hk Hk'. apply in_concat in Hk' as (keys & Hkeys & Hk').
  apply in_map_iff in Hkeys as (rack' & <- & Hrack').
  destruct (Forall2_In_right _ _ _ _ Hf Hrack') as (seg' & Hseg' & Hfrom').
  destruct (Hfrom key Hk) as (rt & Hrt & Hat), (Hfrom' key Hk') as (rt' & Hrt' & Hat').
  apply (Hdisj (index_string rt)); [now apply in_map |].
  rewrite (table_at_once _ rt rt' key Htable Hat Hat').
  apply in_map, in_concat. now exists seg'.
Qed.

(** X17: when every path is in the table once, a deal from empty racks that
    ends gives no tile to two players, and none twice to one: the keys of
    the racks, taken together, are pairwise different. *)
Theorem draw_initial_tiles_disjoint (cfg : config) (tile_image_list : list (list string))
    (players_database racks : list (dict addr)) (h : list rect) (d : deal)
    (entropy entropy' : list nat) :
  List.NoDup (concat tile_image_list) ->
  Forall (fun players => players = []) players_database ->
  draw_initial_tiles cfg tile_image_list players_database h entropy =
    Ok (racks, d, entropy') ->
  List.NoDup (concat (map dict_keys racks)).
Proof.
  intros Htable Hempty H. unfold draw_initial_tiles in H.
  destruct (deal_players_segments _ _ _ _ _ _ _ _ H Hempty) as (segs & Htemp & Hf & Hn).
  cbn in Htemp.
  apply deal_players_spec in H as (_ & _ & [_ Hnd] & _).
  - apply (racks_disjoint tile_image_list segs); auto.
    rewrite <- Htemp. now apply NoDup_ListNoDup.
  - split; cbn; [reflexivity | constructor].
  - eapply List.Forall_impl; [| exact Hempty]. intros players -> key [].
Qed.

(** The deal of thirty tiles to two players from the table of
    [example_config]. *)
Lemma draw_initial_tiles_disjoint_witness :
  match draw_initial_tiles example_config (TILES_IMAGES_PATHS example_config)
          [[]; []] [] example_entropy with
  | Ok (racks, _, _) => List.NoDup (concat (map dict_keys racks))
  | Raise _ => False
  end.
Proof.
  destruct (draw_initial_tiles example_config (TILES_IMAGES_PATHS example_config)
              [[]; []] [] example_entropy) as [[[racks d] e]|err] eqn:E.
  - apply (draw_initial_tiles_disjoint example_config (TILES_IMAGES_PATHS example_config)
             [[]; []] racks [] d example_entropy e); [| repeat constructor | exact E].
    apply keys_unique_NoDup. vm_compute. reflexivity.
  - vm_compute in E. discriminate.
Defined.

(** ** The rollback, done twice *)

Lemma rollback_loop_fixed (images : dict image_entry) (items : dict addr) (h : list rect) :
  (forall k a, In (k, a) items -> is_tile k = true ->
     exists e, dict_get k images = Some e /\
               rx (rect_at a h) = fst (img_pos e) /\ ry (rect_at a h) = snd (img_pos e)) ->
  rollback_loop images items h = Ok h.
Proof.
  induction items as [|[k a] items IH]; intros H; [reflexivity |].
  cbn [rollback_loop]. fold (is_tile k).
  destruct (is_tile k) eqn:Et.
  - destruct (H k a (or_introl eq_refl) Et) as (e & -> & Hx & Hy). cbn [of_option rbind].
    rewrite set_xy_same by assumption. apply IH. intros k' a' Hin. apply H. now right.
  - apply IH. intros k' a' Hin. apply H. now right.
Qed.

(** X18: the rollback is idempotent: on the state that a rollback leaves, a
    second rollback changes nothing. *)
Theorem rollback_idempotent (g g1 : game) :
  well_formed g = true -> rollback g = Ok g1 -> rollback g1 = Ok g1.
Proof.
  intros Hwf H. unfold rollback in H.
  destruct (rollback_loop (image_database g) (game_object_database g) (heap g))
    as [h1|] eqn:E; [| discriminate].
  cbn in H. injection H as <-.
  apply rollback_loop_spec in E; [| now apply well_formed_addrs |].
  2:{ intros k a Hin. apply (well_formed_valid g k a Hwf).
      apply dict_get_unique; [now apply well_formed_keys | assumption]. }
  destruct E as (_ & _ & _ & Hitems).
  unfold rollback. cbn [image_database game_object_database heap with_heap].
  rewrite rollback_loop_fixed; [reflexivity |].
  intros k a Hin Ht. specialize (Hitems k a Hin). now rewrite Ht in Hitems.
Qed.

(** The six tiles of [g_mixed] go back to the rack, once. *)
Lemma rollback_idempotent_witness :
  match rollback g_mixed with
  | Ok g1 => rollback g1 = Ok g1 /\ position_of (tile 4 5) g1 = Some (278, 574)
  | Raise _ => False
  end.
Proof.
  destruct (rollback g_mixed) as [g1|] eqn:E; [| vm_compute in E; discriminate].
  split.
  - exact (rollback_idempotent g_mixed g1 ltac:(vm_compute; reflexivity) E).
  - vm_compute in E. injection E as <-. reflexivity.
Defined.

(** ** A rack that is too long *)

Lemma dict_set_length {V : Type} (k : string) (v : V) (d : dict V) :
  (List.length d <= List.length (dict_set k v d))%nat.
Proof.
  induction d as [|[k0 v0] d IH]; cbn; [lia |].
  destruct (String.eqb k k0); cbn; lia.
Qed.

Lemma deal_player_overfull (fuel : nat) (cfg : config) (tile_image_list : list (list string))
    (players : dict addr) (d : deal) (entropy : list nat) :
  (15 < List.length players)%nat ->
  exists e, deal_player fuel cfg tile_image_list players d entropy = Raise e.
Proof.
  revert players d entropy. induction fuel as [|fuel IH]; intros players d entropy H.
  - cbn. destruct (Nat.eqb_spec (List.length players) 15); [lia | eauto].
  - cbn [deal_player]. destruct (Nat.eqb_spec (List.length players) 15); [lia |].
    destruct (randint 0 _ entropy) as [[r0 e0]|]; [| cbn; eauto]. cbn [rbind fst snd].
    destruct (head tile_image_list) as [row0|]; [| cbn; eauto]. cbn [of_option rbind].
    destruct (randint 1 _ e0) as [[r1 e1]|]; [| cbn; eauto]. cbn [rbind fst snd].
    destruct (list_mem String.eqb _ (random_tile_temp d)); [now apply IH |].
    destruct (nth_error tile_image_list (Z.to_nat r0)) as [row|]; [| cbn; eauto].
    cbn [of_option rbind].
    destruct (nth_error row (Z.to_nat r1)) as [path|]; [| cbn; eauto].
    cbn [of_option rbind]. destruct (image_size cfg path) as [w h]. cbn [alloc].
    apply IH. pose proof (dict_set_length path (List.length (deal_heap d)) players). lia.
Qed.

(** X19: the loop of the deal stops at exactly 15 tiles only: with a player
    who holds more than 15 tiles, [draw_initial_tiles] never returns,
    whatever the random numbers are. *)
Theorem draw_initial_tiles_overfull (cfg : config) (tile_image_list : list (list string))
    (players_database : list (dict addr)) (h : list rect) (entropy : list nat) :
  Exists (fun players => (15 < List.length players)%nat) players_database ->
  exists e, draw_initial_tiles cfg tile_image_list players_database h entropy = Raise e.
Proof.
  unfold draw_initial_tiles. generalize (mkDeal h [] []) as d. revert entropy.
  induction players_database as [|players rest IH]; intros entropy d H;
    [inversion H |].
  cbn [deal_players].
  destruct (deal_player (S (List.length entropy)) cfg tile_image_list players d entropy)
    as [[[players' d1] e1]|e] eqn:E1; [| cbn; eauto].
  cbn [rbind]. inversion H as [? ? Hlong | ? ? Hrest]; subst.
  - destruct (deal_player_overfull (S (List.length entropy)) cfg tile_image_list
                players d entropy Hlong) as [e He]. congruence.
  - destruct (IH e1 d1 Hrest) as [e He]. rewrite He. cbn. eauto.
Qed.

(** A rack of sixteen tiles. *)
Lemma draw_initial_tiles_overfull_witness :
  exists e,
    draw_initial_tiles example_config (TILES_IMAGES_PATHS example_config)
      [example_rack (map (fun n => (1%nat, n)) (seq 1 16))] [] example_entropy = Raise e.
Proof.
  apply (draw_initial_tiles_overfull example_config (TILES_IMAGES_PATHS example_config)
           [example_rack (map (fun n => (1%nat, n)) (seq 1 16))] [] example_entropy).
  constructor. vm_compute. lia.
Defined.

(** ** The tiles of the opponent on the board *)

Section AiCommit.

Variable player_2 : dict addr.

Hypothesis rects_once : List.NoDup (map snd player_2).

Lemma rects_apart (k k' : string) (a : addr) :
  In (k, a) player_2 -> In (k', a) player_2 -> k = k'.
Proof.
  revert rects_once.
  induction player_2 as [|[k0 a0] p IH]; intros Hnd H H'; [destruct H |].
  cbn in Hnd. inversion Hnd as [|? ? Hnotin Hnd']; subst.
  destruct H as [H | H], H' as [H' | H'].
  - congruence.
  - exfalso. apply Hnotin. injection H as _ ->. apply in_map_iff. now exists (k', a).
  - exfalso. apply Hnotin. injection H' as _ ->. apply in_map_iff. now exists (k, a).
  - now apply IH.
Qed.

Lemma place_tile_committed (v : ai_item) (c_x c_y : Z) (g : game) (keys : list string) :
  In (fst v, ai_value (snd v)) player_2 ->
  ai_committed player_2 keys g ->
  ai_committed player_2 (keys ++ [fst v]) (place_tile v c_x c_y g).
Proof.
  intros Hv [Hvalid Hkeys]. split.
  - intros k a Hin. cbn. rewrite set_xy_length. now apply (Hvalid k a).
  - assert (Hnew : exists a p,
              In (fst v, a) player_2 /\
              dict_get (fst v) (game_object_database (place_tile v c_x c_y g)) = Some a /\
              dict_get (fst v) (image_database (place_tile v c_x c_y g)) = Some (mkImage p a) /\
              (rx (rect_at a (heap (place_tile v c_x c_y g))),
               ry (rect_at a (heap (place_tile v c_x c_y g)))) = p).
    { exists (ai_value (snd v)), (c_x, c_y). cbn.
      rewrite !dict_get_set_eq, rect_at_set_xy_eq by now apply (Hvalid (fst v)).
      now repeat split. }
    intros k Hk. destruct (string_dec k (fst v)) as [-> | Hne]; [exact Hnew |].
    apply in_app_or in Hk as [Hk | [E | []]]; [| congruence].
    destruct (Hkeys k Hk) as (a & p & Hin & Hg & Hi & Hp).
    exists a, p. cbn. rewrite !dict_get_set_ne by congruence.
    rewrite rect_at_set_xy_ne; [now repeat split |].
    intros E. rewrite E in Hv. apply Hne. now apply (rects_apart k (fst v) a).
Qed.

Lemma place_group_committed (value : list ai_item) (c_x c_y : Z) (g : game)
    (keys keys_to_delete : list string) :
  (forall t, In t value -> In (fst t, ai_value (snd t)) player_2) ->
  ai_committed player_2 keys g ->
  ai_committed player_2 (keys ++ map fst value)
               (snd (fst (place_group value c_x c_y g keys_to_delete))).
Proof.
  revert c_x g keys keys_to_delete.
  induction value as [|v value IH]; intros c_x g keys kd Hval Hc; cbn [place_group].
  - cbn. now rewrite app_nil_r.
  - cbn [map]. replace (keys ++ fst v :: map fst value)
      with ((keys ++ [fst v]) ++ map fst value) by now rewrite <- app_assoc.
    apply IH; [intros t Ht; apply Hval; now right |].
    apply place_tile_committed; [apply Hval; now left | exact Hc].
Qed.

Lemma place_groups_committed (groups : dict (list ai_item)) (c_x c_y : Z) (g : game)
    (keys keys_to_delete : list string) (flag : bool) :
  (forall c l t, In (c, l) groups -> In t l -> In (fst t, ai_value (snd t)) player_2) ->
  ai_committed player_2 keys g ->
  ai_committed player_2
    (keys ++ concat (map (map fst) (List.filter playable (map snd groups))))
    (snd (fst (fst (place_groups groups c_x c_y g keys_to_delete flag)))).
Proof.
  revert c_x g keys keys_to_delete flag.
  induction groups as [|[c value] groups IH]; intros c_x g keys kd flag Hg Hc;
    cbn [place_groups map List.filter snd].
  - cbn. now rewrite app_nil_r.
  - destruct (playable value).
    + pose proof (place_group_committed value c_x c_y g keys kd
                    (fun t Ht => Hg c value t (or_introl eq_refl) Ht) Hc) as H1.
      destruct (place_group value c_x c_y g kd) as [[c1 g1] keys1].
      cbn [fst snd] in H1. cbn [map concat]. rewrite app_assoc.
      apply IH; [intros c' l t Hin; apply (Hg c' l t); now right | exact H1].
    + apply IH; [intros c' l t Hin; apply (Hg c' l t); now right | exact Hc].
Qed.

End AiCommit.

Lemma forallb_negb_filter {A : Type} (p : A -> bool) (l : list A) :
  forallb (fun v => negb (p v)) l = true -> List.filter p l = [].
Proof.
  induction l as [|x l IH]; [reflexivity |]. cbn.
  intros H. apply andb_prop in H as [Hx Hl]. apply negb_true_iff in Hx.
  rewrite Hx. now apply IH.
Qed.

(** X20: the tiles that a turn of the opponent puts on the board leave its
    rack, and each of them is committed where the turn puts it, whatever
    the melds are: its position is its committed position, with no
    validation. *)
Theorem play_ai_turn_commits (cfg : config) (g g' : game) (entropy entropy' : list nat)
    (melds : list (list ai_item)) :
  List.NoDup (dict_keys (PLAYER_2 g)) ->
  List.NoDup (map snd (PLAYER_2 g)) ->
  (forall k a, In (k, a) (PLAYER_2 g) -> (a < List.length (heap g))%nat) ->
  ai_melds (PLAYER_2 g) = Ok melds -> melds <> [] ->
  play_ai_turn cfg true g entropy = Ok (g', entropy') ->
  forall k, In k (concat (map (map fst) melds)) ->
    dict_mem k (PLAYER_2 g') = false /\
    exists p, position_of k g' = Some p /\ snapshot_of k g' = Some p.
Proof.
  intros Hkeys Hrects Hvalid Hmelds Hne H k Hk.
  unfold ai_melds in Hmelds. unfold play_ai_turn in H.
  destruct (ai_groups (PLAYER_2 g)) as [[evens odds]|] eqn:Eg; [| discriminate].
  cbn [rbind fst snd] in H, Hmelds. apply Ok_inj in Hmelds.
  destruct (calculate_empty_spaces cfg g) as [es|]; [| discriminate]. cbn [rbind] in H.
  destruct (head (start_loop es 0 [])) as [s0|]; [| discriminate].
  cbn [of_option rbind] in H.
  set (c_x := if negb (snd s0 =? fst (BIG_BOX_POSITION cfg)) then snd s0 + 52 else snd s0) in H.
  assert (Hgroup : forall groups, groups = evens \/ groups = odds ->
            forall c l t, In (c, l) groups -> In t l ->
                          In (fst t, ai_value (snd t)) (PLAYER_2 g)).
  { intros groups Hgr c l t Hin Ht.
    assert (Hside : In (c, l) evens \/ In (c, l) odds)
      by (destruct Hgr as [-> | ->]; [now left | now right]).
    destruct (ai_groups_spec _ _ _ _ _ Eg Hside) as (Hmem & _).
    destruct (Hmem t Ht) as [Hc _]. now apply ai_card_number_In in Hc as [Hc _]. }
  pose proof (place_groups_spec evens c_x (fst s0) g [] true) as S1.
  pose proof (place_groups_committed (PLAYER_2 g) Hrects evens c_x (fst s0) g [] [] true
                (Hgroup evens (or_introl eq_refl))) as C1.
  destruct (place_groups evens c_x (fst s0) g [] true) as [[[c1 g1] keys1] f1].
  destruct S1 as (-> & -> & _ & Hp1 & _). cbn [fst snd] in C1.
  specialize (C1 (conj Hvalid (fun k0 (H0 : In k0 []) => False_ind _ H0))).
  pose proof (place_groups_spec odds c1 (fst s0) g1
                ([] ++ concat (map (map fst) (List.filter playable (map snd evens)))) true)
    as S2.
  pose proof (place_groups_committed (PLAYER_2 g) Hrects odds c1 (fst s0) g1
                ([] ++ concat (map (map fst) (List.filter playable (map snd evens))))
                ([] ++ concat (map (map fst) (List.filter playable (map snd evens)))) true
                (Hgroup odds (or_intror eq_refl)) C1) as C2.
  destruct (place_groups odds c1 (fst s0) g1 _ true) as [[[c2 g2] keys2] f2].
  destruct S2 as (-> & -> & _ & Hp2 & _). cbn [fst snd] in C2.
  assert (Hall : concat (map (map fst) melds) =
                 ([] ++ concat (map (map fst) (List.filter playable (map snd evens)))) ++
                 concat (map (map fst) (List.filter playable (map snd odds)))).
  { subst melds. now rewrite map_app, concat_app. }
  rewrite <- Hall in *.
  destruct (true && forallb (fun value => negb (playable value)) (map snd evens) &&
            (true && forallb (fun value => negb (playable value)) (map snd odds))) eqn:Ef.
  { exfalso. apply Hne. cbn [andb] in Ef. apply andb_prop in Ef as [E1 E2].
    subst melds. now rewrite (forallb_negb_filter _ _ E1), (forallb_negb_filter _ _ E2). }
  injection H as <- <-. split.
  - cbn [PLAYER_2 with_PLAYER_2]. rewrite Hp2, Hp1.
    destruct (delete_keys_spec (concat (map (map fst) melds)) (PLAYER_2 g) Hkeys) as [_ Hiff].
    destruct (dict_mem k (delete_keys (concat (map (map fst) melds)) (PLAYER_2 g))) eqn:Em;
      [| reflexivity].
    apply dict_mem_keys, Hiff in Em. tauto.
  - destruct C2 as [_ C2]. destruct (C2 k Hk) as (a & p & _ & Hg & Hi & Hp).
    exists p. unfold position_of, snapshot_of. cbn [game_object_database image_database
      heap with_PLAYER_2]. now rewrite Hg, Hi, Hp.
Qed.

(** YELLOW 2, 8 and 14 of [g_spaced] go to the board. *)
Lemma play_ai_turn_commits_witness :
  match play_ai_turn example_config true g_spaced [] with
  | Ok (g', _) =>
      dict_mem (tile 5 8) (PLAYER_2 g') = false /\
      exists p, position_of (tile 5 8) g' = Some p /\ snapshot_of (tile 5 8) g' = Some p
  | Raise _ => False
  end.
Proof.
  destruct (play_ai_turn example_config true g_spaced []) as [[g' e']|] eqn:E;
    [| vm_compute in E; discriminate].
  apply (play_ai_turn_commits example_config g_spaced g' [] e'
           [[(tile 5 2, mkAiCard "2" "5" 3); (tile 5 8, mkAiCard "8" "5" 4);
             (tile 5 14, mkAiCard "14" "5" 5)]]).
  - apply keys_unique_NoDup. vm_compute. reflexivity.
  - vm_compute. repeat constructor; cbn; lia.
  - intros k a Hin. vm_compute in Hin |- *.
    repeat (destruct Hin as [[= <- <-] | Hin]; [lia |]). destruct Hin.
  - vm_compute. reflexivity.
  - discriminate.
  - exact E.
  - vm_compute. tauto.
Defined.

(** ** The draw of the player *)

Section RackDraw.

Lemma place_group_get (value : list ai_item) (c_x c_y : Z) (g : game)
    (keys_to_delete : list string) (k : string) :
  ~ In k (map fst value) ->
  dict_get k (game_object_database (snd (fst (place_group value c_x c_y g keys_to_delete))))
  = dict_get k (game_object_database g).
Proof.
  revert c_x g keys_to_delete.
  induction value as [|v value IH]; intros c_x g kd Hk; [reflexivity |].
  cbn [place_group]. cbn in Hk. rewrite IH by tauto.
  cbn. apply dict_get_set_ne. tauto.
Qed.

Lemma place_groups_get (groups : dict (list ai_item)) (c_x c_y : Z) (g : game)
    (keys_to_delete : list string) (flag : bool) (k : string) :
  (forall c l t, In (c, l) groups -> In t l -> fst t <> k) ->
  dict_get k (game_object_database
                (snd (fst (fst (place_groups groups c_x c_y g keys_to_delete flag)))))
  = dict_get k (game_object_database g).
Proof.
  revert c_x g keys_to_delete flag.
  induction groups as [|[c value] groups IH]; intros c_x g kd flag Hk; [reflexivity |].
  cbn [place_groups].
  assert (Hrest : forall c' l t, In (c', l) groups -> In t l -> fst t <> k)
    by (intros c' l t Hin; apply (Hk c' l t); now right).
  destruct (playable value); [| now apply IH].
  pose proof (place_group_get value c_x c_y g kd k) as H1.
  destruct (place_group value c_x c_y g kd) as [[c1 g1] keys1]. cbn [fst snd] in H1.
  rewrite IH by exact Hrest. apply H1.
  intros Hin. apply in_map_iff in Hin as (t & Ht & Hin).
  now apply (Hk c value t (or_introl eq_refl) Hin).
Qed.

Lemma place_group_image (value : list ai_item) (c_x c_y : Z) (g : game)
    (keys_to_delete : list string) (k : string) :
  ~ In k (map fst value) ->
  dict_get k (image_database (snd (fst (place_group value c_x c_y g keys_to_delete))))
  = dict_get k (image_database g).
Proof.
  revert c_x g keys_to_delete.
  induction value as [|v value IH]; intros c_x g kd Hk; [reflexivity |].
  cbn [place_group]. cbn in Hk. rewrite IH by tauto.
  cbn. apply dict_get_set_ne. tauto.
Qed.

Lemma place_groups_image (groups : dict (list ai_item)) (c_x c_y : Z) (g : game)
    (keys_to_delete : list string) (flag : bool) (k : string) :
  (forall c l t, In (c, l) groups -> In t l -> fst t <> k) ->
  dict_get k (image_database
                (snd (fst (fst (place_groups groups c_x c_y g keys_to_delete flag)))))
  = dict_get k (image_database g).
Proof.
  revert c_x g keys_to_delete flag.
  induction groups as [|[c value] groups IH]; intros c_x g kd flag Hk; [reflexivity |].
  cbn [place_groups].
  assert (Hrest : forall c' l t, In (c', l) groups -> In t l -> fst t <> k)
    by (intros c' l t Hin; apply (Hk c' l t); now right).
  destruct (playable value); [| now apply IH].
  pose proof (place_group_image value c_x c_y g kd k) as H1.
  destruct (place_group value c_x c_y g kd) as [[c1 g1] keys1]. cbn [fst snd] in H1.
  rewrite IH by exact Hrest. apply H1.
  intros Hin. apply in_map_iff in Hin as (t & Ht & Hin).
  now apply (Hk c value t (or_introl eq_refl) Hin).
Qed.

Lemma load_image_at_image (cfg : config) (path : string) (coordinates : Z * Z)
    (g g1 : game) (r : addr) :
  load_image_at cfg path coordinates g = (r, g1) ->
  snapshot_of path g1 = Some coordinates /\
  forall k, k <> path -> dict_get k (image_database g1) = dict_get k (image_database g).
Proof.
  unfold load_image_at. destruct (image_size cfg path) as [w h].
  destruct (alloc _ (heap g)) as [image_rect h1].
  destruct (alloc _ h1) as [returned h2].
  intros [= <- <-]. unfold snapshot_of. cbn. split.
  - now rewrite dict_get_set_eq.
  - intros k Hk. now apply dict_get_set_ne.
Qed.

Lemma add_tile_to_ai_frame (cfg : config) (g g' : game) (entropy entropy' : list nat) :
  add_tile_to_ai cfg g entropy = Ok (g', entropy') ->
  game_object_database g' = game_object_database g /\
  PLAYER_1 g' = PLAYER_1 g /\ IMG_PATHS g' = IMG_PATHS g /\
  (forall k, dict_mem k (game_object_database g) = true ->
             dict_get k (image_database g') = dict_get k (image_database g)).
Proof.
  unfold add_tile_to_ai. intros H.
  destruct (ai_draw_loop _ cfg g entropy) as [[path e]|]; [| discriminate].
  cbn [rbind] in H.
  destruct (negb (dict_mem path (PLAYER_2 g)) && negb (dict_mem path (PLAYER_1 g)) &&
            negb (dict_mem path (game_object_database g))) eqn:Efree.
  - destruct (load_image_at cfg path (0, 0) g) as [r g1] eqn:El.
    destruct (load_image_at_keys _ _ _ _ _ _ El) as (Hg & H1 & _ & Hi).
    destruct (load_image_at_image _ _ _ _ _ _ El) as (_ & Himg).
    injection H as <- <-. cbn. repeat split; auto.
    intros k Hk. apply Himg. intros ->.
    apply andb_prop in Efree as [_ Efree]. apply negb_true_iff in Efree. congruence.
  - injection H as <- <-. now repeat split.
Qed.

(** What the turn of the opponent leaves alone. *)
Lemma play_ai_turn_frame (cfg : config) (is_delete : bool) (g g' : game)
    (entropy entropy' : list nat) :
  play_ai_turn cfg is_delete g entropy = Ok (g', entropy') ->
  PLAYER_1 g' = PLAYER_1 g /\ IMG_PATHS g' = IMG_PATHS g /\
  (forall k, ~ In k (dict_keys (PLAYER_2 g)) ->
             dict_get k (game_object_database g') = dict_get k (game_object_database g)) /\
  (forall k, ~ In k (dict_keys (PLAYER_2 g)) ->
             dict_mem k (game_object_database g) = true ->
             dict_get k (image_database g') = dict_get k (image_database g)).
Proof.
  intros H. unfold play_ai_turn in H.
  destruct (ai_groups (PLAYER_2 g)) as [[evens odds]|] eqn:Eg; [| discriminate].
  cbn [rbind fst snd] in H.
  destruct (calculate_empty_spaces cfg g) as [es|]; [| discriminate]. cbn [rbind] in H.
  destruct (head (start_loop es 0 [])) as [s0|]; [| discriminate].
  cbn [of_option rbind] in H.
  set (c_x := if negb (snd s0 =? fst (BIG_BOX_POSITION cfg)) then snd s0 + 52 else snd s0) in H.
  assert (Hgroup : forall k, ~ In k (dict_keys (PLAYER_2 g)) ->
            forall groups, groups = evens \/ groups = odds ->
            forall c l t, In (c, l) groups -> In t l -> fst t <> k).
  { intros k Hk groups Hgr c l t Hin Ht <-. apply Hk.
    assert (Hside : In (c, l) evens \/ In (c, l) odds)
      by (destruct Hgr as [-> | ->]; [now left | now right]).
    destruct (ai_groups_spec _ _ _ _ _ Eg Hside) as (Hmem & _).
    destruct (Hmem t Ht) as [Hc _]. apply ai_card_number_In in Hc as [Hc _].
    apply in_map_iff. now exists (fst t, ai_value (snd t)). }
  pose proof (place_groups_spec evens c_x (fst s0) g [] true) as S1.
  pose proof (fun k => place_groups_get evens c_x (fst s0) g [] true k) as G1.
  pose proof (fun k => place_groups_image evens c_x (fst s0) g [] true k) as M1.
  destruct (place_groups evens c_x (fst s0) g [] true) as [[[c1 g1] keys1] f1].
  destruct S1 as (-> & -> & Hq1 & _ & Hi1). cbn [fst snd] in G1, M1.
  pose proof (place_groups_spec odds c1 (fst s0) g1
                ([] ++ concat (map (map fst) (List.filter playable (map snd evens)))) true)
    as S2.
  pose proof (fun k => place_groups_get odds c1 (fst s0) g1
                ([] ++ concat (map (map fst) (List.filter playable (map snd evens)))) true k)
    as G2.
  pose proof (fun k => place_groups_image odds c1 (fst s0) g1
                ([] ++ concat (map (map fst) (List.filter playable (map snd evens)))) true k)
    as M2.
  destruct (place_groups odds c1 (fst s0) g1 _ true) as [[[c2 g2] keys2] f2].
  destruct S2 as (-> & -> & Hq2 & _ & Hi2). cbn [fst snd] in G2, M2.
  match type of H with
  | (if _ then add_tile_to_ai cfg ?g3 _ else _) = _ =>
      assert (H3 : PLAYER_1 g3 = PLAYER_1 g /\ IMG_PATHS g3 = IMG_PATHS g /\
                   game_object_database g3 = game_object_database g2 /\
                   image_database g3 = image_database g2)
        by (destruct is_delete; cbn; repeat split; congruence);
      set (g3' := g3) in *
  end.
  destruct H3 as (H31 & H3i & H3g & H3m).
  assert (Hget : forall k, ~ In k (dict_keys (PLAYER_2 g)) ->
            dict_get k (game_object_database g3') = dict_get k (game_object_database g)).
  { intros k Hk. rewrite H3g, G2, G1; [reflexivity | |].
    - apply (Hgroup k Hk evens). now left.
    - apply (Hgroup k Hk odds). now right. }
  assert (Himg : forall k, ~ In k (dict_keys (PLAYER_2 g)) ->
            dict_get k (image_database g3') = dict_get k (image_database g)).
  { intros k Hk. rewrite H3m, M2, M1; [reflexivity | |].
    - apply (Hgroup k Hk evens). now left.
    - apply (Hgroup k Hk odds). now right. }
  destruct (true && forallb (fun value => negb (playable value)) (map snd evens) &&
            (true && forallb (fun value => negb (playable value)) (map snd odds))).
  - destruct (add_tile_to_ai_frame _ _ _ _ _ H) as (Hg & H1 & Hi & Hm).
    rewrite H1, Hi, Hg. repeat split; auto.
    intros k Hk Hmem. rewrite Hm; [now apply Himg |].
    unfold dict_mem in *. now rewrite Hget.
  - injection H as <- <-. repeat split; auto.
Qed.

(** The path the loop ends with is in none of the three collections. *)
Lemma rack_draw_loop_free (fuel : nat) (cfg : config) (rack_size : Z * Z) (last_y : Z)
    (pos pos' : Z * Z) (g : game) (entropy entropy' : list nat) (path : string) :
  rack_draw_loop fuel cfg rack_size last_y pos g entropy = Ok (path, pos', entropy') ->
  list_mem String.eqb path (IMG_PATHS g) = false /\
  dict_mem path (PLAYER_2 g) = false /\
  dict_mem path (game_object_database g) = false.
Proof.
  revert pos entropy. induction fuel as [|fuel IH]; intros pos entropy; cbn; [discriminate |].
  destruct (random_tile_path cfg entropy) as [[[[r0 r1] p] e]|]; cbn; [| discriminate].
  destruct (if fst pos >? fst rack_size + 273 then _ else _) as [pos1|]; cbn; [| discriminate].
  destruct (list_mem String.eqb p (IMG_PATHS g)) eqn:E1; cbn [orb]; [apply IH |].
  destruct (dict_mem p (PLAYER_2 g)) eqn:E2; cbn [orb]; [apply IH |].
  destruct (dict_mem p (game_object_database g)) eqn:E3; [apply IH |].
  intros [= <- <- <-]. auto.
Qed.

(** The place the loop ends with is the place of its first round. *)
Lemma rack_draw_loop_place (fuel : nat) (cfg : config) (rack_size : Z * Z) (last_y : Z)
    (pos pos' : Z * Z) (g : game) (entropy entropy' : list nat) (path : string) :
  rack_draw_loop fuel cfg rack_size last_y pos g entropy = Ok (path, pos', entropy') ->
  if fst pos >? fst rack_size + 273
  then exists rack,
         dict_get "brown_rack_image_tile1" (game_object_database g) = Some rack /\
         pos' = (rx (rect_at rack (heap g)) + 10, last_y + snd rack_size)
  else pos' = pos.
Proof.
  revert pos entropy. induction fuel as [|fuel IH]; intros pos entropy; cbn; [discriminate |].
  destruct (random_tile_path cfg entropy) as [[[[r0 r1] p] e]|]; cbn; [| discriminate].
  destruct (fst pos >? fst rack_size + 273) eqn:Efar.
  - destruct (dict_get "brown_rack_image_tile1" (game_object_database g)) as [rack|];
      cbn; [| discriminate].
    destruct (list_mem String.eqb p (IMG_PATHS g) || _ || _).
    + intros H. apply IH in H. cbn [fst] in H. exists rack. split; [reflexivity |].
      destruct (rx (rect_at rack (heap g)) + 10 >? fst rack_size + 273).
      * destruct H as (rack' & [= <-] & ->). reflexivity.
      * exact H.
    + intros [= <- <- <-]. now exists rack.
  - cbn. destruct (list_mem String.eqb p (IMG_PATHS g) || _ || _).
    + intros H. apply IH in H. now rewrite Efar in H.
    + now intros [= <- <- <-].
Qed.

Lemma rack_draw_loop_path (fuel : nat) (cfg : config) (rack_size : Z * Z) (last_y : Z)
    (pos pos' : Z * Z) (g : game) (entropy entropy' : list nat) (path : string) :
  rack_draw_loop fuel cfg rack_size last_y pos g entropy = Ok (path, pos', entropy') ->
  exists c r0 r1, In c color_names /\ 1 <= r0 /\ 1 <= r1 /\ path = tile_image_path c r0 r1.
Proof.
  revert pos entropy. induction fuel as [|fuel IH]; intros pos entropy; cbn; [discriminate |].
  destruct (random_tile_path cfg entropy) as [[[[r0 r1] p] e]|] eqn:E; cbn; [| discriminate].
  destruct (random_tile_path_spec _ _ _ _ _ _ E) as (H0 & H1 & c & Hc & ->).
  destruct (if fst pos >? fst rack_size + 273 then _ else _) as [pos1|]; cbn; [| discriminate].
  destruct (list_mem String.eqb _ (IMG_PATHS g) || _ || _); [apply IH |].
  intros [= <- <- <-]. exists c, r0, r1.
  split; [exact (List.nth_error_In _ _ Hc) | repeat split; lia].
Qed.

End RackDraw.

(** X21: a draw of the player that returns has computed a place for the
    new tile: right of the last tile of the rack or, beyond
    [rack_size[0] + 273], at the start of the second row. If the place is
    left of [rack_size[0] + 273] and the rack has a height, the draw has
    built a key that was in none of [IMG_PATHS], [PLAYER_2] and
    [game_object_database], has put it in [IMG_PATHS] and, with one
    rectangle for both, in [PLAYER_1] and in [game_object_database], and
    has committed it at that place. If not, the state is what it was. *)
Theorem add_tile_to_rack_outcome (cfg : config) (rack_size : Z * Z) (g g' : game)
    (entropy entropy' : list nat) :
  add_tile_to_rack cfg rack_size g entropy = Ok (g', entropy') ->
  exists pos,
    new_tile_place rack_size g = Some pos /\
    if (fst pos <? fst rack_size + 273) && (0 <? snd rack_size)
    then exists path r,
           drawn_key path /\
           ~ In path (IMG_PATHS g) /\
           dict_mem path (PLAYER_2 g) = false /\
           dict_mem path (game_object_database g) = false /\
           IMG_PATHS g' = IMG_PATHS g ++ [path] /\
           PLAYER_1 g' = dict_set path r (PLAYER_1 g) /\
           dict_get path (game_object_database g') = Some r /\
           snapshot_of path g' = Some pos
    else g' = g.
Proof.
  intros H. unfold add_tile_to_rack in H. unfold new_tile_place.
  destruct (List.last (map Some (PLAYER_1 g)) None) as [last|]; [| discriminate].
  cbn [of_option rbind] in H.
  destruct (rack_draw_loop _ cfg rack_size _ _ g entropy) as [[[path pos] e1]|] eqn:Ed;
    [| discriminate].
  cbn [rbind] in H.
  exists pos. split.
  { apply rack_draw_loop_place in Ed. cbn [fst snd] in Ed.
    destruct (rx (rect_at last.2 (heap g)) + 52 + 10 >? rack_size.1 + 273).
    - destruct Ed as (rack & -> & ->). reflexivity.
    - now rewrite Ed. }
  assert (Hy : (pos.2 <? pos.2 + rack_size.2 * 2) = (0 <? rack_size.2)).
  { destruct (Z.ltb_spec (pos.2) (pos.2 + rack_size.2 * 2)),
      (Z.ltb_spec 0 (rack_size.2)); try reflexivity; lia. }
  rewrite Hy in H.
  destruct (list_mem String.eqb path (IMG_PATHS g)) eqn:Himg.
  { destruct (rack_draw_loop_free _ _ _ _ _ _ _ _ _ _ Ed) as (Hf & _). congruence. }
  destruct (dict_mem path (PLAYER_2 g)) eqn:Hp2.
  { destruct (rack_draw_loop_free _ _ _ _ _ _ _ _ _ _ Ed) as (_ & Hf & _). congruence. }
  destruct (dict_mem path (game_object_database g)) eqn:Hgdb.
  { destruct (rack_draw_loop_free _ _ _ _ _ _ _ _ _ _ Ed) as (_ & _ & Hf). congruence. }
  cbn [negb] in H. rewrite !andb_true_r in H.
  destruct ((pos.1 <? rack_size.1 + 273) && (0 <? rack_size.2)) eqn:Es.
  2:{ now injection H as <- <-. }
  destruct (load_image_at cfg path pos g) as [r g1] eqn:El.
  destruct (load_image_at_keys _ _ _ _ _ _ El) as (Hg1 & Hq1 & Hr1 & Hi1).
  destruct (load_image_at_image _ _ _ _ _ _ El) as (Hsnap & _).
  destruct (play_ai_turn_frame _ _ _ _ _ _ H) as (HP1 & HI & Hget & Hm).
  cbn [PLAYER_1 PLAYER_2 IMG_PATHS game_object_database image_database with_heap]
    in HP1, HI, Hget, Hm.
  assert (Hnot2 : ~ In path (dict_keys (PLAYER_2 g1))).
  { rewrite Hr1. intros Hin. apply dict_mem_keys in Hin. congruence. }
  exists path, r.
  split.
  { destruct (rack_draw_loop_path _ _ _ _ _ _ _ _ _ _ Ed) as (c & r0 & r1 & Hc & H0 & H1 & ->).
    exists c, r0, r1. repeat split; auto; lia. }
  split; [now apply list_mem_string_not |].
  split; [exact Hp2 |]. split; [exact Hgdb |].
  split; [now rewrite HI, Hi1 |]. split; [now rewrite HP1, Hq1 |].
  split.
  - rewrite Hget by exact Hnot2. apply dict_get_set_eq.
  - unfold snapshot_of. rewrite Hm; [exact Hsnap | exact Hnot2 |].
    unfold dict_mem. now rewrite dict_get_set_eq.
Qed.

(** The player of [g_draw] draws BLACK 1, which goes right of BLACK 9. *)
Lemma add_tile_to_rack_outcome_witness :
  match add_tile_to_rack example_config (724, 73) g_draw [0; 0; 0; 1]%nat with
  | Ok (g', _) =>
      exists path r,
        drawn_key path /\ ~ In path (IMG_PATHS g_draw) /\
        dict_mem path (PLAYER_2 g_draw) = false /\
        dict_mem path (game_object_database g_draw) = false /\
        IMG_PATHS g' = IMG_PATHS g_draw ++ [path] /\
        PLAYER_1 g' = dict_set path r (PLAYER_1 g_draw) /\
        dict_get path (game_object_database g') = Some r /\
        snapshot_of path g' = Some (340, 574)
  | Raise _ => False
  end.
Proof.
  destruct (add_tile_to_rack example_config (724, 73) g_draw [0; 0; 0; 1]%nat)
    as [[g' e']|] eqn:E.
  - destruct (add_tile_to_rack_outcome example_config (724, 73) g_draw g' _ e' E)
      as (pos & Hplace & H).
    vm_compute in Hplace. injection Hplace as <-.
    exact H.
  - vm_compute in E. discriminate.
Defined.

(** * The deal that returns *)

Section DealReturns.

Variable cfg : config.
Variable tile_image_list : list (list string).

Lemma randint_cons (a b : Z) (v : nat) (rest : list nat) :
  randint a b (v :: rest) =
  match randint a b [v] with
  | Ok (r, _) => Ok (r, rest)
  | Raise e => Raise e
  end.
Proof. unfold randint. now destruct (b <? a). Qed.

(** A pair that is accepted is not in [random_tile_temp]. *)
Lemma fresh_pairs_not_seen (pairs : list (Z * Z)) (seen : list string) (p : Z * Z) :
  In p (fresh_pairs seen pairs) -> ~ In (index_string p) seen.
Proof.
  revert seen. induction pairs as [|q pairs IH]; intros seen Hin; [destruct Hin |].
  cbn [fresh_pairs] in Hin.
  destruct (list_mem String.eqb (index_string q) seen) eqn:Em; [now apply IH |].
  destruct Hin as [<- | Hin].
  - now apply list_mem_string_not.
  - intros Hs. apply (IH _ Hin). apply in_or_app. now left.
Qed.

Lemma firstn_In {A : Type} (n : nat) (l : list A) (x : A) :
  In x (firstn n l) -> In x l.
Proof.
  revert l. induction n as [|n IH]; intros [|y l]; cbn; try tauto.
  intros [-> | H]; [now left | right; now apply IH].
Qed.

Lemma firstn_add {A : Type} (n m : nat) (l : list A) :
  firstn (n + m) l = firstn n l ++ firstn m (skipn n l).
Proof.
  revert l. induction n as [|n IH]; intros l; [reflexivity |].
  destruct l as [|x l]; cbn; [now destruct m | now rewrite IH].
Qed.

Lemma dict_set_new_length {V : Type} (k : string) (v : V) (d : dict V) :
  ~ In k (dict_keys d) -> List.length (dict_set k v d) = S (List.length d).
Proof.
  intros H. rewrite dict_set_fresh.
  - rewrite length_app. cbn. lia.
  - destruct (dict_get k d) eqn:E; [| reflexivity].
    exfalso. apply H. apply dict_get_In in E. apply in_map_iff. now exists (k, v0).
Qed.

(** The loop for one player ends when the entropy list holds, among the
    pairs it gives, as many accepted pairs as the rack lacks, each at a
    path of the table that the rack does not hold. *)
Lemma deal_player_total (fuel : nat) (players : dict addr) (d : deal)
    (entropy : list nat) (k : nat) :
  List.NoDup (concat tile_image_list) ->
  (List.length entropy < fuel)%nat ->
  (List.length players + k = 15)%nat ->
  (k <= List.length (fresh_pairs (random_tile_temp d) (pairs_of tile_image_list entropy)))%nat ->
  (forall p, In p (firstn k (fresh_pairs (random_tile_temp d)
                                         (pairs_of tile_image_list entropy))) ->
     exists path, table_at tile_image_list p = Some path /\ ~ In path (dict_keys players)) ->
  exists players' d' entropy',
    deal_player fuel cfg tile_image_list players d entropy = Ok (players', d', entropy') /\
    dealt_indices d' =
      dealt_indices d ++ firstn k (fresh_pairs (random_tile_temp d)
                                               (pairs_of tile_image_list entropy)) /\
    fresh_pairs (random_tile_temp d') (pairs_of tile_image_list entropy') =
      skipn k (fresh_pairs (random_tile_temp d) (pairs_of tile_image_list entropy)).
Proof.
  intros Hnd. revert players d entropy k.
  induction fuel as [|fuel IH]; intros players d entropy k Hfuel Hk Hlen Hat; [lia |].
  cbn [deal_player].
  destruct (Nat.eqb_spec (List.length players) 15) as [E15 | E15].
  { assert (k = 0%nat) as -> by lia. exists players, d, entropy.
    cbn [firstn skipn]. now rewrite app_nil_r. }
  destruct k as [|k]; [lia |].
  destruct entropy as [|v0 [|v1 rest]]; try (cbn in Hlen; lia).
  cbn [pairs_of] in Hlen, Hat |- *.
  rewrite (randint_cons _ _ v0).
  destruct (randint 0 (Z.of_nat (List.length tile_image_list) - 1) [v0])
    as [[d0 e0]|] eqn:E0; [| cbn in Hlen; lia].
  cbn [rbind fst snd].
  assert (Hhead : head tile_image_list = Some (hd [] tile_image_list)).
  { destruct tile_image_list as [|row0 rows]; [| reflexivity].
    cbn in E0. discriminate. }
  rewrite Hhead. cbn [of_option rbind].
  rewrite (randint_cons _ _ v1).
  destruct (randint 1 (Z.of_nat (List.length (hd [] tile_image_list))) [v1])
    as [[d1 e1]|] eqn:E1; [| cbn in Hlen; lia].
  cbn [rbind fst snd].
  change (str_of_nat (Z.to_nat d0) +:+ str_of_nat (Z.to_nat d1))
    with (index_string (d0, d1)).
  cbn [fresh_pairs] in Hlen, Hat |- *.
  destruct (list_mem String.eqb (index_string (d0, d1)) (random_tile_temp d)) eqn:Em.
  { apply IH; auto. cbn in Hfuel. lia. }
  cbn [firstn skipn List.length] in Hlen, Hat |- *.
  destruct (Hat (d0, d1) (or_introl eq_refl)) as (path & Hpath & Hnew).
  unfold table_at in Hpath. cbn [fst snd] in Hpath.
  destruct (nth_error tile_image_list (Z.to_nat d0)) as [row|] eqn:Erow; [| discriminate].
  cbn [of_option rbind]. rewrite Hpath. cbn [of_option rbind].
  destruct (image_size cfg path) as [w h]. cbn [alloc].
  set (d1' := mkDeal _ _ _).
  destruct (IH (dict_set path (List.length (deal_heap d)) players) d1' rest k)
    as (players' & d' & entropy' & Hrun & Hidx & Hrest).
  - cbn in Hfuel. lia.
  - rewrite dict_set_new_length by exact Hnew. lia.
  - subst d1'. cbn [random_tile_temp]. lia.
  - subst d1'. cbn [random_tile_temp]. intros p Hp.
    destruct (Hat p (or_intror Hp)) as (path' & Hpath' & Hnew').
    exists path'. split; [exact Hpath' |].
    intros Hin. apply dict_keys_set_In in Hin as [-> | Hin]; [| now apply Hnew'].
    apply firstn_In, fresh_pairs_not_seen in Hp. apply Hp.
    apply in_or_app. right. left.
    apply (table_at_once tile_image_list (d0, d1) p path Hnd); [| exact Hpath'].
    unfold table_at. cbn [fst snd]. now rewrite Erow.
  - exists players', d', entropy'. split; [exact Hrun |]. split.
    + rewrite Hidx. subst d1'. cbn [dealt_indices random_tile_temp].
      now rewrite <- app_assoc.
    + rewrite Hrest. reflexivity.
Qed.

Lemma deal_players_total (players_database : list (dict addr)) (d : deal)
    (entropy : list nat) :
  List.NoDup (concat tile_image_list) ->
  Forall (fun players => players = []) players_database ->
  (15 * List.length players_database <=
   List.length (fresh_pairs (random_tile_temp d) (pairs_of tile_image_list entropy)))%nat ->
  (forall p, In p (firstn (15 * List.length players_database)
                          (fresh_pairs (random_tile_temp d)
                                       (pairs_of tile_image_list entropy))) ->
             table_at tile_image_list p <> None) ->
  exists racks d' entropy',
    deal_players cfg tile_image_list players_database d entropy = Ok (racks, d', entropy') /\
    dealt_indices d' =
      dealt_indices d ++ firstn (15 * List.length players_database)
                                (fresh_pairs (random_tile_temp d)
                                             (pairs_of tile_image_list entropy)).
Proof.
  intros Hnd Hempty. revert d entropy.
  induction Hempty as [|players rest -> _ IH]; intros d entropy Hlen Hat.
  { exists [], d, entropy. cbn. now rewrite app_nil_r. }
  cbn [deal_players List.length] in *.
  set (fresh := fresh_pairs (random_tile_temp d) (pairs_of tile_image_list entropy)) in *.
  match type of Hlen with
  | (?n <= _)%nat =>
      assert (E : n = (15 + 15 * @List.length (dict addr) rest)%nat) by lia;
      rewrite E in Hlen, Hat |- *; clear E
  end.
  rewrite firstn_add in Hat |- *.
  destruct (deal_player_total (S (List.length entropy)) [] d entropy 15 Hnd)
    as (players' & d1 & e1 & Hrun & Hidx & Hrest).
  { lia. }
  { reflexivity. }
  { fold fresh. lia. }
  { fold fresh. intros p Hp.
    destruct (table_at tile_image_list p) as [path|] eqn:E.
    - exists path. split; [reflexivity | intros []].
    - exfalso. apply (Hat p); [apply in_or_app; now left | exact E]. }
  fold fresh in Hidx, Hrest. rewrite Hrun. cbn [rbind].
  destruct (IH d1 e1) as (racks & d' & entropy' & Hrun' & Hidx').
  - rewrite Hrest, length_skipn. lia.
  - rewrite Hrest. intros p Hp. apply Hat. apply in_or_app. now right.
  - rewrite Hrun'. cbn [rbind]. exists (players' :: racks), d', entropy'.
    split; [reflexivity |]. now rewrite Hidx', Hidx, Hrest, <- app_assoc.
Qed.

End DealReturns.

(** C10 (amended): a deal from empty racks over a table in which every
    path is once returns when the random numbers give, for every player,
    15 index pairs that the loop accepts (a pair drawn before is drawn
    again) and that are inside the table. It then has given every player
    exactly 15 tiles, at the accepted pairs, which are pairwise distinct
    across all players. *)
Theorem draw_initial_tiles_deal (cfg : config) (tile_image_list : list (list string))
    (players_database : list (dict addr)) (h : list rect) (entropy : list nat) :
  let accepted :=
    firstn (15 * List.length players_database)
           (fresh_pairs [] (pairs_of tile_image_list entropy)) in
  Forall (fun players => players = []) players_database ->
  List.NoDup (concat tile_image_list) ->
  List.length accepted = (15 * List.length players_database)%nat ->
  forallb (fun p => match table_at tile_image_list p with
                    | Some _ => true
                    | None => false
                    end) accepted = true ->
  exists racks d entropy',
    draw_initial_tiles cfg tile_image_list players_database h entropy =
      Ok (racks, d, entropy') /\
    List.length racks = List.length players_database /\
    Forall (fun rack => List.length rack = 15%nat) racks /\
    dealt_indices d = accepted /\
    NoDup (dealt_indices d) /\
    Forall (dealt_from tile_image_list (dealt_indices d)) racks.
Proof.
  intros accepted Hempty Hnd Hlen Hin.
  destruct (deal_players_total cfg tile_image_list players_database (mkDeal h [] []) entropy
              Hnd Hempty) as (racks & d & entropy' & Hrun & Hidx).
  - cbn [random_tile_temp]. fold accepted in Hlen.
    pose proof (firstn_le_length (15 * List.length players_database)
                  (fresh_pairs [] (pairs_of tile_image_list entropy))) as Hle.
    subst accepted. rewrite length_firstn in Hlen. lia.
  - cbn [random_tile_temp]. intros p Hp. rewrite forallb_forall in Hin.
    specialize (Hin p Hp). now destruct (table_at tile_image_list p).
  - exists racks, d, entropy'. split; [exact Hrun |].
    destruct (deal_that_returns cfg tile_image_list players_database racks h d
                entropy entropy') as (H1 & H2 & H3 & _ & H5).
    + apply forallb_forall. intros players Hp.
      rewrite List.Forall_forall in Hempty. now rewrite (Hempty players Hp).
    + exact Hrun.
    + repeat split; assumption.
Qed.

(** A deal to two players: the entropy gives [(1, 1)] to [(1, 15)], then
    [(2, 1)] to [(2, 15)]. *)
Lemma draw_initial_tiles_deal_witness :
  exists racks d entropy',
    draw_initial_tiles example_config (TILES_IMAGES_PATHS example_config)
      [[]; []] [] example_entropy = Ok (racks, d, entropy') /\
    Forall (fun rack => List.length rack = 15%nat) racks /\
    dealt_indices d = map (fun n => (1, Z.of_nat n)) (seq 1 15) ++
                      map (fun n => (2, Z.of_nat n)) (seq 1 15).
Proof.
  destruct (draw_initial_tiles_deal example_config (TILES_IMAGES_PATHS example_config)
              [[]; []] [] example_entropy) as (racks & d & e & Hrun & _ & H15 & Hidx & _).
  - repeat constructor.
  - apply keys_unique_NoDup. vm_compute. reflexivity.
  - vm_compute. reflexivity.
  - vm_compute. reflexivity.
  - exists racks, d, e. split; [exact Hrun |]. split; [exact H15 |].
    rewrite Hidx. vm_compute. reflexivity.
Defined.

(** C10, as stated, fails: over the table of one row with one path the
    only index pair is [(0, 1)], which is outside the table, and the deal
    raises [IndexError]. *)
Lemma deal_over_short_table :
  ~ deals_fifteen example_config [["only"]] [[]; []] [0; 0]%nat.
Proof.
  intros H.
  assert (Hraise : draw_initial_tiles example_config [["only"]] [[]; []] [] [0; 0]%nat
                   = Raise IndexError) by (vm_compute; reflexivity).
  destruct H as (racks & d & e & Hrun & _).
  - discriminate.
  - repeat constructor.
  - rewrite Hraise. discriminate.
  - rewrite Hraise in Hrun. discriminate.
Qed.

(** * The tiles in play: the invariant *)

Section Held.

Variable cfg : config.








(** ** [on_board] *)






(** ** The tiles in play of a sound state *)






(** ** [grows] *)




End Held.


(** * The pass of [check_logic] and the tiles in play *)

Section PassHeld.

Variable cfg : config.














End PassHeld.

(** * The turn of the opponent and the tiles in play *)

Section TurnHeld.

Variable cfg : config.



Lemma snapshot_set_eq (key : string) (e : image_entry) (g : game) :
  snapshot_of key (with_image_database (dict_set key e (image_database g)) g)
  = Some (img_pos e).
Proof. unfold snapshot_of. cbn. now rewrite dict_get_set_eq. Qed.


(** ** The tiles the opponent puts down *)









End TurnHeld.

(** * The draw of the player, [play_for_me] and the moves *)

Section PlayerHeld.

Variable cfg : config.



(** ** [play_for_me] *)






End PlayerHeld.

(** * The rearrangements of the rack *)

Section ArrangeHeld.

Variable cfg : config.
Variable lay : layout.









End ArrangeHeld.

(** * Conservation of the tiles *)









(** The tiles that a pass rolls back after [update_score] has taken them
    out of [PLAYER_1] are in no rack and not on the board: on [g_all_out]
    RED 1 is in play before [check_logic] and not after, and the state is
    no longer sound. *)
Lemma rolled_back_tiles_leave_play :
  sound_b example_config g_all_out = true /\
  In (tile 4 1) (tiles_in_play example_config g_all_out) /\
  exists g',
    check_logic example_config g_all_out [] = Ok (g', []) /\
    leaves_accepted_b example_config g_all_out g' = false /\
    ~ In (tile 4 1) (tiles_in_play example_config g') /\
    sound_b example_config g' = false.
Proof.
  split; [vm_compute; reflexivity |]. split; [vm_compute; tauto |].
  eexists. split; [vm_compute; reflexivity |].
  split; [vm_compute; reflexivity |]. split; [| vm_compute; reflexivity].
  vm_compute. intros H. repeat (destruct H as [H | H]; [discriminate |]). exact H.
Qed.

(** * Where the opponent starts *)

Section FirstPlace.

Lemma group_append_perm (k : string) (t : ai_item) (d : dict (list ai_item)) :
  Permutation (concat (map snd (group_append k t d))) (t :: concat (map snd d)).
Proof.
  induction d as [|[k0 l0] d IH]; cbn; [reflexivity |].
  destruct (String.eqb k k0); cbn.
  - rewrite <- app_assoc. cbn. symmetry. apply Permutation_middle.
  - rewrite IH. symmetry. apply Permutation_middle.
Qed.

Lemma group_fold_perm (todo : list ai_item) (acc : dict (list ai_item)) :
  Permutation
    (concat (map snd (fold_left (fun d tile => group_append (ai_color (snd tile)) tile d)
                                todo acc)))
    (todo ++ concat (map snd acc)).
Proof.
  revert acc. induction todo as [|x l IH]; intros acc; cbn [fold_left app];
    [reflexivity |].
  rewrite IH, group_append_perm. symmetry. apply Permutation_middle.
Qed.

Lemma sorted_groups_perm (d : dict (list ai_item)) :
  Permutation
    (concat (map snd (map (fun kv => (fst kv, py_sorted number_leb (snd kv))) d)))
    (concat (map snd d)).
Proof.
  induction d as [|[k l] d IH]; cbn; [reflexivity |].
  apply Permutation_app; [apply py_sorted_perm | exact IH].
Qed.

Lemma group_tiles_by_integer_perm (tile_list : list ai_item) :
  Permutation (concat (map snd (group_tiles_by_integer tile_list))) tile_list.
Proof.
  unfold group_tiles_by_integer.
  rewrite sorted_groups_perm, group_fold_perm. cbn. now rewrite app_nil_r.
Qed.

Lemma split_parity_perm (card_number evens odds : list ai_item) :
  split_parity card_number = Ok (evens, odds) -> Permutation (evens ++ odds) card_number.
Proof.
  revert evens odds. induction card_number as [|it rest IH]; intros evens odds H; cbn in H.
  - injection H as <- <-. reflexivity.
  - destruct (py_int (ai_number (snd it))) as [n|]; [| discriminate].
    cbn in H. destruct (split_parity rest) as [[ev od]|]; [| discriminate].
    cbn in H. specialize (IH ev od eq_refl).
    destruct (n mod 2 =? 0); injection H as <- <-.
    + cbn. now constructor.
    + rewrite <- IH. symmetry. apply Permutation_middle.
Qed.

Lemma ai_card_number_keys (player_2 : dict addr) :
  map fst (ai_card_number player_2) = dict_keys player_2.
Proof.
  unfold ai_card_number, dict_keys. rewrite map_map. apply map_ext.
  intros [k a]. cbn. now destruct (card_and_color k).
Qed.

(** The groups of the two parities hold every key of the rack once. *)
Lemma ai_groups_once (player_2 : dict addr) (evens odds : dict (list ai_item)) :
  List.NoDup (dict_keys player_2) ->
  ai_groups player_2 = Ok (evens, odds) ->
  List.NoDup (concat (map (map fst) (map snd evens)) ++
              concat (map (map fst) (map snd odds))).
Proof.
  intros Hnd H. unfold ai_groups in H.
  destruct (split_parity (ai_card_number player_2)) as [[ev od]|] eqn:Es; [| discriminate].
  cbn [rbind fst snd] in H. injection H as <- <-.
  rewrite <- !concat_map, <- map_app.
  apply (Permutation_NoDup (l := map fst (ai_card_number player_2))).
  - apply Permutation_map. symmetry.
    rewrite !group_tiles_by_integer_perm, !py_sorted_perm.
    now apply split_parity_perm.
  - now rewrite ai_card_number_keys.
Qed.

Lemma place_tile_snapshot (v : ai_item) (c_x c_y : Z) (g : game) :
  snapshot_of (fst v) (place_tile v c_x c_y g) = Some (c_x, c_y).
Proof. unfold snapshot_of, place_tile. cbn. now rewrite dict_get_set_eq. Qed.

(** The first tile of the first group that is put down is committed where
    the loop starts. *)
Lemma place_groups_first (groups : dict (list ai_item)) (c_x c_y : Z) (g : game)
    (keys : list string) (flag : bool) (t : ai_item) (rest : list ai_item) :
  head (List.filter playable (map snd groups)) = Some (t :: rest) ->
  List.NoDup (concat (map (map fst) (map snd groups))) ->
  snapshot_of (fst t) (snd (fst (fst (place_groups groups c_x c_y g keys flag))))
  = Some (c_x, c_y).
Proof.
  revert g keys flag. induction groups as [|[c value] groups IH]; intros g keys flag;
    cbn [map snd List.filter place_groups concat]; [discriminate |].
  intros Hhd Hnd. apply NoDup_app_inv in Hnd as (Hv & Hrest & Hdis).
  destruct (playable value); [| now apply IH].
  cbn [head] in Hhd. injection Hhd as ->. cbn [place_group].
  pose proof (place_group_image rest (c_x + 52) c_y (place_tile t c_x c_y g)
                (keys ++ [fst t]) (fst t)) as Hg.
  destruct (place_group rest (c_x + 52) c_y (place_tile t c_x c_y g) (keys ++ [fst t]))
    as [[c1 g1] keys1].
  cbn [fst snd] in Hg.
  pose proof (place_groups_image groups (c1 + 52) c_y g1 keys1 false (fst t)) as Hgs.
  destruct (place_groups groups (c1 + 52) c_y g1 keys1 false) as [[[c2 g2] keys2] f2].
  cbn [fst snd] in Hgs |- *.
  unfold snapshot_of. rewrite Hgs, Hg.
  - exact (place_tile_snapshot t c_x c_y g).
  - cbn [map] in Hv. now inversion Hv.
  - intros c' l u Hl Hu Heq. apply (Hdis (fst t)); [now left |].
    apply in_concat. exists (map fst l). split.
    + apply in_map. apply in_map_iff. now exists (c', l).
    + rewrite <- Heq. now apply in_map.
Qed.

End FirstPlace.

(** X14: in a turn of the opponent that puts melds down, the first tile of
    the first meld is committed at the place the start position gives: one
    cell right of the first start position [[y, x]], or at that position
    when it is at the left edge of the play area. The place is a cell of
    the grid, and no tile was committed there before the turn. *)
Theorem play_ai_turn_first_place (cfg : config) (is_delete : bool) (g g' : game)
    (entropy entropy' : list nat) (t : ai_item) (rest : list ai_item)
    (more : list (list ai_item)) (empty_space : list (Z * Z)) (s0 : Z * Z) :
  List.NoDup (dict_keys (PLAYER_2 g)) ->
  ai_melds (PLAYER_2 g) = Ok ((t :: rest) :: more) ->
  calculate_empty_spaces cfg g = Ok empty_space ->
  head (start_loop empty_space 0 []) = Some s0 ->
  play_ai_turn cfg is_delete g entropy = Ok (g', entropy') ->
  let c_x := if negb (snd s0 =? fst (BIG_BOX_POSITION cfg)) then snd s0 + 52 else snd s0 in
  snapshot_of (fst t) g' = Some (c_x, fst s0) /\
  In (fst s0, c_x) (grid_cells cfg) /\
  forall k e, In (k, e) (image_database g) -> str_in "1-15" k = true ->
              img_pos e <> (c_x, fst s0).
Proof.
  intros Hkeys Hmelds Hes Hs0 H c_x.
  split; [| exact (start_place_free cfg g empty_space s0 Hes Hs0)].
  unfold ai_melds in Hmelds. unfold play_ai_turn in H.
  destruct (ai_groups (PLAYER_2 g)) as [[evens odds]|] eqn:Eg; [| discriminate].
  cbn [rbind fst snd] in H, Hmelds. apply Ok_inj in Hmelds.
  rewrite Hes in H. cbn [rbind] in H. rewrite Hs0 in H. cbn [of_option rbind] in H.
  fold c_x in H.
  pose proof (ai_groups_once _ _ _ Hkeys Eg) as Honce.
  apply NoDup_app_inv in Honce as (HndE & HndO & Hcross).
  pose proof (place_groups_spec evens c_x (fst s0) g [] true) as S1.
  pose proof (place_groups_first evens c_x (fst s0) g [] true t rest) as F1.
  pose proof (place_groups_none evens c_x (fst s0) g [] true) as N1.
  destruct (place_groups evens c_x (fst s0) g [] true) as [[[c1 g1] keys1] f1].
  destruct S1 as (-> & -> & _). cbn [fst snd] in F1.
  pose proof (place_groups_spec odds c1 (fst s0) g1
                ([] ++ concat (map (map fst) (List.filter playable (map snd evens)))) true)
    as S2.
  pose proof (place_groups_first odds c1 (fst s0) g1
                ([] ++ concat (map (map fst) (List.filter playable (map snd evens)))) true
                t rest) as F2.
  pose proof (place_groups_image odds c1 (fst s0) g1
                ([] ++ concat (map (map fst) (List.filter playable (map snd evens)))) true
                (fst t)) as I2.
  destruct (place_groups odds c1 (fst s0) g1 _ true) as [[[c2 g2] keys2] f2].
  destruct S2 as (-> & -> & _). cbn [fst snd] in F2, I2.
  assert (Hsnap : snapshot_of (fst t) g2 = Some (c_x, fst s0)).
  { destruct (List.filter playable (map snd evens)) as [|m ms] eqn:Ee.
    - specialize (N1 eq_refl). injection N1 as -> ->.
      cbn [app] in Hmelds. apply F2; [now rewrite Hmelds | exact HndO].
    - cbn [app] in Hmelds. injection Hmelds as -> _.
      unfold snapshot_of. rewrite I2; [now apply F1 |].
      intros c' l u Hl Hu Heq. apply (Hcross (fst t)).
      + assert (Hm : In (t :: rest) (List.filter playable (map snd evens)))
          by (rewrite Ee; now left).
        apply filter_In in Hm as [Hm _].
        apply in_concat. exists (map fst (t :: rest)). split; [now apply in_map | now left].
      + apply in_concat. exists (map fst l). split.
        * apply in_map. apply in_map_iff. now exists (c', l).
        * rewrite <- Heq. now apply in_map. }
  destruct (true && forallb (fun value => negb (playable value)) (map snd evens) &&
            (true && forallb (fun value => negb (playable value)) (map snd odds))) eqn:Ef.
  { exfalso. cbn [andb] in Ef. apply andb_prop in Ef as [E1 E2].
    rewrite (forallb_negb_filter _ _ E1), (forallb_negb_filter _ _ E2) in Hmelds.
    discriminate. }
  injection H as <- <-. destruct is_delete; exact Hsnap.
Qed.

(** The opponent of [g_spaced] puts YELLOW 2 at the first cell of the empty
    play area. *)
Lemma play_ai_turn_first_place_witness :
  match play_ai_turn example_config true g_spaced [] with
  | Ok (g', _) =>
      snapshot_of (tile 5 2) g' = Some (100, 50) /\
      In (50, 100) (grid_cells example_config) /\
      forall k e, In (k, e) (image_database g_spaced) -> str_in "1-15" k = true ->
                  img_pos e <> (100, 50)
  | Raise _ => False
  end.
Proof.
  destruct (play_ai_turn example_config true g_spaced []) as [[g' e']|] eqn:E;
    [| vm_compute in E; discriminate].
  destruct (calculate_empty_spaces example_config g_spaced) as [es|] eqn:Ees;
    [| vm_compute in Ees; discriminate].
  exact (play_ai_turn_first_place example_config true g_spaced g' [] e'
           (tile 5 2, mkAiCard "2" "5" 3)
           [(tile 5 8, mkAiCard "8" "5" 4); (tile 5 14, mkAiCard "14" "5" 5)] []
           es (50, 100)
           ltac:(vm_compute; repeat constructor; cbn; intuition discriminate)
           ltac:(vm_compute; reflexivity) Ees
           ltac:(vm_compute in Ees; injection Ees as <-; vm_compute; reflexivity) E).
Defined.
